(** * hep_ml: loss functions for gradient boosting and the boosting reweighter

    A shallow embedding of [hep_ml/losses.py] and
    [hep_ml/experiments/reweight.py].

    Number model.  A float64 array is a [list R]: arithmetic is the exact
    arithmetic of the reals, so rounding, [inf] and [nan] are outside the
    model.  Where numpy would produce a non-finite value (a zero
    denominator, the logarithm of a non-positive number, zero raised to a
    negative power) the model has the value of the corresponding function of
    the reals.  A statement that a result is the value of an expression holds
    there as it does in numpy, where both are the same float; a statement on
    the order or the sign of a result carries a hypothesis that keeps the
    computation away from such points.  Integer arrays (labels, leaf ids,
    group indices) are [list Z] or [list nat] and stay executable.

    Python exceptions are the [Raise] results of the [result] type.  A method
    that changes the array it is given returns the new contents of that array
    next to its value. *)

From Stdlib Require Import String Reals Lra Lia ZArith Bool Arith List Sorted
  Permutation.
Import ListNotations.
Local Open Scope R_scope.

(* ================================================================== *)
(** * Python results *)

Inductive exn : Type :=
| AssertionError
| IndexError
| ValueError
| TypeError
| KeyError
| AttributeError
| NotImplementedError.

Inductive result (A : Type) : Type :=
| Ok (a : A)
| Raise (e : exn).

Arguments Ok {A} a.
Arguments Raise {A} e.

Definition bind {A B : Type} (c : result A) (k : A -> result B) : result B :=
  match c with
  | Ok a => k a
  | Raise e => Raise e
  end.

Notation "x <- c ;; k" := (bind c (fun x => k))
  (at level 61, c at next level, right associativity).
Notation "' p <- c ;; k" := (bind c (fun x => let 'p := x in k))
  (at level 61, p pattern, c at next level, right associativity).

(** [assert cond] *)
Definition assert (cond : bool) : result unit :=
  if cond then Ok tt else Raise AssertionError.

(** A [for] loop whose body may raise. *)
Fixpoint foldM {A B : Type} (body : B -> A -> result B) (l : list A) (acc : B)
  : result B :=
  match l with
  | [] => Ok acc
  | a :: t => acc' <- body acc a ;; foldM body t acc'
  end.

(* ================================================================== *)
(** * numpy arrays *)

Module np.

Notation ndarray := (list R) (only parsing).

(** Element-wise binary operation with numpy's broadcasting of one-element
    arrays; any other disagreement of shapes is a [ValueError]. *)
Definition broadcast2 {A B C : Type} (f : A -> B -> C) (a : list A) (b : list B)
  : result (list C) :=
  if Nat.eqb (length a) (length b)
  then Ok (map (fun p => f (fst p) (snd p)) (combine a b))
  else match a, b with
       | [x], _ => Ok (map (f x) b)
       | _, [y] => Ok (map (fun x => f x y) a)
       | _, _ => Raise ValueError
       end.

(** The in-place forms [a += b], [a -= b], [a *= b]: the result has the
    shape of [a], so only a one-element [b] is broadcast. *)
Definition inplace2 {A B : Type} (f : A -> B -> A) (a : list A) (b : list B)
  : result (list A) :=
  if Nat.eqb (length a) (length b)
  then Ok (map (fun p => f (fst p) (snd p)) (combine a b))
  else match b with
       | [y] => Ok (map (fun x => f x y) a)
       | _ => Raise ValueError
       end.

Definition add := broadcast2 Rplus.
Definition sub := broadcast2 Rminus.
Definition mul := broadcast2 Rmult.
Definition div := broadcast2 Rdiv.

(** Integer array used in float arithmetic. *)
Definition astype_float (a : list Z) : ndarray := map IZR a.

Definition zeros (n : nat) : ndarray := repeat 0 n.
Definition ones (n : nat) : ndarray := repeat 1 n.

(** [numpy.sum] *)
Definition sum (a : ndarray) : R := fold_right Rplus 0 a.

(** [numpy.mean] *)
Definition mean (a : ndarray) : R := sum a / INR (length a).

(** [numpy.cumsum] *)
Fixpoint cumsum_from (acc : R) (a : ndarray) : ndarray :=
  match a with
  | [] => []
  | x :: t => (acc + x) :: cumsum_from (acc + x) t
  end.

Definition cumsum (a : ndarray) : ndarray := cumsum_from 0 a.

(** [a[idx]] for an integer index array (a copy); an index past the end is
    an [IndexError]. *)
Fixpoint take {A : Type} (a : list A) (idx : list nat) : result (list A) :=
  match idx with
  | [] => Ok []
  | i :: t =>
      match nth_error a i with
      | Some v => r <- take a t ;; Ok (v :: r)
      | None => Raise IndexError
      end
  end.

(** [a[i] = v] for one in-range position. *)
Fixpoint set_nth {A : Type} (i : nat) (v : A) (a : list A) : list A :=
  match a, i with
  | [], _ => []
  | _ :: t, O => v :: t
  | x :: t, S j => x :: set_nth j v t
  end.

(** [a[idx] = vals]: the assignments are made in order, so for a repeated
    index the last value stays. *)
Fixpoint put {A : Type} (a : list A) (idx : list nat) (vals : list A)
  : result (list A) :=
  match idx, vals with
  | [], _ => Ok a
  | i :: it, v :: vt =>
      if Nat.ltb i (length a) then put (set_nth i v a) it vt
      else Raise IndexError
  | _ :: _, [] => Raise ValueError
  end.

(** [a[mask]] for a boolean mask (a copy). *)
Fixpoint compress {A : Type} (mask : list bool) (a : list A) : list A :=
  match mask, a with
  | m :: mt, x :: t => if m then x :: compress mt t else compress mt t
  | _, _ => []
  end.

(** [numpy.where(mask)[0]] *)
Fixpoint where_from (i : nat) (mask : list bool) : list nat :=
  match mask with
  | [] => []
  | m :: t => if m then i :: where_from (S i) t else where_from (S i) t
  end.

Definition where_ (mask : list bool) : list nat := where_from 0 mask.

(** [acc[i] += v] for one in-range position. *)
Fixpoint add_at (i : nat) (v : R) (acc : ndarray) : ndarray :=
  match acc, i with
  | [], _ => []
  | x :: t, O => (x + v) :: t
  | x :: t, S j => x :: add_at j v t
  end.

(** Length of the result of [numpy.bincount(x, minlength=minlength)]. *)
Definition bincount_size (x : list nat) (minlength : nat) : nat :=
  match x with
  | [] => minlength
  | _ :: _ => Nat.max minlength (S (list_max x))
  end.

(** [numpy.bincount(x, weights=weights, minlength=minlength)]: the weights
    are accumulated in the order of the events. *)
Definition bincount (x : list nat) (weights : ndarray) (minlength : nat)
  : result ndarray :=
  if Nat.eqb (length x) (length weights)
  then Ok (fold_left (fun acc p => add_at (fst p) (snd p) acc)
             (combine x weights) (zeros (bincount_size x minlength)))
  else Raise ValueError.

(** [numpy.bincount(x)] without weights: occurrence counts. *)
Definition bincount_count (x : list nat) : list nat :=
  map (fun b => count_occ Nat.eq_dec x b) (seq 0 (bincount_size x 0)).

(** [numpy.clip(a, lo, hi)] *)
Definition clip1 (lo hi v : R) : R := Rmin (Rmax v lo) hi.
Definition clip (a : ndarray) (lo hi : R) : ndarray := map (clip1 lo hi) a.

(** [a.clip(lo)]: lower bound only. *)
Definition clip_min (a : ndarray) (lo : R) : ndarray := map (fun v => Rmax v lo) a.

(** [numpy.sign] of a float. *)
Definition sign1 (v : R) : R :=
  if Rlt_dec v 0 then -1 else if Rlt_dec 0 v then 1 else 0.

(** [numpy.unique(a)] and [numpy.unique(a, return_inverse=True)] on an
    integer array: the sorted distinct values, and for every element its
    position among them. *)
Fixpoint insert_unique (v : Z) (l : list Z) : list Z :=
  match l with
  | [] => [v]
  | h :: t =>
      if (v <? h)%Z then v :: l
      else if (v =? h)%Z then l
      else h :: insert_unique v t
  end.

Definition unique (a : list Z) : list Z := fold_right insert_unique [] a.

Fixpoint index_of (v : Z) (l : list Z) : nat :=
  match l with
  | [] => O
  | h :: t => if (v =? h)%Z then O else S (index_of v t)
  end.

Definition unique_inverse (a : list Z) : list Z * list nat :=
  (unique a, map (fun v => index_of v (unique a)) a).

(** [numpy.in1d(a, values)] *)
Definition in1d (a values : list Z) : list bool :=
  map (fun v => existsb (Z.eqb v) values) a.

(** [numpy.argsort]: indices that sort the array.  The events are inserted
    from the last to the first and an event goes in front of the later
    events of equal value, so ties keep the order of the events.  numpy's
    default sort may order equal values otherwise; no statement below depends
    on the order among them. *)
Fixpoint insert_by (a : ndarray) (i : nat) (sorted : list nat) : list nat :=
  match sorted with
  | [] => [i]
  | j :: t =>
      if Rle_dec (nth i a 0) (nth j a 0) then i :: sorted
      else j :: insert_by a i t
  end.

Definition argsort (a : ndarray) : list nat :=
  fold_right (insert_by a) [] (seq 0 (length a)).

(** [numpy.argsort] of an index array. *)
Fixpoint insert_by_nat (a : list nat) (i : nat) (sorted : list nat) : list nat :=
  match sorted with
  | [] => [i]
  | j :: t =>
      if Nat.leb (nth i a O) (nth j a O) then i :: sorted
      else j :: insert_by_nat a i t
  end.

Definition argsort_nat (a : list nat) : list nat :=
  fold_right (insert_by_nat a) [] (seq 0 (length a)).

(** Dense matrices, a list of rows; sparse matrices of scipy are modelled
    by their dense contents. *)
Notation matrix := (list (list R)) (only parsing).

Definition ncols (m : matrix) : nat :=
  match m with
  | [] => O
  | row :: _ => length row
  end.

Definition dot1 (u v : ndarray) : R :=
  sum (map (fun p => fst p * snd p) (combine u v)).

(** [m.dot(v)] *)
Definition dot (m : matrix) (v : ndarray) : ndarray := map (fun row => dot1 row v) m.

(** [m.T] for a matrix with [n] columns. *)
Definition transpose (n : nat) (m : matrix) : matrix :=
  map (fun j => map (fun row => nth j row 0) m) (seq 0 n).

(** [scipy.sparse.block_diag] *)
Fixpoint block_diag (blocks : list matrix) : matrix :=
  match blocks with
  | [] => []
  | b :: rest =>
      let r := block_diag rest in
      map (fun row => row ++ zeros (ncols r)) b
      ++ map (fun row => zeros (ncols b) ++ row) r
  end.

End np.

(* ================================================================== *)
(** * Data *)

(** The feature table [X].  The losses read its length and, for the ranking
    loss, one column of integer query ids. *)
Record DataFrame : Type := {
  df_len : nat;
  df_columns : list (string * list Z)
}.

(** [X[name]] *)
Fixpoint getitem_columns (cols : list (string * list Z)) (name : string)
  : result (list Z) :=
  match cols with
  | [] => Raise KeyError
  | (k, v) :: t => if String.eqb k name then Ok v else getitem_columns t name
  end.

Definition getitem (X : DataFrame) (name : string) : result (list Z) :=
  getitem_columns (df_columns X) name.

(** [scipy.special.expit] *)
Definition expit (x : R) : R := 1 / (1 + exp (- x)).

(** [2 * y - 1] *)
Definition signed_labels (y : list Z) : list Z := map (fun v => 2 * v - 1)%Z y.

(* ================================================================== *)
(** * HessianLossFunction *)

Module HessianLossFunction.

(** The methods a subclass provides.  A method gets the contents of the
    caller's [y_pred] array and returns its value together with the contents
    of that array after the call; [regularization_] is the attribute set by
    [fit], an [AttributeError] when it never was. *)
Class Methods (Self : Type) : Type := {
  negative_gradient : Self -> np.ndarray -> result (np.ndarray * np.ndarray);
  hessian : Self -> np.ndarray -> result (np.ndarray * np.ndarray);
  regularization_ : Self -> result R
}.

(** [fit]: the value stored in [self.regularization_]. *)
Definition fit (regularization : R) (sample_weight : np.ndarray) : R :=
  regularization * np.mean sample_weight.

Section Inherited.
Context {Self : Type} `{Methods Self}.

Definition prepare_tree_params (self : Self) (y_pred : np.ndarray)
  : result ((np.ndarray * np.ndarray) * np.ndarray) :=
  '(grad, y_pred) <- negative_gradient self y_pred ;;
  '(h, y_pred) <- hessian self y_pred ;;
  let hess := map (fun v => v + 0.01) h in
  target <- np.div grad hess ;;
  Ok ((target, hess), y_pred).

(** Of the arguments of the Python method, [X], [y], [sample_weight] and
    [update_mask] are not read. *)
Definition prepare_new_leaves_values (self : Self) (terminal_regions : list nat)
  (leaf_values : np.ndarray) (y_pred residual : np.ndarray)
  : result (np.ndarray * np.ndarray) :=
  let minlength := length leaf_values in
  nominators <- np.bincount terminal_regions residual minlength ;;
  '(h, y_pred) <- hessian self y_pred ;;
  denominators <- np.bincount terminal_regions h minlength ;;
  reg <- regularization_ self ;;
  leaves <- np.div nominators (map (fun d => d + reg) denominators) ;;
  Ok (leaves, y_pred).

End Inherited.

End HessianLossFunction.

(** A method that leaves the caller's array as it is. *)
Definition pure_method {Self : Type} (f : Self -> np.ndarray -> result np.ndarray)
  (self : Self) (y_pred : np.ndarray) : result (np.ndarray * np.ndarray) :=
  v <- f self y_pred ;; Ok (v, y_pred).

(* ------------------------------------------------------------------ *)
Module AdaLossFunction.

Record t : Type := {
  regularization : R;
  y : list Z;
  sample_weight : np.ndarray;
  y_signed : list Z;
  regularization_ : R
}.

Definition fit (regularization : R) (X : DataFrame) (y : list Z)
  (sample_weight : np.ndarray) : result t :=
  Ok {| regularization := regularization;
        y := y;
        sample_weight := sample_weight;
        y_signed := signed_labels y;
        regularization_ := HessianLossFunction.fit regularization sample_weight |}.

Definition __call__ (self : t) (y_pred : np.ndarray) : result R :=
  m <- np.mul (np.astype_float (map Z.opp (y_signed self))) y_pred ;;
  l <- np.mul (sample_weight self) (map exp m) ;;
  Ok (np.sum l).

Definition negative_gradient (self : t) (y_pred : np.ndarray) : result np.ndarray :=
  sw <- np.mul (np.astype_float (y_signed self)) (sample_weight self) ;;
  m <- np.mul (np.astype_float (map Z.opp (y_signed self))) y_pred ;;
  np.mul sw (map exp m).

Definition hessian (self : t) (y_pred : np.ndarray) : result np.ndarray :=
  m <- np.mul (np.astype_float (map Z.opp (y_signed self))) y_pred ;;
  np.mul (sample_weight self) (map exp m).

#[global] Instance methods : HessianLossFunction.Methods t := {|
  HessianLossFunction.negative_gradient := pure_method negative_gradient;
  HessianLossFunction.hessian := pure_method hessian;
  HessianLossFunction.regularization_ := fun self => Ok (regularization_ self)
|}.

End AdaLossFunction.

(* ------------------------------------------------------------------ *)
Module MSELossFunction.

(** [fit] stores the targets and the weights only: it does not call
    [HessianLossFunction.fit], so [regularization_] is never set. *)
Record t : Type := {
  regularization : R;
  y : np.ndarray;
  sample_weight : np.ndarray
}.

Definition fit (regularization : R) (X : DataFrame) (y : np.ndarray)
  (sample_weight : np.ndarray) : result t :=
  Ok {| regularization := regularization;
        y := y;
        sample_weight := sample_weight |}.

Definition __call__ (self : t) (y_pred : np.ndarray) : result R :=
  d <- np.sub (y self) y_pred ;;
  l <- np.mul (sample_weight self) (map (fun v => v ^ 2) d) ;;
  Ok (0.5 * np.sum l).

Definition negative_gradient (self : t) (y_pred : np.ndarray) : result np.ndarray :=
  d <- np.sub (y self) y_pred ;;
  np.mul (sample_weight self) d.

Definition hessian (self : t) (y_pred : np.ndarray) : result np.ndarray :=
  Ok (sample_weight self).

#[global] Instance methods : HessianLossFunction.Methods t := {|
  HessianLossFunction.negative_gradient := pure_method negative_gradient;
  HessianLossFunction.hessian := pure_method hessian;
  HessianLossFunction.regularization_ := fun _ => Raise AttributeError
|}.

End MSELossFunction.

(* ------------------------------------------------------------------ *)
Module LogLossFunction.

Record t : Type := {
  regularization : R;
  y : list Z;
  sample_weight : np.ndarray;
  y_signed : list Z;
  adjusted_regularization : R;
  regularization_ : R
}.

Definition fit (regularization : R) (X : DataFrame) (y : list Z)
  (sample_weight : np.ndarray) : result t :=
  Ok {| regularization := regularization;
        y := y;
        sample_weight := sample_weight;
        y_signed := signed_labels y;
        adjusted_regularization := np.mean sample_weight * regularization;
        regularization_ := HessianLossFunction.fit regularization sample_weight |}.

(** [numpy.logaddexp(0, x)] *)
Definition logaddexp0 (x : R) : R := ln (1 + exp x).

Definition __call__ (self : t) (y_pred : np.ndarray) : result R :=
  m <- np.mul (np.astype_float (map Z.opp (y_signed self))) y_pred ;;
  l <- np.mul (sample_weight self) (map logaddexp0 m) ;;
  Ok (np.sum l).

Definition negative_gradient (self : t) (y_pred : np.ndarray) : result np.ndarray :=
  sw <- np.mul (np.astype_float (y_signed self)) (sample_weight self) ;;
  m <- np.mul (np.astype_float (map Z.opp (y_signed self))) y_pred ;;
  np.mul sw (map expit m).

Definition hessian (self : t) (y_pred : np.ndarray) : result np.ndarray :=
  m <- np.mul (np.astype_float (y_signed self)) y_pred ;;
  let expits := map expit m in
  we <- np.mul (sample_weight self) expits ;;
  np.mul we (map (fun e => 1 - e) expits).

#[global] Instance methods : HessianLossFunction.Methods t := {|
  HessianLossFunction.negative_gradient := pure_method negative_gradient;
  HessianLossFunction.hessian := pure_method hessian;
  HessianLossFunction.regularization_ := fun self => Ok (regularization_ self)
|}.

End LogLossFunction.

(* ------------------------------------------------------------------ *)
Module CompositeLossFunction.

Record t : Type := {
  regularization : R;
  y : list Z;
  sample_weight : np.ndarray;
  y_signed : list Z;
  sig_w : np.ndarray;
  bck_w : np.ndarray;
  regularization_ : R
}.

(** [(y == label) * sample_weight] *)
Definition class_weight (label : Z) (y : list Z) (sample_weight : np.ndarray)
  : result np.ndarray :=
  np.mul (map (fun v => if (v =? label)%Z then 1 else 0) y) sample_weight.

Definition fit (regularization : R) (X : DataFrame) (y : list Z)
  (sample_weight : np.ndarray) : result t :=
  sig <- class_weight 1 y sample_weight ;;
  bck <- class_weight 0 y sample_weight ;;
  Ok {| regularization := regularization;
        y := y;
        sample_weight := sample_weight;
        y_signed := signed_labels y;
        sig_w := sig;
        bck_w := bck;
        regularization_ := HessianLossFunction.fit regularization sample_weight |}.

Definition __call__ (self : t) (y_pred : np.ndarray) : result R :=
  s <- np.mul (sig_w self) (map (fun p => LogLossFunction.logaddexp0 (- p)) y_pred) ;;
  b <- np.mul (bck_w self) (map (fun p => exp (0.5 * p)) y_pred) ;;
  Ok (np.sum s + np.sum b).

Definition negative_gradient (self : t) (y_pred : np.ndarray) : result np.ndarray :=
  res <- np.mul (sig_w self) (map (fun p => expit (- p)) y_pred) ;;
  b <- np.mul (map (Rmult 0.5) (bck_w self)) (map (fun p => exp (0.5 * p)) y_pred) ;;
  np.inplace2 Rminus res b.

Definition hessian (self : t) (y_pred : np.ndarray) : result np.ndarray :=
  let expits := map (fun p => expit (- p)) y_pred in
  se <- np.mul (sig_w self) expits ;;
  s <- np.mul se (map (fun e => 1 - e) expits) ;;
  b <- np.mul (map (fun w => w * 0.25) (bck_w self)) (map (fun p => exp (0.5 * p)) y_pred) ;;
  np.add s b.

#[global] Instance methods : HessianLossFunction.Methods t := {|
  HessianLossFunction.negative_gradient := pure_method negative_gradient;
  HessianLossFunction.hessian := pure_method hessian;
  HessianLossFunction.regularization_ := fun self => Ok (regularization_ self)
|}.

End CompositeLossFunction.

(* ------------------------------------------------------------------ *)
Module RankBoostLossFunction.

(** The attribute that holds the constructor's [update_iterations] is
    spelled [update_terations] in the source.  The constructor fixes
    [regularization] to [0.1]. *)
Record t : Type := {
  update_terations : nat;
  messup_penalty : string;
  request_column : string;
  regularization : R;
  queries : list Z;
  y : list Z;
  possible_queries : list Z;
  possible_ranks : list Z;
  lookups : list (list nat);
  minlengths : list nat;
  rank_penalties : list (list Z);
  penalty_matrices : list np.matrix;
  regularization_ : R
}.

(** numpy's rule for one index into an axis of length [k]: [-k <= i < k],
    a negative index counts from the end. *)
Definition normalize_index (k : nat) (i : Z) : result nat :=
  if ((0 <=? i) && (i <? Z.of_nat k))%Z then Ok (Z.to_nat i)
  else if ((- Z.of_nat k <=? i) && (i <? 0))%Z then Ok (Z.to_nat (i + Z.of_nat k))
  else Raise IndexError.

(** [m[r1, r2] = v] on a [k] x [k] array. *)
Definition setitem2 (k : nat) (m : list (list Z)) (r1 r2 v : Z)
  : result (list (list Z)) :=
  i <- normalize_index k r1 ;;
  j <- normalize_index k r2 ;;
  Ok (np.set_nth i (np.set_nth j v (nth i m [])) m).

Definition penalty (messup_penalty : string) (r1 r2 : Z) : result Z :=
  if String.eqb messup_penalty "square" then Ok ((r2 - r1) ^ 2)%Z
  else if String.eqb messup_penalty "linear" then Ok (r2 - r1)%Z
  else Raise NotImplementedError.

(** The two nested loops of [fit] over [possible_ranks].  The entries are
    integers stored in a float array. *)
Definition fill_rank_penalties (messup_penalty : string) (possible_ranks : list Z)
  : result (list (list Z)) :=
  let k := length possible_ranks in
  foldM (fun m r1 =>
    foldM (fun m r2 =>
      if (r1 <? r2)%Z
      then v <- penalty messup_penalty r1 r2 ;; setitem2 k m r1 r2 v
      else Ok m) possible_ranks m)
    possible_ranks (repeat (repeat 0%Z k) k).

Definition fit (update_iterations : nat) (messup_penalty request_column : string)
  (X : DataFrame) (y : list Z) (sample_weight : np.ndarray) : result t :=
  queries <- getitem X request_column ;;
  let '(possible_queries, normed_queries) := np.unique_inverse queries in
  let '(possible_ranks, normed_ranks) := np.unique_inverse y in
  let k := length possible_ranks in
  by_query <- np.broadcast2 (fun q r => (q * k + r)%nat) normed_queries normed_ranks ;;
  rank_penalties <- fill_rank_penalties messup_penalty possible_ranks ;;
  let by_rank_matrix :=
    map (map (fun p => IZR p / sqrt (1 + INR (length y)))) rank_penalties in
  let n_queries := np.bincount_count normed_queries in
  _ <- assert (Nat.eqb (length n_queries) (length possible_queries)) ;;
  let by_query_matrix :=
    np.block_diag
      (map (fun nq => map (map (fun p => IZR p * 1 / sqrt (1 + INR nq))) rank_penalties)
         n_queries) in
  Ok {| update_terations := update_iterations;
        messup_penalty := messup_penalty;
        request_column := request_column;
        regularization := 0.1;
        queries := queries;
        y := y;
        possible_queries := possible_queries;
        possible_ranks := possible_ranks;
        lookups := [normed_ranks; by_query];
        minlengths := [k; (k * length possible_queries)%nat];
        rank_penalties := rank_penalties;
        penalty_matrices := [by_rank_matrix; by_query_matrix];
        regularization_ := HessianLossFunction.fit 0.1 sample_weight |}.

(** [y_pred -= y_pred.mean()]: the new contents of the caller's array. *)
Definition center (y_pred : np.ndarray) : np.ndarray :=
  map (fun v => v - np.mean y_pred) y_pred.

(** [zip(self.lookups, self.minlengths, self.penalty_matrices)] *)
Definition channels (self : t) : list (list nat * nat * np.matrix) :=
  combine (combine (lookups self) (minlengths self)) (penalty_matrices self).

Definition __call__ (self : t) (y_pred : np.ndarray) : result (R * np.ndarray) :=
  let y_pred := center y_pred in
  let pos_exponent := map exp y_pred in
  let neg_exponent := map (fun v => exp (- v)) y_pred in
  res <- foldM (fun res '(lookup, length, penalty_matrix) =>
      pos_stats <- np.bincount lookup pos_exponent length ;;
      neg_stats <- np.bincount lookup neg_exponent length ;;
      Ok (res + np.dot1 pos_stats (np.dot penalty_matrix neg_stats)))
    (channels self) 0 ;;
  Ok (res, y_pred).

Definition negative_gradient (self : t) (y_pred : np.ndarray)
  : result (np.ndarray * np.ndarray) :=
  let y_pred := center y_pred in
  let pos_exponent := map exp y_pred in
  let neg_exponent := map (fun v => exp (- v)) y_pred in
  gradient <- foldM (fun gradient '(lookup, length, penalty_matrix) =>
      pos_stats <- np.bincount lookup pos_exponent length ;;
      neg_stats <- np.bincount lookup neg_exponent length ;;
      a <- np.take (np.dot penalty_matrix neg_stats) lookup ;;
      pa <- np.mul pos_exponent a ;;
      gradient <- np.inplace2 Rplus gradient pa ;;
      b <- np.take (np.dot (np.transpose (np.ncols penalty_matrix) penalty_matrix)
                      pos_stats) lookup ;;
      nb <- np.mul neg_exponent b ;;
      np.inplace2 Rminus gradient nb)
    (channels self) (np.zeros (length y_pred)) ;;
  Ok (map Ropp gradient, y_pred).

Definition hessian (self : t) (y_pred : np.ndarray)
  : result (np.ndarray * np.ndarray) :=
  let y_pred := center y_pred in
  let pos_exponent := map exp y_pred in
  let neg_exponent := map (fun v => exp (- v)) y_pred in
  res <- foldM (fun res '(lookup, length, penalty_matrix) =>
      pos_stats <- np.bincount lookup pos_exponent length ;;
      neg_stats <- np.bincount lookup neg_exponent length ;;
      a <- np.take (np.dot penalty_matrix neg_stats) lookup ;;
      pa <- np.mul pos_exponent a ;;
      res <- np.inplace2 Rplus res pa ;;
      b <- np.take (np.dot (np.transpose (np.ncols penalty_matrix) penalty_matrix)
                      pos_stats) lookup ;;
      nb <- np.mul neg_exponent b ;;
      np.inplace2 Rplus res nb)
    (channels self) (np.zeros (length y_pred)) ;;
  Ok (res, y_pred).

(** The closed-form step.  It does not centre [y_pred], and it adds the
    constructor's [regularization], not [regularization_]. *)
Definition _prepare_new_leaves_values (self : t) (terminal_regions : list nat)
  (y_pred : np.ndarray) : result np.ndarray :=
  let pos_exponent := map exp y_pred in
  let neg_exponent := map (fun v => exp (- v)) y_pred in
  '(w_plus, w_minus) <- foldM (fun '(w_plus, w_minus) '(lookup, length, penalty_matrix) =>
      pos_stats <- np.bincount lookup pos_exponent length ;;
      neg_stats <- np.bincount lookup neg_exponent length ;;
      a <- np.take (np.dot penalty_matrix neg_stats) lookup ;;
      w_plus <- np.inplace2 Rplus w_plus a ;;
      b <- np.take (np.dot (np.transpose (np.ncols penalty_matrix) penalty_matrix)
                      pos_stats) lookup ;;
      w_minus <- np.inplace2 Rplus w_minus b ;;
      Ok (w_plus, w_minus))
    (channels self) (np.zeros (length y_pred), np.zeros (length y_pred)) ;;
  wp <- np.mul w_plus pos_exponent ;;
  bp <- np.bincount terminal_regions wp 0 ;;
  let w_plus_leaf := map (fun v => v + regularization self) bp in
  wm <- np.mul w_minus neg_exponent ;;
  bm <- np.bincount terminal_regions wm 0 ;;
  let w_minus_leaf := map (fun v => v + regularization self) bm in
  ratio <- np.div w_minus_leaf w_plus_leaf ;;
  Ok (map (fun q => 0.5 * ln q) ratio).

(** One pass of the loop of [prepare_new_leaves_values]: the closed-form
    result of the step and the next running estimate. *)
Definition update_step (self : t) (terminal_regions : list nat)
  (y_pred leaves_values : np.ndarray) : result (np.ndarray * np.ndarray) :=
  shift <- np.take leaves_values terminal_regions ;;
  y_test <- np.add y_pred shift ;;
  new_leaves_values <- _prepare_new_leaves_values self terminal_regions y_test ;;
  next <- np.add (map (Rmult 0.5) new_leaves_values) leaves_values ;;
  Ok (new_leaves_values, next).

Fixpoint update_loop (self : t) (terminal_regions : list nat) (y_pred : np.ndarray)
  (n : nat) (leaves_values : np.ndarray) : result np.ndarray :=
  match n with
  | O => Ok leaves_values
  | S m =>
      '(_, next) <- update_step self terminal_regions y_pred leaves_values ;;
      update_loop self terminal_regions y_pred m next
  end.

Definition prepare_new_leaves_values (self : t) (terminal_regions : list nat)
  (leaf_values : np.ndarray) (y_pred residual : np.ndarray)
  : result (np.ndarray * np.ndarray) :=
  leaves <- update_loop self terminal_regions y_pred (update_terations self)
              (np.zeros (length leaf_values)) ;;
  Ok (leaves, y_pred).

(** The passes of the loop as they happen: for each one the estimate before
    it, the closed-form result of the step, and the estimate after it. *)
Fixpoint update_trace (self : t) (terminal_regions : list nat) (y_pred : np.ndarray)
  (n : nat) (leaves_values : np.ndarray)
  : result (list (np.ndarray * np.ndarray * np.ndarray)) :=
  match n with
  | O => Ok []
  | S m =>
      '(new_leaves_values, next) <-
        update_step self terminal_regions y_pred leaves_values ;;
      rest <- update_trace self terminal_regions y_pred m next ;;
      Ok ((leaves_values, new_leaves_values, next) :: rest)
  end.

#[global] Instance methods : HessianLossFunction.Methods t := {|
  HessianLossFunction.negative_gradient := negative_gradient;
  HessianLossFunction.hessian := hessian;
  HessianLossFunction.regularization_ := fun self => Ok (regularization_ self)
|}.

End RankBoostLossFunction.

(* ------------------------------------------------------------------ *)
Module AbstractMatrixLossFunction.

(** [A_shape] is the shape of the matrix returned by
    [compute_parameters]. *)
Record t : Type := {
  regularization : R;
  A : np.matrix;
  A_shape : nat * nat;
  A_t : np.matrix;
  A_t_sq : np.matrix;
  w : np.ndarray;
  y_signed : list Z;
  regularization_ : R
}.

(** [sparse.csr_matrix(A)]: the rows of a matrix have one length. *)
Definition csr_matrix (m : np.matrix) : result np.matrix :=
  if forallb (fun row => Nat.eqb (length row) (np.ncols m)) m
  then Ok m else Raise ValueError.

(** [compute_parameters] is the method a subclass overrides: it returns the
    matrix [A] and the vector [w]. *)
Definition fit
  (compute_parameters : DataFrame -> list Z -> np.ndarray -> result (np.matrix * np.ndarray))
  (regularization : R) (X : DataFrame) (y : list Z) (sample_weight : np.ndarray)
  : result t :=
  _ <- assert (Nat.eqb (df_len X) (length y)) ;;
  '(A0, w0) <- compute_parameters X y sample_weight ;;
  A1 <- csr_matrix A0 ;;
  let A_t := np.transpose (np.ncols A1) A1 in
  _ <- assert (Nat.eqb (length A0) (length w0)) ;;
  _ <- assert (Nat.eqb (np.ncols A0) (df_len X)) ;;
  Ok {| regularization := regularization;
        A := A1;
        A_shape := (length A0, np.ncols A0);
        A_t := A_t;
        A_t_sq := map (map (fun v => v * v)) A_t;
        w := w0;
        y_signed := signed_labels y;
        regularization_ := HessianLossFunction.fit regularization sample_weight |}.

(** [numpy.exp(- self.A.dot(self.y_signed * y_pred))] *)
Definition exponents (self : t) (y_pred : np.ndarray) : result np.ndarray :=
  sp <- np.mul (np.astype_float (y_signed self)) y_pred ;;
  Ok (map (fun v => exp (- v)) (np.dot (A self) sp)).

Definition __call__ (self : t) (y_pred : np.ndarray) : result R :=
  _ <- assert (Nat.eqb (length y_pred) (snd (A_shape self))) ;;
  e <- exponents self y_pred ;;
  we <- np.mul (w self) e ;;
  Ok (np.sum we).

Definition negative_gradient (self : t) (y_pred : np.ndarray) : result np.ndarray :=
  _ <- assert (Nat.eqb (length y_pred) (snd (A_shape self))) ;;
  e <- exponents self y_pred ;;
  we <- np.mul (w self) e ;;
  np.mul (np.dot (A_t self) we) (np.astype_float (y_signed self)).

Definition hessian (self : t) (y_pred : np.ndarray) : result np.ndarray :=
  _ <- assert (Nat.eqb (length y_pred) (snd (A_shape self))) ;;
  e <- exponents self y_pred ;;
  we <- np.mul (w self) e ;;
  Ok (np.dot (A_t_sq self) we).

(** [sparse.csc_matrix((self.y_signed, [numpy.arange(len(y)), terminal_regions]))]:
    one entry per event, in the row of the event and the column of its
    leaf. *)
Definition regions_matrix (y_signed : list Z) (n : nat) (terminal_regions : list nat)
  : result np.matrix :=
  if Nat.eqb (length y_signed) n && Nat.eqb n (length terminal_regions)
  then match terminal_regions with
       | [] => Raise ValueError
       | _ :: _ =>
           Ok (map (fun p => map (fun l => if Nat.eqb (snd p) l then IZR (fst p) else 0)
                              (seq 0 (S (list_max terminal_regions))))
                 (combine y_signed terminal_regions))
       end
  else Raise ValueError.

(** [a.dot(b)] for two matrices, [b] with [n] columns. *)
Definition matmul (a b : np.matrix) (n : nat) : np.matrix :=
  map (fun row => map (fun j => np.dot1 row (map (fun r => nth j r 0) b)) (seq 0 n)) a.

(** The leaf update of the matrix losses; of the Python arguments it reads
    [terminal_regions], the length of [y], and [y_pred]. *)
Definition prepare_new_leaves_values (self : t) (terminal_regions : list nat)
  (y : list Z) (y_pred : np.ndarray) : result np.ndarray :=
  e <- exponents self y_pred ;;
  regions <- regions_matrix (y_signed self) (length y) terminal_regions ;;
  _ <- (if Nat.eqb (np.ncols (A self)) (length regions) then Ok tt else Raise ValueError) ;;
  let Z := matmul (A self) regions (np.ncols regions) in
  let Z := np.transpose (np.ncols regions) Z in
  we <- np.mul (w self) e ;;
  let nominator := np.dot Z we in
  let denominator := np.dot (map (map (fun v => v * v)) Z) we in
  np.div nominator (map (fun d => d + 1e-5) denominator).

#[global] Instance methods : HessianLossFunction.Methods t := {|
  HessianLossFunction.negative_gradient := pure_method negative_gradient;
  HessianLossFunction.hessian := pure_method hessian;
  HessianLossFunction.regularization_ := fun self => Ok (regularization_ self)
|}.

End AbstractMatrixLossFunction.

(* ------------------------------------------------------------------ *)
(** * The losses derived from HessianLossFunction *)

(** Constructor arguments, one case per class. *)
Inductive HessianLossParams : Type :=
| AdaParams (regularization : R)
| MSEParams (regularization : R)
| LogParams (regularization : R)
| CompositeParams (regularization : R)
| RankBoostParams (request_column messup_penalty : string) (update_iterations : nat)
| MatrixParams
    (compute_parameters : DataFrame -> list Z -> np.ndarray -> result (np.matrix * np.ndarray))
    (regularization : R).

(** A fitted loss. *)
Inductive HessianLoss : Type :=
| Ada (self : AdaLossFunction.t)
| MSE (self : MSELossFunction.t)
| LogLoss (self : LogLossFunction.t)
| Composite (self : CompositeLossFunction.t)
| RankBoost (self : RankBoostLossFunction.t)
| MatrixLoss (self : AbstractMatrixLossFunction.t).

Definition fit (p : HessianLossParams) (X : DataFrame) (y : list Z)
  (sample_weight : np.ndarray) : result HessianLoss :=
  match p with
  | AdaParams reg => s <- AdaLossFunction.fit reg X y sample_weight ;; Ok (Ada s)
  | MSEParams reg =>
      s <- MSELossFunction.fit reg X (np.astype_float y) sample_weight ;; Ok (MSE s)
  | LogParams reg => s <- LogLossFunction.fit reg X y sample_weight ;; Ok (LogLoss s)
  | CompositeParams reg =>
      s <- CompositeLossFunction.fit reg X y sample_weight ;; Ok (Composite s)
  | RankBoostParams col pen n =>
      s <- RankBoostLossFunction.fit n pen col X y sample_weight ;; Ok (RankBoost s)
  | MatrixParams cp reg =>
      s <- AbstractMatrixLossFunction.fit cp reg X y sample_weight ;; Ok (MatrixLoss s)
  end.

(** Method resolution. *)
Definition negative_gradient (l : HessianLoss) (y_pred : np.ndarray)
  : result (np.ndarray * np.ndarray) :=
  match l with
  | Ada s => HessianLossFunction.negative_gradient s y_pred
  | MSE s => HessianLossFunction.negative_gradient s y_pred
  | LogLoss s => HessianLossFunction.negative_gradient s y_pred
  | Composite s => HessianLossFunction.negative_gradient s y_pred
  | RankBoost s => HessianLossFunction.negative_gradient s y_pred
  | MatrixLoss s => HessianLossFunction.negative_gradient s y_pred
  end.

Definition hessian (l : HessianLoss) (y_pred : np.ndarray)
  : result (np.ndarray * np.ndarray) :=
  match l with
  | Ada s => HessianLossFunction.hessian s y_pred
  | MSE s => HessianLossFunction.hessian s y_pred
  | LogLoss s => HessianLossFunction.hessian s y_pred
  | Composite s => HessianLossFunction.hessian s y_pred
  | RankBoost s => HessianLossFunction.hessian s y_pred
  | MatrixLoss s => HessianLossFunction.hessian s y_pred
  end.

(** No class overrides [prepare_tree_params]. *)
Definition prepare_tree_params (l : HessianLoss) (y_pred : np.ndarray)
  : result ((np.ndarray * np.ndarray) * np.ndarray) :=
  match l with
  | Ada s => HessianLossFunction.prepare_tree_params s y_pred
  | MSE s => HessianLossFunction.prepare_tree_params s y_pred
  | LogLoss s => HessianLossFunction.prepare_tree_params s y_pred
  | Composite s => HessianLossFunction.prepare_tree_params s y_pred
  | RankBoost s => HessianLossFunction.prepare_tree_params s y_pred
  | MatrixLoss s => HessianLossFunction.prepare_tree_params s y_pred
  end.

(** The ranking loss and the matrix losses override
    [prepare_new_leaves_values]; the others inherit it. *)
Definition prepare_new_leaves_values (l : HessianLoss) (terminal_regions : list nat)
  (leaf_values : np.ndarray) (y : list Z) (y_pred residual : np.ndarray)
  : result (np.ndarray * np.ndarray) :=
  match l with
  | Ada s =>
      HessianLossFunction.prepare_new_leaves_values s terminal_regions leaf_values
        y_pred residual
  | MSE s =>
      HessianLossFunction.prepare_new_leaves_values s terminal_regions leaf_values
        y_pred residual
  | LogLoss s =>
      HessianLossFunction.prepare_new_leaves_values s terminal_regions leaf_values
        y_pred residual
  | Composite s =>
      HessianLossFunction.prepare_new_leaves_values s terminal_regions leaf_values
        y_pred residual
  | RankBoost s =>
      RankBoostLossFunction.prepare_new_leaves_values s terminal_regions leaf_values
        y_pred residual
  | MatrixLoss s =>
      leaves <- AbstractMatrixLossFunction.prepare_new_leaves_values s terminal_regions
                  y y_pred ;;
      Ok (leaves, y_pred)
  end.

(* ================================================================== *)
(** * commonutils *)

(** Modelled from the spec: [commonutils.check_sample_weight] is not among
    the sources.  The spec has "weights default to uniform", "weights are
    validated non-negative (except the signed reweight loss) and
    renormalized to mean 1".  [n] is the length of the first argument of the
    Python function. *)
Definition check_sample_weight (n : nat) (sample_weight : option np.ndarray)
  (normalize : bool) : result np.ndarray :=
  match sample_weight with
  | None => Ok (np.ones n)
  | Some w =>
      _ <- assert (Nat.eqb n (length w)) ;;
      _ <- assert (forallb (fun v => if Rle_dec 0 v then true else false) w) ;;
      Ok (if normalize then map (fun v => v / np.mean w) w else w)
  end.

(** Modelled from the spec: [check_sample_weight] with
    [normalize_by_class=True], the call of the reweight loss, is not among
    the sources.  The spec has signed weights permitted here and
    "renormalizes so the two classes' weight sums match": the weights of each
    class are divided by the weight sum of the class, then all by the mean. *)
Definition check_sample_weight_by_class (y : list Z) (sample_weight : np.ndarray)
  : result np.ndarray :=
  _ <- assert (Nat.eqb (length y) (length sample_weight)) ;;
  let class_sum (c : Z) :=
    np.sum (np.compress (map (Z.eqb c) y) sample_weight) in
  let by_class :=
    map (fun p => snd p / class_sum (fst p)) (combine y sample_weight) in
  Ok (map (fun v => v / np.mean by_class) by_class).

(* ================================================================== *)
(** * Flatness losses *)

Definition _compute_positions (y_pred sample_weight : np.ndarray)
  : result np.ndarray :=
  let order := np.argsort y_pred in
  ordered_weights <- np.take sample_weight order ;;
  let total := np.sum ordered_weights in
  let ordered_weights := map (fun v => v / total) ordered_weights in
  let efficiencies :=
    map (fun p => fst p - 0.5 * snd p)
      (combine (np.cumsum ordered_weights) ordered_weights) in
  np.take efficiencies (np.argsort_nat order).

Definition exp_margin (margin : R) : R := exp (np.clip1 (-1e5) 2 margin).

(** [x ** p] for a base [x >= 0].  Zero to a negative power is [inf] in
    numpy; the model gives it the value [0] and no statement relies on it. *)
Definition float_power (x p : R) : R :=
  if Req_dec_T p 0 then 1
  else if Req_dec_T x 0 then 0
  else Rpower x p.

(** [warnings.warn("%i events out of all bins " % n, UserWarning)] *)
Inductive warning : Type :=
| EventsOutOfAllBins (n : nat).

Module AbstractFlatnessLossFunction.

(** Constructor arguments; a number given as [uniform_label] is the
    one-element list. *)
Record Params : Type := {
  uniform_label : list Z;
  power : R;
  ada_coefficient : R;
  allow_wrong_signs : bool;
  use_median : bool;
  keep_debug_info : bool
}.

(** The fitted loss.  [group_indices] holds the groups of every label of
    [uniform_label], in the order of [uniform_label].  The caches
    [group_matrices] and [group_weights], built by helpers of
    [metrics_utils], are read by no method and left out, and so is
    [debug_dict], which only records copies. *)
Record t : Type := {
  params : Params;
  group_indices : list (Z * list (list nat));
  y : list Z;
  y_signed : list Z;
  sample_weight : np.ndarray;
  divided_weight : np.ndarray
}.

(** [occurences[group] += 1] *)
Definition count_group (occurences : list nat) (group : list nat)
  : result (list nat) :=
  cur <- np.take occurences group ;;
  np.put occurences group (map S cur).

Definition count_groups (occurences : list nat) (groups : list (list nat))
  : result (list nat) :=
  foldM count_group groups occurences.

(** The loop of [fit] over the labels: the groups of each label and the
    occurrence counts. *)
Definition collect_groups
  (compute_groups_indices : DataFrame -> list Z -> Z -> result (list (list nat)))
  (X : DataFrame) (y : list Z) (labels : list Z)
  : result (list (Z * list (list nat)) * list nat) :=
  foldM (fun '(found, occurences) label =>
      groups <- compute_groups_indices X y label ;;
      occurences <- count_groups occurences groups ;;
      Ok (found ++ [(label, groups)], occurences))
    labels ([], repeat O (df_len X)).

(** [(occurences == 0) & numpy.in1d(y, self.uniform_label)] *)
Definition out_of_bins (occurences : list nat) (y labels : list Z) : list bool :=
  map (fun p => Nat.eqb (fst p) O && snd p) (combine occurences (np.in1d y labels)).

(** [numpy.sum] and [numpy.mean] of a boolean array. *)
Definition count_true (m : list bool) : nat := length (filter (fun b => b) m).
Definition mean_bool (m : list bool) : R := INR (count_true m) / INR (length m).

(** [compute_groups_indices] is the method a subclass overrides. *)
Definition fit
  (compute_groups_indices : DataFrame -> list Z -> Z -> result (list (list nat)))
  (p : Params) (X : DataFrame) (y : list Z) (sample_weight : option np.ndarray)
  : result (t * list warning) :=
  sample_weight <- check_sample_weight (length y) sample_weight false ;;
  _ <- assert (Nat.eqb (df_len X) (length y)) ;;
  '(found, occurences) <- collect_groups compute_groups_indices X y (uniform_label p) ;;
  let oob := out_of_bins occurences y (uniform_label p) in
  let warnings :=
    if Rlt_dec 0.01 (mean_bool oob) then [EventsOutOfAllBins (count_true oob)] else [] in
  divided_weight <-
    np.div sample_weight (map (fun o => Rmax (INR o) 1) occurences) ;;
  Ok ({| params := p;
         group_indices := found;
         y := y;
         y_signed := signed_labels y;
         sample_weight := sample_weight;
         divided_weight := divided_weight |}, warnings).

(** [a[mask]] with the check of the length of the mask. *)
Definition getmask {A : Type} (a : list A) (mask : list bool) : result (list A) :=
  if Nat.eqb (length mask) (length a) then Ok (np.compress mask a)
  else Raise IndexError.

(** The array [global_positions] of one label. *)
Definition global_positions (self : t) (label : Z) (y_pred : np.ndarray)
  : result np.ndarray :=
  let label_mask := map (fun v => Z.eqb v label) (y self) in
  yp <- getmask y_pred label_mask ;;
  sw <- getmask (sample_weight self) label_mask ;;
  pos <- _compute_positions yp sw ;;
  np.put (np.zeros (length y_pred)) (np.where_ label_mask) pos.

(** [local_pos] of one group. *)
Definition local_positions (self : t) (indices_in_bin : list nat)
  (y_pred : np.ndarray) : result np.ndarray :=
  yp <- np.take y_pred indices_in_bin ;;
  sw <- np.take (sample_weight self) indices_in_bin ;;
  _compute_positions yp sw.

Definition bin_gradient (power : R) (local_pos global_pos : np.ndarray)
  : result np.ndarray :=
  d <- np.sub local_pos global_pos ;;
  Ok (map (fun v => power * np.sign1 v * float_power (Rabs v) (power - 1)) d).

(** [neg_gradient[indices_in_bin] += bin_gradient] *)
Definition iadd_at (a : np.ndarray) (idx : list nat) (vals : np.ndarray)
  : result np.ndarray :=
  cur <- np.take a idx ;;
  s <- np.add cur vals ;;
  np.put a idx s.

(** The body of the loop over the groups of one label. *)
Definition add_group (self : t) (y_pred glob : np.ndarray)
  (neg_gradient : np.ndarray) (indices_in_bin : list nat) : result np.ndarray :=
  local_pos <- local_positions self indices_in_bin y_pred ;;
  global_pos <- np.take glob indices_in_bin ;;
  g <- bin_gradient (power (params self)) local_pos global_pos ;;
  iadd_at neg_gradient indices_in_bin g.

(** The body of the loop over the labels. *)
Definition add_label (self : t) (y_pred : np.ndarray)
  (neg_gradient : np.ndarray) (entry : Z * list (list nat)) : result np.ndarray :=
  glob <- global_positions self (fst entry) y_pred ;;
  foldM (add_group self y_pred glob) (snd entry) neg_gradient.

(** The flatness term: [neg_gradient] after [neg_gradient *= self.divided_weight],
    the value recorded as ['fl_grad'] in the debug information. *)
Definition flatness_gradient (self : t) (y_pred : np.ndarray) : result np.ndarray :=
  neg_gradient <- foldM (add_label self y_pred) (group_indices self)
                    (np.zeros (length (y self))) ;;
  np.inplace2 Rmult neg_gradient (divided_weight self).

(** The Ada term:
    [ada_coefficient * y_signed * sample_weight * exp_margin(-y_signed * y_pred)]. *)
Definition ada_term (self : t) (y_pred : np.ndarray) : result np.ndarray :=
  let cs := map (fun s => ada_coefficient (params self) * IZR s) (y_signed self) in
  csw <- np.mul cs (sample_weight self) ;;
  m <- np.mul (np.astype_float (map Z.opp (y_signed self))) y_pred ;;
  np.mul csw (map exp_margin m).

Definition negative_gradient (self : t) (y_pred : np.ndarray) : result np.ndarray :=
  neg_gradient <- flatness_gradient self y_pred ;;
  _ <- assert (forallb (fun v => if Req_dec_T v 0 then true else false)
                 (np.compress (map negb (np.in1d (y self) (uniform_label (params self))))
                    neg_gradient)) ;;
  ada <- ada_term self y_pred ;;
  neg_gradient <- np.inplace2 Rplus neg_gradient ada ;;
  if allow_wrong_signs (params self) then Ok neg_gradient
  else
    sg <- np.mul (np.astype_float (y_signed self)) neg_gradient ;;
    np.mul (np.astype_float (y_signed self)) (np.clip sg 0 1e5).

End AbstractFlatnessLossFunction.

(* ================================================================== *)
(** * ReweightLossFunction *)

Module ReweightLossFunction.

Record t : Type := {
  regularization : R;
  sample_weight : np.ndarray;
  y : list Z;
  signs : np.ndarray;
  mask_original : list Z;
  mask_target : list Z
}.

(** [numpy.sign(sample_weight)] on the argument as it was passed:
    [numpy.sign(None)] is a [TypeError]. *)
Definition sign_of_argument (sample_weight : option np.ndarray) : result np.ndarray :=
  match sample_weight with
  | None => Raise TypeError
  | Some w => Ok (map np.sign1 w)
  end.

Definition fit (regularization : R) (X : DataFrame) (y : list Z)
  (sample_weight : option np.ndarray) : result t :=
  _ <- assert (forallb (fun b => b) (np.in1d y [0; 1]%Z)) ;;
  let self_sample_weight :=
    match sample_weight with
    | None => np.ones (df_len X)
    | Some w => w
    end in
  sgn <- sign_of_argument sample_weight ;;
  signs <- np.mul (np.astype_float (signed_labels y)) sgn ;;
  Ok {| regularization := regularization;
        sample_weight := self_sample_weight;
        y := y;
        signs := signs;
        mask_original := y;
        mask_target := map (fun v => 1 - v)%Z y |}.

Definition _compute_weights (self : t) (y_pred : np.ndarray) : result np.ndarray :=
  yp <- np.mul (np.astype_float (y self)) y_pred ;;
  weights <- np.mul (sample_weight self) (map exp yp) ;;
  check_sample_weight_by_class (y self) weights.

Definition prepare_tree_params (self : t) (y_pred : np.ndarray)
  : result (np.ndarray * np.ndarray) :=
  weights <- _compute_weights self y_pred ;;
  Ok (signs self, map Rabs weights).

(** The weight sums of the two classes in every leaf, before clamping. *)
Definition leaf_weights (self : t) (terminal_regions : list nat)
  (y_pred : np.ndarray) : result (np.ndarray * np.ndarray) :=
  weights <- _compute_weights self y_pred ;;
  tw <- np.mul (np.astype_float (mask_target self)) weights ;;
  w_target <- np.bincount terminal_regions tw 0 ;;
  ow <- np.mul (np.astype_float (mask_original self)) weights ;;
  w_original <- np.bincount terminal_regions ow 0 ;;
  Ok (w_target, w_original).

Definition prepare_new_leaves_values (self : t) (terminal_regions : list nat)
  (y_pred : np.ndarray) : result np.ndarray :=
  '(w_target, w_original) <- leaf_weights self terminal_regions y_pred ;;
  let w_target := np.clip_min w_target 0 in
  let w_original := np.clip_min w_original 0 in
  np.sub (map (fun v => ln (v + regularization self)) w_target)
         (map (fun v => ln (v + regularization self)) w_original).

End ReweightLossFunction.

(* ================================================================== *)
(** * GBReweighter *)

(** The array-like [data] of the reweighters: one-dimensional or
    two-dimensional. *)
Inductive array_like : Type :=
| Array1 (values : np.ndarray)
| Array2 (rows : np.matrix).

Module GBReweighter.

(** A fitted reweighter: [n_features_] and the decision function of the
    boosted ensemble [self.gb], trained by [gradientboosting], which is not
    among the sources. *)
Record t : Type := {
  n_features_ : option nat;
  decision_function : np.matrix -> np.ndarray
}.

(** [ReweighterMixin.normalize_input]; it returns the object as well, whose
    [n_features_] it may set. *)
Definition normalize_input (self : t) (data : array_like)
  (weights : option np.ndarray) : result ((np.matrix * np.ndarray) * t) :=
  let n := match data with Array1 v => length v | Array2 m => length m end in
  weights <- check_sample_weight n weights true ;;
  let shape1 := match data with Array1 _ => 1%nat | Array2 m => np.ncols m end in
  let data := match data with
              | Array1 v => map (fun x => [x]) v
              | Array2 m => m
              end in
  let self :=
    match n_features_ self with
    | None => {| n_features_ := Some shape1;
                 decision_function := decision_function self |}
    | Some _ => self
    end in
  _ <- assert (match n_features_ self with
               | Some d => Nat.eqb d shape1
               | None => false
               end) ;;
  Ok ((data, weights), self).

(** [fit]; [train] stands for
    [gb.GradientBoostingClassifier(loss=losses.ReweightLossFunction(), ...).fit]
    and gives the decision function of the trained ensemble. *)
Definition fit
  (train : np.matrix -> list Z -> np.ndarray -> result (np.matrix -> np.ndarray))
  (original target : array_like) (original_weight target_weight : option np.ndarray)
  : result t :=
  let self := {| n_features_ := None; decision_function := fun _ => [] |} in
  '((original, original_weight), self) <- normalize_input self original original_weight ;;
  '((target, target_weight), self) <- normalize_input self target target_weight ;;
  let data := original ++ target in
  let labels := repeat 1%Z (length original) ++ repeat 0%Z (length target) in
  let weights := original_weight ++ target_weight in
  gb <- train data labels weights ;;
  Ok {| n_features_ := n_features_ self; decision_function := gb |}.

Definition predict_weights (self : t) (original : array_like)
  (original_weight : option np.ndarray) : result np.ndarray :=
  '((original, original_weight), self) <- normalize_input self original original_weight ;;
  let multipliers := map exp (decision_function self original) in
  np.mul multipliers original_weight.

End GBReweighter.

(* ================================================================== *)
(** * bincount_nd *)

(** An integer array of two dimensions: [x.shape[1]] and the rows, each of
    [x.shape[1]] entries. *)
Record int_array2 : Type := {
  shape1 : nat;
  rows : list (list Z)
}.

(** A float array of any number of dimensions: its shape and its entries in
    row-major order, the layout of [numpy.zeros(shape)]. *)
Record ndarray_nd : Type := {
  nd_shape : list nat;
  nd_data : np.ndarray
}.

(** [numpy.max(x, axis=0)]: the maximum of every column; the reduction of an
    array without rows is a [ValueError]. *)
Definition column_max (x : int_array2) : result (list Z) :=
  match rows x with
  | [] => Raise ValueError
  | first :: others =>
      Ok (fold_left
            (fun acc row => map (fun p => Z.max (fst p) (snd p)) (combine acc row))
            others first)
  end.

(** The position in row-major order of the entry with the index tuple
    [index]; every index follows numpy's rule for its axis. *)
Fixpoint ravel (shape : list nat) (index : list Z) (acc : nat) : result nat :=
  match shape, index with
  | [], [] => Ok acc
  | s :: shape', i :: index' =>
      j <- RankBoostLossFunction.normalize_index s i ;;
      ravel shape' index' (acc * s + j)
  | _, _ => Raise IndexError
  end.

(** [numpy.add.at(result, tuple(x.T), weights)]: the weight of every event
    is added to the entry that its row of [x] indexes. *)
Definition add_at_rows (shape : list nat) (res : np.ndarray)
  (rows : list (list Z)) (weights : np.ndarray) : result np.ndarray :=
  foldM (fun res p =>
           j <- ravel shape (fst p) 0 ;;
           Ok (np.add_at j (snd p) res))
    (combine rows weights) res.

(** [bincount_nd(x, weights, shape)], for an [x] of at least one column. *)
Definition bincount_nd (x : int_array2) (weights : np.ndarray) (shape : list nat)
  : result ndarray_nd :=
  _ <- assert (Nat.eqb (length weights) (length (rows x))) ;;
  _ <- assert (Nat.eqb (shape1 x) (length shape)) ;;
  maximals <- column_max x ;;
  _ <- assert (forallb (fun p => (fst p <? Z.of_nat (snd p))%Z)
                 (combine maximals shape)) ;;
  let res := np.zeros (fold_right Nat.mul 1%nat shape) in
  data <- add_at_rows shape res (rows x) weights ;;
  Ok {| nd_shape := shape; nd_data := data |}.

(* ================================================================== *)
(** * Vocabulary of the statements *)

(** The sum of the values of the events that fall in one leaf. *)
Definition sum_in_leaf (terminal_regions : list nat) (values : np.ndarray)
  (leaf : nat) : R :=
  np.sum (map snd (filter (fun p => Nat.eqb (fst p) leaf)
                     (combine terminal_regions values))).

(** Element-wise operation on two arrays of one length. *)
Definition map2 {A B C : Type} (f : A -> B -> C) (a : list A) (b : list B) : list C :=
  map (fun p => f (fst p) (snd p)) (combine a b).

(** The table and the labels have one length, and so has every column. *)
Definition well_formed (X : DataFrame) (y : list Z) : Prop :=
  df_len X = length y /\
  forall name column, In (name, column) (df_columns X) -> length column = df_len X.

(** The regularization a constructor stores. *)
Definition constructor_regularization (p : HessianLossParams) : R :=
  match p with
  | AdaParams r | MSEParams r | LogParams r | CompositeParams r => r
  | RankBoostParams _ _ _ => 0.1
  | MatrixParams _ r => r
  end.

(** The leaf update described for HessianLoss: every leaf value is the sum
    of the residuals in the leaf over the sum of the hessian values in the
    leaf plus [regularization * mean(sample_weight)]. *)
Definition newton_leaves (p : HessianLossParams) (X : DataFrame) (y : list Z)
  (sample_weight : np.ndarray) (terminal_regions : list nat)
  (leaf_values y_pred residual : np.ndarray) : Prop :=
  forall l, fit p X y sample_weight = Ok l ->
  exists h leaves after_hessian after_update,
    hessian l y_pred = Ok (h, after_hessian) /\
    prepare_new_leaves_values l terminal_regions leaf_values y y_pred residual
      = Ok (leaves, after_update) /\
    length leaves = np.bincount_size terminal_regions (length leaf_values) /\
    forall leaf, (leaf < length leaves)%nat ->
      nth leaf leaves 0
      = sum_in_leaf terminal_regions residual leaf
        / (sum_in_leaf terminal_regions h leaf
           + constructor_regularization p * np.mean sample_weight).

(** The classes that inherit the leaf update and whose [fit] calls
    [HessianLossFunction.fit]. *)
Definition inherits_leaf_update (p : HessianLossParams) : Prop :=
  match p with
  | AdaParams _ | LogParams _ | CompositeParams _ => True
  | _ => False
  end.

(** ** The leaf update of the ranking loss *)

(** The closed-form result [0.5 * log(w_minus_leaf / w_plus_leaf)] of one
    pass, computed at the predictions shifted by the estimate before it. *)
Definition closed_form (self : RankBoostLossFunction.t) (terminal_regions : list nat)
  (y_pred previous : np.ndarray) : result np.ndarray :=
  shift <- np.take previous terminal_regions ;;
  y_test <- np.add y_pred shift ;;
  RankBoostLossFunction._prepare_new_leaves_values self terminal_regions y_test.

(** The passes are linked: each one starts from the estimate the one before
    it ended with. *)
Fixpoint chained (start : np.ndarray)
  (trace : list (np.ndarray * np.ndarray * np.ndarray)) (final : np.ndarray) : Prop :=
  match trace with
  | [] => start = final
  | (previous, _, next) :: rest => previous = start /\ chained next rest final
  end.

(** The estimate after a pass is the arithmetic mean of the result of the
    pass and the estimate before it. *)
Definition blend_50_50 (previous new next : np.ndarray) : Prop :=
  next = map2 (fun r e => (r + e) / 2) new previous.

(** The estimate after a pass is the estimate before it plus half of the
    result of the pass. *)
Definition half_step (previous new next : np.ndarray) : Prop :=
  next = map2 (fun r e => 0.5 * r + e) new previous.

(** [prepare_new_leaves_values] starts from zeros and makes
    [update_iterations] passes, each related to its closed-form result by
    [rule]. *)
Definition leaf_iteration
  (rule : np.ndarray -> np.ndarray -> np.ndarray -> Prop)
  (self : RankBoostLossFunction.t) (terminal_regions : list nat)
  (leaf_values y_pred residual : np.ndarray) : Prop :=
  exists leaves trace,
    RankBoostLossFunction.prepare_new_leaves_values self terminal_regions
      leaf_values y_pred residual = Ok (leaves, y_pred) /\
    RankBoostLossFunction.update_trace self terminal_regions y_pred
      (RankBoostLossFunction.update_terations self) (np.zeros (length leaf_values))
      = Ok trace /\
    length trace = RankBoostLossFunction.update_terations self /\
    chained (np.zeros (length leaf_values)) trace leaves /\
    Forall (fun pass =>
              let '(previous, new, next) := pass in
              closed_form self terminal_regions y_pred previous = Ok new /\
              rule previous new next) trace.

(** ** The index rule of the ranking loss *)

(** The described behaviour of [fit] on the labels [y]: it completes only
    when the distinct labels are exactly [0 .. k-1], and it raises for any
    label set that contains a value [>= k]. *)
Definition raw_label_index_claim (y : list Z)
  (outcome : result RankBoostLossFunction.t) : Prop :=
  let k := Z.of_nat (length (np.unique y)) in
  ((exists self, outcome = Ok self) -> forall r, In r y <-> (0 <= r < k)%Z) /\
  ((exists r, In r y /\ (k <= r)%Z) -> exists e, outcome = Raise e).

(** A label is accepted as an index into an axis of length [k]. *)
Definition index_accepted (k : nat) (r : Z) : Prop :=
  (- Z.of_nat k <= r < Z.of_nat k)%Z.

(** ** The leaf update of the reweight loss *)

(** One fit of the reweight loss followed by one leaf update: the weight
    sums of the target class and of the original class in every leaf, before
    clamping, and the leaf values. *)
Definition reweight_run (regularization : R) (X : DataFrame) (y : list Z)
  (sample_weight : option np.ndarray) (terminal_regions : list nat)
  (y_pred : np.ndarray) : result (np.ndarray * np.ndarray * np.ndarray) :=
  self <- ReweightLossFunction.fit regularization X y sample_weight ;;
  '(w_target, w_original) <-
    ReweightLossFunction.leaf_weights self terminal_regions y_pred ;;
  leaves <- ReweightLossFunction.prepare_new_leaves_values self terminal_regions y_pred ;;
  Ok (w_target, w_original, leaves).

(** [numpy.log(clip(target_sum, 0) + reg) - numpy.log(clip(original_sum, 0) + reg)] *)
Definition log_ratio (regularization target_sum original_sum : R) : R :=
  ln (Rmax target_sum 0 + regularization) - ln (Rmax original_sum 0 + regularization).

(** The leaf values of one update of the reweight loss: the logarithm of
    the clamped, regularized ratio of the two weight sums of the leaf, and
    its monotonicity in the target sum against any other update with the
    same regularization. *)
Definition reweight_leaf_values (reg : R) (X : DataFrame) (y : list Z)
  (sample_weight : np.ndarray) (terminal_regions : list nat)
  (y_pred : np.ndarray) : Prop :=
  exists self weights w_target w_original leaves,
    ReweightLossFunction.fit reg X y (Some sample_weight) = Ok self /\
    ReweightLossFunction._compute_weights self y_pred = Ok weights /\
    ReweightLossFunction.leaf_weights self terminal_regions y_pred
      = Ok (w_target, w_original) /\
    ReweightLossFunction.prepare_new_leaves_values self terminal_regions y_pred
      = Ok leaves /\
    length leaves = np.bincount_size terminal_regions 0 /\
    (forall leaf, (leaf < length leaves)%nat ->
       nth leaf w_target 0
       = sum_in_leaf terminal_regions
           (map2 Rmult (np.astype_float (map (fun v => 1 - v)%Z y)) weights) leaf /\
       nth leaf w_original 0
       = sum_in_leaf terminal_regions
           (map2 Rmult (np.astype_float y) weights) leaf /\
       nth leaf leaves 0
       = log_ratio reg (nth leaf w_target 0) (nth leaf w_original 0)) /\
    (forall X' y' sample_weight' terminal_regions' y_pred'
            w_target' w_original' leaves' leaf leaf',
       reweight_run reg X' y' sample_weight' terminal_regions' y_pred'
         = Ok (w_target', w_original', leaves') ->
       (leaf < length leaves)%nat -> (leaf' < length leaves')%nat ->
       Rmax (nth leaf w_original 0) 0 = Rmax (nth leaf' w_original' 0) 0 ->
       (nth leaf w_target 0 <= nth leaf' w_target' 0 ->
        nth leaf leaves 0 <= nth leaf' leaves' 0) /\
       (Rmax (nth leaf w_target 0) 0 < Rmax (nth leaf' w_target' 0) 0 ->
        nth leaf leaves 0 < nth leaf' leaves' 0)).

(** ** The weights of the boosting reweighter *)

(** The predicted weights: each one is the normalized input weight times
    the exponential of the decision score, so it is never negative and it is
    strictly positive exactly when the input weight is; the normalized weight
    is 1 by default and the given weight over the mean of the given weights
    otherwise. *)
Definition exponential_weights (self : GBReweighter.t) (original : array_like)
  (original_weight : option np.ndarray) : Prop :=
  exists data weights self' out,
    GBReweighter.normalize_input self original original_weight
      = Ok ((data, weights), self') /\
    GBReweighter.predict_weights self original original_weight = Ok out /\
    length out = length data /\
    forall i, (i < length out)%nat ->
      nth i out 0
      = exp (nth i (GBReweighter.decision_function self data) 0) * nth i weights 0 /\
      0 <= nth i out 0 /\
      (0 < nth i out 0 <-> 0 < nth i weights 0) /\
      match original_weight with
      | None => nth i weights 0 = 1
      | Some given => nth i weights 0 = nth i given 0 / np.mean given
      end.

(** Every predicted weight is strictly positive. *)
Definition strictly_positive_weights (self : GBReweighter.t) (original : array_like)
  (original_weight : option np.ndarray) : Prop :=
  forall out, GBReweighter.predict_weights self original original_weight = Ok out ->
    Forall (fun v => 0 < v) out.

(** ** The flatness losses *)

(** The predictions are rank-identical in every flatness group and in the
    whole of each uniform label: in every group the positions of the events
    among the events of the group are their positions among all events of
    the label. *)
Definition rank_identical (self : AbstractFlatnessLossFunction.t)
  (y_pred : np.ndarray) : Prop :=
  forall label groups,
    In (label, groups) (AbstractFlatnessLossFunction.group_indices self) ->
    exists glob,
      AbstractFlatnessLossFunction.global_positions self label y_pred = Ok glob /\
      forall indices_in_bin, In indices_in_bin groups ->
        exists pos,
          AbstractFlatnessLossFunction.local_positions self indices_in_bin y_pred
            = Ok pos /\
          np.take glob indices_in_bin = Ok pos.

(** The returned gradient is the Ada term alone. *)
Definition only_ada_term (self : AbstractFlatnessLossFunction.t)
  (y_pred : np.ndarray) : Prop :=
  exists ada,
    AbstractFlatnessLossFunction.ada_term self y_pred = Ok ada /\
    AbstractFlatnessLossFunction.negative_gradient self y_pred = Ok ada.

(** The flatness term is zero for every event, and the returned gradient is
    the Ada term, clipped to the sign of the class when [allow_wrong_signs]
    is off. *)
Definition zero_flatness_term (self : AbstractFlatnessLossFunction.t)
  (y_pred : np.ndarray) : Prop :=
  exists ada,
    AbstractFlatnessLossFunction.flatness_gradient self y_pred
      = Ok (np.zeros (length y_pred)) /\
    AbstractFlatnessLossFunction.ada_term self y_pred = Ok ada /\
    length ada = length y_pred /\
    (forall i, (i < length y_pred)%nat ->
       nth i ada 0
       = AbstractFlatnessLossFunction.ada_coefficient
           (AbstractFlatnessLossFunction.params self)
         * IZR (nth i (AbstractFlatnessLossFunction.y_signed self) 0%Z)
         * nth i (AbstractFlatnessLossFunction.sample_weight self) 0
         * exp_margin
             (IZR (- nth i (AbstractFlatnessLossFunction.y_signed self) 0%Z)
              * nth i y_pred 0)) /\
    AbstractFlatnessLossFunction.negative_gradient self y_pred
    = Ok (if AbstractFlatnessLossFunction.allow_wrong_signs
               (AbstractFlatnessLossFunction.params self)
          then ada
          else map2 (fun s a => IZR s * np.clip1 0 1e5 (IZR s * a))
                 (AbstractFlatnessLossFunction.y_signed self) ada).

(** Event [i] is in no group of any label. *)
Definition in_no_group (found : list (Z * list (list nat))) (i : nat) : Prop :=
  forall label groups g, In (label, groups) found -> In g groups -> ~ In i g.

Definition in_no_groupb (found : list (Z * list (list nat))) (i : nat) : bool :=
  forallb (fun entry => forallb (fun g => negb (existsb (Nat.eqb i) g)) (snd entry))
    found.

(** The events of the uniform classes that are assigned to no flatness
    group. *)
Definition unassigned (found : list (Z * list (list nat))) (labels y : list Z)
  : list bool :=
  map (fun p => in_no_groupb found (fst p) && existsb (Z.eqb (snd p)) labels)
    (combine (seq 0 (length y)) y).

(** What [fit] does about the events of the uniform classes that are in no
    group: it completes; it warns exactly when they are more than 1% of
    [population]; their occurrence count is taken as 1 in [divided_weight];
    and their flatness gradient is zero. *)
Definition flatness_fit_report
  (population : list bool -> list Z -> list Z -> nat)
  (cg : DataFrame -> list Z -> Z -> result (list (list nat)))
  (p : AbstractFlatnessLossFunction.Params) (X : DataFrame) (y : list Z)
  (sample_weight : option np.ndarray) : Prop :=
  exists self warnings,
    AbstractFlatnessLossFunction.fit cg p X y sample_weight = Ok (self, warnings) /\
    let labels := AbstractFlatnessLossFunction.uniform_label p in
    let lost :=
      unassigned (AbstractFlatnessLossFunction.group_indices self) labels y in
    (warnings <> [] <->
     (population lost labels y < 100 * AbstractFlatnessLossFunction.count_true lost)%nat) /\
    (forall w, In w warnings ->
       w = EventsOutOfAllBins (AbstractFlatnessLossFunction.count_true lost)) /\
    forall i, (i < length y)%nat -> nth i lost false = true ->
      nth i (AbstractFlatnessLossFunction.divided_weight self) 0
      = nth i (AbstractFlatnessLossFunction.sample_weight self) 0 / 1 /\
      forall y_pred, length y_pred = length y ->
        exists fl,
          AbstractFlatnessLossFunction.flatness_gradient self y_pred = Ok fl /\
          nth i fl 0 = 0.

(** The 1% is taken of all events passed to [fit]. *)
Definition of_all_events (lost : list bool) (labels y : list Z) : nat := length y.

(** The 1% is taken of the events of the uniform classes. *)
Definition of_uniform_class (lost : list bool) (labels y : list Z) : nat :=
  AbstractFlatnessLossFunction.count_true (np.in1d y labels).

(** ** Example data *)

(** The value of a call that returned, [d] otherwise. *)
Definition value_or {A : Type} (d : A) (r : result A) : A :=
  match r with
  | Ok a => a
  | Raise _ => d
  end.

(** A table of [n] events with one integer column. *)
Definition frame (n : nat) (name : string) (column : list Z) : DataFrame :=
  {| df_len := n; df_columns := [(name, column)] |}.

(** A ranking loss before [fit]. *)
Definition unfitted_rank_loss : RankBoostLossFunction.t :=
  {| RankBoostLossFunction.update_terations := 1;
     RankBoostLossFunction.messup_penalty := "square";
     RankBoostLossFunction.request_column := "query";
     RankBoostLossFunction.regularization := 0.1;
     RankBoostLossFunction.queries := [];
     RankBoostLossFunction.y := [];
     RankBoostLossFunction.possible_queries := [];
     RankBoostLossFunction.possible_ranks := [];
     RankBoostLossFunction.lookups := [];
     RankBoostLossFunction.minlengths := [];
     RankBoostLossFunction.rank_penalties := [];
     RankBoostLossFunction.penalty_matrices := [];
     RankBoostLossFunction.regularization_ := 0 |}.

(** Two events of one query with the ranks 0 and 1 and unit weights, fitted
    with [update_iterations] passes. *)
Definition two_ranks (update_iterations : nat) : RankBoostLossFunction.t :=
  value_or unfitted_rank_loss
    (RankBoostLossFunction.fit update_iterations "square" "query"
       (frame 2 "query" [0; 0]%Z) [0; 1]%Z [1; 1]).

(** The reweighter fitted on two events for each distribution by a trainer
    whose ensemble scores every event 0. *)
Definition zero_score_reweighter : GBReweighter.t :=
  value_or {| GBReweighter.n_features_ := None;
              GBReweighter.decision_function := fun _ => [] |}
    (GBReweighter.fit (fun _ _ _ => Ok (fun data => np.zeros (length data)))
       (Array1 [0; 1]) (Array1 [0; 1]) None None).

(** One event of the uniform label 1 with unit weight, in one group, fitted
    with [ada_coefficient = 200000]. *)
Definition steep_ada (allow_wrong_signs : bool) : AbstractFlatnessLossFunction.Params :=
  {| AbstractFlatnessLossFunction.uniform_label := [1%Z];
     AbstractFlatnessLossFunction.power := 2;
     AbstractFlatnessLossFunction.ada_coefficient := 200000;
     AbstractFlatnessLossFunction.allow_wrong_signs := allow_wrong_signs;
     AbstractFlatnessLossFunction.use_median := false;
     AbstractFlatnessLossFunction.keep_debug_info := false |}.

Definition one_group_fit (allow_wrong_signs : bool)
  : result (AbstractFlatnessLossFunction.t * list warning) :=
  AbstractFlatnessLossFunction.fit (fun _ _ _ => Ok [[O]])
    (steep_ada allow_wrong_signs) (frame 1 "x" [0%Z]) [1%Z] None.

Definition one_group (allow_wrong_signs : bool) : AbstractFlatnessLossFunction.t :=
  fst (value_or
         ({| AbstractFlatnessLossFunction.params := steep_ada allow_wrong_signs;
             AbstractFlatnessLossFunction.group_indices := [];
             AbstractFlatnessLossFunction.y := [];
             AbstractFlatnessLossFunction.y_signed := [];
             AbstractFlatnessLossFunction.sample_weight := [];
             AbstractFlatnessLossFunction.divided_weight := [] |}, [])
         (one_group_fit allow_wrong_signs)).

(** Two hundred events, the first one of the uniform label 1 and the others
    of label 0. *)
Definition one_in_two_hundred : list Z := 1%Z :: repeat 0%Z 199.

(** A grouping that finds no group. *)
Definition no_groups (X : DataFrame) (y : list Z) (label : Z)
  : result (list (list nat)) := Ok [].

(** The coupling of one event with itself: the matrix [A = [[1]]] and the
    weight vector [w = [1]], what KnnAdaLossFunction computes for a single
    event with [knn = 1]. *)
Definition identity_coupling (X : DataFrame) (y : list Z) (sample_weight : np.ndarray)
  : result (np.matrix * np.ndarray) := Ok ([[1]], [1]).

(** Three events in two integer variables. *)
Definition three_events : int_array2 :=
  {| shape1 := 2; rows := [[0; 1]; [1; 1]; [0; 1]]%Z |}.

(** ** Shapes, index rules and zero arrays *)

(** The Newton step described for [prepare_tree_params]. *)
Definition newton_tree_params (l : HessianLoss) (y_pred : np.ndarray) : Prop :=
  exists g h after,
    negative_gradient l y_pred = Ok (g, after) /\
    hessian l y_pred = Ok (h, after) /\
    length g = length y_pred /\
    length h = length y_pred /\
    prepare_tree_params l y_pred
    = Ok ((map2 Rdiv g (map (fun v => v + 0.01) h),
           map (fun v => v + 0.01) h), after).

(** A [k] x [k] array. *)
Definition square {A : Type} (k : nat) (m : list (list A)) : Prop :=
  length m = k /\ Forall (fun row => length row = k) m.

(** One entry of [zip(lookups, minlengths, penalty_matrices)] fits arrays of
    [n] events: the lookup has [n] entries and they index the rows and the
    columns of the penalty matrix. *)
Definition channel_ok (n : nat) (c : list nat * nat * np.matrix) : Prop :=
  let '(lookup, _, penalty_matrix) := c in
  length lookup = n /\
  Forall (fun i => (i < length penalty_matrix)%nat
                   /\ (i < np.ncols penalty_matrix)%nat) lookup.

(** The boolean form of numpy's index rule. *)
Definition index_acceptedb (k : nat) (r : Z) : bool :=
  ((- Z.of_nat k <=? r) && (r <? Z.of_nat k))%Z.

(** The pairs of labels for which [fit] writes an entry. *)
Definition pair_good (k : nat) (r1 r2 : Z) : bool :=
  if (r1 <? r2)%Z then index_acceptedb k r1 && index_acceptedb k r2 else true.

(** Every entry of the array is zero. *)
Definition all_zero (a : np.ndarray) : Prop := Forall (fun v => v = 0) a.

(** ** Derivatives of the losses *)

(** The loss has the partial derivative [d] in the prediction of event [i]:
    with the other predictions fixed the loss returns for every value [t] of
    that prediction, and the values have the derivative [d] at
    [y_pred[i]]. *)
Definition partial_derivative (loss : np.ndarray -> result R)
  (y_pred : np.ndarray) (i : nat) (d : R) : Prop :=
  exists f : R -> R,
    (forall t, loss (np.set_nth i t y_pred) = Ok (f t)) /\
    derivable_pt_lim f (nth i y_pred 0) d.

(** The same for entry [i] of the array that a method returns. *)
Definition partial_derivative_of_entry (method : np.ndarray -> result np.ndarray)
  (y_pred : np.ndarray) (i : nat) (d : R) : Prop :=
  exists f : R -> R,
    (forall t, exists v,
        method (np.set_nth i t y_pred) = Ok v /\ nth i v 0 = f t) /\
    derivable_pt_lim f (nth i y_pred 0) d.

(** The labels of a two-class problem. *)
Definition binary_labels (y : list Z) : Prop :=
  Forall (fun v => v = 0%Z \/ v = 1%Z) y.

(** The losses whose value is a sum of one term per event. *)
Definition per_event_loss (p : HessianLossParams) : Prop :=
  match p with
  | AdaParams _ | MSEParams _ | LogParams _ | CompositeParams _ => True
  | _ => False
  end.

(** Every entry of the array is at least [lo]. *)
Definition all_at_least (lo : R) (a : np.ndarray) : Prop := Forall (fun v => lo <= v) a.

(** Entry [[i, j]] of an integer array of two dimensions. *)
Definition entry (m : list (list Z)) (i j : nat) : Z := nth j (nth i m []) 0%Z.

(** The number of flatness groups, over all uniform labels, that hold the
    event [i]; a group that lists the event more than once counts once. *)
Definition memberships (found : list (Z * list (list nat))) (i : nat) : nat :=
  list_sum (map (fun entry : Z * list (list nat) =>
                   length (filter (existsb (Nat.eqb i)) (snd entry))) found).

(** Every event of a flatness group is an event of the table and belongs to
    one of the uniform classes. *)
Definition groups_of_uniform_classes (found : list (Z * list (list nat)))
  (labels y : list Z) : Prop :=
  forall label groups g i,
    In (label, groups) found -> In g groups -> In i g ->
    (i < length y)%nat /\ In (nth i y 0%Z) labels.

(** [len(data)] and the number of columns that [normalize_input] finds in
    an array-like: one for a one-dimensional array, the length of the rows
    for a two-dimensional one (an array of rows carries no width when it has
    no row). *)
Definition n_events (data : array_like) : nat :=
  match data with Array1 v => length v | Array2 m => length m end.

Definition n_columns (data : array_like) : nat :=
  match data with Array1 _ => 1%nat | Array2 m => np.ncols m end.

(** The array [x] is well formed: it has a column, and every row has
    [x.shape[1]] entries. *)
Definition rectangular (x : int_array2) : Prop :=
  (0 < shape1 x)%nat /\ Forall (fun row => length row = shape1 x) (rows x).

(** The weights of the events whose row of [x] is the index tuple [index]. *)
Definition weight_of_bin (x : int_array2) (weights : np.ndarray) (index : list Z)
  : R :=
  np.sum (map snd (filter (fun p => if list_eq_dec Z.eq_dec (fst p) index
                                    then true else false)
                     (combine (rows x) weights))).

(** The index tuple lies in an array of the shape: one index per axis, each
    from 0 to below the length of its axis. *)
Fixpoint in_shape (shape : list nat) (index : list Z) : Prop :=
  match shape, index with
  | [], [] => True
  | s :: shape', i :: index' => (0 <= i < Z.of_nat s)%Z /\ in_shape shape' index'
  | _, _ => False
  end.

(* ================================================================== *)
(** * Arrays: basic facts *)

Lemma bind_ok {A B : Type} (c : result A) (k : A -> result B) (b : B) :
  bind c k = Ok b -> exists a, c = Ok a /\ k a = Ok b.
Proof.
  destruct c as [a|e]; simpl; intros E; [exists a; auto | discriminate].
Qed.

Lemma map2_length {A B C : Type} (f : A -> B -> C) (a : list A) (b : list B) :
  length a = length b -> length (map2 f a b) = length a.
Proof.
  intros E. unfold map2. rewrite length_map, length_combine, E. apply Nat.min_id.
Qed.

Lemma nth_map2 {A B C : Type} (f : A -> B -> C) (a : list A) (b : list B)
  (i : nat) (da : A) (db : B) (dc : C) :
  length a = length b -> (i < length a)%nat ->
  nth i (map2 f a b) dc = f (nth i a da) (nth i b db).
Proof.
  revert b i. induction a as [|x a IH]; intros [|z b] i E Hi; simpl in *; try lia.
  destruct i as [|i]; [reflexivity|]. apply IH; lia.
Qed.

Lemma nth_map_in {A B : Type} (f : A -> B) (l : list A) (i : nat) (d : B) (d' : A) :
  (i < length l)%nat -> nth i (map f l) d = f (nth i l d').
Proof.
  revert i. induction l as [|x l IH]; intros [|i] Hi; simpl in *; try lia; auto.
  apply IH. lia.
Qed.

Lemma broadcast2_same {A B C : Type} (f : A -> B -> C) (a : list A) (b : list B) :
  length a = length b -> np.broadcast2 f a b = Ok (map2 f a b).
Proof.
  intros E. unfold np.broadcast2. rewrite E, Nat.eqb_refl. reflexivity.
Qed.

Lemma inplace2_same {A B : Type} (f : A -> B -> A) (a : list A) (b : list B) :
  length a = length b -> np.inplace2 f a b = Ok (map2 f a b).
Proof.
  intros E. unfold np.inplace2. rewrite E, Nat.eqb_refl. reflexivity.
Qed.

Lemma add_at_length (i : nat) (v : R) (acc : np.ndarray) :
  length (np.add_at i v acc) = length acc.
Proof.
  revert i. induction acc as [|x acc IH]; intros [|i]; simpl; auto.
Qed.

Lemma nth_add_at_same (i : nat) (v : R) (acc : np.ndarray) :
  (i < length acc)%nat -> nth i (np.add_at i v acc) 0 = nth i acc 0 + v.
Proof.
  revert i. induction acc as [|x acc IH]; intros [|i] Hi; simpl in *; try lia.
  - reflexivity.
  - apply IH. lia.
Qed.

Lemma nth_add_at_other (i j : nat) (v : R) (acc : np.ndarray) :
  i <> j -> nth j (np.add_at i v acc) 0 = nth j acc 0.
Proof.
  revert i j. induction acc as [|x acc IH]; intros [|i] [|j] Hij; simpl; auto;
    try lia.
Qed.

(** The accumulation loop of [bincount] adds to a bin the values of its
    events. *)
Lemma bincount_loop_nth (l : list (nat * R)) (acc : np.ndarray) (leaf : nat) :
  (leaf < length acc)%nat ->
  nth leaf (fold_left (fun a p => np.add_at (fst p) (snd p) a) l acc) 0
  = nth leaf acc 0
    + np.sum (map snd (filter (fun p => Nat.eqb (fst p) leaf) l)).
Proof.
  revert acc. induction l as [|[i v] l IH]; intros acc Hleaf; simpl.
  - lra.
  - rewrite IH by (rewrite add_at_length; exact Hleaf).
    destruct (Nat.eqb_spec i leaf) as [->|Hne]; simpl.
    + rewrite nth_add_at_same by exact Hleaf. lra.
    + rewrite nth_add_at_other by exact Hne. lra.
Qed.

Lemma bincount_loop_length (l : list (nat * R)) (acc : np.ndarray) :
  length (fold_left (fun a p => np.add_at (fst p) (snd p) a) l acc) = length acc.
Proof.
  revert acc. induction l as [|p l IH]; intros acc; simpl; auto.
  rewrite IH. apply add_at_length.
Qed.

Lemma nth_zeros (n i : nat) : nth i (np.zeros n) 0 = 0.
Proof.
  unfold np.zeros. revert i. induction n as [|n IH]; intros [|i]; simpl; auto.
Qed.

Lemma bincount_ok (x : list nat) (w : np.ndarray) (m : nat) :
  length x = length w ->
  exists out, np.bincount x w m = Ok out /\
    length out = np.bincount_size x m /\
    forall leaf, (leaf < length out)%nat -> nth leaf out 0 = sum_in_leaf x w leaf.
Proof.
  intros E. unfold np.bincount. rewrite E, Nat.eqb_refl.
  eexists; split; [reflexivity|]. split.
  - rewrite bincount_loop_length. apply repeat_length.
  - intros leaf Hleaf. rewrite bincount_loop_length in Hleaf.
    rewrite bincount_loop_nth by exact Hleaf.
    rewrite nth_zeros. unfold sum_in_leaf. lra.
Qed.

Lemma bincount_inv (x : list nat) (w out : np.ndarray) (m : nat) :
  np.bincount x w m = Ok out -> length x = length w.
Proof.
  unfold np.bincount. destruct (Nat.eqb_spec (length x) (length w)); [auto|discriminate].
Qed.

Ltac inv_bind H :=
  let a := fresh "v" in
  let E := fresh "E" in
  apply bind_ok in H; destruct H as (a & E & H).

Tactic Notation "bind_inv" hyp(H) "as" ident(a) ident(E) :=
  apply bind_ok in H; destruct H as (a & E & H).

(** Solves the side conditions on lengths. *)
Ltac len_in H :=
  unfold np.astype_float, signed_labels, np.zeros, np.ones, np.clip, np.clip_min,
    map2 in H;
  repeat rewrite ?length_map, ?repeat_length, ?length_seq, ?length_combine in H.

Ltac len :=
  unfold np.astype_float, signed_labels, np.zeros, np.ones, np.clip, np.clip_min,
    map2;
  repeat rewrite ?length_map, ?repeat_length, ?length_seq, ?length_combine;
  try congruence; try lia.

Lemma sum_in_leaf_single (terminal_regions : list nat) (values : np.ndarray) :
  length terminal_regions = length values ->
  (forall r, In r terminal_regions -> r = O) ->
  sum_in_leaf terminal_regions values 0 = np.sum values.
Proof.
  unfold sum_in_leaf. revert values.
  induction terminal_regions as [|r tr IH]; intros [|v values] E Hall;
    simpl in *; try lia; [reflexivity|].
  rewrite (Hall r) by auto. simpl. f_equal. apply IH; [lia | auto].
Qed.

Lemma bincount_size_single (terminal_regions : list nat) :
  (forall r, In r terminal_regions -> r = O) ->
  np.bincount_size terminal_regions 1 = 1%nat.
Proof.
  intros Hall. unfold np.bincount_size.
  destruct terminal_regions as [|r tr]; [reflexivity|].
  assert (Hmax : (list_max (r :: tr) <= 0)%nat).
  { apply list_max_le. apply Forall_forall. intros z Hz. rewrite (Hall z Hz). lia. }
  lia.
Qed.

(** The inherited leaf update, for any class whose [hessian] returns. *)
Lemma inherited_leaf_update {Self : Type} `{HessianLossFunction.Methods Self}
  (self : Self) (terminal_regions : list nat)
  (leaf_values y_pred residual h after : np.ndarray) (reg : R) :
  HessianLossFunction.hessian self y_pred = Ok (h, after) ->
  HessianLossFunction.regularization_ self = Ok reg ->
  length terminal_regions = length residual ->
  length terminal_regions = length h ->
  exists leaves,
    HessianLossFunction.prepare_new_leaves_values self terminal_regions leaf_values
      y_pred residual = Ok (leaves, after) /\
    length leaves = np.bincount_size terminal_regions (length leaf_values) /\
    forall leaf, (leaf < length leaves)%nat ->
      nth leaf leaves 0
      = sum_in_leaf terminal_regions residual leaf
        / (sum_in_leaf terminal_regions h leaf + reg).
Proof.
  intros Hh Hreg Eres Ehess.
  destruct (bincount_ok terminal_regions residual (length leaf_values) Eres)
    as (nom & Enom & Lnom & Vnom).
  destruct (bincount_ok terminal_regions h (length leaf_values) Ehess)
    as (den & Eden & Lden & Vden).
  unfold HessianLossFunction.prepare_new_leaves_values.
  rewrite Enom; simpl. rewrite Hh; simpl. rewrite Eden; simpl. rewrite Hreg; simpl.
  unfold np.div. rewrite broadcast2_same by len. simpl.
  eexists; split; [reflexivity|]. split; [len|].
  intros leaf Hleaf. len_in Hleaf.
  rewrite (nth_map2 Rdiv _ _ leaf 0 0 0) by len.
  rewrite Vnom by lia.
  rewrite (nth_map_in (fun d => d + reg) den leaf 0 0) by lia.
  rewrite Vden by lia. reflexivity.
Qed.

(** ** The hessians of the scalar losses return *)

Lemma ada_hessian_ok (self : AdaLossFunction.t) (y_pred : np.ndarray) :
  length (AdaLossFunction.y_signed self) = length y_pred ->
  length (AdaLossFunction.sample_weight self) = length y_pred ->
  exists h, AdaLossFunction.hessian self y_pred = Ok h /\ length h = length y_pred.
Proof.
  intros Ey Ew. unfold AdaLossFunction.hessian, np.mul.
  rewrite broadcast2_same by len. simpl.
  rewrite broadcast2_same by len.
  eexists; split; [reflexivity | len].
Qed.

Lemma ada_negative_gradient_ok (self : AdaLossFunction.t) (y_pred : np.ndarray) :
  length (AdaLossFunction.y_signed self) = length y_pred ->
  length (AdaLossFunction.sample_weight self) = length y_pred ->
  exists g, AdaLossFunction.negative_gradient self y_pred = Ok g
            /\ length g = length y_pred.
Proof.
  intros Ey Ew. unfold AdaLossFunction.negative_gradient, np.mul.
  rewrite broadcast2_same by len. simpl.
  rewrite broadcast2_same by len. simpl.
  rewrite broadcast2_same by len.
  eexists; split; [reflexivity | len].
Qed.

Lemma log_hessian_ok (self : LogLossFunction.t) (y_pred : np.ndarray) :
  length (LogLossFunction.y_signed self) = length y_pred ->
  length (LogLossFunction.sample_weight self) = length y_pred ->
  exists h, LogLossFunction.hessian self y_pred = Ok h /\ length h = length y_pred.
Proof.
  intros Ey Ew. unfold LogLossFunction.hessian, np.mul.
  rewrite broadcast2_same by len. simpl.
  rewrite broadcast2_same by len. simpl.
  rewrite broadcast2_same by len.
  eexists; split; [reflexivity | len].
Qed.

Lemma log_negative_gradient_ok (self : LogLossFunction.t) (y_pred : np.ndarray) :
  length (LogLossFunction.y_signed self) = length y_pred ->
  length (LogLossFunction.sample_weight self) = length y_pred ->
  exists g, LogLossFunction.negative_gradient self y_pred = Ok g
            /\ length g = length y_pred.
Proof.
  intros Ey Ew. unfold LogLossFunction.negative_gradient, np.mul.
  rewrite broadcast2_same by len. simpl.
  rewrite broadcast2_same by len. simpl.
  rewrite broadcast2_same by len.
  eexists; split; [reflexivity | len].
Qed.

Lemma composite_hessian_ok (self : CompositeLossFunction.t) (y_pred : np.ndarray) :
  length (CompositeLossFunction.sig_w self) = length y_pred ->
  length (CompositeLossFunction.bck_w self) = length y_pred ->
  exists h, CompositeLossFunction.hessian self y_pred = Ok h
            /\ length h = length y_pred.
Proof.
  intros Es Eb. unfold CompositeLossFunction.hessian, np.mul, np.add.
  rewrite broadcast2_same by len. simpl.
  rewrite broadcast2_same by len. simpl.
  rewrite broadcast2_same by len. simpl.
  rewrite broadcast2_same by len.
  eexists; split; [reflexivity | len].
Qed.

Lemma composite_negative_gradient_ok (self : CompositeLossFunction.t)
  (y_pred : np.ndarray) :
  length (CompositeLossFunction.sig_w self) = length y_pred ->
  length (CompositeLossFunction.bck_w self) = length y_pred ->
  exists g, CompositeLossFunction.negative_gradient self y_pred = Ok g
            /\ length g = length y_pred.
Proof.
  intros Es Eb. unfold CompositeLossFunction.negative_gradient, np.mul.
  rewrite broadcast2_same by len. simpl.
  rewrite broadcast2_same by len. simpl.
  rewrite inplace2_same by len.
  eexists; split; [reflexivity | len].
Qed.

Lemma composite_fit_inv (reg : R) (X : DataFrame) (y : list Z)
  (sample_weight : np.ndarray) (self : CompositeLossFunction.t) :
  length sample_weight = length y ->
  CompositeLossFunction.fit reg X y sample_weight = Ok self ->
  length (CompositeLossFunction.sig_w self) = length y /\
  length (CompositeLossFunction.bck_w self) = length y /\
  CompositeLossFunction.sample_weight self = sample_weight /\
  CompositeLossFunction.y self = y /\
  CompositeLossFunction.regularization_ self = reg * np.mean sample_weight.
Proof.
  intros E. unfold CompositeLossFunction.fit, CompositeLossFunction.class_weight, np.mul.
  rewrite !broadcast2_same by len. simpl.
  intros F. injection F as <-. simpl. repeat split; len.
Qed.

(* ================================================================== *)
(** * The Newton leaf update of HessianLossFunction *)

Lemma single_leaf_value (terminal_regions : list nat)
  (leaf_values residual h leaves : np.ndarray) (reg : R) :
  length terminal_regions = length residual ->
  length terminal_regions = length h ->
  (forall r, In r terminal_regions -> r = O) ->
  length leaf_values = 1%nat ->
  reg = 0 ->
  length leaves = np.bincount_size terminal_regions (length leaf_values) ->
  (forall leaf, (leaf < length leaves)%nat ->
     nth leaf leaves 0
     = sum_in_leaf terminal_regions residual leaf
       / (sum_in_leaf terminal_regions h leaf + reg)) ->
  leaves = [np.sum residual / np.sum h].
Proof.
  intros Eres Eh Hall Hone Hreg Hlen Hval.
  rewrite Hone, bincount_size_single in Hlen by exact Hall.
  destruct leaves as [|v [|v' rest]]; simpl in Hlen; try discriminate.
  specialize (Hval O). simpl in Hval. rewrite Hval by lia.
  rewrite !sum_in_leaf_single by assumption. rewrite Hreg, Rplus_0_r. reflexivity.
Qed.

Lemma scalar_fit_hessian (p : HessianLossParams) (X : DataFrame) (y : list Z)
  (sample_weight y_pred : np.ndarray) :
  inherits_leaf_update p ->
  length sample_weight = length y ->
  length y_pred = length y ->
  exists l h,
    fit p X y sample_weight = Ok l /\
    hessian l y_pred = Ok (h, y_pred) /\
    length h = length y /\
    forall terminal_regions leaf_values residual,
      length terminal_regions = length y ->
      length residual = length y ->
      exists leaves,
        prepare_new_leaves_values l terminal_regions leaf_values y y_pred residual
          = Ok (leaves, y_pred) /\
        length leaves = np.bincount_size terminal_regions (length leaf_values) /\
        forall leaf, (leaf < length leaves)%nat ->
          nth leaf leaves 0
          = sum_in_leaf terminal_regions residual leaf
            / (sum_in_leaf terminal_regions h leaf
               + constructor_regularization p * np.mean sample_weight).
Proof.
  intros Hp Ew Ep.
  destruct p as [reg|reg|reg|reg|col pen n|cp reg]; simpl in Hp; try contradiction.
  - (* Ada *)
    set (s := {| AdaLossFunction.regularization := reg;
                 AdaLossFunction.y := y;
                 AdaLossFunction.sample_weight := sample_weight;
                 AdaLossFunction.y_signed := signed_labels y;
                 AdaLossFunction.regularization_ :=
                   HessianLossFunction.fit reg sample_weight |}).
    destruct (ada_hessian_ok s y_pred) as (h & Eh & Lh); [simpl; len | simpl; len |].
    assert (Hh : HessianLossFunction.hessian s y_pred = Ok (h, y_pred)).
    { simpl. unfold pure_method. rewrite Eh. reflexivity. }
    exists (Ada s), h. repeat split; [exact Hh | congruence |].
    intros tr lv res Etr Eres. simpl.
    apply (inherited_leaf_update s tr lv y_pred res h y_pred); auto; congruence.
  - (* Log *)
    set (s := {| LogLossFunction.regularization := reg;
                 LogLossFunction.y := y;
                 LogLossFunction.sample_weight := sample_weight;
                 LogLossFunction.y_signed := signed_labels y;
                 LogLossFunction.adjusted_regularization :=
                   np.mean sample_weight * reg;
                 LogLossFunction.regularization_ :=
                   HessianLossFunction.fit reg sample_weight |}).
    destruct (log_hessian_ok s y_pred) as (h & Eh & Lh); [simpl; len | simpl; len |].
    assert (Hh : HessianLossFunction.hessian s y_pred = Ok (h, y_pred)).
    { simpl. unfold pure_method. rewrite Eh. reflexivity. }
    exists (LogLoss s), h. repeat split; [exact Hh | congruence |].
    intros tr lv res Etr Eres. simpl.
    apply (inherited_leaf_update s tr lv y_pred res h y_pred); auto; congruence.
  - (* Composite *)
    destruct (CompositeLossFunction.fit reg X y sample_weight) as [s|e] eqn:F.
    2:{ unfold CompositeLossFunction.fit, CompositeLossFunction.class_weight, np.mul in F.
        rewrite !broadcast2_same in F by len. discriminate. }
    destruct (composite_fit_inv reg X y sample_weight s Ew F)
      as (Ls & Lb & Hw & Hy & Hr).
    destruct (composite_hessian_ok s y_pred) as (h & Eh & Lh); [congruence..|].
    assert (Hh : HessianLossFunction.hessian s y_pred = Ok (h, y_pred)).
    { simpl. unfold pure_method. rewrite Eh. reflexivity. }
    exists (Composite s), h. simpl. rewrite F. simpl.
    repeat split; [exact Hh | congruence |].
    intros tr lv res Etr Eres.
    apply (inherited_leaf_update s tr lv y_pred res h y_pred); auto; try congruence.
    simpl. rewrite Hr. reflexivity.
Qed.

(** C1 (as amended).  For a fitted AdaLossFunction, LogLossFunction or
    CompositeLossFunction, the classes that inherit the leaf update and whose
    [fit] sets [regularization_], [prepare_new_leaves_values] returns for
    every leaf the sum of the residuals in the leaf divided by the sum of the
    hessian values in the leaf plus [regularization * mean(sample_weight)];
    with one leaf that holds all events and [regularization = 0] the value is
    [sum(residual) / sum(hessian)]. *)
Theorem hessian_leaf_update_newton
  (p : HessianLossParams) (X : DataFrame) (y : list Z)
  (sample_weight y_pred residual leaf_values : np.ndarray)
  (terminal_regions : list nat) :
  inherits_leaf_update p ->
  length sample_weight = length y ->
  length y_pred = length y ->
  length residual = length y ->
  length terminal_regions = length y ->
  (exists l, fit p X y sample_weight = Ok l) /\
  newton_leaves p X y sample_weight terminal_regions leaf_values y_pred residual /\
  (constructor_regularization p = 0 ->
   (forall r, In r terminal_regions -> r = O) ->
   length leaf_values = 1%nat ->
   forall l h after,
     fit p X y sample_weight = Ok l ->
     hessian l y_pred = Ok (h, after) ->
     prepare_new_leaves_values l terminal_regions leaf_values y y_pred residual
       = Ok ([np.sum residual / np.sum h], y_pred)).
Proof.
  intros Hp Ew Ep Eres Etr.
  destruct (scalar_fit_hessian p X y sample_weight y_pred Hp Ew Ep)
    as (l & h & F & Hh & Lh & Hleaves).
  destruct (Hleaves terminal_regions leaf_values residual Etr Eres)
    as (leaves & Hprep & Llen & Hval).
  split; [exists l; exact F|]. split.
  - intros l' F'. rewrite F in F'. injection F' as <-.
    exists h, leaves, y_pred, y_pred. auto.
  - intros Hreg Hall Hone l' h' after F' Hh'.
    rewrite F in F'. injection F' as <-.
    rewrite Hh in Hh'. injection Hh' as <- <-.
    rewrite Hprep. f_equal. f_equal.
    apply (single_leaf_value terminal_regions leaf_values residual h leaves
             (constructor_regularization p * np.mean sample_weight));
      auto; try congruence.
    rewrite Hreg. lra.
Qed.

(* ================================================================== *)
(** * Loops, gathers and index arrays *)

Lemma foldM_invariant {A B : Type} (Inv : B -> Prop) (body : B -> A -> result B)
  (l : list A) (acc : B) :
  (forall b a, In a l -> Inv b -> exists b', body b a = Ok b' /\ Inv b') ->
  Inv acc ->
  exists r, foldM body l acc = Ok r /\ Inv r.
Proof.
  revert acc. induction l as [|a l IH]; intros acc Hbody Hacc; simpl.
  - exists acc. auto.
  - destruct (Hbody acc a (or_introl eq_refl) Hacc) as (b' & E & Hb').
    rewrite E. simpl. apply IH; [|exact Hb'].
    intros b x Hx. apply Hbody. right. exact Hx.
Qed.

Lemma take_ok {A : Type} (a : list A) (idx : list nat) :
  Forall (fun i => (i < length a)%nat) idx ->
  exists r, np.take a idx = Ok r /\ length r = length idx.
Proof.
  induction idx as [|i idx IH]; intros H; simpl.
  - exists []. auto.
  - inversion H as [|? ? Hi Hrest]; subst.
    destruct (nth_error a i) as [v|] eqn:E.
    + destruct (IH Hrest) as (r & Er & Lr). rewrite Er. simpl.
      exists (v :: r). simpl. auto.
    + apply nth_error_None in E. lia.
Qed.

Lemma take_nth {A : Type} (a : list A) (idx : list nat) (r : list A) (d : A) :
  np.take a idx = Ok r ->
  length r = length idx /\
  forall j, (j < length idx)%nat -> nth j r d = nth (nth j idx O) a d.
Proof.
  revert r. induction idx as [|i idx IH]; intros r H; simpl in H.
  - injection H as <-. split; [reflexivity|]. intros j Hj. simpl in Hj. lia.
  - destruct (nth_error a i) as [v|] eqn:E; [|discriminate].
    inv_bind H. injection H as <-.
    destruct (IH _ E0) as (L & V). split; [simpl; lia|].
    intros [|j] Hj; simpl in *.
    + symmetry. apply nth_error_nth. exact E.
    + apply V. lia.
Qed.

Lemma set_nth_length {A : Type} (i : nat) (v : A) (a : list A) :
  length (np.set_nth i v a) = length a.
Proof.
  revert i. induction a as [|x a IH]; intros [|i]; simpl; auto.
Qed.

Lemma nth_set_nth_same {A : Type} (i : nat) (v d : A) (a : list A) :
  (i < length a)%nat -> nth i (np.set_nth i v a) d = v.
Proof.
  revert i. induction a as [|x a IH]; intros [|i] Hi; simpl in *; try lia; auto.
  apply IH. lia.
Qed.

Lemma nth_set_nth_other {A : Type} (i j : nat) (v d : A) (a : list A) :
  i <> j -> nth j (np.set_nth i v a) d = nth j a d.
Proof.
  revert i j. induction a as [|x a IH]; intros [|i] [|j] Hij; simpl; auto;
    try lia.
Qed.

Lemma in_insert_unique (v x : Z) (l : list Z) :
  In x (np.insert_unique v l) <-> x = v \/ In x l.
Proof.
  induction l as [|h l IH]; simpl.
  - intuition.
  - destruct (Z.ltb_spec v h); simpl; [intuition|].
    destruct (Z.eqb_spec v h); simpl; [subst; intuition|].
    rewrite IH. intuition.
Qed.

Lemma in_unique (x : Z) (a : list Z) : In x (np.unique a) <-> In x a.
Proof.
  unfold np.unique. induction a as [|v a IH]; simpl; [tauto|].
  rewrite in_insert_unique, IH. intuition.
Qed.

Lemma index_of_lt (v : Z) (l : list Z) :
  In v l -> (np.index_of v l < length l)%nat.
Proof.
  induction l as [|h l IH]; simpl; [tauto|].
  intros [->|H].
  - rewrite Z.eqb_refl. lia.
  - destruct (Z.eqb_spec v h); [lia|]. apply IH in H. lia.
Qed.

Lemma nth_index_of (v : Z) (l : list Z) :
  In v l -> nth (np.index_of v l) l 0%Z = v.
Proof.
  induction l as [|h l IH]; simpl; [tauto|].
  intros [->|H].
  - rewrite Z.eqb_refl. reflexivity.
  - destruct (Z.eqb_spec v h); [auto|]. apply IH. exact H.
Qed.

(** The inverse of [unique] stays below the number of distinct values. *)
Lemma unique_inverse_lt (a : list Z) :
  Forall (fun i => (i < length (np.unique a))%nat)
    (map (fun v => np.index_of v (np.unique a)) a).
Proof.
  apply Forall_forall. intros i Hi. apply in_map_iff in Hi.
  destruct Hi as (v & <- & Hv). apply index_of_lt. apply in_unique. exact Hv.
Qed.

(* ================================================================== *)
(** * RankBoostLossFunction: shapes fixed by fit *)

Lemma foldM_preserves {A B : Type} (Inv : B -> Prop) (body : B -> A -> result B)
  (l : list A) (acc r : B) :
  (forall b a b', body b a = Ok b' -> Inv b -> Inv b') ->
  foldM body l acc = Ok r -> Inv acc -> Inv r.
Proof.
  intros Hbody. revert acc. induction l as [|a l IH]; intros acc H Hacc; simpl in H.
  - injection H as <-. exact Hacc.
  - inv_bind H. apply (IH v); [exact H|]. apply (Hbody acc a); assumption.
Qed.

Lemma Forall_set_nth {A : Type} (P : A -> Prop) (i : nat) (v : A) (a : list A) :
  Forall P a -> P v -> Forall P (np.set_nth i v a).
Proof.
  intros Ha Hv. revert i. induction Ha as [|x a Hx Ha IH]; intros [|i]; simpl;
    constructor; auto.
Qed.

Lemma normalize_index_lt (k : nat) (r : Z) (i : nat) :
  RankBoostLossFunction.normalize_index k r = Ok i -> (i < k)%nat.
Proof.
  unfold RankBoostLossFunction.normalize_index.
  destruct ((0 <=? r)%Z && (r <? Z.of_nat k)%Z) eqn:E1.
  - intros H. injection H as <-. apply andb_true_iff in E1. lia.
  - destruct ((- Z.of_nat k <=? r)%Z && (r <? 0)%Z) eqn:E2; [|discriminate].
    intros H. injection H as <-. apply andb_true_iff in E2. lia.
Qed.

Lemma setitem2_square (k : nat) (m m' : list (list Z)) (r1 r2 v : Z) :
  square k m ->
  RankBoostLossFunction.setitem2 k m r1 r2 v = Ok m' -> square k m'.
Proof.
  intros [Lm Fm] H. unfold RankBoostLossFunction.setitem2 in H.
  inv_bind H. inv_bind H. injection H as <-.
  apply normalize_index_lt in E. split.
  - rewrite set_nth_length. exact Lm.
  - apply Forall_set_nth; [exact Fm|]. rewrite set_nth_length.
    rewrite Forall_forall in Fm. apply Fm. apply nth_In. lia.
Qed.

Lemma fill_rank_penalties_square (pen : string) (ranks : list Z)
  (m : list (list Z)) :
  RankBoostLossFunction.fill_rank_penalties pen ranks = Ok m ->
  square (length ranks) m.
Proof.
  unfold RankBoostLossFunction.fill_rank_penalties. intros H.
  refine (foldM_preserves (square (length ranks)) _ _ _ _ _ H _).
  - intros b r1 b' Hin Hb.
    refine (foldM_preserves (square (length ranks)) _ _ _ _ _ Hin Hb).
    intros c r2 c' Hst Hc. destruct (r1 <? r2)%Z.
    + inv_bind Hst. eapply setitem2_square; eauto.
    + injection Hst as <-. exact Hc.
  - split; [apply repeat_length|].
    apply Forall_forall. intros row Hrow. apply repeat_spec in Hrow. subst.
    apply repeat_length.
Qed.

Lemma square_map {A B : Type} (f : A -> B) (k : nat) (m : list (list A)) :
  square k m -> square k (map (map f) m).
Proof.
  intros [L F]. split; [rewrite length_map; exact L|].
  apply Forall_forall. intros row Hrow. apply in_map_iff in Hrow.
  destruct Hrow as (r & <- & Hr). rewrite length_map.
  rewrite Forall_forall in F. auto.
Qed.

Lemma square_ncols (k : nat) (m : np.matrix) : square k m -> np.ncols m = k.
Proof.
  intros [L F]. destruct m as [|row m]; simpl in *; [exact L|].
  inversion F; auto.
Qed.

Lemma ncols_map_app_nil (r : np.matrix) :
  np.ncols (map (fun row => np.zeros 0 ++ row) r) = np.ncols r.
Proof. destruct r; reflexivity. Qed.

Lemma block_diag_shape (k : nat) (blocks : list np.matrix) :
  Forall (square k) blocks ->
  length (np.block_diag blocks) = (length blocks * k)%nat /\
  np.ncols (np.block_diag blocks) = (length blocks * k)%nat.
Proof.
  induction 1 as [|b rest Hb Hrest [IHl IHc]]; simpl; [auto|].
  split.
  - rewrite length_app, !length_map, IHl. destruct Hb as [Lb _]. lia.
  - destruct Hb as [Lb Fb]. destruct b as [|row b]; simpl in *.
    + subst k. rewrite ncols_map_app_nil. lia.
    + inversion Fb; subst. rewrite length_app. unfold np.zeros.
      rewrite repeat_length, IHc. lia.
Qed.

Lemma getitem_columns_in (cols : list (string * list Z)) (name : string)
  (column : list Z) :
  getitem_columns cols name = Ok column -> exists k, In (k, column) cols.
Proof.
  induction cols as [|[k v] cols IH]; simpl; [discriminate|].
  destruct (String.eqb k name).
  - intros H. injection H as <-. exists k. auto.
  - intros H. destruct (IH H) as (k' & Hk'). exists k'. auto.
Qed.

(** The parts of a fitted ranking loss the later proofs read. *)
Lemma rankboost_fit_inv (n : nat) (pen col : string) (X : DataFrame)
  (y : list Z) (sample_weight : np.ndarray) (self : RankBoostLossFunction.t) :
  well_formed X y ->
  RankBoostLossFunction.fit n pen col X y sample_weight = Ok self ->
  Forall (channel_ok (length y)) (RankBoostLossFunction.channels self) /\
  RankBoostLossFunction.update_terations self = n /\
  RankBoostLossFunction.regularization self = 0.1 /\
  RankBoostLossFunction.regularization_ self = 0.1 * np.mean sample_weight.
Proof.
  intros [WL WC] F. unfold RankBoostLossFunction.fit in F.
  inv_bind F. rename v into queries.
  assert (Lq : length queries = length y).
  { unfold getitem in E. apply getitem_columns_in in E. destruct E as (k & Hk).
    rewrite (WC _ _ Hk). exact WL. }
  unfold np.unique_inverse in F.
  rewrite broadcast2_same in F by (rewrite !length_map; exact Lq).
  simpl in F. inv_bind F. rename v into rp.
  inv_bind F. injection F as <-.
  unfold assert in E1.
  destruct (Nat.eqb_spec
              (length (np.bincount_count
                         (map (fun v => np.index_of v (np.unique queries)) queries)))
              (length (np.unique queries))) as [Lnq|]; [|discriminate].
  pose proof (fill_rank_penalties_square _ _ _ E0) as Sq.
  set (k := length (np.unique y)) in *.
  split; [|split; [reflexivity|split; reflexivity]].
  unfold RankBoostLossFunction.channels. simpl.
  constructor; [|constructor; [|constructor]].
  - (* by rank *)
    simpl. split; [rewrite length_map; reflexivity|].
    pose proof (square_map (fun p => IZR p / sqrt (1 + INR (length y))) k rp Sq)
      as Sq'.
    rewrite (square_ncols _ _ Sq'). destruct Sq' as [-> _].
    eapply Forall_impl; [|apply unique_inverse_lt]. simpl. intros i Hi.
    fold k in Hi. lia.
  - (* by query and rank *)
    simpl. split; [unfold map2; rewrite length_map, length_combine, !length_map; lia|].
    set (blocks := map _ (np.bincount_count _)).
    assert (Hb : Forall (square k) blocks).
    { apply Forall_forall. intros b Hb. apply in_map_iff in Hb.
      destruct Hb as (nq & <- & _). apply square_map. exact Sq. }
    destruct (block_diag_shape k blocks Hb) as [-> ->].
    unfold blocks. rewrite length_map, Lnq.
    apply Forall_forall. intros i Hi. unfold map2 in Hi.
    apply in_map_iff in Hi. destruct Hi as ([q r] & <- & Hqr). simpl.
    pose proof (in_combine_l _ _ _ _ Hqr) as Hq.
    pose proof (in_combine_r _ _ _ _ Hqr) as Hr.
    pose proof (unique_inverse_lt queries) as Bq.
    pose proof (unique_inverse_lt y) as Br.
    rewrite Forall_forall in Bq, Br.
    specialize (Bq q Hq). specialize (Br r Hr). simpl in Bq, Br. fold k in Br.
    nia.
Qed.

Lemma dot_length (m : np.matrix) (v : np.ndarray) : length (np.dot m v) = length m.
Proof. apply length_map. Qed.

Lemma transpose_length (n : nat) (m : np.matrix) : length (np.transpose n m) = n.
Proof. unfold np.transpose. rewrite length_map. apply length_seq. Qed.

(** The statistics of one channel exist for arrays of the fitted length. *)
Lemma channel_stats (n : nat) (lookup : list nat) (len : nat) (P : np.matrix)
  (pos neg : np.ndarray) :
  channel_ok n (lookup, len, P) ->
  length pos = n -> length neg = n ->
  exists ps ns a b,
    np.bincount lookup pos len = Ok ps /\
    np.bincount lookup neg len = Ok ns /\
    np.take (np.dot P ns) lookup = Ok a /\
    np.take (np.dot (np.transpose (np.ncols P) P) ps) lookup = Ok b /\
    length a = n /\ length b = n.
Proof.
  intros [Ll Fl] Lp Ln.
  destruct (bincount_ok lookup pos len) as (ps & Eps & _); [congruence|].
  destruct (bincount_ok lookup neg len) as (ns & Ens & _); [congruence|].
  destruct (take_ok (np.dot P ns) lookup) as (a & Ea & La).
  { eapply Forall_impl; [|exact Fl]. simpl. intros i [Hi _].
    rewrite dot_length. exact Hi. }
  destruct (take_ok (np.dot (np.transpose (np.ncols P) P) ps) lookup)
    as (b & Eb & Lb).
  { eapply Forall_impl; [|exact Fl]. simpl. intros i [_ Hi].
    rewrite dot_length, transpose_length. exact Hi. }
  exists ps, ns, a, b. repeat split; auto; congruence.
Qed.

Lemma center_length (y_pred : np.ndarray) :
  length (RankBoostLossFunction.center y_pred) = length y_pred.
Proof. apply length_map. Qed.

Lemma rankboost_negative_gradient_ok (self : RankBoostLossFunction.t)
  (y_pred : np.ndarray) :
  Forall (channel_ok (length y_pred)) (RankBoostLossFunction.channels self) ->
  exists g,
    RankBoostLossFunction.negative_gradient self y_pred
      = Ok (g, RankBoostLossFunction.center y_pred) /\
    length g = length y_pred.
Proof.
  intros Hc. unfold RankBoostLossFunction.negative_gradient.
  set (c := RankBoostLossFunction.center y_pred).
  set (n := length y_pred) in *.
  assert (Lc : length c = n) by apply center_length.
  match goal with |- context [foldM ?body ?l ?acc] =>
    destruct (foldM_invariant (fun g => length g = n) body l acc)
      as (g & Eg & Lg) end.
  - intros g [[lookup len] P] Hin Lg. rewrite Forall_forall in Hc.
    destruct (channel_stats n lookup len P (map exp c) (map (fun v => exp (- v)) c)
                (Hc _ Hin)) as (ps & ns & a & b & Eps & Ens & Ea & Eb & La & Lb);
      [len..|].
    rewrite Eps; simpl. rewrite Ens; simpl. rewrite Ea; simpl.
    unfold np.mul. rewrite broadcast2_same by len. simpl.
    rewrite inplace2_same by len. simpl. rewrite Eb; simpl.
    rewrite broadcast2_same by len. simpl.
    rewrite inplace2_same by len.
    eexists; split; [reflexivity | len].
  - rewrite Lc. len.
  - rewrite Eg. simpl. eexists; split; [reflexivity | len].
Qed.

Lemma rankboost_hessian_ok (self : RankBoostLossFunction.t) (y_pred : np.ndarray) :
  Forall (channel_ok (length y_pred)) (RankBoostLossFunction.channels self) ->
  exists h,
    RankBoostLossFunction.hessian self y_pred
      = Ok (h, RankBoostLossFunction.center y_pred) /\
    length h = length y_pred.
Proof.
  intros Hc. unfold RankBoostLossFunction.hessian.
  set (c := RankBoostLossFunction.center y_pred).
  set (n := length y_pred) in *.
  assert (Lc : length c = n) by apply center_length.
  match goal with |- context [foldM ?body ?l ?acc] =>
    destruct (foldM_invariant (fun g => length g = n) body l acc)
      as (g & Eg & Lg) end.
  - intros g [[lookup len] P] Hin Lg. rewrite Forall_forall in Hc.
    destruct (channel_stats n lookup len P (map exp c) (map (fun v => exp (- v)) c)
                (Hc _ Hin)) as (ps & ns & a & b & Eps & Ens & Ea & Eb & La & Lb);
      [len..|].
    rewrite Eps; simpl. rewrite Ens; simpl. rewrite Ea; simpl.
    unfold np.mul. rewrite broadcast2_same by len. simpl.
    rewrite inplace2_same by len. simpl. rewrite Eb; simpl.
    rewrite broadcast2_same by len. simpl.
    rewrite inplace2_same by len.
    eexists; split; [reflexivity | len].
  - rewrite Lc. len.
  - rewrite Eg. simpl. eexists; split; [reflexivity | len].
Qed.

(** Centring an array that is centred leaves it as it is. *)
Lemma sum_map_minus (m : R) (a : np.ndarray) :
  np.sum (map (fun v => v - m) a) = np.sum a - INR (length a) * m.
Proof.
  induction a as [|x a IH]; [simpl; lra|].
  change (np.sum (map (fun v => v - m) (x :: a)))
    with ((x - m) + np.sum (map (fun v => v - m) a)).
  change (np.sum (x :: a)) with (x + np.sum a).
  rewrite IH. change (length (x :: a)) with (S (length a)). rewrite S_INR. lra.
Qed.

Lemma center_sum (y_pred : np.ndarray) :
  np.sum (RankBoostLossFunction.center y_pred) = 0.
Proof.
  unfold RankBoostLossFunction.center. rewrite sum_map_minus.
  destruct y_pred as [|x a]; [simpl; lra|].
  unfold np.mean. field. apply not_0_INR. simpl. lia.
Qed.

Lemma center_mean (y_pred : np.ndarray) :
  np.mean (RankBoostLossFunction.center y_pred) = 0.
Proof. unfold np.mean. rewrite center_sum. unfold Rdiv. apply Rmult_0_l. Qed.

Lemma center_idempotent (y_pred : np.ndarray) :
  RankBoostLossFunction.center (RankBoostLossFunction.center y_pred)
  = RankBoostLossFunction.center y_pred.
Proof.
  unfold RankBoostLossFunction.center at 1. rewrite center_mean.
  rewrite <- (map_id (RankBoostLossFunction.center y_pred)) at 2.
  apply map_ext. intros v. lra.
Qed.

Lemma rankboost_hessian_center (self : RankBoostLossFunction.t)
  (y_pred : np.ndarray) :
  RankBoostLossFunction.hessian self (RankBoostLossFunction.center y_pred)
  = RankBoostLossFunction.hessian self y_pred.
Proof.
  unfold RankBoostLossFunction.hessian. rewrite center_idempotent. reflexivity.
Qed.

(* ================================================================== *)
(** * The Newton step of prepare_tree_params *)

Lemma inherited_tree_params {Self : Type} `{HessianLossFunction.Methods Self}
  (self : Self) (y_pred g h a1 a2 : np.ndarray) :
  HessianLossFunction.negative_gradient self y_pred = Ok (g, a1) ->
  HessianLossFunction.hessian self a1 = Ok (h, a2) ->
  length g = length h ->
  HessianLossFunction.prepare_tree_params self y_pred
  = Ok ((map2 Rdiv g (map (fun v => v + 0.01) h), map (fun v => v + 0.01) h), a2).
Proof.
  intros Hg Hh L. unfold HessianLossFunction.prepare_tree_params.
  rewrite Hg; simpl. rewrite Hh; simpl.
  unfold np.div. rewrite broadcast2_same by len. reflexivity.
Qed.

Lemma mse_methods_ok (self : MSELossFunction.t) (y_pred : np.ndarray) :
  length (MSELossFunction.y self) = length y_pred ->
  length (MSELossFunction.sample_weight self) = length y_pred ->
  exists g,
    MSELossFunction.negative_gradient self y_pred = Ok g /\
    length g = length y_pred.
Proof.
  intros Ey Ew. unfold MSELossFunction.negative_gradient, np.sub, np.mul.
  rewrite broadcast2_same by len. simpl.
  rewrite broadcast2_same by len.
  eexists; split; [reflexivity | len].
Qed.

(** The shapes a fitted matrix loss has, by the assertions of [fit]. *)
Lemma matrix_fit_inv
  (cp : DataFrame -> list Z -> np.ndarray -> result (np.matrix * np.ndarray))
  (reg : R) (X : DataFrame) (y : list Z) (sample_weight : np.ndarray)
  (self : AbstractMatrixLossFunction.t) :
  AbstractMatrixLossFunction.fit cp reg X y sample_weight = Ok self ->
  snd (AbstractMatrixLossFunction.A_shape self) = length y /\
  length (AbstractMatrixLossFunction.y_signed self) = length y /\
  length (AbstractMatrixLossFunction.w self)
    = length (AbstractMatrixLossFunction.A self) /\
  length (AbstractMatrixLossFunction.A_t self) = length y /\
  length (AbstractMatrixLossFunction.A_t_sq self) = length y.
Proof.
  unfold AbstractMatrixLossFunction.fit. intros F.
  inv_bind F. unfold assert in E.
  destruct (Nat.eqb_spec (df_len X) (length y)) as [LX|]; [|discriminate].
  inv_bind F. destruct v0 as [A0 w0]. inv_bind F.
  unfold AbstractMatrixLossFunction.csr_matrix in E1.
  destruct (forallb _ A0); [|discriminate]. injection E1 as <-.
  inv_bind F. unfold assert in E1.
  destruct (Nat.eqb_spec (length A0) (length w0)) as [LA|]; [|discriminate].
  inv_bind F. unfold assert in E2.
  destruct (Nat.eqb_spec (np.ncols A0) (df_len X)) as [LC|]; [|discriminate].
  injection F as <-. simpl.
  rewrite length_map, transpose_length. len.
Qed.

Lemma matrix_methods_ok (self : AbstractMatrixLossFunction.t) (y_pred : np.ndarray) :
  snd (AbstractMatrixLossFunction.A_shape self) = length y_pred ->
  length (AbstractMatrixLossFunction.y_signed self) = length y_pred ->
  length (AbstractMatrixLossFunction.w self)
    = length (AbstractMatrixLossFunction.A self) ->
  length (AbstractMatrixLossFunction.A_t self) = length y_pred ->
  length (AbstractMatrixLossFunction.A_t_sq self) = length y_pred ->
  exists g h,
    AbstractMatrixLossFunction.negative_gradient self y_pred = Ok g /\
    AbstractMatrixLossFunction.hessian self y_pred = Ok h /\
    length g = length y_pred /\ length h = length y_pred.
Proof.
  intros Hs Ly Lw Lt Lq.
  unfold AbstractMatrixLossFunction.negative_gradient,
    AbstractMatrixLossFunction.hessian, AbstractMatrixLossFunction.exponents,
    np.mul, assert.
  rewrite Hs, Nat.eqb_refl. simpl.
  rewrite broadcast2_same by len. simpl.
  rewrite broadcast2_same by (rewrite length_map, dot_length; exact Lw). simpl.
  rewrite broadcast2_same by (rewrite dot_length; len).
  eexists; eexists. split; [reflexivity|]. split; [reflexivity|].
  split; [unfold map2; rewrite length_map, length_combine, dot_length; len
         | rewrite dot_length; exact Lq].
Qed.

(** C2.  For every fitted loss derived from HessianLossFunction and every
    prediction vector of the fitted length, [prepare_tree_params] returns the
    pair [(negative_gradient / (hessian + 0.01), hessian + 0.01)]. *)
Theorem prepare_tree_params_newton
  (p : HessianLossParams) (X : DataFrame) (y : list Z)
  (sample_weight y_pred : np.ndarray) (l : HessianLoss) :
  fit p X y sample_weight = Ok l ->
  well_formed X y ->
  length sample_weight = length y ->
  length y_pred = length y ->
  newton_tree_params l y_pred.
Proof.
  intros F WF Ew Ep. unfold newton_tree_params.
  destruct p as [reg|reg|reg|reg|col pen n|cp reg]; simpl in F.
  - (* Ada *)
    injection F as <-.
    match goal with |- context [Ada ?s0] => set (s := s0) end.
    destruct (ada_negative_gradient_ok s y_pred) as (g & Eg & Lg);
      [simpl; len | simpl; len |].
    destruct (ada_hessian_ok s y_pred) as (h & Eh & Lh); [simpl; len | simpl; len |].
    assert (Hg : HessianLossFunction.negative_gradient s y_pred = Ok (g, y_pred)).
    { simpl. unfold pure_method. rewrite Eg. reflexivity. }
    assert (Hh : HessianLossFunction.hessian s y_pred = Ok (h, y_pred)).
    { simpl. unfold pure_method. rewrite Eh. reflexivity. }
    exists g, h, y_pred. repeat split; auto.
    apply inherited_tree_params with (a1 := y_pred); auto. congruence.
  - (* MSE *)
    injection F as <-.
    match goal with |- context [MSE ?s0] => set (s := s0) end.
    destruct (mse_methods_ok s y_pred) as (g & Eg & Lg); [simpl; len | simpl; len |].
    assert (Hg : HessianLossFunction.negative_gradient s y_pred = Ok (g, y_pred)).
    { simpl. unfold pure_method. rewrite Eg. reflexivity. }
    assert (Hh : HessianLossFunction.hessian s y_pred = Ok (sample_weight, y_pred)).
    { reflexivity. }
    exists g, sample_weight, y_pred. repeat split; auto; try congruence.
    apply inherited_tree_params with (a1 := y_pred); auto. congruence.
  - (* Log *)
    injection F as <-.
    match goal with |- context [LogLoss ?s0] => set (s := s0) end.
    destruct (log_negative_gradient_ok s y_pred) as (g & Eg & Lg);
      [simpl; len | simpl; len |].
    destruct (log_hessian_ok s y_pred) as (h & Eh & Lh); [simpl; len | simpl; len |].
    assert (Hg : HessianLossFunction.negative_gradient s y_pred = Ok (g, y_pred)).
    { simpl. unfold pure_method. rewrite Eg. reflexivity. }
    assert (Hh : HessianLossFunction.hessian s y_pred = Ok (h, y_pred)).
    { simpl. unfold pure_method. rewrite Eh. reflexivity. }
    exists g, h, y_pred. repeat split; auto.
    apply inherited_tree_params with (a1 := y_pred); auto. congruence.
  - (* Composite *)
    inv_bind F. injection F as <-. rename v into s.
    destruct (composite_fit_inv reg X y sample_weight s Ew E)
      as (Ls & Lb & _ & _ & _).
    destruct (composite_negative_gradient_ok s y_pred) as (g & Eg & Lg);
      [congruence..|].
    destruct (composite_hessian_ok s y_pred) as (h & Eh & Lh); [congruence..|].
    assert (Hg : HessianLossFunction.negative_gradient s y_pred = Ok (g, y_pred)).
    { simpl. unfold pure_method. rewrite Eg. reflexivity. }
    assert (Hh : HessianLossFunction.hessian s y_pred = Ok (h, y_pred)).
    { simpl. unfold pure_method. rewrite Eh. reflexivity. }
    exists g, h, y_pred. repeat split; auto.
    apply inherited_tree_params with (a1 := y_pred); auto. congruence.
  - (* RankBoost *)
    inv_bind F. injection F as <-. rename v into s.
    destruct (rankboost_fit_inv n pen col X y sample_weight s WF E) as (Hc & _).
    rewrite <- Ep in Hc.
    destruct (rankboost_negative_gradient_ok s y_pred Hc) as (g & Eg & Lg).
    destruct (rankboost_hessian_ok s y_pred Hc) as (h & Eh & Lh).
    exists g, h, (RankBoostLossFunction.center y_pred).
    repeat split; auto.
    apply inherited_tree_params with (a1 := RankBoostLossFunction.center y_pred);
      [exact Eg | | congruence].
    simpl. rewrite rankboost_hessian_center. exact Eh.
  - (* matrix losses *)
    inv_bind F. injection F as <-. rename v into s.
    destruct (matrix_fit_inv cp reg X y sample_weight s E)
      as (Hs & Ly & Lw & Lt & Lq).
    destruct (matrix_methods_ok s y_pred) as (g & h & Eg & Eh & Lg & Lh);
      [congruence..|].
    assert (Hg : HessianLossFunction.negative_gradient s y_pred = Ok (g, y_pred)).
    { simpl. unfold pure_method. rewrite Eg. reflexivity. }
    assert (Hh : HessianLossFunction.hessian s y_pred = Ok (h, y_pred)).
    { simpl. unfold pure_method. rewrite Eh. reflexivity. }
    exists g, h, y_pred. repeat split; auto.
    apply inherited_tree_params with (a1 := y_pred); auto. congruence.
Qed.

(* ================================================================== *)
(** * RankBoostLossFunction: the caller's array *)

Lemma rankboost_call_ok (self : RankBoostLossFunction.t) (y_pred : np.ndarray) :
  Forall (channel_ok (length y_pred)) (RankBoostLossFunction.channels self) ->
  exists v,
    RankBoostLossFunction.__call__ self y_pred
      = Ok (v, RankBoostLossFunction.center y_pred).
Proof.
  intros Hc. unfold RankBoostLossFunction.__call__.
  set (c := RankBoostLossFunction.center y_pred).
  assert (Lc : length c = length y_pred) by apply center_length.
  match goal with |- context [foldM ?body ?l ?acc] =>
    destruct (foldM_invariant (fun _ => True) body l acc) as (r & Er & _) end.
  - intros r [[lookup len] P] Hin _. rewrite Forall_forall in Hc.
    destruct (Hc _ Hin) as [Ll _].
    destruct (bincount_ok lookup (map exp c) len) as (ps & Eps & _); [len|].
    destruct (bincount_ok lookup (map (fun v => exp (- v)) c) len)
      as (ns & Ens & _); [len|].
    rewrite Eps; simpl. rewrite Ens; simpl. eexists; split; [reflexivity | exact I].
  - exact I.
  - rewrite Er. simpl. eexists; reflexivity.
Qed.

Lemma center_changes (y_pred : np.ndarray) :
  np.mean y_pred <> 0 -> RankBoostLossFunction.center y_pred <> y_pred.
Proof.
  intros Hm Hc. destruct y_pred as [|x a].
  - apply Hm. unfold np.mean. simpl. lra.
  - unfold RankBoostLossFunction.center in Hc. simpl in Hc.
    injection Hc as Hx _. lra.
Qed.

(** C8.  For a fitted RankBoostLossFunction, each of [__call__],
    [negative_gradient] and [hessian] leaves in the caller's [y_pred] array
    the predictions minus their mean: the array is mean-centred after the
    call, and it is changed whenever the mean was not zero. *)
Theorem rankboost_methods_center_the_argument
  (n : nat) (pen col : string) (X : DataFrame) (y : list Z)
  (sample_weight y_pred : np.ndarray) (self : RankBoostLossFunction.t) :
  RankBoostLossFunction.fit n pen col X y sample_weight = Ok self ->
  well_formed X y ->
  length y_pred = length y ->
  let after := map (fun v => v - np.mean y_pred) y_pred in
  (exists v, RankBoostLossFunction.__call__ self y_pred = Ok (v, after)) /\
  (exists g, RankBoostLossFunction.negative_gradient self y_pred = Ok (g, after)) /\
  (exists h, RankBoostLossFunction.hessian self y_pred = Ok (h, after)) /\
  np.mean after = 0 /\
  (np.mean y_pred <> 0 -> after <> y_pred).
Proof.
  intros F WF Ep after.
  destruct (rankboost_fit_inv n pen col X y sample_weight self WF F) as (Hc & _).
  rewrite <- Ep in Hc.
  destruct (rankboost_call_ok self y_pred Hc) as (v & Ev).
  destruct (rankboost_negative_gradient_ok self y_pred Hc) as (g & Eg & _).
  destruct (rankboost_hessian_ok self y_pred Hc) as (h & Eh & _).
  split; [exists v; exact Ev|]. split; [exists g; exact Eg|].
  split; [exists h; exact Eh|]. split.
  - apply center_mean.
  - apply center_changes.
Qed.

(* ================================================================== *)
(** * Evaluation on concrete inputs *)

(** Evaluates the list and integer parts and leaves the real numbers. *)
Ltac evalR :=
  cbv -[Rplus Rmult Rminus Rdiv Rinv Ropp exp ln sqrt IZR INR Rabs Rmax Rmin
        Rlt_dec Rle_dec Req_dec_T Rpower].

Ltac evalR_in H :=
  cbv -[Rplus Rmult Rminus Rdiv Rinv Ropp exp ln sqrt IZR INR Rabs Rmax Rmin
        Rlt_dec Rle_dec Req_dec_T Rpower] in H.

Lemma Rdiv_zero_l (x : R) : 0 / x = 0.
Proof. unfold Rdiv. apply Rmult_0_l. Qed.

Lemma Rdiv_one_r (x : R) : x / 1 = x.
Proof. unfold Rdiv. rewrite Rinv_1. apply Rmult_1_r. Qed.

Lemma INR_one : INR 1 = 1.
Proof. reflexivity. Qed.

Create Rewrite HintDb rsimp.
#[local] Hint Rewrite Rmult_0_l Rmult_0_r Rplus_0_l Rplus_0_r Rmult_1_l Rmult_1_r
  Ropp_0 exp_0 Rminus_0_r Rdiv_zero_l Rdiv_one_r INR_one Rminus_diag ln_1 : rsimp.

Lemma well_formed_frame (n : nat) (name : string) (column : list Z) (y : list Z) :
  n = length y -> length column = n -> well_formed (frame n name column) y.
Proof.
  intros Hy Hc. split; [exact Hy|].
  intros k c [H|[]]. injection H as <- <-. exact Hc.
Defined.

Lemma hessian_leaf_update_newton_witness :
  (exists l, fit (AdaParams 5) (frame 2 "x" [0; 0]%Z) [1; 0]%Z [1; 1] = Ok l) /\
  newton_leaves (AdaParams 5) (frame 2 "x" [0; 0]%Z) [1; 0]%Z [1; 1]
    [0; 1]%nat [0; 0] [0; 0] [1; -1] /\
  (constructor_regularization (AdaParams 5) = 0 ->
   (forall r, In r [0; 1]%nat -> r = O) ->
   length [0; 0] = 1%nat ->
   forall l h after,
     fit (AdaParams 5) (frame 2 "x" [0; 0]%Z) [1; 0]%Z [1; 1] = Ok l ->
     hessian l [0; 0] = Ok (h, after) ->
     prepare_new_leaves_values l [0; 1]%nat [0; 0] [1; 0]%Z [0; 0] [1; -1]
       = Ok ([np.sum [1; -1] / np.sum h], [0; 0])).
Proof.
  apply (hessian_leaf_update_newton (AdaParams 5) (frame 2 "x" [0; 0]%Z)
           [1; 0]%Z [1; 1] [0; 0] [1; -1] [0; 0] [0; 1]%nat);
    [exact I | reflexivity | reflexivity | reflexivity | reflexivity].
Defined.

(** C1, counterexample.  The ranking loss is derived from
    HessianLossFunction and overrides the leaf update: for one event, with
    residual 1, it returns the leaf value 0, where the described formula
    gives [1 / (0 + 0.1)]. *)
Lemma rankboost_leaves_are_not_newton :
  ~ newton_leaves (RankBoostParams "query" "square" 1) (frame 1 "query" [0%Z])
      [0%Z] [1] [0%nat] [0] [0] [1].
Proof.
  intros Hc.
  destruct (Hc _ eq_refl) as (h & leaves & a1 & a2 & Hh & Hp & Hlen & Hval).
  evalR_in Hh. evalR_in Hp.
  injection Hh as <- _. injection Hp as <- _.
  specialize (Hval 0%nat (Nat.lt_0_succ _)). clear Hlen.
  evalR_in Hval. autorewrite with rsimp in Hval.
  match type of Hval with context [ln ?x] =>
    replace x with 1 in Hval by (field; lra) end.
  autorewrite with rsimp in Hval. lra.
Qed.

(* ================================================================== *)
(** * RankBoostLossFunction: the iterated leaf update *)

Lemma map2_map_l {A B C D : Type} (f : B -> C -> D) (g : A -> B)
  (a : list A) (b : list C) :
  map2 f (map g a) b = map2 (fun x y => f (g x) y) a b.
Proof.
  unfold map2. revert b. induction a as [|x a IH]; intros [|z b]; simpl; auto.
  f_equal. apply IH.
Qed.

Lemma map2_zeros_ext (f g : R -> R -> R) (a : np.ndarray) (n : nat) :
  (forall x, f x 0 = g x 0) -> map2 f a (np.zeros n) = map2 g a (np.zeros n).
Proof.
  intros H. unfold map2, np.zeros. revert n.
  induction a as [|x a IH]; intros [|n]; simpl; auto.
  rewrite H. f_equal. apply IH.
Qed.

Lemma bincount_size_bound (x : list nat) :
  Forall (fun i => (i < np.bincount_size x 0)%nat) x.
Proof.
  destruct x as [|i x]; [constructor|].
  unfold np.bincount_size. apply Forall_forall. intros j Hj.
  assert (H : (list_max (i :: x) <= list_max (i :: x))%nat) by lia.
  apply list_max_le in H. rewrite Forall_forall in H. specialize (H j Hj). lia.
Qed.

(** The closed-form step returns one value per leaf. *)
Lemma rankboost_closed_form_ok (self : RankBoostLossFunction.t)
  (terminal_regions : list nat) (y_pred : np.ndarray) :
  Forall (channel_ok (length y_pred)) (RankBoostLossFunction.channels self) ->
  length terminal_regions = length y_pred ->
  exists new,
    RankBoostLossFunction._prepare_new_leaves_values self terminal_regions y_pred
      = Ok new /\
    length new = np.bincount_size terminal_regions 0.
Proof.
  intros Hc Lt. unfold RankBoostLossFunction._prepare_new_leaves_values.
  set (n := length y_pred) in *.
  match goal with |- context [foldM ?body ?l ?acc] =>
    destruct (foldM_invariant
                (fun w : list R * list R =>
                   length (fst w) = n /\ length (snd w) = n) body l acc)
      as ([wp wm] & Ew & Lp & Lm) end.
  - intros [wp wm] [[lookup len] P] Hin [Lp Lm]. simpl in Lp, Lm.
    rewrite Forall_forall in Hc.
    destruct (channel_stats n lookup len P (map exp y_pred)
                (map (fun v => exp (- v)) y_pred) (Hc _ Hin))
      as (ps & ns & a & b & Eps & Ens & Ea & Eb & La & Lb); [len..|].
    rewrite Eps; simpl. rewrite Ens; simpl. rewrite Ea; simpl.
    rewrite inplace2_same by len. simpl. rewrite Eb; simpl.
    rewrite inplace2_same by len. simpl.
    eexists; split; [reflexivity|]. simpl. split; len.
  - simpl. split; len.
  - simpl in Lp, Lm. rewrite Ew; simpl.
    unfold np.mul. rewrite broadcast2_same by len. simpl.
    destruct (bincount_ok terminal_regions
                (map2 Rmult wp (map exp y_pred)) 0) as (bp & Ebp & Lbp & _); [len|].
    rewrite Ebp; simpl.
    rewrite broadcast2_same by len. simpl.
    destruct (bincount_ok terminal_regions
                (map2 Rmult wm (map (fun v => exp (- v)) y_pred)) 0)
      as (bm & Ebm & Lbm & _); [len|].
    rewrite Ebm; simpl.
    unfold np.div. rewrite broadcast2_same by len. simpl.
    eexists; split; [reflexivity | len].
Qed.

(** One pass of the loop returns, and adds half of its result. *)
Lemma rankboost_step_ok (self : RankBoostLossFunction.t)
  (terminal_regions : list nat) (y_pred leaves_values : np.ndarray) :
  Forall (channel_ok (length y_pred)) (RankBoostLossFunction.channels self) ->
  length terminal_regions = length y_pred ->
  length leaves_values = np.bincount_size terminal_regions 0 ->
  exists new next,
    RankBoostLossFunction.update_step self terminal_regions y_pred leaves_values
      = Ok (new, next) /\
    closed_form self terminal_regions y_pred leaves_values = Ok new /\
    half_step leaves_values new next /\
    length new = length leaves_values /\
    length next = length leaves_values.
Proof.
  intros Hc Lt Ll.
  unfold RankBoostLossFunction.update_step, closed_form.
  destruct (take_ok leaves_values terminal_regions) as (shift & Es & Ls).
  { rewrite Ll. apply bincount_size_bound. }
  rewrite Es; simpl.
  unfold np.add. rewrite broadcast2_same by congruence. simpl.
  destruct (rankboost_closed_form_ok self terminal_regions (map2 Rplus y_pred shift))
    as (new & En & Ln).
  { rewrite map2_length by congruence. exact Hc. }
  { rewrite map2_length by congruence. exact Lt. }
  rewrite En; simpl.
  rewrite broadcast2_same by len.
  exists new, (map2 Rplus (map (Rmult 0.5) new) leaves_values).
  split; [reflexivity|]. split; [reflexivity|].
  split; [unfold half_step; apply map2_map_l|].
  split; [congruence | len].
Qed.

(** The loop and its trace. *)
Lemma rankboost_loop_ok (self : RankBoostLossFunction.t)
  (terminal_regions : list nat) (y_pred : np.ndarray) (n : nat) :
  Forall (channel_ok (length y_pred)) (RankBoostLossFunction.channels self) ->
  length terminal_regions = length y_pred ->
  forall leaves_values,
    length leaves_values = np.bincount_size terminal_regions 0 ->
    exists leaves trace,
      RankBoostLossFunction.update_loop self terminal_regions y_pred n leaves_values
        = Ok leaves /\
      RankBoostLossFunction.update_trace self terminal_regions y_pred n leaves_values
        = Ok trace /\
      length trace = n /\
      chained leaves_values trace leaves /\
      Forall (fun pass =>
                let '(previous, new, next) := pass in
                closed_form self terminal_regions y_pred previous = Ok new /\
                half_step previous new next) trace.
Proof.
  intros Hc Lt. induction n as [|n IH]; intros lv Ll; simpl.
  - exists lv, []. simpl. auto.
  - destruct (rankboost_step_ok self terminal_regions y_pred lv Hc Lt Ll)
      as (new & next & Es & Ec & Hh & Ln & Lx).
    rewrite Es; simpl.
    destruct (IH next) as (leaves & trace & El & Et & Lt' & Hch & Hall);
      [congruence|].
    rewrite El, Et. simpl.
    exists leaves, ((lv, new, next) :: trace).
    repeat split; simpl; auto.
Qed.

(** C3 (as amended).  For a fitted RankBoostLossFunction with
    [update_iterations = n], [prepare_new_leaves_values] starts from all-zero
    leaf values and makes [n] passes; after each pass the running estimate is
    the estimate before it plus one half of the closed-form result
    [0.5 * log(w_minus_leaf / w_plus_leaf)] of the pass.  For [n <= 1], the
    default included, this is the arithmetic mean of the result and the
    (zero) estimate before it. *)
Theorem rankboost_leaf_update_half_steps
  (n : nat) (pen col : string) (X : DataFrame) (y : list Z)
  (sample_weight : np.ndarray) (self : RankBoostLossFunction.t)
  (terminal_regions : list nat) (leaf_values y_pred residual : np.ndarray) :
  RankBoostLossFunction.fit n pen col X y sample_weight = Ok self ->
  well_formed X y ->
  length y_pred = length y ->
  length terminal_regions = length y ->
  length leaf_values = np.bincount_size terminal_regions 0 ->
  RankBoostLossFunction.update_terations self = n /\
  leaf_iteration half_step self terminal_regions leaf_values y_pred residual /\
  ((n <= 1)%nat ->
   leaf_iteration blend_50_50 self terminal_regions leaf_values y_pred residual).
Proof.
  intros F WF Ep Et El.
  destruct (rankboost_fit_inv n pen col X y sample_weight self WF F)
    as (Hc & Hn & _).
  rewrite <- Ep in Hc.
  destruct (rankboost_loop_ok self terminal_regions y_pred n Hc
              ltac:(congruence) (np.zeros (length leaf_values)))
    as (leaves & trace & Eloop & Etrace & Ltrace & Hch & Hall); [len|].
  split; [exact Hn|].
  assert (Hprep :
    RankBoostLossFunction.prepare_new_leaves_values self terminal_regions
      leaf_values y_pred residual = Ok (leaves, y_pred)).
  { unfold RankBoostLossFunction.prepare_new_leaves_values.
    rewrite Hn, Eloop. reflexivity. }
  split.
  - exists leaves, trace. rewrite Hn. auto.
  - intros Hle. exists leaves, trace. rewrite Hn.
    repeat split; auto.
    destruct trace as [|[[previous new] next] [|pass rest]]; simpl in Ltrace;
      [constructor | | lia].
    destruct Hch as [-> _]. inversion Hall as [|? ? Hhead _]; subst.
    simpl in Hhead. destruct Hhead as [Hcf Hhs].
    constructor; [|constructor]. split; [exact Hcf|].
    unfold blend_50_50. unfold half_step in Hhs. rewrite Hhs.
    apply map2_zeros_ext. intros x. lra.
Qed.

Lemma two_ranks_fit (n : nat) :
  RankBoostLossFunction.fit n "square" "query" (frame 2 "query" [0; 0]%Z)
    [0; 1]%Z [1; 1] = Ok (two_ranks n).
Proof. reflexivity. Defined.

Lemma update_trace_S (self : RankBoostLossFunction.t) (terminal_regions : list nat)
  (y_pred : np.ndarray) (m : nat) (leaves_values : np.ndarray) :
  RankBoostLossFunction.update_trace self terminal_regions y_pred (S m) leaves_values
  = bind (RankBoostLossFunction.update_step self terminal_regions y_pred leaves_values)
      (fun x => let '(new, next) := x in
         bind (RankBoostLossFunction.update_trace self terminal_regions y_pred m next)
           (fun rest => Ok ((leaves_values, new, next) :: rest))).
Proof. reflexivity. Qed.

(** C3, counterexample.  Two events of one query with the ranks 0 and 1, each
    in a leaf of its own, and two passes: the estimate after the second pass
    is not the arithmetic mean of the result of that pass and the estimate
    after the first. *)
Lemma rankboost_second_pass_is_not_a_blend :
  ~ leaf_iteration blend_50_50 (two_ranks 2) [0; 1]%nat [0; 0] [0; 0] [0; 0].
Proof.
  intros (leaves & trace & _ & Ht & _ & _ & Hall).
  destruct (rankboost_fit_inv 2 "square" "query" _ _ _ _
              (well_formed_frame 2 "query" [0; 0]%Z [0; 1]%Z eq_refl eq_refl)
              (two_ranks_fit 2)) as (Hc & _).
  change (RankBoostLossFunction.update_terations (two_ranks 2)) with 2%nat in Ht.
  change (np.zeros (length [0; 0])) with (np.zeros 2) in Ht.
  rewrite update_trace_S in Ht.
  destruct (rankboost_step_ok (two_ranks 2) [0; 1]%nat [0; 0] (np.zeros 2)
              Hc eq_refl eq_refl) as (new1 & next1 & E1 & C1 & H1 & Ln1 & Lx1).
  rewrite E1 in Ht. cbn [bind] in Ht. rewrite update_trace_S in Ht.
  destruct (rankboost_step_ok (two_ranks 2) [0; 1]%nat [0; 0] next1 Hc eq_refl Lx1)
    as (new2 & next2 & E2 & C2 & H2 & Ln2 & Lx2).
  rewrite E2 in Ht. cbn [bind RankBoostLossFunction.update_trace] in Ht.
  injection Ht as <-.
  inversion Hall as [|? ? _ Hall2]; subst. inversion Hall2 as [|? ? Hb _]; subst.
  simpl in Hb. destruct Hb as [_ Hb]. unfold blend_50_50 in Hb.
  unfold half_step in H2. rewrite H2 in Hb. clear H2 E1 E2 C2 Hall Hall2 Hc.
  unfold closed_form in C1. evalR_in C1. autorewrite with rsimp in C1.
  injection C1 as <-.
  unfold half_step in H1. evalR_in H1. subst next1.
  destruct new2 as [|c [|d [|? ?]]]; simpl in Ln2; try discriminate.
  evalR_in Hb. injection Hb as _ Hb.
  match type of Hb with context [sqrt ?t] =>
    set (s := sqrt t) in *;
    assert (Hs : 0 < / s) by (apply Rinv_0_lt_compat, sqrt_lt_R0; lra) end.
  match type of Hb with context [ln ?x] =>
    assert (Hx : 1 < x) by (unfold Rdiv; rewrite Rinv_inv; lra);
    pose proof (ln_increasing 1 x Rlt_0_1 Hx) as Hln end.
  rewrite ln_1 in Hln. lra.
Qed.

Lemma rankboost_leaf_update_half_steps_witness :
  RankBoostLossFunction.update_terations (two_ranks 2) = 2%nat /\
  leaf_iteration half_step (two_ranks 2) [0; 1]%nat [0; 0] [0; 0] [0; 0] /\
  ((2 <= 1)%nat ->
   leaf_iteration blend_50_50 (two_ranks 2) [0; 1]%nat [0; 0] [0; 0] [0; 0]).
Proof.
  apply (rankboost_leaf_update_half_steps 2 "square" "query"
           (frame 2 "query" [0; 0]%Z) [0; 1]%Z [1; 1] (two_ranks 2)
           [0; 1]%nat [0; 0] [0; 0] [0; 0]
           (two_ranks_fit 2)
           (well_formed_frame 2 "query" [0; 0]%Z [0; 1]%Z eq_refl eq_refl)
           eq_refl eq_refl eq_refl).
Defined.

Lemma prepare_tree_params_newton_witness :
  newton_tree_params (RankBoost (two_ranks 1)) [1; 3].
Proof.
  apply (prepare_tree_params_newton (RankBoostParams "query" "square" 1)
           (frame 2 "query" [0; 0]%Z) [0; 1]%Z [1; 1] [1; 3]
           (RankBoost (two_ranks 1)));
    [reflexivity
    | exact (well_formed_frame 2 "query" [0; 0]%Z [0; 1]%Z eq_refl eq_refl)
    | reflexivity | reflexivity].
Defined.

Lemma rankboost_methods_center_the_argument_witness :
  let after := map (fun v => v - np.mean [1; 3]) [1; 3] in
  (exists v, RankBoostLossFunction.__call__ (two_ranks 1) [1; 3] = Ok (v, after)) /\
  (exists g,
     RankBoostLossFunction.negative_gradient (two_ranks 1) [1; 3] = Ok (g, after)) /\
  (exists h, RankBoostLossFunction.hessian (two_ranks 1) [1; 3] = Ok (h, after)) /\
  np.mean after = 0 /\
  (np.mean [1; 3] <> 0 -> after <> [1; 3]).
Proof.
  apply (rankboost_methods_center_the_argument 1 "square" "query"
           (frame 2 "query" [0; 0]%Z) [0; 1]%Z [1; 1] [1; 3] (two_ranks 1)
           (two_ranks_fit 1)
           (well_formed_frame 2 "query" [0; 0]%Z [0; 1]%Z eq_refl eq_refl)
           eq_refl).
Defined.

(* ================================================================== *)
(** * RankBoostLossFunction: indexing by the raw labels *)

Lemma insert_unique_sorted (v : Z) (l : list Z) :
  StronglySorted Z.lt l -> StronglySorted Z.lt (np.insert_unique v l).
Proof.
  induction 1 as [|h t Ht IH Hh]; simpl.
  - constructor; constructor.
  - destruct (Z.ltb_spec v h).
    + constructor; [constructor; assumption|].
      constructor; [assumption|].
      eapply Forall_impl; [|exact Hh]. simpl. intros z Hz. lia.
    + destruct (Z.eqb_spec v h).
      * constructor; assumption.
      * constructor; [exact IH|].
        apply Forall_forall. intros z Hz. apply in_insert_unique in Hz.
        destruct Hz as [->|Hz]; [lia|].
        rewrite Forall_forall in Hh. auto.
Qed.

Lemma unique_sorted (a : list Z) : StronglySorted Z.lt (np.unique a).
Proof.
  unfold np.unique. induction a as [|v a IH]; simpl.
  - constructor.
  - apply insert_unique_sorted. exact IH.
Qed.

Lemma sorted_NoDup (l : list Z) : StronglySorted Z.lt l -> NoDup l.
Proof.
  induction 1 as [|h t Ht IH Hh]; constructor; auto.
  intros Hin. rewrite Forall_forall in Hh. specialize (Hh h Hin). lia.
Qed.

Lemma index_of_nth (l : list Z) (i : nat) :
  NoDup l -> (i < length l)%nat -> np.index_of (nth i l 0%Z) l = i.
Proof.
  intros Hnd. revert i. induction Hnd as [|h t Hh Hnd IH]; intros [|i] Hi;
    simpl in *; try lia.
  - rewrite Z.eqb_refl. reflexivity.
  - destruct (Z.eqb_spec (nth i t 0%Z) h) as [E|_].
    + exfalso. apply Hh. rewrite <- E. apply nth_In. lia.
    + f_equal. apply IH. lia.
Qed.

Lemma list_max_in (x : list nat) (v : nat) : In v x -> (v <= list_max x)%nat.
Proof.
  intros Hv. assert (H : (list_max x <= list_max x)%nat) by lia.
  apply list_max_le in H. rewrite Forall_forall in H. auto.
Qed.

(** [numpy.bincount] of the inverse of [unique] has one bin per distinct
    value, so the assertion of [fit] on [n_queries] holds. *)
Lemma bincount_count_inverse_length (a : list Z) :
  length (np.bincount_count (map (fun v => np.index_of v (np.unique a)) a))
  = length (np.unique a).
Proof.
  unfold np.bincount_count. rewrite length_map, length_seq.
  destruct a as [|v a]; [reflexivity|].
  set (U := np.unique (v :: a)).
  set (x := map (fun z => np.index_of z U) (v :: a)).
  change (np.bincount_size x 0) with (Nat.max 0 (S (list_max x))).
  assert (HU : (0 < length U)%nat).
  { assert (Hv : In v U) by (apply in_unique; left; reflexivity).
    destruct U; [contradiction | simpl; lia]. }
  assert (Hle : (list_max x < length U)%nat).
  { pose proof (unique_inverse_lt (v :: a)) as B. fold U in B. fold x in B.
    apply list_max_lt; [|exact B]. intro Hx. subst x. discriminate. }
  assert (Hge : (length U - 1 <= list_max x)%nat).
  { apply list_max_in. unfold x. apply in_map_iff.
    exists (nth (length U - 1) U 0%Z). split.
    - apply index_of_nth; [apply sorted_NoDup, unique_sorted | lia].
    - apply in_unique. fold U. apply nth_In. lia. }
  lia.
Qed.

(** A loop whose body fails exactly on the elements that are not [good],
    whatever the accumulator. *)
Lemma foldM_decided {A B : Type} (good : A -> bool) (e : exn)
  (body : B -> A -> result B) :
  (forall b a, good a = true -> exists b', body b a = Ok b') ->
  (forall b a, good a = false -> body b a = Raise e) ->
  forall l acc,
    if forallb good l then exists r, foldM body l acc = Ok r
    else foldM body l acc = Raise e.
Proof.
  intros Hok Hbad. induction l as [|a l IH]; intros acc; simpl.
  - exists acc. reflexivity.
  - destruct (good a) eqn:G; simpl.
    + destruct (Hok acc a G) as (b' & E). rewrite E. simpl. apply IH.
    + rewrite (Hbad acc a G). reflexivity.
Qed.

Lemma index_acceptedb_spec (k : nat) (r : Z) :
  index_acceptedb k r = true <-> index_accepted k r.
Proof.
  unfold index_acceptedb, index_accepted.
  rewrite andb_true_iff, Z.leb_le, Z.ltb_lt. tauto.
Qed.

Lemma normalize_index_decided (k : nat) (r : Z) :
  if index_acceptedb k r
  then exists i, RankBoostLossFunction.normalize_index k r = Ok i
  else RankBoostLossFunction.normalize_index k r = Raise IndexError.
Proof.
  unfold index_acceptedb, RankBoostLossFunction.normalize_index.
  destruct (Z.leb_spec (- Z.of_nat k) r), (Z.ltb_spec r (Z.of_nat k)),
    (Z.leb_spec 0 r), (Z.ltb_spec r 0); simpl; try lia; eauto.
Qed.

(** One row of the loops of [fit]: the inner loop for a fixed [r1]. *)
Lemma fill_row_decided (pen : string) (k : nat) (r1 : Z) (ranks : list Z)
  (m : list (list Z)) :
  pen = "square"%string \/ pen = "linear"%string ->
  if forallb (pair_good k r1) ranks
  then exists m',
      foldM (fun m r2 =>
               if (r1 <? r2)%Z
               then v <- RankBoostLossFunction.penalty pen r1 r2 ;;
                    RankBoostLossFunction.setitem2 k m r1 r2 v
               else Ok m) ranks m = Ok m'
  else foldM (fun m r2 =>
                if (r1 <? r2)%Z
                then v <- RankBoostLossFunction.penalty pen r1 r2 ;;
                     RankBoostLossFunction.setitem2 k m r1 r2 v
                else Ok m) ranks m = Raise IndexError.
Proof.
  intros Hpen. apply (foldM_decided (pair_good k r1) IndexError).
  - intros b r2 G2. unfold pair_good in G2. destruct (r1 <? r2)%Z; [|eauto].
    apply andb_true_iff in G2. destruct G2 as [G1 G2].
    pose proof (normalize_index_decided k r1) as N1. rewrite G1 in N1.
    pose proof (normalize_index_decided k r2) as N2. rewrite G2 in N2.
    destruct N1 as (i & N1), N2 as (j & N2).
    unfold RankBoostLossFunction.penalty, RankBoostLossFunction.setitem2.
    destruct Hpen as [-> | ->]; simpl; rewrite N1, N2; simpl; eauto.
  - intros b r2 G2. unfold pair_good in G2. destruct (r1 <? r2)%Z; [|discriminate].
    pose proof (normalize_index_decided k r1) as N1.
    pose proof (normalize_index_decided k r2) as N2.
    unfold RankBoostLossFunction.penalty, RankBoostLossFunction.setitem2.
    destruct (index_acceptedb k r1); simpl in G2.
    + rewrite G2 in N2. destruct N1 as (i & N1).
      destruct Hpen as [-> | ->]; simpl; rewrite N1, N2; reflexivity.
    + destruct Hpen as [-> | ->]; simpl; rewrite N1; reflexivity.
Qed.

Lemma fill_rank_penalties_decided (pen : string) (ranks : list Z) :
  pen = "square"%string \/ pen = "linear"%string ->
  if forallb (fun r1 => forallb (pair_good (length ranks) r1) ranks) ranks
  then exists m, RankBoostLossFunction.fill_rank_penalties pen ranks = Ok m
  else RankBoostLossFunction.fill_rank_penalties pen ranks = Raise IndexError.
Proof.
  intros Hpen. unfold RankBoostLossFunction.fill_rank_penalties.
  set (k := length ranks).
  apply (foldM_decided (fun r1 => forallb (pair_good k r1) ranks) IndexError).
  - intros b r1 G. pose proof (fill_row_decided pen k r1 ranks b Hpen) as H.
    rewrite G in H. exact H.
  - intros b r1 G. pose proof (fill_row_decided pen k r1 ranks b Hpen) as H.
    rewrite G in H. exact H.
Qed.

Lemma pairs_good_iff (k : nat) (ranks : list Z) :
  NoDup ranks ->
  forallb (fun r1 => forallb (pair_good k r1) ranks) ranks = true <->
  ((length ranks <= 1)%nat \/ forall r, In r ranks -> index_accepted k r).
Proof.
  intros Hnd. rewrite forallb_forall. split.
  - intros H. destruct ranks as [|a [|b t]]; [left; simpl; lia..|].
    right. intros r Hr.
    assert (Hother : exists r', In r' (a :: b :: t) /\ r' <> r).
    { destruct (Z.eq_dec r a) as [->|Hne].
      - exists b. split; [simpl; auto|].
        inversion Hnd as [|? ? Ha _]; subst. intros ->. apply Ha. simpl. auto.
      - exists a. split; [simpl; auto | congruence]. }
    destruct Hother as (r' & Hr' & Hne).
    destruct (Z.lt_total r r') as [Hlt|[Heq|Hgt]]; [|congruence|].
    + specialize (H r Hr). rewrite forallb_forall in H. specialize (H r' Hr').
      unfold pair_good in H. apply Z.ltb_lt in Hlt. rewrite Hlt in H.
      apply andb_true_iff in H. apply index_acceptedb_spec. tauto.
    + specialize (H r' Hr'). rewrite forallb_forall in H. specialize (H r Hr).
      unfold pair_good in H. apply Z.ltb_lt in Hgt. rewrite Hgt in H.
      apply andb_true_iff in H. apply index_acceptedb_spec. tauto.
  - intros [Hlen|Hall] r1 H1; apply forallb_forall; intros r2 H2; unfold pair_good.
    + destruct ranks as [|a [|b t]]; simpl in *; try lia; try tauto.
      destruct H1 as [<-|[]], H2 as [<-|[]]. rewrite Z.ltb_irrefl. reflexivity.
    + destruct (r1 <? r2)%Z; [|reflexivity].
      apply andb_true_iff. split; apply index_acceptedb_spec; auto.
Qed.

Lemma rankboost_fit_decided (n : nat) (pen col : string) (X : DataFrame)
  (y : list Z) (sample_weight : np.ndarray) :
  well_formed X y ->
  (exists queries, getitem X col = Ok queries) ->
  pen = "square"%string \/ pen = "linear"%string ->
  let ranks := np.unique y in
  if forallb (fun r1 => forallb (pair_good (length ranks) r1) ranks) ranks
  then exists self, RankBoostLossFunction.fit n pen col X y sample_weight = Ok self
  else RankBoostLossFunction.fit n pen col X y sample_weight = Raise IndexError.
Proof.
  intros [WL WC] (queries & Eq) Hpen ranks.
  assert (Lq : length queries = length y).
  { unfold getitem in Eq. apply getitem_columns_in in Eq. destruct Eq as (k & Hk).
    rewrite (WC _ _ Hk). exact WL. }
  pose proof (fill_rank_penalties_decided pen ranks Hpen) as Hfill.
  unfold RankBoostLossFunction.fit. rewrite Eq. simpl.
  unfold np.unique_inverse.
  rewrite broadcast2_same by (rewrite !length_map; exact Lq). simpl.
  fold ranks.
  destruct (forallb (fun r1 => forallb (pair_good (length ranks) r1) ranks) ranks).
  - destruct Hfill as (m & Em). rewrite Em. simpl.
    rewrite bincount_count_inverse_length, Nat.eqb_refl. simpl. eauto.
  - rewrite Hfill. reflexivity.
Qed.

(** C9 (as amended).  [fit] builds the rank-penalty matrix of shape [k, k]
    for [k] distinct labels and indexes it by the raw label values with
    numpy's index rule.  With the column of queries present and a supported
    penalty, [fit] completes when there is at most one distinct label or
    every label lies in [-k .. k-1], and raises an [IndexError] otherwise: it
    completes when the distinct labels are exactly [0 .. k-1], and it raises
    for any set of at least two distinct labels that contains a value
    [>= k]. *)
Theorem rankboost_fit_index_rule
  (n : nat) (pen col : string) (X : DataFrame) (y : list Z)
  (sample_weight : np.ndarray) :
  well_formed X y ->
  (exists queries, getitem X col = Ok queries) ->
  pen = "square"%string \/ pen = "linear"%string ->
  let k := length (np.unique y) in
  let outcome := RankBoostLossFunction.fit n pen col X y sample_weight in
  ((k <= 1)%nat \/ (forall r, In r y -> index_accepted k r) ->
   exists self, outcome = Ok self) /\
  ((2 <= k)%nat -> (exists r, In r y /\ ~ index_accepted k r) ->
   outcome = Raise IndexError) /\
  ((forall r, In r y <-> (0 <= r < Z.of_nat k)%Z) -> exists self, outcome = Ok self) /\
  ((2 <= k)%nat -> (exists r, In r y /\ (Z.of_nat k <= r)%Z) ->
   outcome = Raise IndexError).
Proof.
  intros WF Hq Hpen k outcome.
  pose proof (rankboost_fit_decided n pen col X y sample_weight WF Hq Hpen) as D.
  cbv zeta in D. fold k in D. fold outcome in D.
  pose proof (pairs_good_iff k (np.unique y)
                (sorted_NoDup _ (unique_sorted y))) as P. fold k in P.
  assert (Hok : (k <= 1)%nat \/ (forall r, In r y -> index_accepted k r) ->
                exists self, outcome = Ok self).
  { intros H.
    destruct (forallb _ (np.unique y)) eqn:G; [exact D|].
    assert (Habs : false = true); [|discriminate].
    apply P. destruct H as [H|H]; [left; exact H|].
    right. intros r Hr. apply H. apply in_unique. exact Hr. }
  assert (Hbad : (2 <= k)%nat -> (exists r, In r y /\ ~ index_accepted k r) ->
                 outcome = Raise IndexError).
  { intros Hk (r & Hr & Hna).
    destruct (forallb _ (np.unique y)) eqn:G; [|exact D].
    exfalso. destruct (proj1 P eq_refl) as [G'|G']; [lia|].
    apply Hna. apply G'. apply in_unique. exact Hr. }
  repeat split; auto.
  - intros H. apply Hok. right. intros r Hr. apply H in Hr.
    unfold index_accepted. lia.
  - intros Hk (r & Hr & Hge). apply Hbad; [exact Hk|].
    exists r. split; [exact Hr|]. unfold index_accepted. lia.
Qed.

Lemma rankboost_fit_index_rule_witness :
  let k := length (np.unique [0; 5]%Z) in
  let outcome :=
    RankBoostLossFunction.fit 1 "square" "query" (frame 2 "query" [0; 0]%Z)
      [0; 5]%Z [1; 1] in
  ((k <= 1)%nat \/ (forall r, In r [0; 5]%Z -> index_accepted k r) ->
   exists self, outcome = Ok self) /\
  ((2 <= k)%nat -> (exists r, In r [0; 5]%Z /\ ~ index_accepted k r) ->
   outcome = Raise IndexError) /\
  ((forall r, In r [0; 5]%Z <-> (0 <= r < Z.of_nat k)%Z) ->
   exists self, outcome = Ok self) /\
  ((2 <= k)%nat -> (exists r, In r [0; 5]%Z /\ (Z.of_nat k <= r)%Z) ->
   outcome = Raise IndexError).
Proof.
  apply (rankboost_fit_index_rule 1 "square" "query" (frame 2 "query" [0; 0]%Z)
           [0; 5]%Z [1; 1]
           (well_formed_frame 2 "query" [0; 0]%Z [0; 5]%Z eq_refl eq_refl)
           (ex_intro _ [0; 0]%Z eq_refl)
           (or_introl eq_refl)).
Defined.

(** C9, counterexample.  With the single label 7 there is one distinct
    label, no pair [r1 < r2] and no indexing at all: [fit] completes, although
    the labels are not [{0}] and 7 is not below [k = 1]. *)
Lemma rankboost_fit_single_label_completes :
  ~ raw_label_index_claim [7%Z]
      (RankBoostLossFunction.fit 1 "square" "query" (frame 1 "query" [0%Z])
         [7%Z] [1]).
Proof.
  intros [Honly _].
  assert (H : In 7%Z [7%Z] <-> (0 <= 7 < Z.of_nat (length (np.unique [7%Z])))%Z).
  { apply Honly. eexists. reflexivity. }
  simpl in H. destruct H as [H _]. specialize (H (or_introl eq_refl)). lia.
Qed.

(** The labels -1 and 0 complete as well: numpy counts the index -1 from the
    end of the axis. *)
Lemma rankboost_fit_negative_label_completes :
  ~ raw_label_index_claim [-1; 0]%Z
      (RankBoostLossFunction.fit 1 "square" "query" (frame 2 "query" [0; 0]%Z)
         [-1; 0]%Z [1; 1]).
Proof.
  intros [Honly _].
  assert (H : In (-1)%Z [-1; 0]%Z
              <-> (0 <= -1 < Z.of_nat (length (np.unique [-1; 0]%Z)))%Z).
  { apply Honly. eexists. reflexivity. }
  destruct H as [H _]. specialize (H (or_introl eq_refl)). lia.
Qed.

(* ================================================================== *)
(** * ReweightLossFunction *)

(** C10.  [fit] raises whenever [sample_weight] is [None]: on labels in
    [{0, 1}] the assignment of the default weights is made, and then
    [numpy.sign] gets the argument itself and raises a [TypeError]; on other
    labels the assertion fails first.  So no call of [fit] returns a loss
    that holds the default weights. *)
Theorem reweight_fit_without_weights_raises
  (regularization : R) (X : DataFrame) (y : list Z) :
  ReweightLossFunction.fit regularization X y None
  = Raise (if forallb (fun b => b) (np.in1d y [0; 1]%Z)
           then TypeError else AssertionError)
  /\
  forall sample_weight self,
    ReweightLossFunction.fit regularization X y sample_weight = Ok self ->
    exists w, sample_weight = Some w /\ ReweightLossFunction.sample_weight self = w.
Proof.
  split.
  - unfold ReweightLossFunction.fit, assert.
    destruct (forallb (fun b => b) (np.in1d y [0; 1]%Z)); reflexivity.
  - intros [w|] self F.
    + exists w. split; [reflexivity|].
      unfold ReweightLossFunction.fit in F.
      inv_bind F. inv_bind F. inv_bind F. injection F as <-. reflexivity.
    + unfold ReweightLossFunction.fit, assert in F.
      destruct (forallb (fun b => b) (np.in1d y [0; 1]%Z)); discriminate.
Qed.

Lemma ln_le_compat (x y : R) : 0 < x -> x <= y -> ln x <= ln y.
Proof.
  intros Hx [Hlt | ->]; [left; apply ln_increasing; assumption | right; reflexivity].
Qed.

Lemma log_ratio_monotone (reg t t' o o' : R) :
  0 < reg -> Rmax o 0 = Rmax o' 0 ->
  (t <= t' -> log_ratio reg t o <= log_ratio reg t' o') /\
  (Rmax t 0 < Rmax t' 0 -> log_ratio reg t o < log_ratio reg t' o').
Proof.
  intros Hreg Ho. unfold log_ratio. rewrite Ho.
  pose proof (Rmax_r t 0) as Ht. split.
  - intros Hle.
    assert (Hm : Rmax t 0 <= Rmax t' 0).
    { apply Rmax_lub; [eapply Rle_trans; [exact Hle | apply Rmax_l] | apply Rmax_r]. }
    pose proof (ln_le_compat (Rmax t 0 + reg) (Rmax t' 0 + reg)
                  ltac:(lra) ltac:(lra)). lra.
  - intros Hlt.
    pose proof (ln_increasing (Rmax t 0 + reg) (Rmax t' 0 + reg)
                  ltac:(lra) ltac:(lra)). lra.
Qed.

(** A run that returns gives, for every leaf, the two weight sums of the leaf
    and the logarithm of their clamped, regularized ratio. *)
Lemma reweight_run_inv (reg : R) (X : DataFrame) (y : list Z)
  (sample_weight : option np.ndarray) (terminal_regions : list nat)
  (y_pred w_target w_original leaves : np.ndarray) :
  reweight_run reg X y sample_weight terminal_regions y_pred
    = Ok (w_target, w_original, leaves) ->
  exists self weights,
    ReweightLossFunction.fit reg X y sample_weight = Ok self /\
    ReweightLossFunction._compute_weights self y_pred = Ok weights /\
    length w_target = np.bincount_size terminal_regions 0 /\
    length w_original = np.bincount_size terminal_regions 0 /\
    length leaves = np.bincount_size terminal_regions 0 /\
    forall leaf, (leaf < length leaves)%nat ->
      nth leaf w_target 0
      = sum_in_leaf terminal_regions
          (map2 Rmult (np.astype_float (map (fun v => 1 - v)%Z y)) weights) leaf /\
      nth leaf w_original 0
      = sum_in_leaf terminal_regions
          (map2 Rmult (np.astype_float y) weights) leaf /\
      nth leaf leaves 0
      = log_ratio reg (nth leaf w_target 0) (nth leaf w_original 0).
Proof.
  unfold reweight_run. intros H.
  bind_inv H as self F. bind_inv H as ws Hlw. destruct ws as [wt wo].
  bind_inv H as lv Hprep. injection H as <- <- <-.
  assert (Hy : ReweightLossFunction.y self = y /\
               ReweightLossFunction.mask_original self = y /\
               ReweightLossFunction.mask_target self = map (fun v => 1 - v)%Z y /\
               ReweightLossFunction.regularization self = reg).
  { unfold ReweightLossFunction.fit in F.
    inv_bind F. inv_bind F. inv_bind F. injection F as <-. simpl. auto. }
  destruct Hy as (Hy & Hmo & Hmt & Hreg).
  unfold ReweightLossFunction.prepare_new_leaves_values in Hprep.
  rewrite Hlw in Hprep. simpl in Hprep.
  unfold ReweightLossFunction.leaf_weights in Hlw.
  bind_inv Hlw as weights Hcw. exists self, weights.
  split; [exact F|]. split; [exact Hcw|].
  bind_inv Hlw as tw Etw. bind_inv Hlw as bt Ebt.
  bind_inv Hlw as ow Eow. bind_inv Hlw as bo Ebo. injection Hlw as <- <-.
  assert (Lw : length weights = length y).
  { unfold ReweightLossFunction._compute_weights in Hcw.
    bind_inv Hcw as yp Eyp. bind_inv Hcw as raw Eraw.
    unfold check_sample_weight_by_class in Hcw.
    bind_inv Hcw as u Eu. injection Hcw as <-. unfold assert in Eu.
    destruct (Nat.eqb_spec (length (ReweightLossFunction.y self)) (length raw));
      [|discriminate].
    rewrite !length_map, length_combine. rewrite Hy in *. lia. }
  rewrite Hmt in Etw. rewrite Hmo in Eow.
  unfold np.mul in Etw, Eow. rewrite broadcast2_same in Etw, Eow by len.
  injection Etw as <-. injection Eow as <-.
  pose proof (bincount_inv _ _ _ _ Ebt) as Lt.
  pose proof (bincount_inv _ _ _ _ Ebo) as Lo.
  destruct (bincount_ok _ _ 0%nat Lt) as (bt' & Ebt' & Lbt & Vbt).
  destruct (bincount_ok _ _ 0%nat Lo) as (bo' & Ebo' & Lbo & Vbo).
  rewrite Ebt in Ebt'. injection Ebt' as <-.
  rewrite Ebo in Ebo'. injection Ebo' as <-.
  unfold np.sub in Hprep. rewrite broadcast2_same in Hprep by len.
  injection Hprep as <-.
  split; [exact Lbt|]. split; [exact Lbo|]. split; [len|].
  intros leaf Hleaf. len_in Hleaf.
  split; [apply Vbt; lia|]. split; [apply Vbo; lia|].
  rewrite (nth_map2 Rminus _ _ leaf 0 0 0) by len.
  unfold np.clip_min. rewrite !map_map.
  rewrite (nth_map_in _ bt leaf 0 0) by lia.
  rewrite (nth_map_in _ bo leaf 0 0) by lia.
  rewrite Hreg. reflexivity.
Qed.

Lemma reweight_run_ok (reg : R) (X : DataFrame) (y : list Z)
  (sample_weight : np.ndarray) (terminal_regions : list nat) (y_pred : np.ndarray) :
  forallb (fun b => b) (np.in1d y [0; 1]%Z) = true ->
  length sample_weight = length y ->
  length y_pred = length y ->
  length terminal_regions = length y ->
  exists w_target w_original leaves,
    reweight_run reg X y (Some sample_weight) terminal_regions y_pred
    = Ok (w_target, w_original, leaves).
Proof.
  intros Hy Lw Lp Lt.
  unfold reweight_run, ReweightLossFunction.fit, assert. rewrite Hy. simpl.
  unfold np.mul. rewrite broadcast2_same by len. simpl.
  unfold ReweightLossFunction.prepare_new_leaves_values,
    ReweightLossFunction.leaf_weights, ReweightLossFunction._compute_weights.
  simpl. unfold np.mul.
  rewrite broadcast2_same by len. simpl.
  rewrite broadcast2_same by len. simpl.
  unfold check_sample_weight_by_class, assert.
  replace (Nat.eqb _ _) with true by (symmetry; apply Nat.eqb_eq; len).
  simpl.
  match goal with |- context [np.broadcast2 Rmult ?a ?b] =>
    rewrite (broadcast2_same Rmult a b) by len end.
  simpl.
  match goal with |- context [np.bincount ?x ?w ?m] =>
    destruct (bincount_ok x w m) as (wt & Ewt & Lwt & _); [len|] end.
  rewrite Ewt. simpl.
  match goal with |- context [np.broadcast2 Rmult ?a ?b] =>
    rewrite (broadcast2_same Rmult a b) by len end.
  simpl.
  match goal with |- context [np.bincount ?x ?w ?m] =>
    destruct (bincount_ok x w m) as (wo & Ewo & Lwo & _); [len|] end.
  rewrite Ewo. simpl.
  unfold np.sub. rewrite broadcast2_same by len. simpl.
  eexists; eexists; eexists. reflexivity.
Qed.

(** C4.  For a fitted ReweightLossFunction with [regularization > 0] and any
    terminal-region assignment, the value of every leaf is
    [log(clip(target_sum, 0) + regularization)
     - log(clip(original_sum, 0) + regularization)], where the two sums are
    the recomputed weights of the target class and of the original class in
    the leaf.  Between any two leaf updates with the same regularization, at
    leaves with equal clamped original sums, the value does not decrease when
    the target sum grows, and it increases strictly when the clamped target
    sum does. *)
Theorem reweight_leaf_update_monotone
  (reg : R) (X : DataFrame) (y : list Z) (sample_weight : np.ndarray)
  (terminal_regions : list nat) (y_pred : np.ndarray) :
  0 < reg ->
  forallb (fun b => b) (np.in1d y [0; 1]%Z) = true ->
  length sample_weight = length y ->
  length y_pred = length y ->
  length terminal_regions = length y ->
  reweight_leaf_values reg X y sample_weight terminal_regions y_pred.
Proof.
  intros Hreg Hy Lw Lp Lt. unfold reweight_leaf_values.
  destruct (reweight_run_ok reg X y sample_weight terminal_regions y_pred
              Hy Lw Lp Lt) as (wt & wo & leaves & Hrun).
  destruct (reweight_run_inv _ _ _ _ _ _ _ _ _ Hrun)
    as (self & weights & F & Hcw & Lwt & Lwo & Ll & Hval).
  exists self, weights, wt, wo, leaves.
  unfold reweight_run in Hrun. rewrite F in Hrun. simpl in Hrun.
  bind_inv Hrun as ws Hlw. destruct ws as [wt0 wo0].
  bind_inv Hrun as lv Hprep. injection Hrun as <- <- <-.
  split; [exact F|]. split; [exact Hcw|]. split; [exact Hlw|].
  split; [exact Hprep|]. split; [exact Ll|]. split; [exact Hval|].
  intros X' y' sw' tr' yp' wt' wo' leaves' leaf leaf' Hrun' Hl Hl' Ho.
  destruct (reweight_run_inv _ _ _ _ _ _ _ _ _ Hrun')
    as (self' & weights' & _ & _ & _ & _ & _ & Hval').
  destruct (Hval leaf Hl) as (_ & _ & Ev).
  destruct (Hval' leaf' Hl') as (_ & _ & Ev').
  rewrite Ev, Ev'. apply (log_ratio_monotone reg _ _ _ _ Hreg Ho).
Qed.

Lemma reweight_leaf_update_monotone_witness :
  reweight_leaf_values 5 (frame 2 "x" [0; 0]%Z) [0; 1]%Z [1; 1] [0; 0]%nat [0; 0].
Proof.
  apply (reweight_leaf_update_monotone 5 (frame 2 "x" [0; 0]%Z) [0; 1]%Z [1; 1]
           [0; 0]%nat [0; 0]);
    [lra | reflexivity | reflexivity | reflexivity | reflexivity].
Defined.

(* ================================================================== *)
(** * GBReweighter *)

Lemma nth_ones (n i : nat) : (i < n)%nat -> nth i (np.ones n) 0 = 1.
Proof.
  unfold np.ones. revert i. induction n as [|n IH]; intros [|i] Hi; simpl;
    try lia; auto. apply IH. lia.
Qed.

Lemma forallb_nth_nonneg (w : np.ndarray) (i : nat) :
  forallb (fun v => if Rle_dec 0 v then true else false) w = true ->
  (i < length w)%nat -> 0 <= nth i w 0.
Proof.
  intros H Hi. rewrite forallb_forall in H.
  specialize (H (nth i w 0) (nth_In _ _ Hi)).
  destruct (Rle_dec 0 (nth i w 0)); [assumption | discriminate].
Qed.

(** What [check_sample_weight(data, weights, normalize=True)] returns. *)
Lemma check_sample_weight_normalized (n : nat) (given : option np.ndarray)
  (w : np.ndarray) :
  check_sample_weight n given true = Ok w ->
  match given with Some g => 0 < np.mean g | None => True end ->
  length w = n /\
  forall i, (i < n)%nat ->
    0 <= nth i w 0 /\
    match given with
    | None => nth i w 0 = 1
    | Some g => nth i w 0 = nth i g 0 / np.mean g
    end.
Proof.
  unfold check_sample_weight. destruct given as [g|]; intros H Hm.
  - bind_inv H as u1 E1. bind_inv H as u2 E2. injection H as <-.
    unfold assert in E1, E2.
    destruct (Nat.eqb_spec n (length g)) as [Ln|]; [|discriminate].
    destruct (forallb _ g) eqn:Hpos; [|discriminate].
    split; [rewrite length_map; auto|]. intros i Hi.
    rewrite (nth_map_in (fun v => v / np.mean g) g i 0 0) by lia.
    split; [|reflexivity].
    pose proof (forallb_nth_nonneg g i Hpos ltac:(lia)) as Hn.
    apply Rmult_le_pos; [exact Hn|]. left. apply Rinv_0_lt_compat. exact Hm.
  - injection H as <-. split; [apply repeat_length|].
    intros i Hi. rewrite nth_ones by exact Hi. split; [lra | reflexivity].
Qed.

(** C5 (as amended).  For every input accepted by [normalize_input], with
    one decision score per event and given weights of positive mean, each
    entry of [predict_weights] is the normalized input weight times the
    exponential of the decision score: it is never negative, and it is
    strictly positive exactly when the input weight is, so always with the
    default weights. *)
Theorem gb_predict_weights_exponential
  (self : GBReweighter.t) (original : array_like)
  (original_weight : option np.ndarray) :
  (exists r, GBReweighter.normalize_input self original original_weight = Ok r) ->
  (forall data, length (GBReweighter.decision_function self data) = length data) ->
  match original_weight with Some g => 0 < np.mean g | None => True end ->
  exponential_weights self original original_weight.
Proof.
  intros ([[data weights] self'] & Hn) Hscore Hmean.
  unfold exponential_weights. exists data, weights, self'.
  assert (Hparts :
    GBReweighter.decision_function self' = GBReweighter.decision_function self /\
    length data = length weights /\
    forall i, (i < length data)%nat ->
      0 <= nth i weights 0 /\
      match original_weight with
      | None => nth i weights 0 = 1
      | Some g => nth i weights 0 = nth i g 0 / np.mean g
      end).
  { unfold GBReweighter.normalize_input in Hn.
    bind_inv Hn as w Hw. bind_inv Hn as u Hu. injection Hn as <- <- <-.
    destruct (check_sample_weight_normalized _ _ _ Hw Hmean) as (Lw & Vw).
    split; [destruct (GBReweighter.n_features_ self); reflexivity|].
    destruct original as [v|m]; simpl; rewrite ?length_map; split; auto;
      intros i Hi; rewrite ?length_map in Hi; apply Vw; exact Hi. }
  destruct Hparts as (Hdf & Ldw & Vw).
  unfold GBReweighter.predict_weights. rewrite Hn. simpl.
  rewrite Hdf. unfold np.mul.
  rewrite broadcast2_same by (rewrite length_map, Hscore; exact Ldw).
  eexists. split; [reflexivity|]. split; [reflexivity|].
  split; [unfold map2; rewrite length_map, length_combine, length_map, Hscore; lia|].
  intros i Hi.
  assert (Hi' : (i < length data)%nat).
  { unfold map2 in Hi. rewrite length_map, length_combine, length_map, Hscore in Hi.
    lia. }
  rewrite (nth_map2 Rmult _ _ i 0 0 0)
    by (rewrite length_map, Hscore; first [exact Ldw | exact Hi']).
  rewrite (nth_map_in exp _ i 0 0) by (rewrite Hscore; exact Hi').
  destruct (Vw i Hi') as (Hpos & Hform).
  pose proof (exp_pos (nth i (GBReweighter.decision_function self data) 0)) as He.
  split; [reflexivity|]. split; [apply Rmult_le_pos; lra|].
  split; [|exact Hform]. split.
  - intros Hout. destruct Hpos as [Hlt|Heq]; [exact Hlt|].
    rewrite <- Heq, Rmult_0_r in Hout. lra.
  - intros Hw. apply Rmult_lt_0_compat; assumption.
Qed.

Lemma zero_score_accepts (w0 w1 : R) :
  0 <= w0 -> 0 <= w1 ->
  exists r,
    GBReweighter.normalize_input zero_score_reweighter (Array1 [0; 1])
      (Some [w0; w1]) = Ok r.
Proof.
  intros H0 H1. unfold GBReweighter.normalize_input, check_sample_weight.
  simpl. destruct (Rle_dec 0 w0); [|contradiction].
  destruct (Rle_dec 0 w1); [|contradiction]. simpl. eexists. reflexivity.
Defined.

Lemma gb_predict_weights_exponential_witness :
  exponential_weights zero_score_reweighter (Array1 [0; 1]) (Some [1; 3]).
Proof.
  apply (gb_predict_weights_exponential zero_score_reweighter (Array1 [0; 1])
           (Some [1; 3])).
  - apply zero_score_accepts; lra.
  - intros data. apply repeat_length.
  - unfold np.mean. simpl. lra.
Defined.

(** C5, counterexample.  The input weights [0; 2] are accepted, their mean
    is 1, and the first predicted weight is [exp(0) * 0 = 0], which is not
    strictly positive. *)
Lemma gb_predict_weights_zero_weight :
  ~ strictly_positive_weights zero_score_reweighter (Array1 [0; 1]) (Some [0; 2]).
Proof.
  intros H.
  assert (E : exists rest,
    GBReweighter.predict_weights zero_score_reweighter (Array1 [0; 1])
      (Some [0; 2]) = Ok (exp 0 * (0 / np.mean [0; 2]) :: rest)).
  { unfold GBReweighter.predict_weights, GBReweighter.normalize_input,
      check_sample_weight.
    simpl. destruct (Rle_dec 0 0); [|lra]. destruct (Rle_dec 0 2); [|lra].
    simpl. eexists. reflexivity. }
  destruct E as (rest & E). specialize (H _ E).
  inversion H as [|? ? Hpos _]; subst.
  unfold Rdiv in Hpos. rewrite Rmult_0_l, Rmult_0_r in Hpos. lra.
Qed.

(* ================================================================== *)
(** * Flatness losses: scatter and gather *)

Lemma take_in_range {A : Type} (a : list A) (idx : list nat) (r : list A) :
  np.take a idx = Ok r -> Forall (fun i => (i < length a)%nat) idx.
Proof.
  revert r. induction idx as [|i idx IH]; intros r H; simpl in H; [constructor|].
  destruct (nth_error a i) as [v|] eqn:E; [|discriminate].
  bind_inv H as r' Er. constructor; [|eapply IH; exact Er].
  apply nth_error_Some. congruence.
Qed.

Lemma put_length {A : Type} (a : list A) (idx : list nat) (vals r : list A) :
  np.put a idx vals = Ok r -> length r = length a.
Proof.
  revert a vals. induction idx as [|i idx IH]; intros a vals H; simpl in H.
  - injection H as <-. reflexivity.
  - destruct vals as [|v vals]; [discriminate|].
    destruct (Nat.ltb i (length a)); [|discriminate].
    apply IH in H. rewrite H. apply set_nth_length.
Qed.

Lemma put_ok {A : Type} (a : list A) (idx : list nat) (vals : list A) :
  Forall (fun i => (i < length a)%nat) idx ->
  (length idx <= length vals)%nat ->
  exists r, np.put a idx vals = Ok r.
Proof.
  revert a vals. induction idx as [|i idx IH]; intros a vals Hi Hl; simpl.
  - eauto.
  - destruct vals as [|v vals]; simpl in Hl; [lia|].
    inversion Hi as [|? ? Hlt Hrest]; subst.
    apply Nat.ltb_lt in Hlt. rewrite Hlt. apply IH; [|lia].
    eapply Forall_impl; [|exact Hrest]. intros j Hj. rewrite set_nth_length. exact Hj.
Qed.

(** Positions outside the index array keep their value. *)
Lemma put_outside {A : Type} (a : list A) (idx : list nat) (vals r : list A)
  (i : nat) (d : A) :
  np.put a idx vals = Ok r -> ~ In i idx -> nth i r d = nth i a d.
Proof.
  revert a vals. induction idx as [|j idx IH]; intros a vals H Hn; simpl in H.
  - injection H as <-. reflexivity.
  - destruct vals as [|v vals]; [discriminate|].
    destruct (Nat.ltb j (length a)); [|discriminate].
    rewrite (IH _ _ H) by (intro Hin; apply Hn; right; exact Hin).
    apply nth_set_nth_other. intros ->. apply Hn. left. reflexivity.
Qed.

(** Positions of the index array get one of the values written to them. *)
Lemma put_inside {A : Type} (a : list A) (idx : list nat) (vals r : list A)
  (i : nat) (d : A) :
  np.put a idx vals = Ok r -> In i idx ->
  exists j, (j < length idx)%nat /\ nth j idx O = i /\ nth i r d = nth j vals d.
Proof.
  revert a vals. induction idx as [|k idx IH]; intros a vals H Hin; simpl in H.
  - contradiction.
  - destruct vals as [|v vals]; [discriminate|].
    destruct (Nat.ltb_spec k (length a)) as [Hk|]; [|discriminate].
    destruct (in_dec Nat.eq_dec i idx) as [Hlater|Hnot].
    + destruct (IH _ _ H Hlater) as (j & Hj & Ej & Ev).
      exists (S j). simpl. split; [lia|]. auto.
    + destruct Hin as [->|Hin]; [|contradiction].
      exists O. simpl. split; [lia|]. split; [reflexivity|].
      rewrite (put_outside _ _ _ _ i d H Hnot).
      apply nth_set_nth_same. exact Hk.
Qed.

Lemma all_zero_zeros (n : nat) : all_zero (np.zeros n).
Proof.
  apply Forall_forall. intros v Hv. apply repeat_spec in Hv. exact Hv.
Qed.

Lemma all_zero_eq (a : np.ndarray) : all_zero a -> a = np.zeros (length a).
Proof.
  induction 1 as [|v a Hv Ha IH]; simpl; [reflexivity|].
  unfold np.zeros in *. simpl. rewrite Hv. f_equal. exact IH.
Qed.

Lemma all_zero_nth (a : np.ndarray) (i : nat) : all_zero a -> nth i a 0 = 0.
Proof.
  intros H. destruct (Nat.lt_ge_cases i (length a)) as [Hi|Hi].
  - unfold all_zero in H. rewrite Forall_forall in H. apply H. apply nth_In. exact Hi.
  - apply nth_overflow. exact Hi.
Qed.

Lemma take_all_zero (a r : np.ndarray) (idx : list nat) :
  all_zero a -> np.take a idx = Ok r -> all_zero r.
Proof.
  intros Ha H. apply Forall_forall. intros v Hv.
  destruct (In_nth _ _ 0 Hv) as (j & Hj & <-).
  destruct (take_nth a idx r 0 H) as (L & V).
  rewrite V by lia. apply all_zero_nth. exact Ha.
Qed.

Lemma put_all_zero (a vals r : np.ndarray) (idx : list nat) :
  all_zero a -> all_zero vals -> np.put a idx vals = Ok r -> all_zero r.
Proof.
  intros Ha Hv H. apply Forall_forall. intros v Hin.
  destruct (In_nth _ _ 0 Hin) as (i & Hi & <-).
  destruct (in_dec Nat.eq_dec i idx) as [Hidx|Hidx].
  - destruct (put_inside _ _ _ _ i 0 H Hidx) as (j & _ & _ & ->).
    apply all_zero_nth. exact Hv.
  - rewrite (put_outside _ _ _ _ i 0 H Hidx). apply all_zero_nth. exact Ha.
Qed.

Lemma map2_all_zero (f : R -> R -> R) (a b : np.ndarray) :
  (forall y, f 0 y = 0) -> all_zero a -> all_zero (map2 f a b).
Proof.
  intros Hf Ha. apply Forall_forall. intros v Hv. unfold map2 in Hv.
  apply in_map_iff in Hv. destruct Hv as ([x y] & <- & Hxy). simpl.
  apply in_combine_l in Hxy. unfold all_zero in Ha. rewrite Forall_forall in Ha.
  rewrite (Ha x Hxy). apply Hf.
Qed.

Lemma map2_zero_l (a b : np.ndarray) :
  all_zero a -> length a = length b -> map2 Rplus a b = b.
Proof.
  unfold map2. revert b. induction a as [|x a IH]; intros [|y b] Ha L;
    simpl in *; try lia; [reflexivity|].
  inversion Ha as [|? ? Hx Ha']; subst. rewrite Rplus_0_l. f_equal.
  apply IH; [exact Ha' | lia].
Qed.

Lemma compress_all_zero (mask : list bool) (a : np.ndarray) :
  all_zero a ->
  forallb (fun v => if Req_dec_T v 0 then true else false) (np.compress mask a) = true.
Proof.
  intros Ha. revert mask. induction Ha as [|v a Hv Ha IH]; intros [|m mask]; simpl;
    try reflexivity.
  destruct m; simpl; [|apply IH].
  destruct (Req_dec_T v 0); [apply IH | contradiction].
Qed.

(* ================================================================== *)
(** * Flatness losses: fit *)

Lemma check_sample_weight_length (n : nat) (given : option np.ndarray)
  (normalize : bool) (w : np.ndarray) :
  check_sample_weight n given normalize = Ok w -> length w = n.
Proof.
  unfold check_sample_weight. destruct given as [g|]; intros H.
  - bind_inv H as u1 E1. bind_inv H as u2 E2. injection H as <-.
    unfold assert in E1. destruct (Nat.eqb_spec n (length g)); [|discriminate].
    destruct normalize; rewrite ?length_map; auto.
  - injection H as <-. apply repeat_length.
Qed.

Lemma count_group_length (occ occ' : list nat) (g : list nat) :
  AbstractFlatnessLossFunction.count_group occ g = Ok occ' -> length occ' = length occ.
Proof.
  unfold AbstractFlatnessLossFunction.count_group. intros H.
  bind_inv H as cur E. eapply put_length. exact H.
Qed.

Lemma count_groups_length (groups : list (list nat)) (occ occ' : list nat) :
  AbstractFlatnessLossFunction.count_groups occ groups = Ok occ' ->
  length occ' = length occ.
Proof.
  unfold AbstractFlatnessLossFunction.count_groups. intros H.
  refine (foldM_preserves (fun o => length o = length occ) _ _ _ _ _ H eq_refl).
  intros b g b' Hb L. rewrite <- L. eapply count_group_length. exact Hb.
Qed.

Lemma collect_groups_length
  (cg : DataFrame -> list Z -> Z -> result (list (list nat)))
  (X : DataFrame) (y : list Z) (labels : list Z)
  (found : list (Z * list (list nat))) (occ : list nat) :
  AbstractFlatnessLossFunction.collect_groups cg X y labels = Ok (found, occ) ->
  length occ = df_len X.
Proof.
  unfold AbstractFlatnessLossFunction.collect_groups. intros H.
  refine (foldM_preserves
            (fun st : list (Z * list (list nat)) * list nat =>
               length (snd st) = df_len X) _ _ _ (found, occ) _ H _).
  - intros [f o] label [f' o'] Hb L. simpl in *.
    bind_inv Hb as groups Eg. bind_inv Hb as o2 Eo. injection Hb as <- <-.
    rewrite (count_groups_length _ _ _ Eo). exact L.
  - apply repeat_length.
Qed.

(** The parts of a fitted flatness loss the later proofs read. *)
Lemma flatness_fit_inv
  (cg : DataFrame -> list Z -> Z -> result (list (list nat)))
  (p : AbstractFlatnessLossFunction.Params) (X : DataFrame) (y : list Z)
  (sample_weight : option np.ndarray)
  (self : AbstractFlatnessLossFunction.t) (warnings : list warning) :
  AbstractFlatnessLossFunction.fit cg p X y sample_weight = Ok (self, warnings) ->
  AbstractFlatnessLossFunction.params self = p /\
  AbstractFlatnessLossFunction.y self = y /\
  AbstractFlatnessLossFunction.y_signed self = signed_labels y /\
  length (AbstractFlatnessLossFunction.sample_weight self) = length y /\
  length (AbstractFlatnessLossFunction.divided_weight self) = length y /\
  df_len X = length y /\
  exists occ,
    AbstractFlatnessLossFunction.collect_groups cg X y
      (AbstractFlatnessLossFunction.uniform_label p)
    = Ok (AbstractFlatnessLossFunction.group_indices self, occ) /\
    check_sample_weight (length y) sample_weight false
    = Ok (AbstractFlatnessLossFunction.sample_weight self) /\
    AbstractFlatnessLossFunction.divided_weight self
    = map2 Rdiv (AbstractFlatnessLossFunction.sample_weight self)
        (map (fun o => Rmax (INR o) 1) occ) /\
    warnings
    = (let oob := AbstractFlatnessLossFunction.out_of_bins occ y
                    (AbstractFlatnessLossFunction.uniform_label p) in
       if Rlt_dec 0.01 (AbstractFlatnessLossFunction.mean_bool oob)
       then [EventsOutOfAllBins (AbstractFlatnessLossFunction.count_true oob)]
       else []).
Proof.
  unfold AbstractFlatnessLossFunction.fit. intros H.
  bind_inv H as w Hw. bind_inv H as u Hu. bind_inv H as st Hst.
  destruct st as [found occ]. bind_inv H as dw Hdw. injection H as <- <-.
  simpl. unfold assert in Hu.
  destruct (Nat.eqb_spec (df_len X) (length y)) as [LX|]; [|discriminate].
  pose proof (check_sample_weight_length _ _ _ _ Hw) as Lw.
  pose proof (collect_groups_length _ _ _ _ _ _ Hst) as Lo.
  unfold np.div in Hdw. rewrite broadcast2_same in Hdw by len.
  injection Hdw as <-.
  repeat split; auto; [len|].
  exists occ. repeat split; auto.
Qed.

(* ================================================================== *)
(** * Flatness losses: the gradient *)

Lemma sign1_zero : np.sign1 0 = 0.
Proof.
  unfold np.sign1. destruct (Rlt_dec 0 0); [lra|]. reflexivity.
Qed.

Lemma bin_gradient_equal (power : R) (pos : np.ndarray) :
  exists g,
    AbstractFlatnessLossFunction.bin_gradient power pos pos = Ok g /\
    length g = length pos /\ all_zero g.
Proof.
  unfold AbstractFlatnessLossFunction.bin_gradient, np.sub.
  rewrite broadcast2_same by reflexivity. simpl.
  eexists. split; [reflexivity|]. split; [len|].
  apply Forall_forall. intros v Hv. apply in_map_iff in Hv.
  destruct Hv as (d & <- & Hd). unfold map2 in Hd. apply in_map_iff in Hd.
  destruct Hd as ([a b] & <- & Hab). simpl.
  assert (a = b) as ->.
  { clear - Hab. induction pos as [|x pos IH]; simpl in Hab; [contradiction|].
    destruct Hab as [E|Hab]; [injection E as <- <-; reflexivity | auto]. }
  rewrite Rminus_diag, sign1_zero. ring.
Qed.

Lemma global_positions_length (self : AbstractFlatnessLossFunction.t) (label : Z)
  (y_pred glob : np.ndarray) :
  AbstractFlatnessLossFunction.global_positions self label y_pred = Ok glob ->
  length glob = length y_pred.
Proof.
  unfold AbstractFlatnessLossFunction.global_positions. intros H.
  bind_inv H as yp E1. bind_inv H as sw E2. bind_inv H as pos E3.
  apply put_length in H. rewrite H. apply repeat_length.
Qed.

(** Adding the gradient of a group whose local and global positions agree
    leaves an all-zero accumulator all-zero. *)
Lemma add_group_equal_positions (self : AbstractFlatnessLossFunction.t)
  (y_pred glob acc pos : np.ndarray) (indices_in_bin : list nat) :
  AbstractFlatnessLossFunction.local_positions self indices_in_bin y_pred = Ok pos ->
  np.take glob indices_in_bin = Ok pos ->
  length glob = length acc ->
  all_zero acc ->
  exists acc',
    AbstractFlatnessLossFunction.add_group self y_pred glob acc indices_in_bin
      = Ok acc' /\
    length acc' = length acc /\ all_zero acc'.
Proof.
  intros Hloc Hglob L Hz.
  unfold AbstractFlatnessLossFunction.add_group. rewrite Hloc, Hglob. simpl.
  destruct (bin_gradient_equal
              (AbstractFlatnessLossFunction.power
                 (AbstractFlatnessLossFunction.params self)) pos)
    as (g & Eg & Lg & Zg).
  rewrite Eg. simpl. unfold AbstractFlatnessLossFunction.iadd_at.
  pose proof (take_in_range _ _ _ Hglob) as Hr. rewrite L in Hr.
  destruct (take_nth glob indices_in_bin pos 0 Hglob) as (Lpos & _).
  destruct (take_ok acc indices_in_bin Hr) as (cur & Ecur & Lcur).
  rewrite Ecur. simpl. unfold np.add.
  rewrite broadcast2_same by congruence. simpl.
  rewrite (map2_zero_l cur g)
    by first [exact (take_all_zero _ _ _ Hz Ecur) | congruence].
  destruct (put_ok acc indices_in_bin g Hr) as (r & Er); [lia|].
  exists r. split; [exact Er|]. split; [eapply put_length; exact Er|].
  exact (put_all_zero _ _ _ _ Hz Zg Er).
Qed.

Lemma flatness_zero_when_rank_identical (self : AbstractFlatnessLossFunction.t)
  (y_pred : np.ndarray) :
  length (AbstractFlatnessLossFunction.y self) = length y_pred ->
  length (AbstractFlatnessLossFunction.divided_weight self) = length y_pred ->
  rank_identical self y_pred ->
  AbstractFlatnessLossFunction.flatness_gradient self y_pred
  = Ok (np.zeros (length y_pred)).
Proof.
  intros Ly Ld Hrank. unfold AbstractFlatnessLossFunction.flatness_gradient.
  set (n := length y_pred) in *.
  match goal with |- context [foldM ?body ?l ?acc] =>
    destruct (foldM_invariant (fun g => length g = n /\ all_zero g) body l acc)
      as (g & Eg & Lg & Zg) end.
  - intros acc [label groups] Hin [La Za].
    destruct (Hrank label groups Hin) as (glob & Eglob & Hgroups).
    unfold AbstractFlatnessLossFunction.add_label. simpl. rewrite Eglob. simpl.
    pose proof (global_positions_length _ _ _ _ Eglob) as Lglob. fold n in Lglob.
    apply (foldM_invariant (fun g => length g = n /\ all_zero g)).
    + intros b indices_in_bin Hg [Lb Zb].
      destruct (Hgroups indices_in_bin Hg) as (pos & Eloc & Etake).
      destruct (add_group_equal_positions self y_pred glob b pos indices_in_bin
                  Eloc Etake ltac:(congruence) Zb) as (b' & Eb' & Lb' & Zb').
      exists b'. split; [exact Eb'|]. split; [congruence | exact Zb'].
    + split; assumption.
  - split; [rewrite Ly; apply repeat_length | apply all_zero_zeros].
  - rewrite Eg. simpl. rewrite inplace2_same by congruence. f_equal.
    assert (Hz : all_zero (map2 Rmult g
                             (AbstractFlatnessLossFunction.divided_weight self))).
    { apply map2_all_zero; [intros; ring | exact Zg]. }
    rewrite (all_zero_eq _ Hz). f_equal. len.
Qed.

Lemma clipped_signs (lo hi : R) (signs : list Z) (ada : np.ndarray) :
  map2 Rmult (map IZR signs)
    (map (np.clip1 lo hi) (map2 Rmult (map IZR signs) ada))
  = map2 (fun s a => IZR s * np.clip1 lo hi (IZR s * a)) signs ada.
Proof.
  unfold map2. revert ada. induction signs as [|s signs IH]; intros [|a ada];
    simpl; auto.
  f_equal. apply IH.
Qed.

Lemma ada_term_ok (self : AbstractFlatnessLossFunction.t) (y_pred : np.ndarray) :
  length (AbstractFlatnessLossFunction.y_signed self) = length y_pred ->
  length (AbstractFlatnessLossFunction.sample_weight self) = length y_pred ->
  exists ada,
    AbstractFlatnessLossFunction.ada_term self y_pred = Ok ada /\
    length ada = length y_pred /\
    forall i, (i < length y_pred)%nat ->
      nth i ada 0
      = AbstractFlatnessLossFunction.ada_coefficient
          (AbstractFlatnessLossFunction.params self)
        * IZR (nth i (AbstractFlatnessLossFunction.y_signed self) 0%Z)
        * nth i (AbstractFlatnessLossFunction.sample_weight self) 0
        * exp_margin
            (IZR (- nth i (AbstractFlatnessLossFunction.y_signed self) 0%Z)
             * nth i y_pred 0).
Proof.
  intros Ls Lw. unfold AbstractFlatnessLossFunction.ada_term, np.mul.
  rewrite broadcast2_same by len. simpl.
  rewrite broadcast2_same by len. simpl.
  rewrite broadcast2_same by len.
  eexists. split; [reflexivity|]. split; [len|].
  intros i Hi.
  rewrite (nth_map2 Rmult _ _ i 0 0 0) by len.
  rewrite (nth_map2 Rmult _ _ i 0 0 0) by len.
  rewrite (nth_map_in _ _ i 0 0%Z) by lia.
  rewrite (nth_map_in exp_margin _ i 0 0) by len.
  rewrite (nth_map2 Rmult _ _ i 0 0 0) by len.
  unfold np.astype_float.
  rewrite (nth_map_in IZR _ i 0 0%Z) by len.
  rewrite (nth_map_in Z.opp _ i 0%Z 0%Z) by lia.
  reflexivity.
Qed.

(** The gradient of a loss whose predictions are rank-identical. *)
Lemma zero_flatness_core (self : AbstractFlatnessLossFunction.t)
  (y_pred : np.ndarray) :
  length (AbstractFlatnessLossFunction.y self) = length y_pred ->
  length (AbstractFlatnessLossFunction.y_signed self) = length y_pred ->
  length (AbstractFlatnessLossFunction.sample_weight self) = length y_pred ->
  length (AbstractFlatnessLossFunction.divided_weight self) = length y_pred ->
  rank_identical self y_pred ->
  zero_flatness_term self y_pred.
Proof.
  intros Ly Ls Lw Ld Hrank.
  pose proof (flatness_zero_when_rank_identical self y_pred Ly Ld Hrank) as Hfl.
  destruct (ada_term_ok self y_pred Ls Lw) as (ada & Eada & Lada & Vada).
  exists ada. split; [exact Hfl|]. split; [exact Eada|]. split; [exact Lada|].
  split; [exact Vada|].
  unfold AbstractFlatnessLossFunction.negative_gradient.
  rewrite Hfl. simpl. unfold assert.
  rewrite compress_all_zero by apply all_zero_zeros. simpl.
  rewrite Eada. simpl.
  rewrite inplace2_same by len. simpl.
  rewrite map2_zero_l by (first [apply all_zero_zeros | len]).
  destruct (AbstractFlatnessLossFunction.allow_wrong_signs
              (AbstractFlatnessLossFunction.params self)); [reflexivity|].
  unfold np.mul. rewrite broadcast2_same by len. simpl.
  rewrite broadcast2_same by len.
  unfold np.astype_float, np.clip. rewrite clipped_signs. reflexivity.
Qed.

(** C6 (as amended).  For a fitted flatness loss with [power >= 1] and a
    prediction vector that is rank-identical in every flatness group and in
    each uniform label as a whole, the flatness term of [negative_gradient]
    is exactly zero for every event.  The returned gradient is then the Ada
    term [ada_coefficient * y_signed * weight * exp(clip(-y_signed * y_pred,
    -1e5, 2))] when [allow_wrong_signs] is on, and otherwise the Ada term
    clipped to the sign of the class, [y_signed * clip(y_signed * ada, 0,
    1e5)].  ([power >= 1] keeps [|d| ** (power - 1)] finite at [d = 0]; below
    it numpy computes [0 * inf].) *)
Theorem flatness_term_vanishes_when_rank_identical
  (cg : DataFrame -> list Z -> Z -> result (list (list nat)))
  (p : AbstractFlatnessLossFunction.Params) (X : DataFrame) (y : list Z)
  (sample_weight : option np.ndarray)
  (self : AbstractFlatnessLossFunction.t) (warnings : list warning)
  (y_pred : np.ndarray) :
  AbstractFlatnessLossFunction.fit cg p X y sample_weight = Ok (self, warnings) ->
  length y_pred = length y ->
  1 <= AbstractFlatnessLossFunction.power p ->
  rank_identical self y_pred ->
  zero_flatness_term self y_pred /\
  (AbstractFlatnessLossFunction.allow_wrong_signs p = true ->
   only_ada_term self y_pred).
Proof.
  intros F Lp Hpower Hrank.
  destruct (flatness_fit_inv cg p X y sample_weight self warnings F)
    as (Hp & Hy & Hs & Lw & Ld & _).
  assert (Hz : zero_flatness_term self y_pred).
  { apply zero_flatness_core; auto; rewrite ?Hy, ?Hs; len. }
  split; [exact Hz|].
  intros Hallow. destruct Hz as (ada & _ & Eada & _ & _ & Hneg).
  rewrite Hp, Hallow in Hneg. exists ada. auto.
Qed.

Lemma one_group_fit_ok (allow_wrong_signs : bool) :
  exists warnings,
    one_group_fit allow_wrong_signs = Ok (one_group allow_wrong_signs, warnings).
Proof. eexists. reflexivity. Defined.

Lemma one_group_rank_identical (allow_wrong_signs : bool) :
  rank_identical (one_group allow_wrong_signs) [0].
Proof.
  intros label groups Hin. evalR_in Hin.
  destruct Hin as [E|[]]. injection E as <- <-.
  eexists. split; [evalR; reflexivity|].
  intros g [<-|[]]. eexists. split; evalR; reflexivity.
Defined.

Lemma flatness_term_vanishes_when_rank_identical_witness :
  zero_flatness_term (one_group true) [0] /\
  (AbstractFlatnessLossFunction.allow_wrong_signs (steep_ada true) = true ->
   only_ada_term (one_group true) [0]).
Proof.
  destruct (one_group_fit_ok true) as (warnings & F).
  apply (flatness_term_vanishes_when_rank_identical (fun _ _ _ => Ok [[O]])
           (steep_ada true) (frame 1 "x" [0%Z]) [1%Z] None (one_group true)
           warnings [0] F eq_refl).
  - simpl. lra.
  - apply one_group_rank_identical.
Defined.

Lemma clip1_above (lo hi v : R) : lo <= hi -> hi <= v -> np.clip1 lo hi v = hi.
Proof.
  intros H1 H2. unfold np.clip1. rewrite Rmax_left by lra. apply Rmin_right. lra.
Qed.

Lemma clip1_inside (lo hi v : R) : lo <= v -> v <= hi -> np.clip1 lo hi v = v.
Proof.
  intros H1 H2. unfold np.clip1. rewrite Rmax_left by lra. apply Rmin_left. lra.
Qed.

(** C6, counterexample.  One event in one group, rank-identical predictions,
    [ada_coefficient = 200000] and [allow_wrong_signs] off: the Ada term is
    200000 and the returned gradient is clipped to 100000. *)
Lemma flatness_gradient_is_clipped :
  ~ (rank_identical (one_group false) [0] -> only_ada_term (one_group false) [0]).
Proof.
  intros Hclaim.
  destruct (Hclaim (one_group_rank_identical false)) as (ada & Eada & Hneg).
  destruct (zero_flatness_core (one_group false) [0] eq_refl eq_refl eq_refl eq_refl
              (one_group_rank_identical false))
    as (ada' & _ & Eada' & Lada & Vada & Hneg').
  rewrite Eada in Eada'. injection Eada' as <-.
  rewrite Hneg in Hneg'. injection Hneg' as Heq.
  specialize (Vada O (Nat.lt_0_succ _)).
  destruct ada as [|a [|? ?]]; simpl in Lada; try discriminate.
  evalR_in Vada. evalR_in Heq. injection Heq as Heq.
  change (Rmin (Rmax (-1 * 0) (-1 * 100000)) 2)
    with (np.clip1 (-1 * 100000) 2 (-1 * 0)) in Vada.
  rewrite clip1_inside, Rmult_0_r, exp_0 in Vada by lra.
  assert (Ha : a = 200000) by lra.
  change (Rmin (Rmax (1 * a) 0) (1 * 100000))
    with (np.clip1 0 (1 * 100000) (1 * a)) in Heq.
  rewrite clip1_above in Heq by lra. lra.
Qed.

(* ================================================================== *)
(** * Flatness losses: events in no group *)

Lemma foldM_preserves_in {A B : Type} (Inv : B -> Prop) (body : B -> A -> result B)
  (l : list A) (acc r : B) :
  (forall b a b', In a l -> body b a = Ok b' -> Inv b -> Inv b') ->
  foldM body l acc = Ok r -> Inv acc -> Inv r.
Proof.
  revert acc. induction l as [|a l IH]; intros acc Hbody H Hacc; simpl in H.
  - injection H as <-. exact Hacc.
  - bind_inv H as b Eb. apply (IH b); [|exact H|].
    + intros c x c' Hx. apply Hbody. right. exact Hx.
    + apply (Hbody acc a b); [left; reflexivity | exact Eb | exact Hacc].
Qed.

(** [occurences[group] += 1] counts an event of the group once. *)
Lemma count_group_nth (occ occ' : list nat) (g : list nat) (i : nat) :
  AbstractFlatnessLossFunction.count_group occ g = Ok occ' ->
  (In i g -> nth i occ' O = S (nth i occ O)) /\
  (~ In i g -> nth i occ' O = nth i occ O).
Proof.
  unfold AbstractFlatnessLossFunction.count_group. intros H.
  bind_inv H as cur Ecur. split.
  - intros Hin. destruct (put_inside _ _ _ _ i O H Hin) as (j & Hj & Ej & ->).
    destruct (take_nth occ g cur O Ecur) as (Lcur & Vcur).
    rewrite (nth_map_in S cur j O O) by lia. rewrite Vcur by exact Hj.
    rewrite Ej. reflexivity.
  - intros Hn. apply (put_outside _ _ _ _ i O H Hn).
Qed.

Lemma count_groups_zero (groups : list (list nat)) (occ occ' : list nat) (i : nat) :
  AbstractFlatnessLossFunction.count_groups occ groups = Ok occ' ->
  (nth i occ' O = O <-> nth i occ O = O /\ forall g, In g groups -> ~ In i g).
Proof.
  unfold AbstractFlatnessLossFunction.count_groups.
  revert occ. induction groups as [|g groups IH]; intros occ H; simpl in H.
  - injection H as <-. simpl. tauto.
  - bind_inv H as o Eo. rewrite (IH o H).
    destruct (count_group_nth occ o g i Eo) as [Hin Hout].
    destruct (in_dec Nat.eq_dec i g) as [Hi|Hi].
    + rewrite (Hin Hi). split; [intros [? _]; lia|].
      intros [_ Hall]. exfalso. apply (Hall g); [left; reflexivity | exact Hi].
    + rewrite (Hout Hi). split.
      * intros [Hz Hall]. split; [exact Hz|]. intros g' [<-|Hg']; auto.
      * intros [Hz Hall]. split; [exact Hz|]. intros g' Hg'. apply Hall. right.
        exact Hg'.
Qed.

(** The loop of [fit] over the labels: the groups it stores and the events
    it leaves with no occurrence. *)
Lemma collect_groups_loop
  (cg : DataFrame -> list Z -> Z -> result (list (list nat)))
  (X : DataFrame) (y : list Z) (labels : list Z) :
  forall found0 occ0 found occ,
    foldM (fun '(found, occurences) label =>
             groups <- cg X y label ;;
             occurences <- AbstractFlatnessLossFunction.count_groups occurences groups ;;
             Ok (found ++ [(label, groups)], occurences))
      labels (found0, occ0) = Ok (found, occ) ->
    exists new,
      found = found0 ++ new /\
      (forall label groups, In (label, groups) new ->
         In label labels /\ cg X y label = Ok groups) /\
      forall i, nth i occ O = O <-> (nth i occ0 O = O /\ in_no_group new i).
Proof.
  induction labels as [|label labels IH]; intros found0 occ0 found occ H; simpl in H.
  - injection H as <- <-. exists []. rewrite app_nil_r. split; [reflexivity|].
    split; [intros ? ? []|].
    intros i. unfold in_no_group. simpl. tauto.
  - bind_inv H as st Est. bind_inv Est as groups Eg. bind_inv Est as o Eo.
    injection Est as <-.
    destruct (IH _ _ _ _ H) as (new & -> & Hcg & Hocc).
    exists ((label, groups) :: new). rewrite <- app_assoc. split; [reflexivity|].
    split.
    { intros l gs [E|Hin].
      - injection E as <- <-. split; [left; reflexivity | exact Eg].
      - destruct (Hcg l gs Hin) as [Hl Hgs]. split; [right; exact Hl | exact Hgs]. }
    intros i. rewrite Hocc, (count_groups_zero groups occ0 o i Eo).
    unfold in_no_group. split.
    + intros [[Hz Hg] Hnew]. split; [exact Hz|].
      intros l gs g [E|Hin] Hgin; [injection E as <- <-; auto | eauto].
    + intros [Hz Hall]. split; [split; [exact Hz|]|].
      * intros g Hg. apply (Hall label groups g); [left; reflexivity | exact Hg].
      * intros l gs g Hin Hg. apply (Hall l gs g); [right; exact Hin | exact Hg].
Qed.

Lemma in_no_groupb_spec (found : list (Z * list (list nat))) (i : nat) :
  in_no_groupb found i = true <-> in_no_group found i.
Proof.
  unfold in_no_groupb, in_no_group. rewrite forallb_forall. split.
  - intros H label groups g Hin Hg Hi.
    specialize (H _ Hin). simpl in H. rewrite forallb_forall in H.
    specialize (H g Hg). apply negb_true_iff in H.
    assert (existsb (Nat.eqb i) g = true) as E; [|congruence].
    apply existsb_exists. exists i. split; [exact Hi | apply Nat.eqb_refl].
  - intros H [label groups] Hin. simpl. apply forallb_forall. intros g Hg.
    apply negb_true_iff. destruct (existsb (Nat.eqb i) g) eqn:E; [|reflexivity].
    exfalso. apply existsb_exists in E. destruct E as (j & Hj & Ej).
    apply Nat.eqb_eq in Ej. subst j. exact (H label groups g Hin Hg Hj).
Qed.

Lemma nth_repeat_zero (n i : nat) : nth i (repeat O n) O = O.
Proof.
  revert i. induction n as [|n IH]; intros [|i]; simpl; auto.
Qed.

(** The mask computed by [fit] marks the unassigned events of the uniform
    classes. *)
Lemma out_of_bins_unassigned (found : list (Z * list (list nat)))
  (occ : list nat) (labels y : list Z) :
  length occ = length y ->
  (forall i, nth i occ O = O <-> in_no_group found i) ->
  AbstractFlatnessLossFunction.out_of_bins occ y labels = unassigned found labels y.
Proof.
  intros L Hocc.
  unfold AbstractFlatnessLossFunction.out_of_bins, unassigned, np.in1d.
  apply (nth_ext _ _ false false).
  - rewrite !length_map, !length_combine, length_map, length_seq. lia.
  - intros i Hi. rewrite length_map, length_combine, length_map in Hi.
    rewrite (nth_map_in _ _ i false (O, false))
      by (rewrite length_combine, length_map; lia).
    rewrite (nth_map_in _ _ i false (O, 0%Z))
      by (rewrite length_combine, length_seq; lia).
    rewrite !combine_nth by (rewrite ?length_map, ?length_seq; lia).
    simpl. rewrite seq_nth by lia. simpl.
    rewrite (nth_map_in _ y i false 0%Z) by lia.
    f_equal.
    destruct (in_no_groupb found i) eqn:G.
    + apply Nat.eqb_eq. apply Hocc. apply in_no_groupb_spec. exact G.
    + apply Nat.eqb_neq. intros Hz. apply Hocc in Hz.
      apply in_no_groupb_spec in Hz. congruence.
Qed.

(** More than 1% of [n] events. *)
Lemma one_percent (c n : nat) :
  (c <= n)%nat ->
  0.01 < INR c / INR n <-> (n < 100 * c)%nat.
Proof.
  intros Hc. destruct n as [|n].
  - simpl. unfold Rdiv. rewrite Rinv_0, Rmult_0_r. split; [lra | lia].
  - assert (Hn : 0 < INR (S n)) by (apply lt_0_INR; lia).
    split.
    + intros H. apply INR_lt. rewrite mult_INR.
      replace (INR 100) with 100 by (simpl; lra).
      apply (Rmult_lt_compat_r (INR (S n))) in H; [|exact Hn].
      unfold Rdiv in H. rewrite Rmult_assoc, Rinv_l, Rmult_1_r in H by lra. lra.
    + intros H. apply lt_INR in H. rewrite mult_INR in H.
      replace (INR 100) with 100 in H by (simpl; lra).
      apply (Rmult_lt_reg_r (INR (S n))); [exact Hn|].
      unfold Rdiv. rewrite Rmult_assoc, Rinv_l, Rmult_1_r by lra. lra.
Qed.

Lemma count_true_le (m : list bool) :
  (AbstractFlatnessLossFunction.count_true m <= length m)%nat.
Proof. unfold AbstractFlatnessLossFunction.count_true. apply filter_length_le. Qed.

Lemma count_groups_ok (groups : list (list nat)) (occ : list nat) :
  Forall (Forall (fun i => (i < length occ)%nat)) groups ->
  exists occ',
    AbstractFlatnessLossFunction.count_groups occ groups = Ok occ' /\
    length occ' = length occ.
Proof.
  intros Hg. unfold AbstractFlatnessLossFunction.count_groups.
  apply (foldM_invariant (fun o => length o = length occ)); [|reflexivity].
  intros o g Hin Lo. rewrite Forall_forall in Hg. specialize (Hg g Hin).
  rewrite <- Lo in Hg.
  unfold AbstractFlatnessLossFunction.count_group.
  destruct (take_ok o g Hg) as (cur & Ecur & Lcur). rewrite Ecur. simpl.
  destruct (put_ok o g (map S cur) Hg) as (r & Er); [rewrite length_map; lia|].
  exists r. split; [exact Er|]. rewrite (put_length _ _ _ _ Er). exact Lo.
Qed.

(** [fit] completes on accepted weights and groups of events of the table. *)
Lemma flatness_fit_ok
  (cg : DataFrame -> list Z -> Z -> result (list (list nat)))
  (p : AbstractFlatnessLossFunction.Params) (X : DataFrame) (y : list Z)
  (sample_weight : option np.ndarray) :
  (exists w, check_sample_weight (length y) sample_weight false = Ok w) ->
  df_len X = length y ->
  (forall label, In label (AbstractFlatnessLossFunction.uniform_label p) ->
     exists groups,
       cg X y label = Ok groups /\
       Forall (Forall (fun i => (i < length y)%nat)) groups) ->
  exists self warnings,
    AbstractFlatnessLossFunction.fit cg p X y sample_weight = Ok (self, warnings).
Proof.
  intros (w & Hw) LX Hcg. unfold AbstractFlatnessLossFunction.fit.
  rewrite Hw. simpl. unfold assert. rewrite LX, Nat.eqb_refl. simpl.
  unfold AbstractFlatnessLossFunction.collect_groups.
  match goal with |- context [foldM ?body ?l ?acc] =>
    destruct (foldM_invariant
                (fun st : list (Z * list (list nat)) * list nat =>
                   length (snd st) = length y) body l acc)
      as ([found occ] & Est & Lo) end.
  - intros [f o] label Hin Lo. simpl in Lo.
    destruct (Hcg label Hin) as (groups & Eg & Hr). rewrite Eg. simpl.
    rewrite <- Lo in Hr.
    destruct (count_groups_ok groups o Hr) as (o' & Eo & Lo'). rewrite Eo. simpl.
    eexists. split; [reflexivity|]. simpl. congruence.
  - simpl. rewrite repeat_length. exact LX.
  - simpl in Lo. rewrite Est. simpl.
    pose proof (check_sample_weight_length _ _ _ _ Hw) as Lw.
    unfold np.div. rewrite broadcast2_same by len. simpl.
    eexists. eexists. reflexivity.
Qed.

Lemma inplace2_mult_zero (a b r : np.ndarray) (i : nat) :
  np.inplace2 Rmult a b = Ok r -> nth i a 0 = 0 -> nth i r 0 = 0.
Proof.
  unfold np.inplace2. intros H Hz.
  assert (Hmap : forall f : R -> R, (forall x, x = 0 -> f x = 0) ->
                 nth i (map f a) 0 = 0).
  { intros f Hf. destruct (Nat.lt_ge_cases i (length a)) as [Hi|Hi].
    - rewrite (nth_map_in f a i 0 0) by exact Hi. apply Hf. exact Hz.
    - apply nth_overflow. rewrite length_map. exact Hi. }
  destruct (Nat.eqb_spec (length a) (length b)) as [L|L].
  - injection H as <-. change (nth i (map2 Rmult a b) 0 = 0).
    destruct (Nat.lt_ge_cases i (length a)) as [Hi|Hi].
    + rewrite (nth_map2 Rmult a b i 0 0 0 L Hi). rewrite Hz. ring.
    + apply nth_overflow. rewrite map2_length by exact L. exact Hi.
  - destruct b as [|v [|? ?]]; try discriminate.
    injection H as <-. apply Hmap. intros x ->. ring.
Qed.

(** An event in no group gets no flatness gradient. *)
Lemma flatness_gradient_unassigned (self : AbstractFlatnessLossFunction.t)
  (y_pred fl : np.ndarray) (i : nat) :
  AbstractFlatnessLossFunction.flatness_gradient self y_pred = Ok fl ->
  in_no_group (AbstractFlatnessLossFunction.group_indices self) i ->
  nth i fl 0 = 0.
Proof.
  unfold AbstractFlatnessLossFunction.flatness_gradient. intros H Hno.
  bind_inv H as acc Eacc. apply (inplace2_mult_zero _ _ _ _ H).
  refine (foldM_preserves_in (fun a => nth i a 0 = 0) _ _ _ _ _ Eacc _);
    [|apply nth_zeros].
  intros b [label groups] b' Hin Hb Hz.
  unfold AbstractFlatnessLossFunction.add_label in Hb. simpl in Hb.
  bind_inv Hb as glob Eglob.
  refine (foldM_preserves_in (fun a => nth i a 0 = 0) _ _ _ _ _ Hb Hz).
  intros c g c' Hg Hc Hzc.
  unfold AbstractFlatnessLossFunction.add_group in Hc.
  bind_inv Hc as lp E1. bind_inv Hc as gp E2. bind_inv Hc as bg E3.
  unfold AbstractFlatnessLossFunction.iadd_at in Hc.
  bind_inv Hc as cur E4. bind_inv Hc as s E5.
  rewrite (put_outside _ _ _ _ i 0 Hc (Hno label groups g Hin Hg)). exact Hzc.
Qed.

(** ** The gradient returns *)

Lemma insert_by_spec (a : list R) (i : nat) (sorted : list nat) (P : nat -> Prop) :
  length (np.insert_by a i sorted) = S (length sorted) /\
  (P i -> Forall P sorted -> Forall P (np.insert_by a i sorted)).
Proof.
  induction sorted as [|j t [IHl IHf]]; simpl.
  - split; [reflexivity|]. intros; constructor; auto.
  - destruct (Rle_dec (nth i a 0) (nth j a 0)); simpl.
    + split; [reflexivity|]. intros; constructor; auto.
    + split; [rewrite IHl; reflexivity|].
      intros Hi Hs. inversion Hs; subst. constructor; auto.
Qed.

Lemma argsort_spec (a : list R) :
  length (np.argsort a) = length a /\
  Forall (fun i => (i < length a)%nat) (np.argsort a).
Proof.
  unfold np.argsort.
  assert (H : forall l, Forall (fun i => (i < length a)%nat) l ->
            length (fold_right (np.insert_by a) [] l) = length l /\
            Forall (fun i => (i < length a)%nat) (fold_right (np.insert_by a) [] l)).
  { induction 1 as [|i l Hi Hl [IHl IHf]]; simpl; [split; [reflexivity|constructor]|].
    destruct (insert_by_spec a i (fold_right (np.insert_by a) [] l)
                (fun k => (k < length a)%nat)) as [L F].
    split; [rewrite L, IHl; reflexivity | apply F; assumption]. }
  destruct (H (seq 0 (length a))) as [L F].
  - apply Forall_forall. intros i Hi. apply in_seq in Hi. lia.
  - rewrite length_seq in L. auto.
Qed.

Lemma insert_by_nat_spec (a : list nat) (i : nat) (sorted : list nat)
  (P : nat -> Prop) :
  length (np.insert_by_nat a i sorted) = S (length sorted) /\
  (P i -> Forall P sorted -> Forall P (np.insert_by_nat a i sorted)).
Proof.
  induction sorted as [|j t [IHl IHf]]; simpl.
  - split; [reflexivity|]. intros; constructor; auto.
  - destruct (Nat.leb (nth i a O) (nth j a O)); simpl.
    + split; [reflexivity|]. intros; constructor; auto.
    + split; [rewrite IHl; reflexivity|].
      intros Hi Hs. inversion Hs; subst. constructor; auto.
Qed.

Lemma argsort_nat_spec (a : list nat) :
  length (np.argsort_nat a) = length a /\
  Forall (fun i => (i < length a)%nat) (np.argsort_nat a).
Proof.
  unfold np.argsort_nat.
  assert (H : forall l, Forall (fun i => (i < length a)%nat) l ->
            length (fold_right (np.insert_by_nat a) [] l) = length l /\
            Forall (fun i => (i < length a)%nat)
              (fold_right (np.insert_by_nat a) [] l)).
  { induction 1 as [|i l Hi Hl [IHl IHf]]; simpl; [split; [reflexivity|constructor]|].
    destruct (insert_by_nat_spec a i (fold_right (np.insert_by_nat a) [] l)
                (fun k => (k < length a)%nat)) as [L F].
    split; [rewrite L, IHl; reflexivity | apply F; assumption]. }
  destruct (H (seq 0 (length a))) as [L F].
  - apply Forall_forall. intros i Hi. apply in_seq in Hi. lia.
  - rewrite length_seq in L. auto.
Qed.

Lemma cumsum_from_length (acc : R) (a : list R) :
  length (np.cumsum_from acc a) = length a.
Proof.
  revert acc. induction a as [|x a IH]; intros acc; simpl; auto.
Qed.

(** [_compute_positions] returns one position per event. *)
Lemma compute_positions_ok (y_pred sample_weight : list R) :
  length sample_weight = length y_pred ->
  exists pos,
    _compute_positions y_pred sample_weight = Ok pos /\
    length pos = length y_pred.
Proof.
  intros L. unfold _compute_positions.
  destruct (argsort_spec y_pred) as [Lo Fo].
  destruct (take_ok sample_weight (np.argsort y_pred)) as (ow & Eow & Low).
  { rewrite L. exact Fo. }
  rewrite Eow. simpl.
  destruct (argsort_nat_spec (np.argsort y_pred)) as [Ln Fn].
  match goal with |- context [np.take ?e ?idx] =>
    destruct (take_ok e idx) as (pos & Epos & Lpos) end.
  { rewrite length_map, length_combine. unfold np.cumsum.
    rewrite cumsum_from_length, !length_map, Nat.min_id, Low. exact Fn. }
  exists pos. split; [exact Epos | congruence].
Qed.

Lemma compress_length {A : Type} (mask : list bool) (a : list A) :
  length mask = length a ->
  length (np.compress mask a) = length (filter (fun b => b) mask).
Proof.
  revert a. induction mask as [|m mask IH]; intros [|x a] L; simpl in *; try lia;
    auto.
  destruct m; simpl; rewrite IH by lia; reflexivity.
Qed.

Lemma where_from_spec (k : nat) (mask : list bool) :
  length (np.where_from k mask) = length (filter (fun b => b) mask) /\
  Forall (fun i => (i < k + length mask)%nat) (np.where_from k mask).
Proof.
  revert k. induction mask as [|m mask IH]; intros k; simpl.
  - split; [reflexivity | constructor].
  - destruct (IH (S k)) as [L F].
    assert (F' : Forall (fun i => (i < k + S (length mask))%nat)
                   (np.where_from (S k) mask)).
    { eapply Forall_impl; [|exact F]. simpl. intros i Hi. lia. }
    destruct m; simpl; [|auto].
    split; [rewrite L; reflexivity|]. constructor; [lia | exact F'].
Qed.

Lemma global_positions_ok (self : AbstractFlatnessLossFunction.t) (label : Z)
  (y_pred : list R) :
  length (AbstractFlatnessLossFunction.y self) = length y_pred ->
  length (AbstractFlatnessLossFunction.sample_weight self) = length y_pred ->
  exists glob,
    AbstractFlatnessLossFunction.global_positions self label y_pred = Ok glob /\
    length glob = length y_pred.
Proof.
  intros Ly Lw.
  unfold AbstractFlatnessLossFunction.global_positions,
    AbstractFlatnessLossFunction.getmask.
  set (mask := map (fun v => Z.eqb v label) (AbstractFlatnessLossFunction.y self)).
  assert (Lm : length mask = length y_pred) by (unfold mask; rewrite length_map; auto).
  rewrite Lm, Lw, Nat.eqb_refl. simpl.
  destruct (compute_positions_ok (np.compress mask y_pred)
              (np.compress mask (AbstractFlatnessLossFunction.sample_weight self)))
    as (pos & Epos & Lpos).
  { rewrite !compress_length by congruence. reflexivity. }
  rewrite Epos. simpl.
  destruct (where_from_spec 0 mask) as [Lwh Fwh].
  destruct (put_ok (np.zeros (length y_pred)) (np.where_ mask) pos) as (r & Er).
  - unfold np.zeros. rewrite repeat_length. rewrite <- Lm. exact Fwh.
  - unfold np.where_. rewrite Lwh, Lpos, compress_length by congruence. lia.
  - exists r. split; [exact Er|]. rewrite (put_length _ _ _ _ Er). apply repeat_length.
Qed.

(** The flatness gradient returns on predictions of the fitted length. *)
Lemma flatness_gradient_ok (self : AbstractFlatnessLossFunction.t) (y_pred : list R) :
  length (AbstractFlatnessLossFunction.y self) = length y_pred ->
  length (AbstractFlatnessLossFunction.sample_weight self) = length y_pred ->
  length (AbstractFlatnessLossFunction.divided_weight self) = length y_pred ->
  (forall label groups,
     In (label, groups) (AbstractFlatnessLossFunction.group_indices self) ->
     Forall (Forall (fun i => (i < length y_pred)%nat)) groups) ->
  exists fl, AbstractFlatnessLossFunction.flatness_gradient self y_pred = Ok fl.
Proof.
  intros Ly Lw Ld Hgroups.
  unfold AbstractFlatnessLossFunction.flatness_gradient.
  set (n := length y_pred) in *.
  match goal with |- context [foldM ?body ?l ?acc] =>
    destruct (foldM_invariant (fun g => length g = n) body l acc)
      as (g & Eg & Lg) end.
  - intros acc [label groups] Hin La.
    unfold AbstractFlatnessLossFunction.add_label. simpl.
    destruct (global_positions_ok self label y_pred Ly Lw) as (glob & Eglob & Lglob).
    rewrite Eglob. simpl.
    apply (foldM_invariant (fun g => length g = n)); [|exact La].
    intros b idx Hidx Lb.
    pose proof (Hgroups label groups Hin) as Hr. rewrite Forall_forall in Hr.
    specialize (Hr idx Hidx).
    unfold AbstractFlatnessLossFunction.add_group,
      AbstractFlatnessLossFunction.local_positions.
    destruct (take_ok y_pred idx Hr) as (yp & Eyp & Lyp). rewrite Eyp. simpl.
    destruct (take_ok (AbstractFlatnessLossFunction.sample_weight self) idx)
      as (sw & Esw & Lsw); [rewrite Lw; exact Hr|].
    rewrite Esw. simpl.
    destruct (compute_positions_ok yp sw) as (pos & Epos & Lpos); [congruence|].
    rewrite Epos. simpl.
    destruct (take_ok glob idx) as (gp & Egp & Lgp); [rewrite Lglob; exact Hr|].
    rewrite Egp. simpl.
    unfold AbstractFlatnessLossFunction.bin_gradient, np.sub.
    rewrite broadcast2_same by congruence. simpl.
    unfold AbstractFlatnessLossFunction.iadd_at.
    destruct (take_ok b idx) as (cur & Ecur & Lcur); [rewrite Lb; exact Hr|].
    rewrite Ecur. simpl. unfold np.add.
    rewrite broadcast2_same by (rewrite length_map, map2_length; congruence).
    simpl.
    match goal with |- context [np.put b idx ?vals] =>
      destruct (put_ok b idx vals) as (r & Er) end.
    { rewrite Lb. exact Hr. }
    { rewrite map2_length; [lia|]. rewrite length_map, map2_length; congruence. }
    exists r. split; [exact Er|]. rewrite (put_length _ _ _ _ Er). exact Lb.
  - unfold np.zeros. rewrite repeat_length. exact Ly.
  - rewrite Eg. simpl. rewrite inplace2_same by congruence. eexists. reflexivity.
Qed.

(** C7 (as amended).  On accepted weights and groups of events of the
    table, [fit] completes, and it emits the warning if and only if the
    events of the uniform classes that are in no flatness group are more than
    1% of all events passed to [fit].  For those events the occurrence count
    is taken as 1 in [divided_weight], and their flatness gradient is
    zero. *)
Theorem flatness_fit_warns_on_one_percent_of_all_events
  (cg : DataFrame -> list Z -> Z -> result (list (list nat)))
  (p : AbstractFlatnessLossFunction.Params) (X : DataFrame) (y : list Z)
  (sample_weight : option np.ndarray) :
  (exists w, check_sample_weight (length y) sample_weight false = Ok w) ->
  df_len X = length y ->
  (forall label, In label (AbstractFlatnessLossFunction.uniform_label p) ->
     exists groups,
       cg X y label = Ok groups /\
       Forall (Forall (fun i => (i < length y)%nat)) groups) ->
  flatness_fit_report of_all_events cg p X y sample_weight.
Proof.
  intros Hw LX Hcg.
  destruct (flatness_fit_ok cg p X y sample_weight Hw LX Hcg)
    as (self & warnings & F).
  exists self, warnings. split; [exact F|].
  destruct (flatness_fit_inv cg p X y sample_weight self warnings F)
    as (_ & Hy & _ & Lw & Ld & _ & occ & Hcol & _ & Hdw & Hwarn).
  pose proof (collect_groups_length _ _ _ _ _ _ Hcol) as Lo.
  unfold AbstractFlatnessLossFunction.collect_groups in Hcol.
  destruct (collect_groups_loop cg X y _ _ _ _ _ Hcol)
    as (new & Hnew & Hfound & Hocc).
  simpl in Hnew. subst new.
  assert (Hocc' : forall i, nth i occ O = O
                  <-> in_no_group (AbstractFlatnessLossFunction.group_indices self) i).
  { intros i. rewrite Hocc, nth_repeat_zero. tauto. }
  rewrite (out_of_bins_unassigned _ occ _ y ltac:(congruence) Hocc') in Hwarn.
  cbv zeta in Hwarn |- *.
  set (lost := unassigned (AbstractFlatnessLossFunction.group_indices self)
                 (AbstractFlatnessLossFunction.uniform_label p) y) in *.
  assert (Llost : length lost = length y).
  { unfold lost, unassigned. rewrite length_map, length_combine, length_seq. lia. }
  assert (Hrule : 0.01 < AbstractFlatnessLossFunction.mean_bool lost
                  <-> (length y < 100 * AbstractFlatnessLossFunction.count_true lost)%nat).
  { unfold AbstractFlatnessLossFunction.mean_bool. rewrite Llost.
    apply one_percent. rewrite <- Llost. apply count_true_le. }
  unfold of_all_events.
  split; [|split].
  - rewrite Hwarn. destruct (Rlt_dec 0.01 (AbstractFlatnessLossFunction.mean_bool lost))
      as [Hlt|Hge].
    + split; [intros _; apply Hrule; exact Hlt | discriminate].
    + split; [congruence | intros Hn; apply Hrule in Hn; contradiction].
  - intros w Hin. rewrite Hwarn in Hin.
    destruct (Rlt_dec 0.01 (AbstractFlatnessLossFunction.mean_bool lost));
      [destruct Hin as [<-|[]]; reflexivity | contradiction].
  - intros i Hi Hlost.
    assert (Hno : in_no_group (AbstractFlatnessLossFunction.group_indices self) i).
    { unfold lost, unassigned in Hlost.
      rewrite (nth_map_in _ _ i false (O, 0%Z)) in Hlost
        by (rewrite length_combine, length_seq; lia).
      rewrite combine_nth in Hlost by (rewrite length_seq; reflexivity).
      simpl in Hlost. rewrite seq_nth in Hlost by lia. simpl in Hlost.
      apply andb_true_iff in Hlost. apply in_no_groupb_spec. tauto. }
    split.
    + rewrite Hdw.
      rewrite (nth_map2 Rdiv _ _ i 0 0 0) by (rewrite ?length_map; lia).
      rewrite (nth_map_in _ occ i 0 O) by lia.
      rewrite (proj2 (Hocc' i) Hno). simpl.
      rewrite Rmax_right by lra. reflexivity.
    + intros y_pred Lp.
      destruct (flatness_gradient_ok self y_pred) as (fl & Hfl);
        [congruence.. | |].
      * intros label groups Hin. destruct (Hfound label groups Hin) as [Hl Eg].
        destruct (Hcg label Hl) as (groups' & Eg' & Hr).
        rewrite Eg in Eg'. injection Eg' as <-. rewrite Lp. exact Hr.
      * exists fl. split; [exact Hfl|].
        eapply flatness_gradient_unassigned; eauto.
Qed.

Lemma flatness_fit_warns_on_one_percent_of_all_events_witness :
  flatness_fit_report of_all_events (fun _ _ _ => Ok [[O]]) (steep_ada true)
    (frame 1 "x" [0%Z]) [1%Z] None.
Proof.
  apply (flatness_fit_warns_on_one_percent_of_all_events (fun _ _ _ => Ok [[O]])
           (steep_ada true) (frame 1 "x" [0%Z]) [1%Z] None).
  - eexists. reflexivity.
  - reflexivity.
  - intros label _. exists [[O]]. split; [reflexivity|].
    repeat constructor.
Defined.

(** C7, counterexample.  Of 200 events one is of the uniform class and it
    is in no group: all events of the uniform class are unassigned, but they
    are 0.5% of the events passed to [fit], and no warning is emitted. *)
Lemma flatness_fit_is_silent_on_a_lost_class :
  ~ flatness_fit_report of_uniform_class no_groups (steep_ada true)
      (frame 200 "x" (repeat 0%Z 200)) one_in_two_hundred None.
Proof.
  intros (self & warnings & F & Hiff & _).
  destruct (flatness_fit_inv _ _ _ _ _ _ _ F)
    as (_ & _ & _ & _ & _ & _ & occ & Hcol & _ & _ & Hwarn).
  assert (Hc : AbstractFlatnessLossFunction.collect_groups no_groups
                 (frame 200 "x" (repeat 0%Z 200)) one_in_two_hundred
                 (AbstractFlatnessLossFunction.uniform_label (steep_ada true))
               = Ok ([(1%Z, [])], repeat O 200)) by (vm_compute; reflexivity).
  rewrite Hc in Hcol. injection Hcol as Hg Ho. rewrite <- Hg in Hiff.
  rewrite <- Ho in Hwarn. cbv zeta in Hwarn, Hiff.
  assert (Hsilent : warnings = []).
  { rewrite Hwarn.
    destruct (Rlt_dec 0.01 _) as [Hlt|_]; [|reflexivity].
    unfold AbstractFlatnessLossFunction.mean_bool in Hlt.
    apply one_percent in Hlt; [|apply count_true_le].
    vm_compute in Hlt. lia. }
  apply (proj2 Hiff); [|exact Hsilent].
  vm_compute. lia.
Qed.

(* ================================================================== *)
(** * The other leaf updates of the HessianLossFunction family *)

(** The matrix losses override the leaf update as well: for one event coupled
    with itself the leaf value is [1 / (1 + 1e-5)], where the described
    formula gives [1 / (1 + 5)]. *)
Lemma matrix_leaves_are_not_newton :
  ~ newton_leaves (MatrixParams identity_coupling 5) (frame 1 "x" [0%Z])
      [1%Z] [1] [0%nat] [0] [0] [1].
Proof.
  intros Hc.
  destruct (Hc _ eq_refl) as (h & leaves & a1 & a2 & Hh & Hp & Hlen & Hval).
  evalR_in Hh. evalR_in Hp.
  injection Hh as <- _. injection Hp as <- _.
  specialize (Hval 0%nat (Nat.lt_0_succ _)). clear Hlen.
  evalR_in Hval. autorewrite with rsimp in Hval.
  assert (H1 : 1 * 1 = 1) by ring. rewrite ?H1 in Hval.
  autorewrite with rsimp in Hval.
  apply (f_equal (fun v => v * (1 + / 100000) * (1 + 5 / 1))) in Hval.
  field_simplify in Hval. lra.
Qed.

(** X10.  [MSELossFunction.fit] does not call [HessianLossFunction.fit]: the
    inherited leaf update finds no [regularization_]. *)
Lemma mse_leaf_update_raises (reg : R) (X : DataFrame) (y : list Z)
  (sample_weight y_pred residual leaf_values : np.ndarray)
  (terminal_regions : list nat) (l : HessianLoss) :
  fit (MSEParams reg) X y sample_weight = Ok l ->
  length sample_weight = length y ->
  length residual = length y ->
  length terminal_regions = length y ->
  prepare_new_leaves_values l terminal_regions leaf_values y y_pred residual
  = Raise AttributeError.
Proof.
  intros F Lw Lr Lt. simpl in F. injection F as <-. simpl.
  unfold HessianLossFunction.prepare_new_leaves_values.
  destruct (bincount_ok terminal_regions residual (length leaf_values))
    as (nom & -> & _); [congruence|].
  simpl.
  destruct (bincount_ok terminal_regions sample_weight (length leaf_values))
    as (den & -> & _); [congruence|].
  reflexivity.
Qed.

(* ================================================================== *)
(** * The scalar losses: gradient and hessian as derivatives *)

Lemma derivable_pt_lim_ext (f g : R -> R) (x l : R) :
  (forall t, f t = g t) -> derivable_pt_lim f x l -> derivable_pt_lim g x l.
Proof.
  intros E D eps Heps. destruct (D eps Heps) as [delta Hd].
  exists delta. intros h Hh Hlt. rewrite <- !E. apply Hd; assumption.
Qed.

Lemma derivable_pt_lim_eq (f : R -> R) (x l l' : R) :
  l = l' -> derivable_pt_lim f x l -> derivable_pt_lim f x l'.
Proof. intros ->. auto. Qed.

(** [exp (a * t)] *)
Lemma derivable_exp_linear (a x : R) :
  derivable_pt_lim (fun t => exp (a * t)) x (a * exp (a * x)).
Proof.
  apply (derivable_pt_lim_ext (comp exp (mult_real_fct a id))); [reflexivity|].
  apply (derivable_pt_lim_eq _ _ (exp (a * x) * (a * 1))); [ring|].
  apply derivable_pt_lim_comp.
  - apply derivable_pt_lim_scal. apply derivable_pt_lim_id.
  - apply derivable_pt_lim_exp.
Qed.

Lemma expit_alt (x : R) : expit x = exp x / (1 + exp x).
Proof.
  unfold expit. rewrite exp_Ropp.
  pose proof (exp_pos x) as Hx. field. split; lra.
Qed.

Lemma expit_opp (x : R) : expit (- x) = 1 - expit x.
Proof.
  rewrite expit_alt. unfold expit. rewrite exp_Ropp.
  pose proof (exp_pos x) as Hx. field. split; lra.
Qed.

Lemma expit_bounds (x : R) : 0 < expit x < 1.
Proof.
  rewrite expit_alt. pose proof (exp_pos x) as Hx.
  split.
  - apply Rdiv_lt_0_compat; lra.
  - apply (Rmult_lt_reg_r (1 + exp x)); [lra|].
    unfold Rdiv. rewrite Rmult_assoc, Rinv_l by lra. lra.
Qed.

(** [numpy.logaddexp(0, a * t)] *)
Lemma derivable_logaddexp0_linear (a x : R) :
  derivable_pt_lim (fun t => LogLossFunction.logaddexp0 (a * t)) x (a * expit (a * x)).
Proof.
  unfold LogLossFunction.logaddexp0.
  apply (derivable_pt_lim_ext
           (comp ln (plus_fct (fct_cte 1) (fun t => exp (a * t))))); [reflexivity|].
  apply (derivable_pt_lim_eq _ _ (/ (1 + exp (a * x)) * (0 + a * exp (a * x)))).
  { rewrite expit_alt. pose proof (exp_pos (a * x)). field. lra. }
  apply derivable_pt_lim_comp.
  - apply derivable_pt_lim_plus; [apply derivable_pt_lim_const|].
    apply derivable_exp_linear.
  - unfold plus_fct, fct_cte. apply derivable_pt_lim_ln.
    pose proof (exp_pos (a * x)). lra.
Qed.

(** [expit (a * t)] *)
Lemma derivable_expit_linear (a x : R) :
  derivable_pt_lim (fun t => expit (a * t)) x
    (a * (expit (a * x) * (1 - expit (a * x)))).
Proof.
  pose proof (exp_pos (- (a * x))) as Hx.
  apply (derivable_pt_lim_ext
           (div_fct (fct_cte 1)
              (plus_fct (fct_cte 1) (fun t => exp ((- a) * t))))).
  { intros t. unfold div_fct, plus_fct, fct_cte, expit.
    replace (- a * t) with (- (a * t)) by ring. reflexivity. }
  apply (derivable_pt_lim_eq _ _
           ((0 * (1 + exp (- a * x)) - (0 + - a * exp (- a * x)) * 1)
            / Rsqr (1 + exp (- a * x)))).
  { unfold expit, Rsqr. replace (- a * x) with (- (a * x)) by ring.
    field. lra. }
  apply (derivable_pt_lim_div (fct_cte 1)
           (plus_fct (fct_cte 1) (fun t => exp (- a * t)))).
  - apply derivable_pt_lim_const.
  - apply derivable_pt_lim_plus; [apply derivable_pt_lim_const|].
    apply derivable_exp_linear.
  - unfold plus_fct, fct_cte. replace (- a * x) with (- (a * x)) by ring. lra.
Qed.

(** Two arrays that differ in one entry. *)
Lemma sum_changes_at (a b : np.ndarray) (i : nat) :
  length a = length b ->
  (forall k, k <> i -> nth k a 0 = nth k b 0) ->
  np.sum b = np.sum a - nth i a 0 + nth i b 0.
Proof.
  revert b i. induction a as [|x a IH]; intros [|z b] i L H; simpl in *; try lia.
  - destruct i; simpl; lra.
  - destruct i as [|i]; simpl.
    + assert (E : np.sum b = np.sum a).
      { rewrite (IH b (length a)); [|lia|].
        - rewrite !nth_overflow by lia. lra.
        - intros k Hk. destruct (Nat.lt_ge_cases k (length a)) as [Hlt|Hge].
          + apply (H (S k)). lia.
          + rewrite !nth_overflow by lia. reflexivity. }
      fold (np.sum b). fold (np.sum a). lra.
    + fold (np.sum b). fold (np.sum a).
      rewrite (IH b i); [|lia|].
      * rewrite (H 0%nat) by lia. lra.
      * intros k Hk. apply (H (S k)). lia.
Qed.

(** A sum of one term per event, each a function of the prediction of the
    event: its derivative in one prediction is the derivative of that
    term. *)
Lemma separable_sum (term : nat -> R -> R) (n : nat) (p : np.ndarray) (i : nat)
  (d : R) (L : np.ndarray -> np.ndarray) :
  (forall q, length q = n -> length (L q) = n) ->
  (forall q k, length q = n -> (k < n)%nat -> nth k (L q) 0 = term k (nth k q 0)) ->
  length p = n -> (i < n)%nat ->
  derivable_pt_lim (term i) (nth i p 0) d ->
  exists f : R -> R,
    (forall t, np.sum (L (np.set_nth i t p)) = f t) /\
    derivable_pt_lim f (nth i p 0) d.
Proof.
  intros HL Hnth Lp Hi D.
  exists (fun t => np.sum (L p) - term i (nth i p 0) + term i t). split.
  - intros t.
    assert (Lq : length (np.set_nth i t p) = n) by (rewrite set_nth_length; exact Lp).
    rewrite (sum_changes_at (L p) (L (np.set_nth i t p)) i).
    + rewrite !Hnth by assumption.
      rewrite (nth_set_nth_same i t 0 p) by lia. reflexivity.
    + rewrite !HL by assumption. reflexivity.
    + intros k Hk. destruct (Nat.lt_ge_cases k n) as [Hlt|Hge].
      * rewrite !Hnth by assumption.
        rewrite (nth_set_nth_other i k t 0 p) by lia. reflexivity.
      * rewrite !nth_overflow by (rewrite HL by assumption; lia). reflexivity.
  - apply (derivable_pt_lim_ext
             (plus_fct (fct_cte (np.sum (L p) - term i (nth i p 0))) (term i)));
      [reflexivity|].
    apply (derivable_pt_lim_eq _ _ (0 + d)); [ring|].
    apply derivable_pt_lim_plus; [apply derivable_pt_lim_const | exact D].
Qed.

Lemma nth_signed_neg (y : list Z) (k : nat) :
  (k < length y)%nat ->
  nth k (np.astype_float (map Z.opp (signed_labels y))) 0
  = - IZR (nth k (signed_labels y) 0%Z).
Proof.
  intros Hk. unfold np.astype_float.
  rewrite (nth_map_in IZR _ k 0 0%Z) by len.
  rewrite (nth_map_in Z.opp _ k 0%Z 0%Z) by len.
  apply opp_IZR.
Qed.

Lemma nth_signed (y : list Z) (k : nat) :
  (k < length y)%nat ->
  nth k (np.astype_float (signed_labels y)) 0 = IZR (nth k (signed_labels y) 0%Z).
Proof.
  intros Hk. unfold np.astype_float. apply nth_map_in. len.
Qed.

Lemma signed_label_square (y : list Z) (k : nat) :
  binary_labels y -> (k < length y)%nat ->
  IZR (nth k (signed_labels y) 0%Z) * IZR (nth k (signed_labels y) 0%Z) = 1.
Proof.
  intros Hb Hk. unfold signed_labels.
  rewrite (nth_map_in _ y k 0%Z 0%Z) by exact Hk.
  unfold binary_labels in Hb. rewrite Forall_forall in Hb.
  destruct (Hb (nth k y 0%Z) (nth_In _ _ Hk)) as [-> | ->]; simpl; lra.
Qed.

(** X1.  [AdaLossFunction]: entry [i] of [negative_gradient] is minus the
    partial derivative of the loss [__call__] in the prediction of event
    [i]. *)
Theorem ada_negative_gradient_is_minus_the_loss_derivative
  (reg : R) (X : DataFrame) (y : list Z) (sample_weight y_pred : np.ndarray)
  (self : AdaLossFunction.t) (i : nat) :
  AdaLossFunction.fit reg X y sample_weight = Ok self ->
  length sample_weight = length y ->
  length y_pred = length y ->
  (i < length y)%nat ->
  exists g,
    AdaLossFunction.negative_gradient self y_pred = Ok g /\
    partial_derivative (AdaLossFunction.__call__ self) y_pred i (- nth i g 0).
Proof.
  intros F Lw Lp Hi. injection F as <-.
  set (sneg := np.astype_float (map Z.opp (signed_labels y))).
  set (L := fun q : list R => map2 Rmult sample_weight (map exp (map2 Rmult sneg q))).
  assert (Lsneg : length sneg = length y) by (unfold sneg; len).
  assert (Hcall : forall q, length q = length y ->
            AdaLossFunction.__call__
              {| AdaLossFunction.regularization := reg;
                 AdaLossFunction.y := y;
                 AdaLossFunction.sample_weight := sample_weight;
                 AdaLossFunction.y_signed := signed_labels y;
                 AdaLossFunction.regularization_ :=
                   HessianLossFunction.fit reg sample_weight |} q
            = Ok (np.sum (L q))).
  { intros q Lq. unfold AdaLossFunction.__call__, np.mul. simpl.
    rewrite broadcast2_same by len. simpl.
    rewrite broadcast2_same by len. reflexivity. }
  unfold AdaLossFunction.negative_gradient, np.mul. simpl.
  rewrite broadcast2_same by len. simpl.
  rewrite broadcast2_same by len. simpl.
  rewrite broadcast2_same by len.
  eexists. split; [reflexivity|].
  destruct (separable_sum
              (fun k t => nth k sample_weight 0 * exp (nth k sneg 0 * t))
              (length y) y_pred i
              (nth i sample_weight 0
               * (nth i sneg 0 * exp (nth i sneg 0 * nth i y_pred 0))) L)
    as (f & Hf & Df); try assumption.
  - intros q Lq. unfold L. len.
  - intros q k Lq Hk. unfold L.
    rewrite (nth_map2 Rmult _ _ k 0 0 0) by len.
    rewrite (nth_map_in exp _ k 0 0) by len.
    rewrite (nth_map2 Rmult _ _ k 0 0 0) by len. reflexivity.
  - apply (derivable_pt_lim_scal (fun t => exp (nth i sneg 0 * t))).
    apply derivable_exp_linear.
  - exists f. split.
    + intros t. rewrite Hcall by (rewrite set_nth_length; exact Lp).
      rewrite Hf. reflexivity.
    + eapply derivable_pt_lim_eq; [|exact Df].
      fold sneg.
      rewrite (nth_map2 Rmult _ _ i 0 0 0) by len.
      rewrite (nth_map2 Rmult _ _ i 0 0 0) by len.
      rewrite (nth_map_in exp _ i 0 0) by len.
      rewrite (nth_map2 Rmult _ _ i 0 0 0) by len.
      unfold sneg. rewrite nth_signed_neg, nth_signed by exact Hi. ring.
Qed.

Lemma ada_negative_gradient_is_minus_the_loss_derivative_witness :
  exists self g,
    AdaLossFunction.fit 5 (frame 1 "x" [0%Z]) [1%Z] [1] = Ok self /\
    AdaLossFunction.negative_gradient self [0] = Ok g /\
    partial_derivative (AdaLossFunction.__call__ self) [0] 0 (- nth 0 g 0).
Proof.
  eexists.
  destruct (ada_negative_gradient_is_minus_the_loss_derivative
              5 (frame 1 "x" [0%Z]) [1%Z] [1] [0] _ 0%nat
              eq_refl eq_refl eq_refl (Nat.lt_0_succ 0)) as (g & Eg & D).
  exists g. split; [reflexivity|]. split; assumption.
Defined.

(** Entry [i] of element-wise products and maps. *)
Ltac nth_entries i :=
  repeat first [ rewrite (nth_map2 _ _ _ i 0 0 0) by len
               | rewrite (nth_map_in _ _ i 0 0) by len ].

(** X2.  [AdaLossFunction], labels 0 and 1: entry [i] of [hessian] is the
    second partial derivative of the loss in the prediction of event [i],
    that is minus the derivative of entry [i] of [negative_gradient]. *)
Theorem ada_hessian_is_the_second_derivative
  (reg : R) (X : DataFrame) (y : list Z) (sample_weight y_pred : np.ndarray)
  (self : AdaLossFunction.t) (i : nat) :
  AdaLossFunction.fit reg X y sample_weight = Ok self ->
  binary_labels y ->
  length sample_weight = length y ->
  length y_pred = length y ->
  (i < length y)%nat ->
  exists h,
    AdaLossFunction.hessian self y_pred = Ok h /\
    partial_derivative_of_entry (AdaLossFunction.negative_gradient self) y_pred i
      (- nth i h 0).
Proof.
  intros F Hb Lw Lp Hi. injection F as <-.
  set (sneg := np.astype_float (map Z.opp (signed_labels y))).
  set (s := np.astype_float (signed_labels y)).
  assert (Lsneg : length sneg = length y) by (unfold sneg; len).
  assert (Ls : length s = length y) by (unfold s; len).
  unfold AdaLossFunction.hessian, np.mul. simpl. fold sneg.
  rewrite broadcast2_same by len. simpl.
  rewrite broadcast2_same by len.
  eexists. split; [reflexivity|].
  exists (fun t => nth i s 0 * nth i sample_weight 0 * exp (nth i sneg 0 * t)).
  split.
  - intros t. set (q := np.set_nth i t y_pred).
    assert (Lq : length q = length y) by (unfold q; rewrite set_nth_length; exact Lp).
    unfold AdaLossFunction.negative_gradient, np.mul. simpl. fold sneg. fold s.
    rewrite broadcast2_same by len. simpl.
    rewrite broadcast2_same by len. simpl.
    rewrite broadcast2_same by len.
    eexists. split; [reflexivity|].
    nth_entries i. unfold q. rewrite (nth_set_nth_same i t 0 y_pred) by lia.
    reflexivity.
  - eapply derivable_pt_lim_eq;
      [|apply (derivable_pt_lim_scal (fun t => exp (nth i sneg 0 * t)));
        apply derivable_exp_linear].
    nth_entries i.
    unfold sneg, s. rewrite nth_signed_neg, nth_signed by exact Hi.
    pose proof (signed_label_square y i Hb Hi) as Hsq.
    set (si := IZR (nth i (signed_labels y) 0%Z)) in *.
    replace (si * nth i sample_weight 0 * (- si * exp (- si * nth i y_pred 0)))
      with (- ((si * si) * (nth i sample_weight 0 * exp (- si * nth i y_pred 0))))
      by ring.
    rewrite Hsq. ring.
Qed.

Lemma ada_hessian_is_the_second_derivative_witness :
  exists self h,
    AdaLossFunction.fit 5 (frame 1 "x" [0%Z]) [1%Z] [1] = Ok self /\
    AdaLossFunction.hessian self [0] = Ok h /\
    partial_derivative_of_entry (AdaLossFunction.negative_gradient self) [0] 0
      (- nth 0 h 0).
Proof.
  eexists.
  destruct (ada_hessian_is_the_second_derivative
              5 (frame 1 "x" [0%Z]) [1%Z] [1] [0] _ 0%nat eq_refl
              (Forall_cons 1%Z (or_intror eq_refl) (Forall_nil _))
              eq_refl eq_refl (Nat.lt_0_succ 0)) as (h & Eh & D).
  exists h. split; [reflexivity|]. split; assumption.
Defined.

(** [(c - t) ** 2] *)
Lemma derivable_square_difference (c x : R) :
  derivable_pt_lim (fun t => (c - t) ^ 2) x (- (2 * (c - x))).
Proof.
  apply (derivable_pt_lim_ext
           (comp (fun v => v ^ 2) (minus_fct (fct_cte c) id))); [reflexivity|].
  apply (derivable_pt_lim_eq _ _ (INR 2 * (c - x) ^ pred 2 * (0 - 1))).
  { simpl. ring. }
  apply derivable_pt_lim_comp.
  - apply derivable_pt_lim_minus; [apply derivable_pt_lim_const|].
    apply derivable_pt_lim_id.
  - apply derivable_pt_lim_pow.
Qed.

(** X3.  [MSELossFunction]: entry [i] of [negative_gradient] is minus the
    partial derivative of the loss in the prediction of event [i]. *)
Theorem mse_negative_gradient_is_minus_the_loss_derivative
  (reg : R) (X : DataFrame) (y sample_weight y_pred : np.ndarray)
  (self : MSELossFunction.t) (i : nat) :
  MSELossFunction.fit reg X y sample_weight = Ok self ->
  length sample_weight = length y ->
  length y_pred = length y ->
  (i < length y)%nat ->
  exists g,
    MSELossFunction.negative_gradient self y_pred = Ok g /\
    partial_derivative (MSELossFunction.__call__ self) y_pred i (- nth i g 0).
Proof.
  intros F Lw Lp Hi. injection F as <-.
  set (L := fun q : list R =>
              map2 Rmult sample_weight (map (fun v => v ^ 2) (map2 Rminus y q))).
  unfold MSELossFunction.negative_gradient, np.sub, np.mul. simpl.
  rewrite broadcast2_same by len. simpl.
  rewrite broadcast2_same by len.
  eexists. split; [reflexivity|].
  destruct (separable_sum
              (fun k t => nth k sample_weight 0 * (nth k y 0 - t) ^ 2)
              (length y) y_pred i
              (nth i sample_weight 0 * - (2 * (nth i y 0 - nth i y_pred 0))) L)
    as (f & Hf & Df); try assumption.
  - intros q Lq. unfold L. len.
  - intros q k Lq Hk. unfold L. nth_entries k. reflexivity.
  - apply (derivable_pt_lim_scal (fun t => (nth i y 0 - t) ^ 2)).
    apply derivable_square_difference.
  - exists (fun t => 0.5 * f t). split.
    + intros t. set (q := np.set_nth i t y_pred).
      assert (Lq : length q = length y)
        by (unfold q; rewrite set_nth_length; exact Lp).
      unfold MSELossFunction.__call__, np.sub, np.mul. simpl.
      rewrite broadcast2_same by len. simpl.
      rewrite broadcast2_same by len. simpl.
      unfold q. rewrite <- Hf. reflexivity.
    + eapply derivable_pt_lim_eq; [|apply (derivable_pt_lim_scal f); exact Df].
      nth_entries i. lra.
Qed.

Lemma mse_negative_gradient_is_minus_the_loss_derivative_witness :
  exists self g,
    MSELossFunction.fit 5 (frame 1 "x" [0%Z]) [1] [1] = Ok self /\
    MSELossFunction.negative_gradient self [0] = Ok g /\
    partial_derivative (MSELossFunction.__call__ self) [0] 0 (- nth 0 g 0).
Proof.
  eexists.
  destruct (mse_negative_gradient_is_minus_the_loss_derivative
              5 (frame 1 "x" [0%Z]) [1] [1] [0] _ 0%nat
              eq_refl eq_refl eq_refl (Nat.lt_0_succ 0)) as (g & Eg & D).
  exists g. split; [reflexivity|]. split; assumption.
Defined.

(** [MSELossFunction]: entry [i] of [hessian], the sample weight, is
    the second partial derivative of the loss in the prediction of event
    [i]. *)
Theorem mse_hessian_is_the_second_derivative
  (reg : R) (X : DataFrame) (y sample_weight y_pred : np.ndarray)
  (self : MSELossFunction.t) (i : nat) :
  MSELossFunction.fit reg X y sample_weight = Ok self ->
  length sample_weight = length y ->
  length y_pred = length y ->
  (i < length y)%nat ->
  exists h,
    MSELossFunction.hessian self y_pred = Ok h /\
    h = sample_weight /\
    partial_derivative_of_entry (MSELossFunction.negative_gradient self) y_pred i
      (- nth i h 0).
Proof.
  intros F Lw Lp Hi. injection F as <-.
  exists sample_weight. split; [reflexivity|]. split; [reflexivity|].
  exists (fun t => nth i sample_weight 0 * (nth i y 0 - t)). split.
  - intros t. set (q := np.set_nth i t y_pred).
    assert (Lq : length q = length y) by (unfold q; rewrite set_nth_length; exact Lp).
    unfold MSELossFunction.negative_gradient, np.sub, np.mul. simpl.
    rewrite broadcast2_same by len. simpl.
    rewrite broadcast2_same by len.
    eexists. split; [reflexivity|].
    nth_entries i. unfold q. rewrite (nth_set_nth_same i t 0 y_pred) by lia.
    reflexivity.
  - apply (derivable_pt_lim_ext
             (mult_real_fct (nth i sample_weight 0)
                (minus_fct (fct_cte (nth i y 0)) id))); [reflexivity|].
    apply (derivable_pt_lim_eq _ _ (nth i sample_weight 0 * (0 - 1))); [ring|].
    apply derivable_pt_lim_scal.
    apply derivable_pt_lim_minus; [apply derivable_pt_lim_const|].
    apply derivable_pt_lim_id.
Qed.

Lemma mse_hessian_is_the_second_derivative_witness :
  exists self h,
    MSELossFunction.fit 5 (frame 1 "x" [0%Z]) [1] [1] = Ok self /\
    MSELossFunction.hessian self [0] = Ok h /\
    h = [1] /\
    partial_derivative_of_entry (MSELossFunction.negative_gradient self) [0] 0
      (- nth 0 h 0).
Proof.
  eexists.
  destruct (mse_hessian_is_the_second_derivative
              5 (frame 1 "x" [0%Z]) [1] [1] [0] _ 0%nat
              eq_refl eq_refl eq_refl (Nat.lt_0_succ 0)) as (h & Eh & E1 & D).
  exists h. split; [reflexivity|]. repeat split; assumption.
Defined.

(** X4.  [LogLossFunction]: entry [i] of [negative_gradient] is minus the
    partial derivative of the loss in the prediction of event [i]. *)
Theorem logloss_negative_gradient_is_minus_the_loss_derivative
  (reg : R) (X : DataFrame) (y : list Z) (sample_weight y_pred : np.ndarray)
  (self : LogLossFunction.t) (i : nat) :
  LogLossFunction.fit reg X y sample_weight = Ok self ->
  length sample_weight = length y ->
  length y_pred = length y ->
  (i < length y)%nat ->
  exists g,
    LogLossFunction.negative_gradient self y_pred = Ok g /\
    partial_derivative (LogLossFunction.__call__ self) y_pred i (- nth i g 0).
Proof.
  intros F Lw Lp Hi. injection F as <-.
  set (sneg := np.astype_float (map Z.opp (signed_labels y))).
  set (L := fun q : list R =>
              map2 Rmult sample_weight
                (map LogLossFunction.logaddexp0 (map2 Rmult sneg q))).
  assert (Lsneg : length sneg = length y) by (unfold sneg; len).
  unfold LogLossFunction.negative_gradient, np.mul. simpl. fold sneg.
  rewrite broadcast2_same by len. simpl.
  rewrite broadcast2_same by len. simpl.
  rewrite broadcast2_same by len.
  eexists. split; [reflexivity|].
  destruct (separable_sum
              (fun k t => nth k sample_weight 0
                          * LogLossFunction.logaddexp0 (nth k sneg 0 * t))
              (length y) y_pred i
              (nth i sample_weight 0
               * (nth i sneg 0 * expit (nth i sneg 0 * nth i y_pred 0))) L)
    as (f & Hf & Df); try assumption.
  - intros q Lq. unfold L. len.
  - intros q k Lq Hk. unfold L. nth_entries k. reflexivity.
  - apply (derivable_pt_lim_scal
             (fun t => LogLossFunction.logaddexp0 (nth i sneg 0 * t))).
    apply derivable_logaddexp0_linear.
  - exists f. split.
    + intros t. set (q := np.set_nth i t y_pred).
      assert (Lq : length q = length y)
        by (unfold q; rewrite set_nth_length; exact Lp).
      unfold LogLossFunction.__call__, np.mul. simpl. fold sneg.
      rewrite broadcast2_same by len. simpl.
      rewrite broadcast2_same by len. simpl.
      unfold q. rewrite <- Hf. reflexivity.
    + eapply derivable_pt_lim_eq; [|exact Df].
      nth_entries i.
      unfold sneg. rewrite nth_signed_neg, nth_signed by exact Hi. ring.
Qed.

Lemma logloss_negative_gradient_is_minus_the_loss_derivative_witness :
  exists self g,
    LogLossFunction.fit 5 (frame 1 "x" [0%Z]) [1%Z] [1] = Ok self /\
    LogLossFunction.negative_gradient self [0] = Ok g /\
    partial_derivative (LogLossFunction.__call__ self) [0] 0 (- nth 0 g 0).
Proof.
  eexists.
  destruct (logloss_negative_gradient_is_minus_the_loss_derivative
              5 (frame 1 "x" [0%Z]) [1%Z] [1] [0] _ 0%nat
              eq_refl eq_refl eq_refl (Nat.lt_0_succ 0)) as (g & Eg & D).
  exists g. split; [reflexivity|]. split; assumption.
Defined.

(** X5.  [LogLossFunction], labels 0 and 1: entry [i] of [hessian] is the
    second partial derivative of the loss in the prediction of event [i]. *)
Theorem logloss_hessian_is_the_second_derivative
  (reg : R) (X : DataFrame) (y : list Z) (sample_weight y_pred : np.ndarray)
  (self : LogLossFunction.t) (i : nat) :
  LogLossFunction.fit reg X y sample_weight = Ok self ->
  binary_labels y ->
  length sample_weight = length y ->
  length y_pred = length y ->
  (i < length y)%nat ->
  exists h,
    LogLossFunction.hessian self y_pred = Ok h /\
    partial_derivative_of_entry (LogLossFunction.negative_gradient self) y_pred i
      (- nth i h 0).
Proof.
  intros F Hb Lw Lp Hi. injection F as <-.
  set (sneg := np.astype_float (map Z.opp (signed_labels y))).
  set (s := np.astype_float (signed_labels y)).
  assert (Lsneg : length sneg = length y) by (unfold sneg; len).
  assert (Ls : length s = length y) by (unfold s; len).
  unfold LogLossFunction.hessian, np.mul. simpl. fold s.
  rewrite broadcast2_same by len. simpl.
  rewrite broadcast2_same by len. simpl.
  rewrite broadcast2_same by len.
  eexists. split; [reflexivity|].
  exists (fun t => nth i s 0 * nth i sample_weight 0 * expit (nth i sneg 0 * t)).
  split.
  - intros t. set (q := np.set_nth i t y_pred).
    assert (Lq : length q = length y) by (unfold q; rewrite set_nth_length; exact Lp).
    unfold LogLossFunction.negative_gradient, np.mul. simpl. fold sneg. fold s.
    rewrite broadcast2_same by len. simpl.
    rewrite broadcast2_same by len. simpl.
    rewrite broadcast2_same by len.
    eexists. split; [reflexivity|].
    nth_entries i. unfold q. rewrite (nth_set_nth_same i t 0 y_pred) by lia.
    reflexivity.
  - eapply derivable_pt_lim_eq;
      [|apply (derivable_pt_lim_scal (fun t => expit (nth i sneg 0 * t)));
        apply derivable_expit_linear].
    nth_entries i.
    unfold sneg, s. rewrite nth_signed_neg, nth_signed by exact Hi.
    pose proof (signed_label_square y i Hb Hi) as Hsq.
    set (si := IZR (nth i (signed_labels y) 0%Z)) in *.
    replace (- si * nth i y_pred 0) with (- (si * nth i y_pred 0)) by ring.
    rewrite expit_opp.
    set (e := expit (si * nth i y_pred 0)).
    replace (si * nth i sample_weight 0 * (- si * ((1 - e) * (1 - (1 - e)))))
      with (- ((si * si) * (nth i sample_weight 0 * e * (1 - e)))) by ring.
    rewrite Hsq. ring.
Qed.

Lemma logloss_hessian_is_the_second_derivative_witness :
  exists self h,
    LogLossFunction.fit 5 (frame 1 "x" [0%Z]) [1%Z] [1] = Ok self /\
    LogLossFunction.hessian self [0] = Ok h /\
    partial_derivative_of_entry (LogLossFunction.negative_gradient self) [0] 0
      (- nth 0 h 0).
Proof.
  eexists.
  destruct (logloss_hessian_is_the_second_derivative
              5 (frame 1 "x" [0%Z]) [1%Z] [1] [0] _ 0%nat eq_refl
              (Forall_cons 1%Z (or_intror eq_refl) (Forall_nil _))
              eq_refl eq_refl (Nat.lt_0_succ 0)) as (h & Eh & D).
  exists h. split; [reflexivity|]. split; assumption.
Defined.

(** [numpy.logaddexp(0, - t)] and [expit(- t)] *)
Lemma derivable_logaddexp0_opp (x : R) :
  derivable_pt_lim (fun t => LogLossFunction.logaddexp0 (- t)) x (- expit (- x)).
Proof.
  apply (derivable_pt_lim_ext (fun t => LogLossFunction.logaddexp0 (-1 * t))).
  { intros t. f_equal. ring. }
  eapply derivable_pt_lim_eq; [|apply derivable_logaddexp0_linear].
  replace (-1 * x) with (- x) by ring. ring.
Qed.

Lemma derivable_expit_opp (x : R) :
  derivable_pt_lim (fun t => expit (- t)) x (- (expit (- x) * (1 - expit (- x)))).
Proof.
  apply (derivable_pt_lim_ext (fun t => expit (-1 * t))).
  { intros t. f_equal. ring. }
  eapply derivable_pt_lim_eq; [|apply derivable_expit_linear].
  replace (-1 * x) with (- x) by ring. ring.
Qed.

(** X6.  [CompositeLossFunction]: entry [i] of [negative_gradient] is minus
    the partial derivative of the loss in the prediction of event [i]. *)
Theorem composite_negative_gradient_is_minus_the_loss_derivative
  (reg : R) (X : DataFrame) (y : list Z) (sample_weight y_pred : np.ndarray)
  (self : CompositeLossFunction.t) (i : nat) :
  CompositeLossFunction.fit reg X y sample_weight = Ok self ->
  length sample_weight = length y ->
  length y_pred = length y ->
  (i < length y)%nat ->
  exists g,
    CompositeLossFunction.negative_gradient self y_pred = Ok g /\
    partial_derivative (CompositeLossFunction.__call__ self) y_pred i (- nth i g 0).
Proof.
  intros F Lw Lp Hi.
  destruct (composite_fit_inv reg X y sample_weight self Lw F) as (Ls & Lb & _).
  set (sig := CompositeLossFunction.sig_w self) in *.
  set (bck := CompositeLossFunction.bck_w self) in *.
  set (L1 := fun q : list R =>
               map2 Rmult sig (map (fun p => LogLossFunction.logaddexp0 (- p)) q)).
  set (L2 := fun q : list R => map2 Rmult bck (map (fun p => exp (0.5 * p)) q)).
  unfold CompositeLossFunction.negative_gradient, np.mul. fold sig. fold bck.
  rewrite broadcast2_same by len. simpl.
  rewrite broadcast2_same by len. simpl.
  rewrite inplace2_same by len.
  eexists. split; [reflexivity|].
  destruct (separable_sum
              (fun k t => nth k sig 0 * LogLossFunction.logaddexp0 (- t))
              (length y) y_pred i
              (nth i sig 0 * - expit (- nth i y_pred 0)) L1)
    as (f1 & Hf1 & Df1); try assumption.
  { intros q Lq. unfold L1. len. }
  { intros q k Lq Hk. unfold L1. nth_entries k. reflexivity. }
  { apply (derivable_pt_lim_scal (fun t => LogLossFunction.logaddexp0 (- t))).
    apply derivable_logaddexp0_opp. }
  destruct (separable_sum
              (fun k t => nth k bck 0 * exp (0.5 * t))
              (length y) y_pred i
              (nth i bck 0 * (0.5 * exp (0.5 * nth i y_pred 0))) L2)
    as (f2 & Hf2 & Df2); try assumption.
  { intros q Lq. unfold L2. len. }
  { intros q k Lq Hk. unfold L2. nth_entries k. reflexivity. }
  { apply (derivable_pt_lim_scal (fun t => exp (0.5 * t))).
    apply derivable_exp_linear. }
  exists (fun t => f1 t + f2 t). split.
  - intros t. set (q := np.set_nth i t y_pred).
    assert (Lq : length q = length y)
      by (unfold q; rewrite set_nth_length; exact Lp).
    unfold CompositeLossFunction.__call__, np.mul. fold sig. fold bck.
    rewrite broadcast2_same by len. simpl.
    rewrite broadcast2_same by len. simpl.
    unfold q. rewrite <- Hf1, <- Hf2. reflexivity.
  - eapply derivable_pt_lim_eq;
      [|apply (derivable_pt_lim_plus f1 f2); [exact Df1 | exact Df2]].
    nth_entries i. ring.
Qed.

Lemma composite_negative_gradient_is_minus_the_loss_derivative_witness :
  exists self g,
    CompositeLossFunction.fit 5 (frame 1 "x" [0%Z]) [1%Z] [1] = Ok self /\
    CompositeLossFunction.negative_gradient self [0] = Ok g /\
    partial_derivative (CompositeLossFunction.__call__ self) [0] 0 (- nth 0 g 0).
Proof.
  eexists.
  destruct (composite_negative_gradient_is_minus_the_loss_derivative
              5 (frame 1 "x" [0%Z]) [1%Z] [1] [0] _ 0%nat
              eq_refl eq_refl eq_refl (Nat.lt_0_succ 0)) as (g & Eg & D).
  exists g. split; [reflexivity|]. split; assumption.
Defined.

(** X7.  [CompositeLossFunction]: entry [i] of [hessian] is the second
    partial derivative of the loss in the prediction of event [i]. *)
Theorem composite_hessian_is_the_second_derivative
  (reg : R) (X : DataFrame) (y : list Z) (sample_weight y_pred : np.ndarray)
  (self : CompositeLossFunction.t) (i : nat) :
  CompositeLossFunction.fit reg X y sample_weight = Ok self ->
  length sample_weight = length y ->
  length y_pred = length y ->
  (i < length y)%nat ->
  exists h,
    CompositeLossFunction.hessian self y_pred = Ok h /\
    partial_derivative_of_entry (CompositeLossFunction.negative_gradient self)
      y_pred i (- nth i h 0).
Proof.
  intros F Lw Lp Hi.
  destruct (composite_fit_inv reg X y sample_weight self Lw F) as (Ls & Lb & _).
  set (sig := CompositeLossFunction.sig_w self) in *.
  set (bck := CompositeLossFunction.bck_w self) in *.
  unfold CompositeLossFunction.hessian, np.mul, np.add. fold sig. fold bck.
  rewrite broadcast2_same by len. simpl.
  rewrite broadcast2_same by len. simpl.
  rewrite broadcast2_same by len. simpl.
  rewrite broadcast2_same by len.
  eexists. split; [reflexivity|].
  exists (fun t => nth i sig 0 * expit (- t)
                   - 0.5 * nth i bck 0 * exp (0.5 * t)).
  split.
  - intros t. set (q := np.set_nth i t y_pred).
    assert (Lq : length q = length y) by (unfold q; rewrite set_nth_length; exact Lp).
    unfold CompositeLossFunction.negative_gradient, np.mul. fold sig. fold bck.
    rewrite broadcast2_same by len. simpl.
    rewrite broadcast2_same by len. simpl.
    rewrite inplace2_same by len.
    eexists. split; [reflexivity|].
    nth_entries i. unfold q. rewrite (nth_set_nth_same i t 0 y_pred) by lia.
    reflexivity.
  - apply (derivable_pt_lim_ext
             (minus_fct (mult_real_fct (nth i sig 0) (fun t => expit (- t)))
                (mult_real_fct (0.5 * nth i bck 0) (fun t => exp (0.5 * t)))));
      [reflexivity|].
    eapply derivable_pt_lim_eq;
      [|apply derivable_pt_lim_minus;
        [apply derivable_pt_lim_scal; apply derivable_expit_opp
        |apply derivable_pt_lim_scal; apply derivable_exp_linear]].
    nth_entries i. replace 0.25 with (0.5 * 0.5) by lra. ring.
Qed.

Lemma composite_hessian_is_the_second_derivative_witness :
  exists self h,
    CompositeLossFunction.fit 5 (frame 1 "x" [0%Z]) [1%Z] [1] = Ok self /\
    CompositeLossFunction.hessian self [0] = Ok h /\
    partial_derivative_of_entry (CompositeLossFunction.negative_gradient self)
      [0] 0 (- nth 0 h 0).
Proof.
  eexists.
  destruct (composite_hessian_is_the_second_derivative
              5 (frame 1 "x" [0%Z]) [1%Z] [1] [0] _ 0%nat
              eq_refl eq_refl eq_refl (Nat.lt_0_succ 0)) as (h & Eh & D).
  exists h. split; [reflexivity|]. split; assumption.
Defined.

(* ================================================================== *)
(** * The scalar losses: signs and bounds *)

Lemma all_at_least_map2_mult (a b : np.ndarray) :
  all_at_least 0 a -> all_at_least 0 b -> all_at_least 0 (map2 Rmult a b).
Proof.
  unfold all_at_least, map2. revert b.
  induction a as [|x a IH]; intros [|z b] Ha Hb; simpl; try constructor.
  - inversion Ha; inversion Hb; subst. apply Rmult_le_pos; assumption.
  - inversion Ha; inversion Hb; subst. apply IH; assumption.
Qed.

Lemma all_at_least_map2_plus (a b : np.ndarray) :
  all_at_least 0 a -> all_at_least 0 b -> all_at_least 0 (map2 Rplus a b).
Proof.
  unfold all_at_least, map2. revert b.
  induction a as [|x a IH]; intros [|z b] Ha Hb; simpl; try constructor.
  - inversion Ha; inversion Hb; subst. lra.
  - inversion Ha; inversion Hb; subst. apply IH; assumption.
Qed.

Lemma all_at_least_map {A : Type} (f : A -> R) (lo : R) (a : list A) :
  (forall v, lo <= f v) -> all_at_least lo (map f a).
Proof.
  intros H. unfold all_at_least. apply Forall_forall. intros v Hv.
  apply in_map_iff in Hv. destruct Hv as (u & <- & _). apply H.
Qed.

Lemma all_at_least_shift (lo c : R) (a : np.ndarray) :
  all_at_least lo a -> all_at_least (lo + c) (map (fun v => v + c) a).
Proof.
  intros Ha. unfold all_at_least in *. rewrite Forall_forall in *. intros v Hv.
  apply in_map_iff in Hv. destruct Hv as (u & <- & Hu). specialize (Ha u Hu). lra.
Qed.

Lemma all_at_least_nth (lo : R) (a : np.ndarray) (i : nat) :
  all_at_least lo a -> (i < length a)%nat -> lo <= nth i a 0.
Proof.
  intros Ha Hi. unfold all_at_least in Ha. rewrite Forall_forall in Ha.
  apply Ha. apply nth_In. exact Hi.
Qed.

Lemma expit_variance (x : R) : 0 <= expit x * (1 - expit x) <= / 4.
Proof.
  pose proof (expit_bounds x) as [H0 H1]. split.
  - apply Rmult_le_pos; lra.
  - pose proof (Rle_0_sqr (expit x - / 2)) as H. unfold Rsqr in H.
    replace (expit x * (1 - expit x))
      with (/ 4 - (expit x - / 2) * (expit x - / 2)) by field.
    lra.
Qed.

Lemma ada_hessian_nonneg (self : AdaLossFunction.t) (y_pred : np.ndarray) :
  length (AdaLossFunction.y_signed self) = length y_pred ->
  length (AdaLossFunction.sample_weight self) = length y_pred ->
  all_at_least 0 (AdaLossFunction.sample_weight self) ->
  exists h, AdaLossFunction.hessian self y_pred = Ok h /\
            length h = length y_pred /\ all_at_least 0 h.
Proof.
  intros Ey Ew Hw. unfold AdaLossFunction.hessian, np.mul.
  rewrite broadcast2_same by len. simpl.
  rewrite broadcast2_same by len.
  eexists; split; [reflexivity|]. split; [len|].
  apply all_at_least_map2_mult; [exact Hw|].
  apply all_at_least_map. intros v. left. apply exp_pos.
Qed.

Lemma log_hessian_nonneg (self : LogLossFunction.t) (y_pred : np.ndarray) :
  length (LogLossFunction.y_signed self) = length y_pred ->
  length (LogLossFunction.sample_weight self) = length y_pred ->
  all_at_least 0 (LogLossFunction.sample_weight self) ->
  exists h, LogLossFunction.hessian self y_pred = Ok h /\
            length h = length y_pred /\ all_at_least 0 h.
Proof.
  intros Ey Ew Hw. unfold LogLossFunction.hessian, np.mul.
  rewrite broadcast2_same by len. simpl.
  rewrite broadcast2_same by len. simpl.
  rewrite broadcast2_same by len.
  eexists; split; [reflexivity|]. split; [len|].
  apply all_at_least_map2_mult.
  - apply all_at_least_map2_mult; [exact Hw|].
    apply all_at_least_map. intros v. left. apply expit_bounds.
  - rewrite map_map. apply all_at_least_map. intros v.
    pose proof (expit_bounds v). lra.
Qed.

Lemma composite_weights_nonneg (reg : R) (X : DataFrame) (y : list Z)
  (sample_weight : np.ndarray) (self : CompositeLossFunction.t) :
  length sample_weight = length y ->
  all_at_least 0 sample_weight ->
  CompositeLossFunction.fit reg X y sample_weight = Ok self ->
  all_at_least 0 (CompositeLossFunction.sig_w self) /\
  all_at_least 0 (CompositeLossFunction.bck_w self).
Proof.
  intros E Hw. unfold CompositeLossFunction.fit, CompositeLossFunction.class_weight, np.mul.
  rewrite !broadcast2_same by len. simpl.
  intros F. injection F as <-. simpl.
  split; (apply all_at_least_map2_mult; [|exact Hw]);
    apply all_at_least_map; intros v;
    match goal with |- context [if ?c then _ else _] => destruct c end; lra.
Qed.

Lemma composite_hessian_nonneg (self : CompositeLossFunction.t) (y_pred : np.ndarray) :
  length (CompositeLossFunction.sig_w self) = length y_pred ->
  length (CompositeLossFunction.bck_w self) = length y_pred ->
  all_at_least 0 (CompositeLossFunction.sig_w self) ->
  all_at_least 0 (CompositeLossFunction.bck_w self) ->
  exists h, CompositeLossFunction.hessian self y_pred = Ok h /\
            length h = length y_pred /\ all_at_least 0 h.
Proof.
  intros Es Eb Hs Hb. unfold CompositeLossFunction.hessian, np.mul, np.add.
  rewrite broadcast2_same by len. simpl.
  rewrite broadcast2_same by len. simpl.
  rewrite broadcast2_same by len. simpl.
  rewrite broadcast2_same by len.
  eexists; split; [reflexivity|]. split; [len|].
  apply all_at_least_map2_plus.
  - apply all_at_least_map2_mult.
    + apply all_at_least_map2_mult; [exact Hs|].
      apply all_at_least_map. intros v. left. apply expit_bounds.
    + rewrite map_map. apply all_at_least_map. intros v.
      pose proof (expit_bounds (- v)). lra.
  - apply all_at_least_map2_mult.
    + unfold all_at_least in *. rewrite Forall_forall in *. intros v Hv.
      apply in_map_iff in Hv. destruct Hv as (u & <- & Hu).
      specialize (Hb u Hu). lra.
    + apply all_at_least_map. intros v. left. apply exp_pos.
Qed.

(** X8.  [HessianLossFunction.prepare_tree_params] for the Ada, MSE, log and
    composite losses fitted with non-negative sample weights: the tree
    weights, the hessian plus [0.01], are all at least [0.01], so the
    division that gives the tree targets is by a positive number. *)
Theorem tree_weights_are_at_least_one_hundredth
  (p : HessianLossParams) (X : DataFrame) (y : list Z)
  (sample_weight y_pred : np.ndarray) (l : HessianLoss) :
  per_event_loss p ->
  fit p X y sample_weight = Ok l ->
  length sample_weight = length y ->
  length y_pred = length y ->
  all_at_least 0 sample_weight ->
  exists target weights,
    prepare_tree_params l y_pred = Ok ((target, weights), y_pred) /\
    length target = length y /\
    length weights = length y /\
    all_at_least 0.01 weights.
Proof.
  intros Hp F Lw Lp Hw.
  assert (Hshift : forall h, all_at_least 0 h ->
            all_at_least 0.01 (map (fun v => v + 0.01) h)).
  { intros h Hh. replace 0.01 with (0 + 0.01) at 1 by lra.
    apply all_at_least_shift. exact Hh. }
  destruct p as [reg|reg|reg|reg|col pen n|cp reg]; simpl in Hp; try contradiction;
    simpl in F.
  - (* Ada *)
    injection F as <-.
    match goal with |- context [Ada ?s0] => set (s := s0) end.
    destruct (ada_hessian_nonneg s y_pred) as (h & Eh & Lh & Hh); simpl; len.
    destruct (ada_negative_gradient_ok s y_pred) as (g & Eg & Lg); simpl; len.
    exists (map2 Rdiv g (map (fun v => v + 0.01) h)), (map (fun v => v + 0.01) h).
    split; [|split; [len | split; [len | apply Hshift; exact Hh]]].
    apply (inherited_tree_params s y_pred g h y_pred y_pred); simpl;
      unfold pure_method; [rewrite Eg | rewrite Eh | congruence]; reflexivity.
  - (* MSE *)
    injection F as <-.
    match goal with |- context [MSE ?s0] => set (s := s0) end.
    destruct (mse_methods_ok s y_pred) as (g & Eg & Lg); simpl; len.
    exists (map2 Rdiv g (map (fun v => v + 0.01) sample_weight)),
      (map (fun v => v + 0.01) sample_weight).
    split; [|split; [len | split; [len | apply Hshift; exact Hw]]].
    apply (inherited_tree_params s y_pred g sample_weight y_pred y_pred); simpl;
      unfold pure_method; [rewrite Eg | | congruence]; reflexivity.
  - (* Log *)
    injection F as <-.
    match goal with |- context [LogLoss ?s0] => set (s := s0) end.
    destruct (log_hessian_nonneg s y_pred) as (h & Eh & Lh & Hh); simpl; len.
    destruct (log_negative_gradient_ok s y_pred) as (g & Eg & Lg); simpl; len.
    exists (map2 Rdiv g (map (fun v => v + 0.01) h)), (map (fun v => v + 0.01) h).
    split; [|split; [len | split; [len | apply Hshift; exact Hh]]].
    apply (inherited_tree_params s y_pred g h y_pred y_pred); simpl;
      unfold pure_method; [rewrite Eg | rewrite Eh | congruence]; reflexivity.
  - (* Composite *)
    bind_inv F as s Fs. injection F as <-.
    destruct (composite_fit_inv reg X y sample_weight s Lw Fs) as (Ls & Lb & _).
    destruct (composite_weights_nonneg reg X y sample_weight s Lw Hw Fs) as (Hs & Hb).
    destruct (composite_hessian_nonneg s y_pred) as (h & Eh & Lh & Hh);
      try congruence; try assumption.
    destruct (composite_negative_gradient_ok s y_pred) as (g & Eg & Lg);
      try congruence.
    exists (map2 Rdiv g (map (fun v => v + 0.01) h)), (map (fun v => v + 0.01) h).
    split; [|split; [len | split; [len | apply Hshift; exact Hh]]].
    apply (inherited_tree_params s y_pred g h y_pred y_pred); simpl;
      unfold pure_method; [rewrite Eg | rewrite Eh | congruence]; reflexivity.
Qed.

Lemma tree_weights_are_at_least_one_hundredth_witness :
  exists target weights,
    prepare_tree_params
      (LogLoss (value_or
                  {| LogLossFunction.regularization := 0;
                     LogLossFunction.y := [];
                     LogLossFunction.sample_weight := [];
                     LogLossFunction.y_signed := [];
                     LogLossFunction.adjusted_regularization := 0;
                     LogLossFunction.regularization_ := 0 |}
                  (LogLossFunction.fit 5 (frame 1 "x" [0%Z]) [1%Z] [2]))) [0]
    = Ok ((target, weights), [0]) /\
    length target = 1%nat /\
    length weights = 1%nat /\
    all_at_least 0.01 weights.
Proof.
  apply (tree_weights_are_at_least_one_hundredth (LogParams 5)
           (frame 1 "x" [0%Z]) [1%Z] [2] [0]);
    [exact I | reflexivity | reflexivity | reflexivity |].
  constructor; [lra | constructor].
Defined.

Lemma signed_label_cases (y : list Z) (k : nat) :
  binary_labels y -> (k < length y)%nat ->
  IZR (nth k (signed_labels y) 0%Z) = -1 \/ IZR (nth k (signed_labels y) 0%Z) = 1.
Proof.
  intros Hb Hk. unfold signed_labels.
  rewrite (nth_map_in _ y k 0%Z 0%Z) by exact Hk.
  unfold binary_labels in Hb. rewrite Forall_forall in Hb.
  destruct (Hb (nth k y 0%Z) (nth_In _ _ Hk)) as [-> | ->]; simpl; [left | right]; lra.
Qed.

(** X9.  [LogLossFunction], labels 0 and 1 and non-negative weights: no
    entry of [negative_gradient] exceeds the weight of its event in absolute
    value, and every entry of [hessian] lies between 0 and a quarter of the
    weight. *)
Theorem logloss_gradient_and_hessian_are_bounded
  (reg : R) (X : DataFrame) (y : list Z) (sample_weight y_pred : np.ndarray)
  (self : LogLossFunction.t) :
  LogLossFunction.fit reg X y sample_weight = Ok self ->
  binary_labels y ->
  length sample_weight = length y ->
  length y_pred = length y ->
  all_at_least 0 sample_weight ->
  exists g h,
    LogLossFunction.negative_gradient self y_pred = Ok g /\
    LogLossFunction.hessian self y_pred = Ok h /\
    length g = length y /\
    length h = length y /\
    forall i, (i < length y)%nat ->
      Rabs (nth i g 0) <= nth i sample_weight 0 /\
      0 <= nth i h 0 <= nth i sample_weight 0 / 4.
Proof.
  intros F Hb Lw Lp Hw. injection F as <-.
  set (sneg := np.astype_float (map Z.opp (signed_labels y))).
  set (s := np.astype_float (signed_labels y)).
  assert (Lsneg : length sneg = length y) by (unfold sneg; len).
  assert (Ls : length s = length y) by (unfold s; len).
  unfold LogLossFunction.negative_gradient, LogLossFunction.hessian, np.mul. simpl.
  fold s. fold sneg.
  repeat (rewrite broadcast2_same by len; simpl).
  do 2 eexists. split; [reflexivity|]. split; [reflexivity|].
  split; [len|]. split; [len|].
  intros i Hi. nth_entries i.
  pose proof (all_at_least_nth 0 sample_weight i Hw ltac:(lia)) as Hwi.
  unfold s. rewrite nth_signed by exact Hi.
  set (si := IZR (nth i (signed_labels y) 0%Z)).
  pose proof (expit_bounds (nth i sneg 0 * nth i y_pred 0)) as [E0 E1].
  pose proof (expit_variance (si * nth i y_pred 0)) as [V0 V1].
  set (w := nth i sample_weight 0) in *.
  split.
  - rewrite !Rabs_mult.
    rewrite (Rabs_pos_eq w) by exact Hwi.
    rewrite (Rabs_pos_eq (expit _)) by lra.
    assert (Hs : Rabs si = 1).
    { destruct (signed_label_cases y i Hb Hi) as [E|E]; fold si in E; rewrite E;
        unfold Rabs; destruct (Rcase_abs _); lra. }
    rewrite Hs. nra.
  - rewrite Rmult_assoc. split; [apply Rmult_le_pos; assumption|].
    unfold Rdiv. apply Rmult_le_compat_l; [exact Hwi|].
    exact V1.
Qed.

Lemma logloss_gradient_and_hessian_are_bounded_witness :
  exists self g h,
    LogLossFunction.fit 5 (frame 1 "x" [0%Z]) [1%Z] [2] = Ok self /\
    LogLossFunction.negative_gradient self [0] = Ok g /\
    LogLossFunction.hessian self [0] = Ok h /\
    length g = 1%nat /\
    length h = 1%nat /\
    forall i, (i < 1)%nat ->
      Rabs (nth i g 0) <= nth i [2] 0 /\ 0 <= nth i h 0 <= nth i [2] 0 / 4.
Proof.
  eexists.
  destruct (logloss_gradient_and_hessian_are_bounded
              5 (frame 1 "x" [0%Z]) [1%Z] [2] [0] _ eq_refl
              (Forall_cons 1%Z (or_intror eq_refl) (Forall_nil _))
              eq_refl eq_refl
              (Forall_cons 2 (Rlt_le 0 2 Rlt_0_2) (Forall_nil _)))
    as (g & h & Eg & Eh & Lg & Lh & B).
  exists g, h. split; [reflexivity|]. repeat split; try assumption; apply B; assumption.
Defined.

Lemma mse_leaf_update_raises_witness :
  prepare_new_leaves_values
    (MSE {| MSELossFunction.regularization := 5;
            MSELossFunction.y := [1];
            MSELossFunction.sample_weight := [1] |})
    [0%nat] [0] [1%Z] [0] [1]
  = Raise AttributeError.
Proof.
  apply (mse_leaf_update_raises 5 (frame 1 "x" [0%Z]) [1%Z] [1] [0] [1] [0] [0%nat]);
    reflexivity.
Defined.

(* ================================================================== *)
(** * RankBoostLossFunction: what the methods depend on *)

Lemma sum_map_plus (c : R) (a : np.ndarray) :
  np.sum (map (fun v => v + c) a) = np.sum a + INR (length a) * c.
Proof.
  induction a as [|x a IH]; [simpl; lra|].
  change (np.sum (map (fun v => v + c) (x :: a)))
    with ((x + c) + np.sum (map (fun v => v + c) a)).
  change (np.sum (x :: a)) with (x + np.sum a).
  rewrite IH. change (length (x :: a)) with (S (length a)). rewrite S_INR. lra.
Qed.

Lemma center_shift (c : R) (y_pred : np.ndarray) :
  RankBoostLossFunction.center (map (fun v => v + c) y_pred)
  = RankBoostLossFunction.center y_pred.
Proof.
  destruct y_pred as [|x a]; [reflexivity|].
  unfold RankBoostLossFunction.center. rewrite map_map.
  apply map_ext. intros v.
  unfold np.mean. rewrite sum_map_plus, length_map.
  assert (Hn : INR (length (x :: a)) <> 0) by (apply not_0_INR; simpl; lia).
  field. exact Hn.
Qed.

(** X11.  [RankBoostLossFunction]: the loss, [negative_gradient] and
    [hessian] are computed from the centred predictions only, so adding one
    constant to every prediction changes neither their values nor the
    contents they leave in the caller's array. *)
Theorem rankboost_methods_ignore_a_common_shift
  (self : RankBoostLossFunction.t) (y_pred : np.ndarray) (c : R) :
  let shifted := map (fun v => v + c) y_pred in
  RankBoostLossFunction.__call__ self shifted
    = RankBoostLossFunction.__call__ self y_pred /\
  RankBoostLossFunction.negative_gradient self shifted
    = RankBoostLossFunction.negative_gradient self y_pred /\
  RankBoostLossFunction.hessian self shifted
    = RankBoostLossFunction.hessian self y_pred.
Proof.
  intros shifted. unfold shifted.
  unfold RankBoostLossFunction.__call__, RankBoostLossFunction.negative_gradient,
    RankBoostLossFunction.hessian.
  rewrite !center_shift. repeat split; reflexivity.
Qed.

Lemma getitem_columns_missing (cols : list (string * list Z)) (name : string) :
  (forall column, ~ In (name, column) cols) ->
  getitem_columns cols name = Raise KeyError.
Proof.
  induction cols as [|[k v] cols IH]; intros H; simpl; [reflexivity|].
  destruct (String.eqb_spec k name) as [->|Hne].
  - exfalso. apply (H v). left. reflexivity.
  - apply IH. intros column Hin. apply (H column). right. exact Hin.
Qed.

(** [RankBoostLossFunction.fit] on a table without the column named
    [request_column] raises [KeyError], whatever the labels, the weights and
    the penalty name are. *)
Theorem rankboost_fit_needs_the_request_column
  (n : nat) (pen col : string) (X : DataFrame) (y : list Z)
  (sample_weight : np.ndarray) :
  (forall column, ~ In (col, column) (df_columns X)) ->
  RankBoostLossFunction.fit n pen col X y sample_weight = Raise KeyError.
Proof.
  intros H. unfold RankBoostLossFunction.fit, getitem.
  rewrite (getitem_columns_missing _ _ H). reflexivity.
Qed.

Lemma rankboost_fit_needs_the_request_column_witness :
  RankBoostLossFunction.fit 1 "square" "query" (frame 1 "mass" [0%Z]) [0%Z] [1]
  = Raise KeyError.
Proof.
  apply rankboost_fit_needs_the_request_column.
  intros column [E|[]]. discriminate E.
Defined.

Lemma penalty_unknown (pen : string) (r1 r2 : Z) :
  pen <> "square"%string -> pen <> "linear"%string ->
  RankBoostLossFunction.penalty pen r1 r2 = Raise NotImplementedError.
Proof.
  intros Hs Hl. unfold RankBoostLossFunction.penalty.
  destruct (String.eqb_spec pen "square"); [contradiction|].
  destruct (String.eqb_spec pen "linear"); [contradiction|]. reflexivity.
Qed.

(** With a penalty name that is neither ['square'] nor ['linear'] the loops
    of [fit] raise at the first pair of distinct ranks and write nothing
    when there is none. *)
Lemma fill_rank_penalties_unknown (pen : string) (ranks : list Z) :
  pen <> "square"%string -> pen <> "linear"%string ->
  StronglySorted Z.lt ranks ->
  match ranks with
  | _ :: _ :: _ =>
      RankBoostLossFunction.fill_rank_penalties pen ranks = Raise NotImplementedError
  | _ => exists m, RankBoostLossFunction.fill_rank_penalties pen ranks = Ok m
  end.
Proof.
  intros Hs Hl Hsorted. unfold RankBoostLossFunction.fill_rank_penalties.
  destruct ranks as [|r1 [|r2 rest]].
  - simpl. eauto.
  - simpl. rewrite Z.ltb_irrefl. simpl. eauto.
  - assert (Hlt : (r1 < r2)%Z).
    { inversion Hsorted as [|? ? _ Hall]; subst. inversion Hall; subst. assumption. }
    apply Z.ltb_lt in Hlt.
    simpl. rewrite Z.ltb_irrefl. simpl. rewrite Hlt.
    rewrite penalty_unknown by assumption. reflexivity.
Qed.

(** X12.  [RankBoostLossFunction.fit] with a [messup_penalty] other than
    ['square'] and ['linear']: it raises [NotImplementedError] when the labels
    hold two distinct values, and it completes when all labels are equal,
    since the penalty name is read only for a pair of ranks [r1 < r2]. *)
Theorem rankboost_fit_unknown_penalty
  (n : nat) (pen col : string) (X : DataFrame) (y : list Z)
  (sample_weight : np.ndarray) :
  well_formed X y ->
  (exists queries, getitem X col = Ok queries) ->
  pen <> "square"%string ->
  pen <> "linear"%string ->
  ((exists a b, In a y /\ In b y /\ a <> b) ->
   RankBoostLossFunction.fit n pen col X y sample_weight = Raise NotImplementedError) /\
  ((forall a b, In a y -> In b y -> a = b) ->
   exists self, RankBoostLossFunction.fit n pen col X y sample_weight = Ok self).
Proof.
  intros [WL WC] (queries & Eq) Hs Hl.
  assert (Lq : length queries = length y).
  { unfold getitem in Eq. apply getitem_columns_in in Eq. destruct Eq as (k & Hk).
    rewrite (WC _ _ Hk). exact WL. }
  pose proof (fill_rank_penalties_unknown pen (np.unique y) Hs Hl (unique_sorted y))
    as Hfill.
  pose proof (sorted_NoDup _ (unique_sorted y)) as Hnd.
  unfold RankBoostLossFunction.fit. rewrite Eq. simpl.
  unfold np.unique_inverse.
  rewrite broadcast2_same by (rewrite !length_map; exact Lq). simpl.
  split.
  - intros (a & b & Ha & Hb & Hab).
    apply in_unique in Ha. apply in_unique in Hb.
    destruct (np.unique y) as [|r1 [|r2 rest]].
    + destruct Ha.
    + destruct Ha as [<-|[]]. destruct Hb as [<-|[]]. contradiction.
    + rewrite Hfill. reflexivity.
  - intros Hall.
    destruct (np.unique y) as [|r1 [|r2 rest]] eqn:U.
    + destruct Hfill as (m & Em). rewrite Em. simpl.
      rewrite bincount_count_inverse_length, Nat.eqb_refl. simpl. eauto.
    + destruct Hfill as (m & Em). rewrite Em. simpl.
      rewrite bincount_count_inverse_length, Nat.eqb_refl. simpl. eauto.
    + exfalso.
      assert (H1 : In r1 y) by (apply in_unique; rewrite U; simpl; auto).
      assert (H2 : In r2 y) by (apply in_unique; rewrite U; simpl; auto).
      pose proof (Hall r1 r2 H1 H2) as E. subst r2.
      inversion Hnd as [|? ? Hnin _]; subst. apply Hnin. left. reflexivity.
Qed.

Lemma rankboost_fit_unknown_penalty_witness :
  ((exists a b, In a [0; 1]%Z /\ In b [0; 1]%Z /\ a <> b) ->
   RankBoostLossFunction.fit 1 "cubic" "query" (frame 2 "query" [0; 0]%Z)
     [0; 1]%Z [1; 1] = Raise NotImplementedError) /\
  ((forall a b, In a [0; 1]%Z -> In b [0; 1]%Z -> a = b) ->
   exists self,
     RankBoostLossFunction.fit 1 "cubic" "query" (frame 2 "query" [0; 0]%Z)
       [0; 1]%Z [1; 1] = Ok self).
Proof.
  apply (rankboost_fit_unknown_penalty 1 "cubic" "query" (frame 2 "query" [0; 0]%Z)
           [0; 1]%Z [1; 1]).
  - exact (well_formed_frame 2 "query" [0; 0]%Z [0; 1]%Z eq_refl eq_refl).
  - eexists. reflexivity.
  - discriminate.
  - discriminate.
Defined.

(** X13.  [RankBoostLossFunction.fit]: the two lookups encode the rank and
    the pair (query, rank) of every event.  The first lookup indexes
    [possible_ranks] to the label of the event; the quotient and the
    remainder of the second lookup by the number of ranks index
    [possible_queries] to the query id of the event and [possible_ranks] to
    its label, and the second lookup stays below the second [minlength]. *)
Theorem rankboost_lookups_decode
  (n : nat) (pen col : string) (X : DataFrame) (y : list Z)
  (sample_weight : np.ndarray) (self : RankBoostLossFunction.t)
  (queries : list Z) (i : nat) :
  RankBoostLossFunction.fit n pen col X y sample_weight = Ok self ->
  getitem X col = Ok queries ->
  length queries = length y ->
  (i < length y)%nat ->
  let k := length (RankBoostLossFunction.possible_ranks self) in
  let by_rank := nth i (nth 0 (RankBoostLossFunction.lookups self) []) 0%nat in
  let by_query := nth i (nth 1 (RankBoostLossFunction.lookups self) []) 0%nat in
  nth by_rank (RankBoostLossFunction.possible_ranks self) 0%Z = nth i y 0%Z /\
  nth (by_query / k) (RankBoostLossFunction.possible_queries self) 0%Z
    = nth i queries 0%Z /\
  nth (by_query mod k) (RankBoostLossFunction.possible_ranks self) 0%Z
    = nth i y 0%Z /\
  (by_query < nth 1 (RankBoostLossFunction.minlengths self) 0)%nat.
Proof.
  intros F Eq Lq Hi.
  unfold RankBoostLossFunction.fit in F. rewrite Eq in F. simpl in F.
  unfold np.unique_inverse in F.
  rewrite broadcast2_same in F by (rewrite !length_map; exact Lq). simpl in F.
  bind_inv F as m Em. bind_inv F as u Eu. injection F as <-. simpl.
  set (U := np.unique y). set (Q := np.unique queries).
  assert (Hy : In (nth i y 0%Z) U) by (apply in_unique, nth_In; exact Hi).
  assert (Hq : In (nth i queries 0%Z) Q) by (apply in_unique, nth_In; lia).
  pose proof (index_of_lt _ _ Hy) as Hr.
  pose proof (index_of_lt _ _ Hq) as Hqi.
  rewrite (nth_map_in (fun v => np.index_of v U) y i 0%nat 0%Z) by exact Hi.
  rewrite (nth_map2 _ _ _ i 0%nat 0%nat 0%nat) by (rewrite ?length_map; lia).
  rewrite (nth_map_in (fun v => np.index_of v Q) queries i 0%nat 0%Z) by lia.
  rewrite (nth_map_in (fun v => np.index_of v U) y i 0%nat 0%Z) by exact Hi.
  set (r := np.index_of (nth i y 0%Z) U) in *.
  set (q := np.index_of (nth i queries 0%Z) Q) in *.
  assert (Hk : length U <> 0%nat) by lia.
  split; [apply nth_index_of; exact Hy|].
  split.
  - rewrite Nat.div_add_l by exact Hk. rewrite Nat.div_small by exact Hr.
    rewrite Nat.add_0_r. apply nth_index_of. exact Hq.
  - split.
    + rewrite Nat.add_comm, Nat.Div0.mod_add, Nat.mod_small by exact Hr.
      apply nth_index_of. exact Hy.
    + nia.
Qed.

Lemma rankboost_lookups_decode_witness :
  let self := two_ranks 1 in
  let k := length (RankBoostLossFunction.possible_ranks self) in
  let by_rank := nth 1 (nth 0 (RankBoostLossFunction.lookups self) []) 0%nat in
  let by_query := nth 1 (nth 1 (RankBoostLossFunction.lookups self) []) 0%nat in
  nth by_rank (RankBoostLossFunction.possible_ranks self) 0%Z = nth 1 [0; 1]%Z 0%Z /\
  nth (by_query / k) (RankBoostLossFunction.possible_queries self) 0%Z
    = nth 1 [0; 0]%Z 0%Z /\
  nth (by_query mod k) (RankBoostLossFunction.possible_ranks self) 0%Z
    = nth 1 [0; 1]%Z 0%Z /\
  (by_query < nth 1 (RankBoostLossFunction.minlengths self) 0)%nat.
Proof.
  apply (rankboost_lookups_decode 1 "square" "query" (frame 2 "query" [0; 0]%Z)
           [0; 1]%Z [1; 1] (two_ranks 1) [0; 0]%Z 1%nat);
    [apply two_ranks_fit | reflexivity | reflexivity | simpl; lia].
Defined.

(* ================================================================== *)
(** * RankBoostLossFunction: the entries of the penalty array *)

(** A loop that establishes a fact for every element and never loses a fact
    once established: [Le b b'] says that the facts of [b] hold for [b']. *)
Lemma foldM_establishes {A B : Type} (Inv : B -> Prop) (Done : A -> B -> Prop)
  (Le : B -> B -> Prop) (body : B -> A -> result B) (l : list A) :
  (forall b, Le b b) ->
  (forall a b c, Le a b -> Le b c -> Le a c) ->
  (forall a b b', Le b b' -> Done a b -> Done a b') ->
  (forall b a b', In a l -> Inv b -> body b a = Ok b' ->
     Inv b' /\ Done a b' /\ Le b b') ->
  forall acc r, Inv acc -> foldM body l acc = Ok r ->
    Inv r /\ Le acc r /\ forall a, In a l -> Done a r.
Proof.
  intros Hrefl Htrans Hmono. induction l as [|x l IH]; intros Hbody acc r Hacc H;
    simpl in H.
  - injection H as <-. repeat split; [exact Hacc | apply Hrefl | intros a []].
  - bind_inv H as b' E.
    destruct (Hbody acc x b' (or_introl eq_refl) Hacc E) as (Hb' & Hx & Hle).
    destruct (IH (fun b a c Ha => Hbody b a c (or_intror Ha)) b' r Hb' H)
      as (Hr & Hle' & Hall).
    repeat split; [exact Hr | eapply Htrans; eassumption |].
    intros a [<-|Ha]; [eapply Hmono; eassumption | apply Hall; exact Ha].
Qed.

Lemma normalize_index_nonneg (k : nat) (r : Z) :
  (0 <= r < Z.of_nat k)%Z ->
  RankBoostLossFunction.normalize_index k r = Ok (Z.to_nat r).
Proof.
  intros Hr. unfold RankBoostLossFunction.normalize_index.
  destruct (Z.leb_spec 0 r), (Z.ltb_spec r (Z.of_nat k)); simpl; try lia.
  reflexivity.
Qed.

Lemma entry_setitem2 (k : nat) (m m' : list (list Z)) (r1 r2 v : Z) :
  square k m ->
  (0 <= r1 < Z.of_nat k)%Z -> (0 <= r2 < Z.of_nat k)%Z ->
  RankBoostLossFunction.setitem2 k m r1 r2 v = Ok m' ->
  forall a b,
    entry m' a b
    = if Nat.eqb a (Z.to_nat r1) && Nat.eqb b (Z.to_nat r2) then v else entry m a b.
Proof.
  intros [Lm Fm] H1 H2 H a b. unfold RankBoostLossFunction.setitem2 in H.
  rewrite !normalize_index_nonneg in H by assumption. simpl in H.
  injection H as <-. unfold entry.
  set (i := Z.to_nat r1). set (j := Z.to_nat r2).
  assert (Hi : (i < length m)%nat) by (unfold i; lia).
  assert (Hrow : length (nth i m []) = k).
  { rewrite Forall_forall in Fm. apply Fm. apply nth_In. exact Hi. }
  destruct (Nat.eqb_spec a i) as [->|Ha]; simpl.
  - rewrite (nth_set_nth_same i _ [] m) by exact Hi.
    destruct (Nat.eqb_spec b j) as [->|Hb].
    + apply nth_set_nth_same. unfold j. lia.
    + apply nth_set_nth_other. auto.
  - rewrite (nth_set_nth_other i a _ [] m) by auto. reflexivity.
Qed.

Lemma entry_zeros (k a b : nat) : entry (repeat (repeat 0%Z k) k) a b = 0%Z.
Proof.
  unfold entry.
  destruct (Nat.lt_ge_cases a k) as [Ha|Ha].
  - rewrite (nth_indep _ [] (repeat 0%Z k)) by (rewrite repeat_length; exact Ha).
    rewrite nth_repeat. apply nth_repeat.
  - rewrite (nth_overflow (repeat (repeat 0%Z k) k)) by (rewrite repeat_length; exact Ha).
    destruct b; reflexivity.
Qed.

(** What the loops of [fit] leave in the array when every rank is an index
    [0 <= r < k]: nothing on and below the diagonal, and the penalty of the
    pair in the entry of every pair of ranks [r1 < r2]. *)
Lemma fill_rank_penalties_entries (pen : string) (ranks : list Z)
  (m : list (list Z)) :
  let k := length ranks in
  (forall r, In r ranks -> (0 <= r < Z.of_nat k)%Z) ->
  RankBoostLossFunction.fill_rank_penalties pen ranks = Ok m ->
  (forall a b, (b <= a)%nat -> entry m a b = 0%Z) /\
  (forall r1 r2, In r1 ranks -> In r2 ranks -> (r1 < r2)%Z ->
     RankBoostLossFunction.penalty pen r1 r2
     = Ok (entry m (Z.to_nat r1) (Z.to_nat r2))).
Proof.
  intros k Hrange H. unfold RankBoostLossFunction.fill_rank_penalties in H.
  fold k in H.
  set (Inv := fun m : list (list Z) =>
                square k m /\ forall a b, (b <= a)%nat -> entry m a b = 0%Z).
  set (W := fun (r1 r2 : Z) (m : list (list Z)) =>
              RankBoostLossFunction.penalty pen r1 r2
              = Ok (entry m (Z.to_nat r1) (Z.to_nat r2))).
  set (Le := fun m m' : list (list Z) =>
               forall r1 r2, (0 <= r1 < Z.of_nat k)%Z -> (0 <= r2 < Z.of_nat k)%Z ->
                 W r1 r2 m -> W r1 r2 m').
  assert (Hrefl : forall b, Le b b) by (intros b r1 r2 _ _ Hw; exact Hw).
  assert (Htrans : forall a b c, Le a b -> Le b c -> Le a c).
  { intros a b c Hab Hbc r1 r2 H1 H2 Hw. apply Hbc; auto. }
  assert (Hstep : forall r1 r2 b b',
            In r1 ranks -> In r2 ranks -> Inv b ->
            (if (r1 <? r2)%Z
             then v <- RankBoostLossFunction.penalty pen r1 r2 ;;
                  RankBoostLossFunction.setitem2 k b r1 r2 v
             else Ok b) = Ok b' ->
            Inv b' /\ ((r1 < r2)%Z -> W r1 r2 b') /\ Le b b').
  { intros r1 r2 b b' H1 H2 [Hsq Hlow] Hb.
    pose proof (Hrange r1 H1) as R1. pose proof (Hrange r2 H2) as R2.
    destruct (Z.ltb_spec r1 r2) as [Hlt|Hge].
    - bind_inv Hb as v Ev.
      pose proof (entry_setitem2 k b b' r1 r2 v Hsq R1 R2 Hb) as Hent.
      split; [split|split].
      + eapply setitem2_square; eassumption.
      + intros a c Hca. rewrite Hent.
        destruct (Nat.eqb_spec a (Z.to_nat r1)), (Nat.eqb_spec c (Z.to_nat r2));
          simpl; try (apply Hlow; exact Hca). lia.
      + intros _. unfold W. rewrite Hent, !Nat.eqb_refl. simpl. exact Ev.
      + intros s1 s2 S1 S2 Hw. unfold W in *. rewrite Hent.
        destruct (Nat.eqb_spec (Z.to_nat s1) (Z.to_nat r1)) as [E1|N1];
          destruct (Nat.eqb_spec (Z.to_nat s2) (Z.to_nat r2)) as [E2|N2];
          simpl; try exact Hw.
        assert (s1 = r1) by lia. assert (s2 = r2) by lia. subst. exact Ev.
    - injection Hb as <-. split; [split; assumption|]. split; [lia | apply Hrefl]. }
  match type of H with foldM ?body _ _ = _ => set (outer := body) in * end.
  destruct (foldM_establishes Inv
              (fun r1 m => In r1 ranks ->
                 forall r2, In r2 ranks -> (r1 < r2)%Z -> W r1 r2 m)
              Le outer ranks Hrefl Htrans) with (acc := repeat (repeat 0%Z k) k) (r := m)
    as ((_ & Hlow) & _ & Hall).
  - intros r1 b b' Hle Hd H1 r2 H2 Hlt. apply Hle; auto.
  - intros b r1 b' H1 Hb Hrow. unfold outer in Hrow.
    match type of Hrow with foldM ?body _ _ = _ => set (inner := body) in * end.
    destruct (foldM_establishes Inv
                (fun r2 m => In r2 ranks -> (r1 < r2)%Z -> W r1 r2 m)
                Le inner ranks Hrefl Htrans) with (acc := b) (r := b')
      as (Hb' & Hle & Hdone); try assumption.
    + intros r2 c c' Hle Hd H2 Hlt. apply Hle; auto.
    + intros c r2 c' H2 Hc Hcell.
      destruct (Hstep r1 r2 c c' H1 H2 Hc Hcell) as (I1 & I2 & I3). auto.
    + split; [exact Hb'|]. split; [|exact Hle].
      intros _ r2 H2 Hlt. apply Hdone; assumption.
  - split.
    + split; [apply repeat_length|]. apply Forall_forall. intros row Hrow.
      apply repeat_spec in Hrow. subst row. apply repeat_length.
    + intros a b _. apply entry_zeros.
  - exact H.
  - split; [exact Hlow|]. intros r1 r2 H1 H2 Hlt. apply Hall; assumption.
Qed.

(** X14.  [RankBoostLossFunction.fit] on labels that are the indices
    [0 .. k - 1] of the [k] distinct ranks: [rank_penalties] is strictly upper
    triangular.  Entry [[i, j]] with [i < j] is [(j - i) ** 2] for the
    ['square'] penalty and [j - i] for the ['linear'] one, and every entry on
    or below the diagonal is zero. *)
Theorem rankboost_penalties_are_upper_triangular
  (n : nat) (pen col : string) (X : DataFrame) (y : list Z)
  (sample_weight : np.ndarray) (self : RankBoostLossFunction.t) (i j : nat) :
  RankBoostLossFunction.fit n pen col X y sample_weight = Ok self ->
  let k := length (RankBoostLossFunction.possible_ranks self) in
  (forall v, In v y -> (0 <= v < Z.of_nat k)%Z) ->
  (i < k)%nat -> (j < k)%nat ->
  let penalty := entry (RankBoostLossFunction.rank_penalties self) i j in
  ((i < j)%nat -> pen = "square"%string ->
   penalty = ((Z.of_nat j - Z.of_nat i) ^ 2)%Z) /\
  ((i < j)%nat -> pen = "linear"%string ->
   penalty = (Z.of_nat j - Z.of_nat i)%Z) /\
  ((j <= i)%nat -> penalty = 0%Z).
Proof.
  intros F. unfold RankBoostLossFunction.fit in F.
  bind_inv F as queries Eq. unfold np.unique_inverse in F.
  bind_inv F as bq Ebq. bind_inv F as m Em. bind_inv F as u Eu.
  injection F as <-. simpl.
  set (U := np.unique y) in *.
  intros Hrange Hi Hj.
  assert (HU : forall r, In r U -> (0 <= r < Z.of_nat (length U))%Z).
  { intros r Hr. apply Hrange. apply in_unique. exact Hr. }
  destruct (fill_rank_penalties_entries pen U m HU Em) as [Hlow Hup].
  assert (Hall : forall a, (a < length U)%nat -> In (Z.of_nat a) U).
  { intros a Ha.
    apply (NoDup_length_incl (sorted_NoDup _ (unique_sorted y))
             (l' := map Z.of_nat (seq 0 (length U)))).
    - rewrite length_map, length_seq. fold U. lia.
    - intros r Hr. apply in_map_iff. exists (Z.to_nat r).
      specialize (HU r Hr). split; [lia|]. apply in_seq. lia.
    - apply in_map_iff. exists a. split; [reflexivity|]. apply in_seq. lia. }
  assert (Hpen : (i < j)%nat ->
            RankBoostLossFunction.penalty pen (Z.of_nat i) (Z.of_nat j)
            = Ok (entry m i j)).
  { intros Hlt.
    rewrite (Hup (Z.of_nat i) (Z.of_nat j)) by (try apply Hall; lia).
    rewrite !Nat2Z.id. reflexivity. }
  split; [|split].
  - intros Hlt ->. specialize (Hpen Hlt).
    unfold RankBoostLossFunction.penalty in Hpen. simpl in Hpen. congruence.
  - intros Hlt ->. specialize (Hpen Hlt).
    unfold RankBoostLossFunction.penalty in Hpen. simpl in Hpen. congruence.
  - intros Hle. apply Hlow. exact Hle.
Qed.

Lemma rankboost_penalties_are_upper_triangular_witness :
  let penalty := entry (RankBoostLossFunction.rank_penalties (two_ranks 1)) 0 1 in
  ((0 < 1)%nat -> "square"%string = "square"%string ->
   penalty = ((Z.of_nat 1 - Z.of_nat 0) ^ 2)%Z) /\
  ((0 < 1)%nat -> "square"%string = "linear"%string ->
   penalty = (Z.of_nat 1 - Z.of_nat 0)%Z) /\
  ((1 <= 0)%nat -> penalty = 0%Z).
Proof.
  apply (rankboost_penalties_are_upper_triangular 1 "square" "query"
           (frame 2 "query" [0; 0]%Z) [0; 1]%Z [1; 1] (two_ranks 1) 0 1);
    [apply two_ranks_fit | | simpl; lia | simpl; lia].
  simpl. intros v [<-|[<-|[]]]; lia.
Defined.

(* ================================================================== *)
(** * AbstractMatrixLossFunction: the size checks *)

(** X15.  [AbstractMatrixLossFunction]: after a successful [fit] the loss,
    [negative_gradient] and [hessian] return on predictions of the fitted
    length, the two arrays with one entry per event, and they raise
    [AssertionError] on predictions of any other length. *)
Theorem matrix_methods_check_the_length
  (cp : DataFrame -> list Z -> np.ndarray -> result (np.matrix * np.ndarray))
  (reg : R) (X : DataFrame) (y : list Z) (sample_weight y_pred : np.ndarray)
  (self : AbstractMatrixLossFunction.t) :
  AbstractMatrixLossFunction.fit cp reg X y sample_weight = Ok self ->
  (length y_pred = length y ->
   exists v g h,
     AbstractMatrixLossFunction.__call__ self y_pred = Ok v /\
     AbstractMatrixLossFunction.negative_gradient self y_pred = Ok g /\
     AbstractMatrixLossFunction.hessian self y_pred = Ok h /\
     length g = length y /\ length h = length y) /\
  (length y_pred <> length y ->
   AbstractMatrixLossFunction.__call__ self y_pred = Raise AssertionError /\
   AbstractMatrixLossFunction.negative_gradient self y_pred = Raise AssertionError /\
   AbstractMatrixLossFunction.hessian self y_pred = Raise AssertionError).
Proof.
  intros F.
  destruct (matrix_fit_inv cp reg X y sample_weight self F)
    as (Hs & Ly & Lw & Lt & Lq).
  split.
  - intros Lp.
    destruct (matrix_methods_ok self y_pred) as (g & h & Eg & Eh & Lg & Lh);
      try congruence.
    assert (Ev : exists v, AbstractMatrixLossFunction.__call__ self y_pred = Ok v).
    { unfold AbstractMatrixLossFunction.__call__, AbstractMatrixLossFunction.exponents,
        np.mul.
      rewrite Hs, Lp, Nat.eqb_refl. simpl.
      rewrite broadcast2_same by len. simpl.
      rewrite broadcast2_same by (rewrite length_map, dot_length; exact Lw).
      simpl. eauto. }
    destruct Ev as (v & Ev).
    exists v, g, h. repeat split; congruence.
  - intros Lp.
    unfold AbstractMatrixLossFunction.__call__,
      AbstractMatrixLossFunction.negative_gradient,
      AbstractMatrixLossFunction.hessian.
    rewrite Hs. destruct (Nat.eqb_spec (length y_pred) (length y)); [contradiction|].
    repeat split; reflexivity.
Qed.

Lemma matrix_methods_check_the_length_witness :
  let self :=
    value_or
      {| AbstractMatrixLossFunction.regularization := 0;
         AbstractMatrixLossFunction.A := [];
         AbstractMatrixLossFunction.A_shape := (0%nat, 0%nat);
         AbstractMatrixLossFunction.A_t := [];
         AbstractMatrixLossFunction.A_t_sq := [];
         AbstractMatrixLossFunction.w := [];
         AbstractMatrixLossFunction.y_signed := [];
         AbstractMatrixLossFunction.regularization_ := 0 |}
      (AbstractMatrixLossFunction.fit identity_coupling 5 (frame 1 "x" [0%Z])
         [1%Z] [1]) in
  (length [0] = length [1%Z] ->
   exists v g h,
     AbstractMatrixLossFunction.__call__ self [0] = Ok v /\
     AbstractMatrixLossFunction.negative_gradient self [0] = Ok g /\
     AbstractMatrixLossFunction.hessian self [0] = Ok h /\
     length g = length [1%Z] /\ length h = length [1%Z]) /\
  (length [0] <> length [1%Z] ->
   AbstractMatrixLossFunction.__call__ self [0] = Raise AssertionError /\
   AbstractMatrixLossFunction.negative_gradient self [0] = Raise AssertionError /\
   AbstractMatrixLossFunction.hessian self [0] = Raise AssertionError).
Proof.
  apply (matrix_methods_check_the_length identity_coupling 5 (frame 1 "x" [0%Z])
           [1%Z] [1] [0]).
  reflexivity.
Defined.

(* ================================================================== *)
(** * Flatness losses: bounds, signs and weights *)


Lemma inplace2_length {A B : Type} (f : A -> B -> A) (a r : list A) (b : list B) :
  np.inplace2 f a b = Ok r -> length r = length a.
Proof.
  unfold np.inplace2. destruct (Nat.eqb_spec (length a) (length b)) as [E|N].
  - intros H. injection H as <-. rewrite length_map, length_combine. lia.
  - destruct b as [|z [|z' b]]; try discriminate.
    intros H. injection H as <-. apply length_map.
Qed.

(** The flatness term has one entry per fitted event. *)
Lemma flatness_gradient_length (self : AbstractFlatnessLossFunction.t)
  (y_pred fl : np.ndarray) :
  AbstractFlatnessLossFunction.flatness_gradient self y_pred = Ok fl ->
  length fl = length (AbstractFlatnessLossFunction.y self).
Proof.
  unfold AbstractFlatnessLossFunction.flatness_gradient. intros H.
  bind_inv H as ng Eng.
  rewrite (inplace2_length _ _ _ _ H).
  refine (foldM_preserves
            (fun g : list R => length g = length (AbstractFlatnessLossFunction.y self))
            _ _ _ _ _ Eng _).
  - intros b entry b' Hb Lb. unfold AbstractFlatnessLossFunction.add_label in Hb.
    bind_inv Hb as glob Eglob.
    refine (foldM_preserves
              (fun g : list R =>
                 length g = length (AbstractFlatnessLossFunction.y self))
              _ _ _ _ _ Hb Lb).
    intros c idx c' Hc Lc. unfold AbstractFlatnessLossFunction.add_group in Hc.
    bind_inv Hc as lp Elp. bind_inv Hc as gp Egp. bind_inv Hc as bg Ebg.
    unfold AbstractFlatnessLossFunction.iadd_at in Hc.
    bind_inv Hc as cur Ecur. bind_inv Hc as s Es.
    rewrite (put_length _ _ _ _ Hc). exact Lc.
  - unfold np.zeros. apply repeat_length.
Qed.

Lemma clip1_range (lo hi v : R) : lo <= hi -> lo <= np.clip1 lo hi v <= hi.
Proof.
  intros H. unfold np.clip1, Rmin, Rmax.
  destruct (Rle_dec v lo); destruct (Rle_dec _ hi); lra.
Qed.

(** X19.  Flatness losses fitted on labels 0 and 1 with
    [allow_wrong_signs=False]: every entry of [negative_gradient] has the
    sign of the class of its event and at most [1e5] in absolute value, that
    is [0 <= y_signed * neg_gradient <= 1e5]. *)
Theorem flatness_gradient_has_the_sign_of_the_class
  (cg : DataFrame -> list Z -> Z -> result (list (list nat)))
  (p : AbstractFlatnessLossFunction.Params) (X : DataFrame) (y : list Z)
  (sample_weight : option np.ndarray)
  (self : AbstractFlatnessLossFunction.t) (warnings : list warning)
  (y_pred g : np.ndarray) :
  AbstractFlatnessLossFunction.fit cg p X y sample_weight = Ok (self, warnings) ->
  AbstractFlatnessLossFunction.allow_wrong_signs p = false ->
  binary_labels y ->
  AbstractFlatnessLossFunction.negative_gradient self y_pred = Ok g ->
  length g = length y /\
  forall i, (i < length y)%nat ->
    0 <= IZR (2 * nth i y 0%Z - 1) * nth i g 0 <= 1e5.
Proof.
  intros F Hsigns Hb H.
  destruct (flatness_fit_inv cg p X y sample_weight self warnings F)
    as (Hp & Hy & Hys & _).
  unfold AbstractFlatnessLossFunction.negative_gradient in H.
  bind_inv H as fl Efl. bind_inv H as u Eu. bind_inv H as ada Eada.
  bind_inv H as ng Eng.
  rewrite Hp, Hsigns, Hys in H.
  pose proof (flatness_gradient_length self y_pred fl Efl) as Lfl.
  pose proof (inplace2_length _ _ _ _ Eng) as Lng.
  rewrite Hy in Lfl.
  unfold np.mul in H.
  rewrite broadcast2_same in H by len. simpl in H.
  rewrite broadcast2_same in H by len.
  injection H as <-.
  unfold np.astype_float, np.clip. rewrite clipped_signs.
  split; [len|].
  intros i Hi.
  rewrite (nth_map2 _ _ _ i 0%Z 0 0) by len.
  pose proof (signed_label_square y i Hb Hi) as Hsq.
  unfold signed_labels in *.
  rewrite (nth_map_in (fun v => (2 * v - 1)%Z) y i 0%Z 0%Z) in * by exact Hi.
  set (s := IZR (2 * nth i y 0%Z - 1)) in *.
  rewrite <- Rmult_assoc, Hsq, Rmult_1_l.
  apply clip1_range. lra.
Qed.

Lemma forallb_compress {A : Type} (P : A -> bool) (mask : list bool) (a : list A)
  (d : A) :
  (forall i, (i < length a)%nat -> nth i mask false = true -> P (nth i a d) = true) ->
  forallb P (np.compress mask a) = true.
Proof.
  revert a. induction mask as [|m mask IH]; intros [|x a] H; simpl; auto.
  assert (Hrest : forallb P (np.compress mask a) = true).
  { apply IH. intros i Hi Hm. apply (H (S i)); simpl; [lia | exact Hm]. }
  destruct m; simpl; [|exact Hrest].
  rewrite Hrest, andb_true_r.
  apply (H 0%nat); simpl; [lia | reflexivity].
Qed.

(** [negative_gradient] returns when the groups hold events of the uniform
    classes only: the check that the other events have no flatness gradient
    passes. *)
Lemma flatness_negative_gradient_returns (self : AbstractFlatnessLossFunction.t)
  (y_pred : np.ndarray) :
  length (AbstractFlatnessLossFunction.y self) = length y_pred ->
  length (AbstractFlatnessLossFunction.y_signed self) = length y_pred ->
  length (AbstractFlatnessLossFunction.sample_weight self) = length y_pred ->
  length (AbstractFlatnessLossFunction.divided_weight self) = length y_pred ->
  groups_of_uniform_classes (AbstractFlatnessLossFunction.group_indices self)
    (AbstractFlatnessLossFunction.uniform_label
       (AbstractFlatnessLossFunction.params self))
    (AbstractFlatnessLossFunction.y self) ->
  exists g,
    AbstractFlatnessLossFunction.negative_gradient self y_pred = Ok g /\
    length g = length y_pred.
Proof.
  intros Ly Ls Lw Ld Hgroups.
  destruct (flatness_gradient_ok self y_pred Ly Lw Ld) as (fl & Efl).
  { intros label groups Hin. apply Forall_forall. intros g Hg.
    apply Forall_forall. intros i Hi.
    destruct (Hgroups label groups g i Hin Hg Hi) as [Hlt _]. lia. }
  pose proof (flatness_gradient_length self y_pred fl Efl) as Lfl.
  destruct (ada_term_ok self y_pred Ls Lw) as (ada & Eada & Lada & _).
  unfold AbstractFlatnessLossFunction.negative_gradient.
  rewrite Efl. simpl.
  rewrite (forallb_compress _ _ fl 0).
  2:{ intros i Hi Hm.
      assert (Hz : nth i fl 0 = 0).
      { apply (flatness_gradient_unassigned self y_pred fl i Efl).
        intros label groups g Hin Hg Hig.
        destruct (Hgroups label groups g i Hin Hg Hig) as [Hlt Hlab].
        unfold np.in1d in Hm.
        rewrite (nth_map_in negb _ i false false) in Hm by (rewrite length_map; lia).
        rewrite (nth_map_in _ _ i false 0%Z) in Hm by lia.
        apply negb_true_iff in Hm.
        assert (Ht : existsb
                       (Z.eqb (nth i (AbstractFlatnessLossFunction.y self) 0%Z))
                       (AbstractFlatnessLossFunction.uniform_label
                          (AbstractFlatnessLossFunction.params self)) = true).
        { apply existsb_exists. eexists. split; [exact Hlab | apply Z.eqb_refl]. }
        congruence. }
      rewrite Hz. destruct (Req_dec_T 0 0); [reflexivity | contradiction]. }
  simpl. rewrite Eada. simpl.
  rewrite inplace2_same by congruence. simpl.
  destruct (AbstractFlatnessLossFunction.allow_wrong_signs _).
  - eexists. split; [reflexivity|]. len.
  - unfold np.mul. rewrite broadcast2_same by len. simpl.
    rewrite broadcast2_same by len.
    eexists. split; [reflexivity|]. len.
Qed.

Lemma one_group_of_uniform_class (allow_wrong_signs : bool) :
  groups_of_uniform_classes
    (AbstractFlatnessLossFunction.group_indices (one_group allow_wrong_signs))
    [1%Z] [1%Z].
Proof.
  intros label groups g i [E|[]] Hg Hi. injection E as <- <-.
  destruct Hg as [<-|[]]. destruct Hi as [<-|[]].
  split; [simpl; lia | left; reflexivity].
Defined.

Lemma flatness_gradient_has_the_sign_of_the_class_witness :
  exists g,
    AbstractFlatnessLossFunction.negative_gradient (one_group false) [0] = Ok g /\
    length g = length [1%Z] /\
    forall i, (i < length [1%Z])%nat ->
      0 <= IZR (2 * nth i [1%Z] 0%Z - 1) * nth i g 0 <= 1e5.
Proof.
  destruct (one_group_fit_ok false) as (warnings & F).
  destruct (flatness_negative_gradient_returns (one_group false) [0]
              eq_refl eq_refl eq_refl eq_refl (one_group_of_uniform_class false))
    as (g & E & _).
  exists g. split; [exact E|].
  apply (flatness_gradient_has_the_sign_of_the_class (fun _ _ _ => Ok [[O]])
           (steep_ada false) (frame 1 "x" [0%Z]) [1%Z] None (one_group false)
           warnings [0] g F eq_refl
           (Forall_cons 1%Z (or_intror eq_refl) (Forall_nil _)) E).
Defined.

(** X20.  Flatness losses: when every event of every group belongs to one
    of the uniform classes, [negative_gradient] returns one entry per event on
    predictions of the fitted length; the assertion on the events of the
    other classes does not fail. *)
Theorem flatness_negative_gradient_passes_its_assertion
  (cg : DataFrame -> list Z -> Z -> result (list (list nat)))
  (p : AbstractFlatnessLossFunction.Params) (X : DataFrame) (y : list Z)
  (sample_weight : option np.ndarray)
  (self : AbstractFlatnessLossFunction.t) (warnings : list warning)
  (y_pred : np.ndarray) :
  AbstractFlatnessLossFunction.fit cg p X y sample_weight = Ok (self, warnings) ->
  groups_of_uniform_classes (AbstractFlatnessLossFunction.group_indices self)
    (AbstractFlatnessLossFunction.uniform_label p) y ->
  length y_pred = length y ->
  exists g,
    AbstractFlatnessLossFunction.negative_gradient self y_pred = Ok g /\
    length g = length y.
Proof.
  intros F Hgroups Lp.
  destruct (flatness_fit_inv cg p X y sample_weight self warnings F)
    as (Hp & Hy & Hys & Lw & Ld & _).
  destruct (flatness_negative_gradient_returns self y_pred) as (g & E & Lg).
  - congruence.
  - rewrite Hys. len.
  - congruence.
  - congruence.
  - rewrite Hp, Hy. exact Hgroups.
  - exists g. split; [exact E | congruence].
Qed.

Lemma flatness_negative_gradient_passes_its_assertion_witness :
  exists g,
    AbstractFlatnessLossFunction.negative_gradient (one_group true) [0] = Ok g /\
    length g = length [1%Z].
Proof.
  destruct (one_group_fit_ok true) as (warnings & F).
  apply (flatness_negative_gradient_passes_its_assertion (fun _ _ _ => Ok [[O]])
           (steep_ada true) (frame 1 "x" [0%Z]) [1%Z] None (one_group true)
           warnings [0] F (one_group_of_uniform_class true) eq_refl).
Defined.

Lemma existsb_eqb_in (i : nat) (g : list nat) :
  existsb (Nat.eqb i) g = true <-> In i g.
Proof.
  rewrite existsb_exists. split.
  - intros (x & Hx & E). apply Nat.eqb_eq in E. subst. exact Hx.
  - intros H. exists i. split; [exact H | apply Nat.eqb_refl].
Qed.

Lemma count_groups_count (groups : list (list nat)) (occ occ' : list nat) (i : nat) :
  AbstractFlatnessLossFunction.count_groups occ groups = Ok occ' ->
  nth i occ' O = (nth i occ O + length (filter (existsb (Nat.eqb i)) groups))%nat.
Proof.
  unfold AbstractFlatnessLossFunction.count_groups.
  revert occ. induction groups as [|g groups IH]; intros occ H; simpl in H.
  - injection H as <-. simpl. lia.
  - bind_inv H as o Eo. rewrite (IH o H).
    destruct (count_group_nth occ o g i Eo) as [Hin Hout].
    simpl. destruct (existsb (Nat.eqb i) g) eqn:E.
    + apply existsb_eqb_in in E. rewrite (Hin E). simpl. lia.
    + rewrite Hout; [lia|]. intros Hc. apply existsb_eqb_in in Hc. congruence.
Qed.

Lemma memberships_app (found new : list (Z * list (list nat))) (i : nat) :
  memberships (found ++ new) i = (memberships found i + memberships new i)%nat.
Proof.
  unfold memberships. rewrite map_app, list_sum_app. reflexivity.
Qed.

Lemma collect_groups_count
  (cg : DataFrame -> list Z -> Z -> result (list (list nat)))
  (X : DataFrame) (y : list Z) (labels : list Z) (i : nat) :
  forall found0 occ0 found occ,
    foldM (fun '(found, occurences) label =>
             groups <- cg X y label ;;
             occurences <- AbstractFlatnessLossFunction.count_groups occurences groups ;;
             Ok (found ++ [(label, groups)], occurences))
      labels (found0, occ0) = Ok (found, occ) ->
    (nth i occ O + memberships found0 i = nth i occ0 O + memberships found i)%nat.
Proof.
  induction labels as [|label labels IH]; intros found0 occ0 found occ H; simpl in H.
  - injection H as <- <-. reflexivity.
  - bind_inv H as st Est. bind_inv Est as groups Eg. bind_inv Est as o Eo.
    injection Est as <-.
    pose proof (IH _ _ _ _ H) as Hrec.
    rewrite memberships_app in Hrec.
    rewrite (count_groups_count groups occ0 o i Eo) in Hrec.
    unfold memberships at 2 in Hrec. simpl in Hrec. lia.
Qed.

(** X21.  [AbstractFlatnessLossFunction.fit]: [divided_weight] is the weight
    of the event divided by the number of flatness groups that hold the
    event, counted over all uniform labels and taken as 1 for an event in no
    group. *)
Theorem flatness_weight_is_divided_by_the_memberships
  (cg : DataFrame -> list Z -> Z -> result (list (list nat)))
  (p : AbstractFlatnessLossFunction.Params) (X : DataFrame) (y : list Z)
  (sample_weight : option np.ndarray)
  (self : AbstractFlatnessLossFunction.t) (warnings : list warning) (i : nat) :
  AbstractFlatnessLossFunction.fit cg p X y sample_weight = Ok (self, warnings) ->
  (i < length y)%nat ->
  nth i (AbstractFlatnessLossFunction.divided_weight self) 0
  = nth i (AbstractFlatnessLossFunction.sample_weight self) 0
    / Rmax (INR (memberships (AbstractFlatnessLossFunction.group_indices self) i)) 1.
Proof.
  intros F Hi.
  destruct (flatness_fit_inv cg p X y sample_weight self warnings F)
    as (_ & _ & _ & Lw & _ & LX & occ & Ecol & _ & Hdiv & _).
  pose proof (collect_groups_length cg X y _ _ _ Ecol) as Locc.
  unfold AbstractFlatnessLossFunction.collect_groups in Ecol.
  pose proof (collect_groups_count cg X y _ i _ _ _ _ Ecol) as Hcount.
  rewrite nth_repeat_zero in Hcount. unfold memberships at 1 in Hcount.
  simpl in Hcount.
  rewrite Hdiv.
  rewrite (nth_map2 Rdiv _ _ i 0 0 0) by (rewrite ?length_map; lia).
  rewrite (nth_map_in (fun o => Rmax (INR o) 1) occ i 0 O) by lia.
  f_equal. f_equal. f_equal. lia.
Qed.

Lemma flatness_weight_is_divided_by_the_memberships_witness :
  nth 0 (AbstractFlatnessLossFunction.divided_weight (one_group true)) 0
  = nth 0 (AbstractFlatnessLossFunction.sample_weight (one_group true)) 0
    / Rmax (INR (memberships
                   (AbstractFlatnessLossFunction.group_indices (one_group true)) 0)) 1.
Proof.
  destruct (one_group_fit_ok true) as (warnings & F).
  apply (flatness_weight_is_divided_by_the_memberships (fun _ _ _ => Ok [[O]])
           (steep_ada true) (frame 1 "x" [0%Z]) [1%Z] None (one_group true)
           warnings 0 F).
  simpl. lia.
Defined.

(* ================================================================== *)
(** * ReweightLossFunction: the tree parameters *)

Lemma sign1_cases (v : R) :
  (0 < v -> np.sign1 v = 1) /\ (v < 0 -> np.sign1 v = -1) /\ (v = 0 -> np.sign1 v = 0).
Proof.
  unfold np.sign1. destruct (Rlt_dec v 0); destruct (Rlt_dec 0 v); repeat split;
    intros; lra.
Qed.

(** X22.  [ReweightLossFunction.prepare_tree_params]: the tree is fitted to
    the signs set by [fit] and to the absolute values of the current weights.
    The target of an event is [y_signed = 2 * y - 1] when its sample weight is positive
    ([+1] for the original distribution, [-1] for the target one), the
    opposite when the weight is negative and [0] when it is zero; no tree
    weight is negative. *)
Theorem reweight_tree_params_are_signs_and_absolute_weights
  (reg : R) (X : DataFrame) (y : list Z) (sample_weight y_pred : np.ndarray)
  (self : ReweightLossFunction.t) :
  ReweightLossFunction.fit reg X y (Some sample_weight) = Ok self ->
  length sample_weight = length y ->
  length y_pred = length y ->
  exists target weights,
    ReweightLossFunction.prepare_tree_params self y_pred = Ok (target, weights) /\
    length target = length y /\
    length weights = length y /\
    all_at_least 0 weights /\
    forall i, (i < length y)%nat ->
      let w := nth i sample_weight 0 in
      let s := IZR (nth i (signed_labels y) 0%Z) in
      (0 < w -> nth i target 0 = s) /\
      (w < 0 -> nth i target 0 = - s) /\
      (w = 0 -> nth i target 0 = 0).
Proof.
  intros F Lw Lp. unfold ReweightLossFunction.fit in F.
  bind_inv F as u Eu. simpl in F. unfold np.mul in F.
  rewrite broadcast2_same in F by len. simpl in F. injection F as <-.
  unfold ReweightLossFunction.prepare_tree_params,
    ReweightLossFunction._compute_weights, check_sample_weight_by_class, np.mul.
  simpl.
  rewrite broadcast2_same by len. simpl.
  rewrite broadcast2_same by len. simpl.
  assert (Lc : length y
               = length (map2 Rmult sample_weight
                           (map exp (map2 Rmult (np.astype_float y) y_pred))))
    by len.
  rewrite <- Lc, Nat.eqb_refl. simpl.
  do 2 eexists. split; [reflexivity|].
  split; [len|]. split; [len|]. split.
  - apply all_at_least_map. intros v. apply Rabs_pos.
  - intros i Hi.
    rewrite (nth_map2 Rmult _ _ i 0 0 0) by len.
    rewrite nth_signed by exact Hi.
    rewrite (nth_map_in np.sign1 sample_weight i 0 0) by lia.
    set (w := nth i sample_weight 0).
    set (s := IZR (nth i (signed_labels y) 0%Z)).
    destruct (sign1_cases w) as (Hpos & Hneg & Hzero).
    repeat split; intros Hw;
      [rewrite (Hpos Hw) | rewrite (Hneg Hw) | rewrite (Hzero Hw)]; lra.
Qed.

Lemma reweight_tree_params_are_signs_and_absolute_weights_witness :
  exists self target weights,
    ReweightLossFunction.fit 5 (frame 2 "x" [0; 0]%Z) [0; 1]%Z (Some [1; 1])
      = Ok self /\
    ReweightLossFunction.prepare_tree_params self [0; 0] = Ok (target, weights) /\
    length target = 2%nat /\
    length weights = 2%nat /\
    all_at_least 0 weights /\
    forall i, (i < 2)%nat ->
      let w := nth i [1; 1] 0 in
      let s := IZR (nth i (signed_labels [0; 1]%Z) 0%Z) in
      (0 < w -> nth i target 0 = s) /\
      (w < 0 -> nth i target 0 = - s) /\
      (w = 0 -> nth i target 0 = 0).
Proof.
  eexists.
  destruct (reweight_tree_params_are_signs_and_absolute_weights
              5 (frame 2 "x" [0; 0]%Z) [0; 1]%Z [1; 1] [0; 0] _
              eq_refl eq_refl eq_refl) as (target & weights & E & H).
  exists target, weights. split; [reflexivity|]. split; assumption.
Defined.

(* ================================================================== *)
(** * The reweighters: the number of features *)

Lemma normalize_input_first (data : array_like) (weights : option np.ndarray)
  (w : np.ndarray) (decision : np.matrix -> np.ndarray) :
  check_sample_weight (n_events data) weights true = Ok w ->
  exists rows,
    GBReweighter.normalize_input
      {| GBReweighter.n_features_ := None;
         GBReweighter.decision_function := decision |} data weights
    = Ok ((rows, w),
          {| GBReweighter.n_features_ := Some (n_columns data);
             GBReweighter.decision_function := decision |}) /\
    length rows = n_events data.
Proof.
  intros E. unfold GBReweighter.normalize_input.
  fold (n_events data). rewrite E. simpl.
  fold (n_columns data). rewrite Nat.eqb_refl. simpl.
  eexists. split; [reflexivity|].
  destruct data; simpl; [apply length_map | reflexivity].
Qed.

Lemma normalize_input_fitted (self : GBReweighter.t) (d : nat) (data : array_like)
  (weights : option np.ndarray) (w : np.ndarray) :
  GBReweighter.n_features_ self = Some d ->
  check_sample_weight (n_events data) weights true = Ok w ->
  if Nat.eqb d (n_columns data)
  then exists rows,
      GBReweighter.normalize_input self data weights = Ok ((rows, w), self)
  else GBReweighter.normalize_input self data weights = Raise AssertionError.
Proof.
  intros Hd E. unfold GBReweighter.normalize_input.
  fold (n_events data). rewrite E. simpl.
  fold (n_columns data). rewrite Hd. rewrite Hd.
  destruct (Nat.eqb d (n_columns data)); simpl; [eexists|]; reflexivity.
Qed.

(** X23.  [GBReweighter.fit] on weights that [check_sample_weight] accepts:
    when [original] and [target] have different numbers of columns it raises
    [AssertionError] before the ensemble is trained, whatever the trainer
    is. *)
Theorem gb_fit_needs_equal_numbers_of_features
  (train : np.matrix -> list Z -> np.ndarray -> result (np.matrix -> np.ndarray))
  (original target : array_like) (original_weight target_weight : option np.ndarray) :
  (exists w, check_sample_weight (n_events original) original_weight true = Ok w) ->
  (exists w, check_sample_weight (n_events target) target_weight true = Ok w) ->
  n_columns original <> n_columns target ->
  GBReweighter.fit train original target original_weight target_weight
  = Raise AssertionError.
Proof.
  intros (w1 & E1) (w2 & E2) Hne. unfold GBReweighter.fit.
  destruct (normalize_input_first original original_weight w1 (fun _ => []) E1)
    as (rows & -> & _).
  simpl.
  pose proof (normalize_input_fitted
                {| GBReweighter.n_features_ := Some (n_columns original);
                   GBReweighter.decision_function := fun _ => [] |}
                (n_columns original) target target_weight w2 eq_refl E2) as H.
  destruct (Nat.eqb_spec (n_columns original) (n_columns target)); [contradiction|].
  rewrite H. reflexivity.
Qed.

Lemma gb_fit_needs_equal_numbers_of_features_witness :
  GBReweighter.fit (fun _ _ _ => Ok (fun data => np.zeros (length data)))
    (Array1 [0; 1]) (Array2 [[0; 1]; [2; 3]]) None None
  = Raise AssertionError.
Proof.
  apply gb_fit_needs_equal_numbers_of_features.
  - eexists. reflexivity.
  - eexists. reflexivity.
  - simpl. lia.
Defined.

(** X24.  [GBReweighter.predict_weights] after [fit]: on data whose number
    of columns differs from the one of the fitted [original] it raises
    [AssertionError], for any weights that [check_sample_weight] accepts. *)
Theorem gb_predict_weights_needs_the_fitted_number_of_features
  (train : np.matrix -> list Z -> np.ndarray -> result (np.matrix -> np.ndarray))
  (original target data : array_like)
  (original_weight target_weight weights : option np.ndarray)
  (self : GBReweighter.t) :
  GBReweighter.fit train original target original_weight target_weight = Ok self ->
  (exists w, check_sample_weight (n_events data) weights true = Ok w) ->
  n_columns data <> n_columns original ->
  GBReweighter.n_features_ self = Some (n_columns original) /\
  GBReweighter.predict_weights self data weights = Raise AssertionError.
Proof.
  intros F (w & E) Hne. unfold GBReweighter.fit in F.
  bind_inv F as r1 E1.
  destruct r1 as [[rows1 w1] self1].
  assert (H1 : GBReweighter.n_features_ self1 = Some (n_columns original)).
  { unfold GBReweighter.normalize_input in E1.
    bind_inv E1 as wa Ewa. simpl in E1. fold (n_columns original) in E1.
    rewrite Nat.eqb_refl in E1. simpl in E1. injection E1 as _ _ <-. reflexivity. }
  bind_inv F as r2 E2. destruct r2 as [[rows2 w2] self2].
  assert (H2 : GBReweighter.n_features_ self2 = Some (n_columns original)).
  { unfold GBReweighter.normalize_input in E2.
    bind_inv E2 as wa Ewa. rewrite H1 in E2. bind_inv E2 as u Eu.
    injection E2 as _ _ <-. exact H1. }
  bind_inv F as gb Egb. injection F as <-. simpl.
  split; [exact H2|].
  unfold GBReweighter.predict_weights.
  pose proof (normalize_input_fitted
                {| GBReweighter.n_features_ := GBReweighter.n_features_ self2;
                   GBReweighter.decision_function := gb |}
                (n_columns original) data weights w H2 E) as H.
  destruct (Nat.eqb_spec (n_columns original) (n_columns data)) as [Eq|_];
    [congruence|].
  rewrite H. reflexivity.
Qed.

Lemma gb_predict_weights_needs_the_fitted_number_of_features_witness :
  GBReweighter.n_features_ zero_score_reweighter = Some (n_columns (Array1 [0; 1])) /\
  GBReweighter.predict_weights zero_score_reweighter (Array2 [[0; 1]; [2; 3]]) None
  = Raise AssertionError.
Proof.
  apply (gb_predict_weights_needs_the_fitted_number_of_features
           (fun _ _ _ => Ok (fun data => np.zeros (length data)))
           (Array1 [0; 1]) (Array1 [0; 1]) (Array2 [[0; 1]; [2; 3]])
           None None None zero_score_reweighter).
  - reflexivity.
  - eexists. reflexivity.
  - simpl. lia.
Defined.

(* ================================================================== *)
(** * bincount_nd: what the bins hold *)

Lemma ravel_lt (shape : list nat) (index : list Z) (acc j : nat) :
  ravel shape index acc = Ok j ->
  (j < (acc + 1) * fold_right Nat.mul 1 shape)%nat.
Proof.
  revert index acc. induction shape as [|s shape IH]; intros [|i index] acc H;
    simpl in H; try discriminate.
  - injection H as <-. simpl. lia.
  - bind_inv H as k Ek. apply normalize_index_lt in Ek.
    apply IH in H. simpl. nia.
Qed.

Lemma ravel_in_shape (shape : list nat) (index : list Z) (acc : nat) :
  in_shape shape index -> exists j, ravel shape index acc = Ok j.
Proof.
  revert index acc. induction shape as [|s shape IH]; intros [|i index] acc H;
    simpl in H; try contradiction.
  - exists acc. reflexivity.
  - destruct H as [Hi H]. simpl. rewrite normalize_index_nonneg by exact Hi.
    simpl. apply IH. exact H.
Qed.

(** Two index tuples of the shape that reach one position are equal. *)
Lemma ravel_injective (shape : list nat) (a b : list Z) (acc acc' j : nat) :
  in_shape shape a -> in_shape shape b ->
  ravel shape a acc = Ok j -> ravel shape b acc' = Ok j ->
  acc = acc' /\ a = b.
Proof.
  revert a b acc acc'. induction shape as [|s shape IH];
    intros [|i a] [|i' b] acc acc' Ha Hb H H'; simpl in *; try contradiction.
  - injection H as <-. injection H' as <-. auto.
  - destruct Ha as [Hi Ha], Hb as [Hi' Hb].
    rewrite normalize_index_nonneg in H, H' by assumption. simpl in H, H'.
    destruct (IH a b _ _ Ha Hb H H') as [E ->].
    assert (acc = acc') by nia. subst acc'.
    split; [reflexivity|]. f_equal. nia.
Qed.

Lemma add_at_sum (j : nat) (v : R) (a : np.ndarray) :
  (j < length a)%nat -> np.sum (np.add_at j v a) = np.sum a + v.
Proof.
  revert j. induction a as [|x a IH]; intros [|j] Hj; simpl in *; try lia.
  - lra.
  - fold (np.sum (np.add_at j v a)). fold (np.sum a). rewrite IH by lia. lra.
Qed.

Lemma sum_zeros (n : nat) : np.sum (np.zeros n) = 0.
Proof.
  unfold np.zeros. induction n as [|n IH]; simpl; [reflexivity|].
  fold (np.sum (repeat 0 n)). rewrite IH. lra.
Qed.

Lemma add_at_rows_sum (shape : list nat) (rws : list (list Z))
  (weights res data : np.ndarray) :
  add_at_rows shape res rws weights = Ok data ->
  length res = fold_right Nat.mul 1%nat shape ->
  length data = length res /\
  np.sum data = np.sum res + np.sum (map snd (combine rws weights)).
Proof.
  unfold add_at_rows. revert res.
  induction (combine rws weights) as [|[row w] l IH]; intros res H L; simpl in H.
  - injection H as <-. simpl. split; [reflexivity | lra].
  - bind_inv H as res' E. bind_inv E as j Ej. injection E as <-.
    pose proof (ravel_lt _ _ _ _ Ej) as Hj. simpl in Hj.
    destruct (IH _ H) as [L' S']; [rewrite add_at_length; exact L|].
    rewrite add_at_length in L'. split; [exact L'|].
    rewrite S', add_at_sum by lia. simpl. fold (np.sum (map snd l)). lra.
Qed.

Lemma map_snd_combine {A B : Type} (a : list A) (b : list B) :
  length b = length a -> map snd (combine a b) = b.
Proof.
  revert b. induction a as [|x a IH]; intros [|z b] L; simpl in *; try lia; auto.
  f_equal. apply IH. lia.
Qed.

(** X25.  [bincount_nd] on an array [x] of at least one column: when it
    returns, the result has the requested shape and the total of its entries
    is the total of the weights, every event being added to exactly one
    bin. *)
Theorem bincount_nd_keeps_the_total_weight
  (x : int_array2) (weights : np.ndarray) (shape : list nat) (r : ndarray_nd) :
  rectangular x ->
  bincount_nd x weights shape = Ok r ->
  nd_shape r = shape /\
  length (nd_data r) = fold_right Nat.mul 1%nat shape /\
  np.sum (nd_data r) = np.sum weights.
Proof.
  intros _ H. unfold bincount_nd in H.
  bind_inv H as u1 E1. bind_inv H as u2 E2. bind_inv H as maximals Em.
  bind_inv H as u3 E3. bind_inv H as data Ed. injection H as <-. simpl.
  unfold assert in E1.
  destruct (Nat.eqb_spec (length weights) (length (rows x))) as [L|]; [|discriminate].
  destruct (add_at_rows_sum _ _ _ _ _ Ed) as [Ld Sd].
  { unfold np.zeros. apply repeat_length. }
  split; [reflexivity|]. split.
  - rewrite Ld. unfold np.zeros. apply repeat_length.
  - rewrite Sd, sum_zeros, map_snd_combine by exact L. lra.
Qed.

Lemma three_events_rectangular : rectangular three_events.
Proof.
  split; [simpl; lia|]. repeat constructor.
Defined.

Lemma bincount_nd_keeps_the_total_weight_witness :
  exists r,
    bincount_nd three_events [1; 2; 3] [2; 2]%nat = Ok r /\
    nd_shape r = [2; 2]%nat /\
    length (nd_data r) = fold_right Nat.mul 1%nat [2; 2]%nat /\
    np.sum (nd_data r) = np.sum [1; 2; 3].
Proof.
  eexists. split; [evalR; reflexivity|].
  apply (bincount_nd_keeps_the_total_weight three_events [1; 2; 3] [2; 2]%nat);
    [exact three_events_rectangular | evalR; reflexivity].
Defined.

(** The maximum of every column is at least the entry of every row. *)
Lemma column_max_spec (x : int_array2) :
  rows x <> [] ->
  Forall (fun row => length row = shape1 x) (rows x) ->
  exists maximals,
    column_max x = Ok maximals /\
    length maximals = shape1 x /\
    forall row i, In row (rows x) -> (i < shape1 x)%nat ->
      (nth i row 0 <= nth i maximals 0)%Z.
Proof.
  unfold column_max. destruct (rows x) as [|first others]; [congruence|].
  intros _ Hall. inversion Hall as [|? ? Lfirst Hothers]; subst.
  eexists. split; [reflexivity|].
  set (n := shape1 x) in *.
  set (pmax := fun acc row : list Z =>
                 map (fun p => Z.max (fst p) (snd p)) (combine acc row)).
  assert (Hfold : forall l acc,
            Forall (fun row => length row = n) l -> length acc = n ->
            length (fold_left pmax l acc) = n /\
            forall i, (i < n)%nat ->
              (nth i acc 0 <= nth i (fold_left pmax l acc) 0)%Z /\
              forall row, In row l -> (nth i row 0 <= nth i (fold_left pmax l acc) 0)%Z).
  { induction l as [|row l IH]; intros acc Hl Lacc; simpl.
    - split; [exact Lacc|]. intros i Hi. split; [lia | intros row []].
    - inversion Hl as [|? ? Lrow Hl']; subst.
      assert (Lp : length (pmax acc row) = length acc).
      { unfold pmax. rewrite length_map, length_combine. lia. }
      destruct (IH (pmax acc row) Hl') as [Lf Hf]; [lia|].
      split; [exact Lf|]. intros i Hi. destruct (Hf i Hi) as [Hacc Hrows].
      assert (Hp : nth i (pmax acc row) 0%Z = Z.max (nth i acc 0%Z) (nth i row 0%Z)).
      { unfold pmax.
        rewrite (nth_map_in _ (combine acc row) i 0%Z (0%Z, 0%Z))
          by (rewrite length_combine; lia).
        rewrite combine_nth by lia. reflexivity. }
      rewrite Hp in Hacc. split; [lia|].
      intros r [<-|Hr]; [lia | apply Hrows; exact Hr]. }
  destruct (Hfold others first Hothers Lfirst) as [Lm Hm].
  split; [exact Lm|].
  intros row i [<-|Hrow] Hi; destruct (Hm i Hi) as [H1 H2]; [exact H1 | auto].
Qed.

Lemma forallb_false_at {A : Type} (f : A -> bool) (l : list A) (i : nat) (d : A) :
  (i < length l)%nat -> f (nth i l d) = false -> forallb f l = false.
Proof.
  intros Hi Hf. destruct (forallb f l) eqn:E; [|reflexivity].
  rewrite forallb_forall in E. rewrite E in Hf; [discriminate|].
  apply nth_In. exact Hi.
Qed.

(** X26.  [bincount_nd] on arrays of matching sizes: an entry of [x] that
    is not below the length of its axis makes the third assertion fail, so
    the call raises [AssertionError] and nothing is counted. *)
Theorem bincount_nd_asserts_the_upper_bound
  (x : int_array2) (weights : np.ndarray) (shape : list nat)
  (row : list Z) (i : nat) :
  rectangular x ->
  length weights = length (rows x) ->
  shape1 x = length shape ->
  In row (rows x) ->
  (i < length shape)%nat ->
  (Z.of_nat (nth i shape 0%nat) <= nth i row 0)%Z ->
  bincount_nd x weights shape = Raise AssertionError.
Proof.
  intros [Hcol Hrect] Lw Ls Hrow Hi Hbig.
  destruct (column_max_spec x) as (maximals & Em & Lm & Hm).
  { intros E. rewrite E in Hrow. destruct Hrow. }
  { exact Hrect. }
  unfold bincount_nd. rewrite Lw, Ls, !Nat.eqb_refl. simpl.
  rewrite Em. simpl.
  rewrite (forallb_false_at _ _ i (0%Z, 0%nat)).
  - reflexivity.
  - rewrite length_combine. lia.
  - rewrite combine_nth by lia. simpl.
    apply Z.ltb_ge. specialize (Hm row i Hrow). lia.
Qed.

Lemma bincount_nd_asserts_the_upper_bound_witness :
  bincount_nd three_events [1; 2; 3] [2; 1]%nat = Raise AssertionError.
Proof.
  apply (bincount_nd_asserts_the_upper_bound three_events [1; 2; 3] [2; 1]%nat
           [0; 1]%Z 1%nat);
    [exact three_events_rectangular | reflexivity | reflexivity
    | left; reflexivity | simpl; lia | simpl; lia].
Defined.

Lemma add_at_rows_nth (shape : list nat) (index : list Z) (j : nat)
  (rws : list (list Z)) (weights res data : np.ndarray) :
  in_shape shape index ->
  ravel shape index 0 = Ok j ->
  Forall (in_shape shape) rws ->
  add_at_rows shape res rws weights = Ok data ->
  length res = fold_right Nat.mul 1%nat shape ->
  nth j data 0
  = nth j res 0
    + np.sum (map snd (filter (fun p => if list_eq_dec Z.eq_dec (fst p) index
                                        then true else false)
                         (combine rws weights))).
Proof.
  intros Hidx Ej. unfold add_at_rows.
  pose proof (ravel_lt _ _ _ _ Ej) as Hj. simpl in Hj.
  revert weights res.
  induction rws as [|row rws IH]; intros [|w weights] res Hrows H L; simpl in *;
    try (injection H as <-; lra).
  inversion Hrows as [|? ? Hrow Hrows']; subst.
  bind_inv H as res' E. bind_inv E as jr Ejr. injection E as <-.
  rewrite (IH weights _ Hrows' H) by (rewrite add_at_length; exact L).
  destruct (list_eq_dec Z.eq_dec row index) as [->|Hne]; simpl.
  - assert (jr = j) by congruence. subst jr.
    rewrite nth_add_at_same by lia.
    fold (np.sum (map snd
            (filter (fun p => if list_eq_dec Z.eq_dec (fst p) index
                              then true else false) (combine rws weights)))).
    lra.
  - assert (Hj' : jr <> j).
    { intros ->. apply Hne.
      apply (ravel_injective shape row index 0 0 j Hrow Hidx Ejr Ej). }
    rewrite nth_add_at_other by exact Hj'. reflexivity.
Qed.

(** X27.  [bincount_nd] on an array [x] of at least one column and of
    non-negative indices: the entry of the result at an index tuple of the
    shape is the total weight of the events whose row of [x] is that tuple,
    the weighted number of events of the bin. *)
Theorem bincount_nd_counts_every_bin
  (x : int_array2) (weights : np.ndarray) (shape : list nat) (r : ndarray_nd)
  (index : list Z) :
  rectangular x ->
  Forall (in_shape shape) (rows x) ->
  bincount_nd x weights shape = Ok r ->
  in_shape shape index ->
  exists j,
    ravel shape index 0 = Ok j /\
    (j < length (nd_data r))%nat /\
    nth j (nd_data r) 0 = weight_of_bin x weights index.
Proof.
  intros _ Hrows H Hidx. unfold bincount_nd in H.
  bind_inv H as u1 E1. bind_inv H as u2 E2. bind_inv H as maximals Em.
  bind_inv H as u3 E3. bind_inv H as data Ed. injection H as <-. simpl.
  destruct (ravel_in_shape shape index 0 Hidx) as (j & Ej).
  exists j. split; [exact Ej|].
  destruct (add_at_rows_sum _ _ _ _ _ Ed) as [Ld _].
  { unfold np.zeros. apply repeat_length. }
  split.
  - rewrite Ld. unfold np.zeros. rewrite repeat_length.
    pose proof (ravel_lt _ _ _ _ Ej) as Hj. simpl in Hj. lia.
  - rewrite (add_at_rows_nth shape index j _ _ _ _ Hidx Ej Hrows Ed)
      by (unfold np.zeros; apply repeat_length).
    rewrite nth_zeros. unfold weight_of_bin. lra.
Qed.

Lemma bincount_nd_counts_every_bin_witness :
  exists r j,
    bincount_nd three_events [1; 2; 3] [2; 2]%nat = Ok r /\
    ravel [2; 2]%nat [0; 1]%Z 0 = Ok j /\
    (j < length (nd_data r))%nat /\
    nth j (nd_data r) 0 = weight_of_bin three_events [1; 2; 3] [0; 1]%Z.
Proof.
  assert (E : exists r, bincount_nd three_events [1; 2; 3] [2; 2]%nat = Ok r)
    by (eexists; evalR; reflexivity).
  destruct E as (r & E). exists r.
  destruct (bincount_nd_counts_every_bin three_events [1; 2; 3] [2; 2]%nat r
              [0; 1]%Z three_events_rectangular) as (j & H).
  - repeat constructor; simpl; lia.
  - exact E.
  - simpl. lia.
  - exists j. split; [exact E | exact H].
Defined.

(* ================================================================== *)
(** * _compute_positions *)

Lemma take_map {A B : Type} (f : A -> B) (a : list A) (idx : list nat) :
  np.take (map f a) idx = (r <- np.take a idx ;; Ok (map f r)).
Proof.
  induction idx as [|i idx IH]; simpl; [reflexivity|].
  rewrite nth_error_map. destruct (nth_error a i) as [v|]; simpl; [|reflexivity].
  rewrite IH. destruct (np.take a idx); reflexivity.
Qed.

Lemma take_In {A : Type} (a : list A) (idx : list nat) (r : list A) (v : A) :
  np.take a idx = Ok r -> In v r -> In v a.
Proof.
  revert r. induction idx as [|i idx IH]; intros r H Hv; simpl in H.
  - injection H as <-. destruct Hv.
  - destruct (nth_error a i) as [x|] eqn:E; [|discriminate].
    bind_inv H as r' Er. injection H as <-.
    destruct Hv as [<-|Hv]; [eapply nth_error_In; exact E | eapply IH; eauto].
Qed.

Lemma sum_map_scale (c : R) (a : np.ndarray) :
  np.sum (map (Rmult c) a) = c * np.sum a.
Proof.
  induction a as [|x a IH]; simpl; [lra|].
  fold (np.sum (map (Rmult c) a)). fold (np.sum a). rewrite IH. lra.
Qed.

Lemma sum_positive (a : np.ndarray) :
  a <> [] -> (forall v, In v a -> 0 < v) -> 0 < np.sum a.
Proof.
  induction a as [|x a IH]; intros Hne Hpos; [congruence|].
  simpl. fold (np.sum a).
  assert (Hx : 0 < x) by (apply Hpos; left; reflexivity).
  destruct a as [|z a]; [simpl; lra|].
  assert (0 < np.sum (z :: a)).
  { apply IH; [discriminate|]. intros v Hv. apply Hpos. right. exact Hv. }
  lra.
Qed.

(** X28.  [_compute_positions] on positive weights: the weights are
    normalized by their total, so multiplying every weight by one non-zero
    factor leaves the positions as they are. *)
Theorem compute_positions_ignore_the_scale_of_the_weights
  (y_pred sample_weight : np.ndarray) (c : R) :
  (forall v, In v sample_weight -> 0 < v) ->
  c <> 0 ->
  _compute_positions y_pred (map (Rmult c) sample_weight)
  = _compute_positions y_pred sample_weight.
Proof.
  intros Hpos Hc. unfold _compute_positions. rewrite take_map.
  destruct (np.take sample_weight (np.argsort y_pred)) as [ow|e] eqn:E; simpl;
    [|reflexivity].
  rewrite sum_map_scale, map_map.
  assert (Hn : map (fun v => c * v / (c * np.sum ow)) ow
               = map (fun v => v / np.sum ow) ow).
  { apply map_ext_in. intros v Hv.
    assert (0 < np.sum ow).
    { apply sum_positive.
      - intros ->. destruct Hv.
      - intros u Hu. apply Hpos. eapply take_In; eauto. }
    field. split; lra. }
  rewrite Hn. reflexivity.
Qed.

Lemma compute_positions_ignore_the_scale_of_the_weights_witness :
  _compute_positions [3; 1; 2] (map (Rmult 10) [1; 2; 1])
  = _compute_positions [3; 1; 2] [1; 2; 1].
Proof.
  apply compute_positions_ignore_the_scale_of_the_weights.
  - intros v [<-|[<-|[<-|[]]]]; lra.
  - lra.
Defined.

Lemma sum_map_div (t : R) (a : np.ndarray) :
  np.sum (map (fun v => v / t) a) = np.sum a / t.
Proof.
  induction a as [|x a IH]; simpl; [lra|].
  fold (np.sum (map (fun v => v / t) a)). fold (np.sum a). rewrite IH. lra.
Qed.

(** Every running total of positive numbers lies between the total before
    plus the own number and the grand total. *)
Lemma cumsum_from_bounds (acc : R) (a : np.ndarray) :
  (forall v, In v a -> 0 < v) ->
  forall p, In p (combine (np.cumsum_from acc a) a) ->
    acc + snd p <= fst p <= acc + np.sum a.
Proof.
  revert acc. induction a as [|x a IH]; intros acc Hpos p Hp; simpl in Hp;
    [destruct Hp|].
  fold (np.sum a) in *.
  assert (Hx : 0 < x) by (apply Hpos; left; reflexivity).
  assert (Ha : forall v, In v a -> 0 < v) by (intros v Hv; apply Hpos; right; exact Hv).
  assert (Hs : 0 <= np.sum a).
  { destruct a as [|z a']; [simpl; lra|]. left. apply sum_positive; [discriminate|].
    exact Ha. }
  simpl. fold (np.sum a).
  destruct Hp as [<-|Hp]; simpl; [lra|].
  specialize (IH (acc + x) Ha p Hp).
  assert (0 < snd p).
  { apply Ha. destruct p as [c v]. simpl.
    apply (in_combine_r (np.cumsum_from (acc + x) a) a c v). exact Hp. }
  lra.
Qed.

(** X29.  [_compute_positions] on positive weights, one per prediction: it
    returns one position per event, and every position lies strictly between
    0 and 1. *)
Theorem compute_positions_lie_between_zero_and_one
  (y_pred sample_weight : np.ndarray) :
  length sample_weight = length y_pred ->
  (forall v, In v sample_weight -> 0 < v) ->
  exists pos,
    _compute_positions y_pred sample_weight = Ok pos /\
    length pos = length y_pred /\
    forall p, In p pos -> 0 < p < 1.
Proof.
  intros L Hpos.
  destruct (compute_positions_ok y_pred sample_weight L) as (pos & E & Lp).
  exists pos. split; [exact E|]. split; [exact Lp|].
  unfold _compute_positions in E. bind_inv E as ow Eow.
  intros p Hp. pose proof (take_In _ _ _ _ E Hp) as Hin.
  apply in_map_iff in Hin. destruct Hin as ([c x] & <- & Hcx). simpl.
  assert (How : forall v, In v ow -> 0 < v).
  { intros v Hv. apply Hpos. eapply take_In; eauto. }
  assert (Hne : ow <> []).
  { intros ->. simpl in Hcx. destruct Hcx. }
  pose proof (sum_positive ow Hne How) as HT.
  set (T := np.sum ow) in *.
  assert (Hnw : forall v, In v (map (fun v => v / T) ow) -> 0 < v).
  { intros v Hv. apply in_map_iff in Hv. destruct Hv as (u & <- & Hu).
    apply Rdiv_lt_0_compat; [apply How; exact Hu | exact HT]. }
  pose proof (cumsum_from_bounds 0 _ Hnw (c, x) Hcx) as Hb. simpl in Hb.
  rewrite sum_map_div in Hb. fold T in Hb.
  replace (T / T) with 1 in Hb by (field; lra).
  assert (Hx : 0 < x).
  { apply Hnw. eapply in_combine_r. exact Hcx. }
  lra.
Qed.

Lemma compute_positions_lie_between_zero_and_one_witness :
  exists pos,
    _compute_positions [3; 1; 2] [1; 2; 1] = Ok pos /\
    length pos = length [3; 1; 2] /\
    forall p, In p pos -> 0 < p < 1.
Proof.
  apply compute_positions_lie_between_zero_and_one.
  - reflexivity.
  - intros v [<-|[<-|[<-|[]]]]; lra.
Defined.

(** ** The positions follow the order of the predictions *)

Lemma insert_by_perm (a : np.ndarray) (i : nat) (sorted : list nat) :
  Permutation (np.insert_by a i sorted) (i :: sorted).
Proof.
  induction sorted as [|j t IH]; simpl; [apply Permutation_refl|].
  destruct (Rle_dec (nth i a 0) (nth j a 0)); [apply Permutation_refl|].
  eapply perm_trans; [apply perm_skip; exact IH|].
  apply perm_swap.
Qed.

Lemma insert_by_sorted (a : np.ndarray) (i : nat) (sorted : list nat) :
  StronglySorted (fun u v => nth u a 0 <= nth v a 0) sorted ->
  StronglySorted (fun u v => nth u a 0 <= nth v a 0) (np.insert_by a i sorted).
Proof.
  induction 1 as [|j t Hs IH Hj]; simpl.
  - constructor; constructor.
  - destruct (Rle_dec (nth i a 0) (nth j a 0)) as [Hle|Hgt].
    + constructor; [constructor; assumption|].
      constructor; [exact Hle|].
      eapply Forall_impl; [|exact Hj]. simpl. intros v Hv. lra.
    + constructor; [exact IH|].
      apply (proj2 (insert_by_spec a i t (fun v => nth j a 0 <= nth v a 0)));
        [lra | exact Hj].
Qed.

Lemma argsort_sorted (a : np.ndarray) :
  Permutation (np.argsort a) (seq 0 (length a)) /\
  StronglySorted (fun u v => nth u a 0 <= nth v a 0) (np.argsort a).
Proof.
  unfold np.argsort. induction (seq 0 (length a)) as [|i l [IHp IHs]]; simpl.
  - split; [apply Permutation_refl | constructor].
  - split.
    + eapply perm_trans; [apply insert_by_perm|].
      apply perm_skip. exact IHp.
    + apply insert_by_sorted. exact IHs.
Qed.

Lemma insert_by_nat_perm (a : list nat) (i : nat) (sorted : list nat) :
  Permutation (np.insert_by_nat a i sorted) (i :: sorted).
Proof.
  induction sorted as [|j t IH]; simpl; [apply Permutation_refl|].
  destruct (Nat.leb (nth i a O) (nth j a O)); [apply Permutation_refl|].
  eapply perm_trans; [apply perm_skip; exact IH|].
  apply perm_swap.
Qed.

Lemma insert_by_nat_sorted (a : list nat) (i : nat) (sorted : list nat) :
  StronglySorted (fun u v => (nth u a O <= nth v a O)%nat) sorted ->
  StronglySorted (fun u v => (nth u a O <= nth v a O)%nat)
    (np.insert_by_nat a i sorted).
Proof.
  induction 1 as [|j t Hs IH Hj]; simpl.
  - constructor; constructor.
  - destruct (Nat.leb_spec (nth i a O) (nth j a O)) as [Hle|Hgt].
    + constructor; [constructor; assumption|].
      constructor; [exact Hle|].
      eapply Forall_impl; [|exact Hj]. simpl. intros v Hv. lia.
    + constructor; [exact IH|].
      apply (proj2 (insert_by_nat_spec a i t (fun v => (nth j a O <= nth v a O)%nat)));
        [lia | exact Hj].
Qed.

Lemma argsort_nat_sorted (a : list nat) :
  Permutation (np.argsort_nat a) (seq 0 (length a)) /\
  StronglySorted (fun u v => (nth u a O <= nth v a O)%nat) (np.argsort_nat a).
Proof.
  unfold np.argsort_nat. induction (seq 0 (length a)) as [|i l [IHp IHs]]; simpl.
  - split; [apply Permutation_refl | constructor].
  - split.
    + eapply perm_trans; [apply insert_by_nat_perm|].
      apply perm_skip. exact IHp.
    + apply insert_by_nat_sorted. exact IHs.
Qed.

Lemma strongly_sorted_nth {A : Type} (rel : A -> A -> Prop) (l : list A) (d : A)
  (u v : nat) :
  StronglySorted rel l -> (u < v)%nat -> (v < length l)%nat ->
  rel (nth u l d) (nth v l d).
Proof.
  intros Hs. revert u v. induction Hs as [|x l Hs IH Hx]; intros u v Huv Hv;
    simpl in Hv; [lia|].
  destruct v as [|v]; [lia|]. destruct u as [|u]; simpl.
  - rewrite Forall_forall in Hx. apply Hx. apply nth_In. lia.
  - apply IH; lia.
Qed.

Lemma strongly_sorted_seq (start n : nat) : StronglySorted le (seq start n).
Proof.
  revert start. induction n as [|n IH]; intros start; simpl; constructor.
  - apply IH.
  - apply Forall_forall. intros v Hv. apply in_seq in Hv. lia.
Qed.

(** Two sorted lists with the same elements are equal. *)
Lemma sorted_permutation_unique (l l' : list nat) :
  StronglySorted le l -> StronglySorted le l' ->
  Permutation l l' -> l = l'.
Proof.
  intros Hs. revert l'. induction Hs as [|x l Hs IH Hx]; intros l' Hs' Hp.
  - apply Permutation_nil in Hp. auto.
  - destruct l' as [|x' l'].
    { apply Permutation_sym, Permutation_nil in Hp.
      discriminate. }
    inversion Hs' as [|? ? Hs'' Hx']; subst.
    rewrite Forall_forall in Hx, Hx'.
    assert (E : x = x').
    { assert (H1 : In x (x' :: l'))
        by (eapply Permutation_in; [exact Hp | left; reflexivity]).
      assert (H2 : In x' (x :: l))
        by (eapply Permutation_in;
            [apply Permutation_sym; exact Hp | left; reflexivity]).
      destruct H1 as [H1|H1]; [auto|]. destruct H2 as [H2|H2]; [auto|].
      specialize (Hx x' H2). specialize (Hx' x H1). lia. }
    subst x'. f_equal. apply IH; [exact Hs''|].
    eapply Permutation_cons_inv. exact Hp.
Qed.

Lemma map_nth_seq_id {A : Type} (l : list A) (d : A) :
  map (fun k => nth k l d) (seq 0 (length l)) = l.
Proof.
  apply (nth_ext _ _ d d).
  - rewrite length_map, length_seq. reflexivity.
  - intros n Hn. rewrite length_map, length_seq in Hn.
    rewrite (nth_map_in (fun k => nth k l d) _ n d O) by (rewrite length_seq; exact Hn).
    rewrite seq_nth by exact Hn. reflexivity.
Qed.

(** The second [argsort] of [_compute_positions] inverts the first: entry
    [i] is the place of event [i] in the sorted order. *)
Lemma argsort_inverse (y_pred : np.ndarray) (i : nat) :
  (i < length y_pred)%nat ->
  let order := np.argsort y_pred in
  let place := nth i (np.argsort_nat order) O in
  (place < length y_pred)%nat /\ nth place order O = i.
Proof.
  intros Hi order place.
  destruct (argsort_sorted y_pred) as [Hp Hs]. fold order in Hp, Hs.
  destruct (argsort_spec y_pred) as [Lo Fo]. fold order in Lo, Fo.
  destruct (argsort_nat_sorted order) as [Hp' Hs'].
  destruct (argsort_nat_spec order) as [Li Fi].
  set (inv := np.argsort_nat order) in *.
  assert (Hm : map (fun k => nth k order O) inv = seq 0 (length y_pred)).
  { apply sorted_permutation_unique.
    - clear - Hs'. induction Hs' as [|x l Hs IH Hx]; simpl; constructor; [exact IH|].
      rewrite Forall_forall in *. intros v Hv. apply in_map_iff in Hv.
      destruct Hv as (u & <- & Hu). apply Hx. exact Hu.
    - apply strongly_sorted_seq.
    - eapply perm_trans; [apply Permutation_map; exact Hp'|].
      rewrite map_nth_seq_id. exact Hp. }
  assert (Hplace : (place < length y_pred)%nat).
  { rewrite Forall_forall in Fi. rewrite <- Lo. apply Fi. apply nth_In. lia. }
  split; [exact Hplace|].
  assert (E : nth i (map (fun k => nth k order O) inv) O = i).
  { rewrite Hm. rewrite seq_nth by exact Hi. reflexivity. }
  rewrite (nth_map_in (fun k => nth k order O) inv i O O) in E by lia.
  exact E.
Qed.

(** The efficiencies grow along the sorted order when the weights are
    positive. *)
Lemma efficiencies_sorted (acc : R) (a : np.ndarray) :
  (forall v, In v a -> 0 < v) ->
  StronglySorted Rlt
    (map (fun p => fst p - 0.5 * snd p) (combine (np.cumsum_from acc a) a)).
Proof.
  revert acc. induction a as [|x a IH]; intros acc Hpos; simpl; constructor.
  - apply IH. intros v Hv. apply Hpos. right. exact Hv.
  - assert (Hx : 0 < x) by (apply Hpos; left; reflexivity).
    assert (Ha : forall v, In v a -> 0 < v)
      by (intros v Hv; apply Hpos; right; exact Hv).
    apply Forall_forall. intros e He. apply in_map_iff in He.
    destruct He as ([c x'] & <- & Hcx). simpl.
    pose proof (cumsum_from_bounds (acc + x) a Ha (c, x') Hcx) as Hb. simpl in Hb.
    assert (0 < x') by (apply Ha; eapply in_combine_r; exact Hcx).
    lra.
Qed.

(** X30.  [_compute_positions] on positive weights, one per prediction: an
    event with a lower prediction gets a lower position. *)
Theorem compute_positions_follow_the_predictions
  (y_pred sample_weight : np.ndarray) (i j : nat) :
  length sample_weight = length y_pred ->
  (forall v, In v sample_weight -> 0 < v) ->
  (i < length y_pred)%nat -> (j < length y_pred)%nat ->
  nth i y_pred 0 < nth j y_pred 0 ->
  exists pos,
    _compute_positions y_pred sample_weight = Ok pos /\
    nth i pos 0 < nth j pos 0.
Proof.
  intros L Hpos Hi Hj Hlt.
  destruct (compute_positions_ok y_pred sample_weight L) as (pos & E & Lp).
  exists pos. split; [exact E|].
  unfold _compute_positions in E. bind_inv E as ow Eow.
  destruct (take_nth _ _ _ 0 Eow) as [Low _].
  destruct (argsort_spec y_pred) as [Lo _]. rewrite Lo in Low.
  destruct (argsort_nat_spec (np.argsort y_pred)) as [Li _]. rewrite Lo in Li.
  destruct (take_nth _ _ _ 0 E) as [_ Hnth].
  rewrite (Hnth i) by lia. rewrite (Hnth j) by lia.
  destruct (argsort_inverse y_pred i Hi) as [Ha Hai].
  destruct (argsort_inverse y_pred j Hj) as [Hb Hbj].
  set (a := nth i (np.argsort_nat (np.argsort y_pred)) O) in *.
  set (b := nth j (np.argsort_nat (np.argsort y_pred)) O) in *.
  destruct (argsort_sorted y_pred) as [_ Hs].
  assert (Hab : (a < b)%nat).
  { destruct (Nat.lt_trichotomy a b) as [H|[H|H]]; [exact H | |].
    - rewrite H in Hai. rewrite Hai in Hbj. subst j. lra.
    - pose proof (strongly_sorted_nth _ _ O b a Hs H ltac:(lia)) as Hle.
      simpl in Hle. rewrite Hai, Hbj in Hle. lra. }
  apply strongly_sorted_nth; [|exact Hab|].
  - unfold np.cumsum. apply efficiencies_sorted.
    intros v Hv. apply in_map_iff in Hv. destruct Hv as (u & <- & Hu).
    assert (How : forall t, In t ow -> 0 < t).
    { intros t Ht. apply Hpos. eapply take_In; eauto. }
    apply Rdiv_lt_0_compat; [apply How; exact Hu|].
    apply sum_positive; [|exact How]. intros ->. destruct Hu.
  - rewrite length_map, length_combine. unfold np.cumsum.
    rewrite cumsum_from_length, !length_map. lia.
Qed.

Lemma compute_positions_follow_the_predictions_witness :
  exists pos,
    _compute_positions [3; 1; 2] [1; 2; 1] = Ok pos /\
    nth 1 pos 0 < nth 0 pos 0.
Proof.
  apply (compute_positions_follow_the_predictions [3; 1; 2] [1; 2; 1] 1 0).
  - reflexivity.
  - intros v [<-|[<-|[<-|[]]]]; lra.
  - simpl. lia.
  - simpl. lia.
  - simpl. lra.
Defined.

(* ================================================================== *)
(** * AbstractMatrixLossFunction: gradient and hessian as derivatives *)

(** What [fit] stores. *)
Lemma matrix_fit_fields
  (cp : DataFrame -> list Z -> np.ndarray -> result (np.matrix * np.ndarray))
  (reg : R) (X : DataFrame) (y : list Z) (sample_weight : np.ndarray)
  (self : AbstractMatrixLossFunction.t) :
  AbstractMatrixLossFunction.fit cp reg X y sample_weight = Ok self ->
  let A := AbstractMatrixLossFunction.A self in
  (A = [] \/ Forall (fun row => length row = length y) A) /\
  length (AbstractMatrixLossFunction.w self) = length A /\
  AbstractMatrixLossFunction.A_t self = np.transpose (np.ncols A) A /\
  AbstractMatrixLossFunction.A_t_sq self
    = map (map (fun v => v * v)) (AbstractMatrixLossFunction.A_t self) /\
  AbstractMatrixLossFunction.y_signed self = signed_labels y /\
  snd (AbstractMatrixLossFunction.A_shape self) = length y /\
  np.ncols A = length y.
Proof.
  intros F. unfold AbstractMatrixLossFunction.fit in F.
  bind_inv F as u1 E1. bind_inv F as r Er. destruct r as [A0 w0].
  bind_inv F as A1 EA. bind_inv F as u2 E2. bind_inv F as u3 E3.
  injection F as <-. simpl.
  unfold AbstractMatrixLossFunction.csr_matrix in EA.
  destruct (forallb _ A0) eqn:Hrect; [|discriminate]. injection EA as <-.
  unfold assert in E1, E2, E3.
  destruct (Nat.eqb_spec (df_len X) (length y)) as [LX|]; [|discriminate].
  destruct (Nat.eqb_spec (length A0) (length w0)) as [Lw|]; [|discriminate].
  destruct (Nat.eqb_spec (np.ncols A0) (df_len X)) as [Lc|]; [|discriminate].
  repeat split; try congruence.
  right. rewrite forallb_forall in Hrect. apply Forall_forall. intros row Hrow.
  specialize (Hrect row Hrow). apply Nat.eqb_eq in Hrect. congruence.
Qed.

(** The product of a row with the signed predictions, as a function of one
    prediction. *)
Lemma dot1_set_nth (row s p : np.ndarray) (i : nat) (t : R) :
  length row = length p -> length s = length p -> (i < length p)%nat ->
  np.dot1 row (map2 Rmult s (np.set_nth i t p))
  = np.dot1 row (map2 Rmult s p)
    + nth i row 0 * nth i s 0 * (t - nth i p 0).
Proof.
  intros Lr Ls Hi. unfold np.dot1.
  assert (Lq : length (np.set_nth i t p) = length p) by apply set_nth_length.
  change (fun p0 : R * R => fst p0 * snd p0) with (fun p0 : R * R => Rmult (fst p0) (snd p0)).
  fold (map2 Rmult row (map2 Rmult s (np.set_nth i t p))).
  fold (map2 Rmult row (map2 Rmult s p)).
  rewrite (sum_changes_at (map2 Rmult row (map2 Rmult s p))
             (map2 Rmult row (map2 Rmult s (np.set_nth i t p))) i).
  - nth_entries i. rewrite (nth_set_nth_same i t 0 p) by exact Hi. ring.
  - len.
  - intros k Hk. destruct (Nat.lt_ge_cases k (length p)) as [Hlt|Hge].
    + nth_entries k. rewrite (nth_set_nth_other i k t 0 p) by lia. reflexivity.
    + rewrite !nth_overflow by len. reflexivity.
Qed.

(** A sum of functions, one per entry of a list. *)
Lemma derivable_sum_over {A : Type} (l : list A) (f : A -> R -> R) (d : A -> R)
  (x : R) :
  (forall a, In a l -> derivable_pt_lim (f a) x (d a)) ->
  derivable_pt_lim (fun t => np.sum (map (fun a => f a t) l)) x (np.sum (map d l)).
Proof.
  induction l as [|a l IH]; intros H; simpl.
  - apply derivable_pt_lim_const.
  - apply (derivable_pt_lim_plus (f a) (fun t => np.sum (map (fun a0 => f a0 t) l))).
    + apply H. left. reflexivity.
    + apply IH. intros b Hb. apply H. right. exact Hb.
Qed.

(** [exp (- (b + c * (t - x0)))] *)
Lemma derivable_exp_affine (b c x0 x : R) :
  derivable_pt_lim (fun t => exp (- (b + c * (t - x0)))) x
    (- c * exp (- (b + c * (x - x0)))).
Proof.
  apply (derivable_pt_lim_ext
           (mult_real_fct (exp (- (b - c * x0))) (fun t => exp (- c * t)))).
  { intros t. unfold mult_real_fct. rewrite <- exp_plus. f_equal. ring. }
  eapply derivable_pt_lim_eq;
    [|apply derivable_pt_lim_scal; apply derivable_exp_linear].
  rewrite <- Rmult_assoc, (Rmult_comm (exp _) (- c)), Rmult_assoc, <- exp_plus.
  f_equal. f_equal. ring.
Qed.

Lemma map2_map_r {A B C D : Type} (f : A -> C -> D) (g : B -> C)
  (a : list A) (b : list B) :
  map2 f a (map g b) = map (fun p => f (fst p) (g (snd p))) (combine a b).
Proof.
  unfold map2. revert b. induction a as [|x a IH]; intros [|z b]; simpl; auto.
  f_equal. apply IH.
Qed.

(** The product of a column of [A] with a vector of one entry per row. *)
Lemma column_dot (A : np.matrix) (w : np.ndarray) (g c : list R -> R) :
  np.dot1 (map c A) (map2 Rmult w (map g A))
  = np.sum (map (fun p => c (snd p) * (fst p * g (snd p))) (combine w A)).
Proof.
  unfold np.dot1, map2. revert w.
  induction A as [|row A IH]; intros [|x w]; simpl; auto.
  fold (np.sum (map (fun p => fst p * snd p)
          (combine (map c A)
             (map (fun p => fst p * snd p) (combine w (map g A)))))).
  rewrite IH. reflexivity.
Qed.

Lemma sum_map_scaled {A : Type} (c : R) (d h : A -> R) (l : list A) :
  (forall a, d a = c * h a) -> np.sum (map d l) = c * np.sum (map h l).
Proof.
  intros H. rewrite <- sum_map_scale, map_map. f_equal. apply map_ext. exact H.
Qed.

Lemma nth_transpose (n : nat) (A : np.matrix) (i : nat) :
  (i < n)%nat -> nth i (np.transpose n A) [] = map (fun row => nth i row 0) A.
Proof.
  intros Hi. unfold np.transpose.
  rewrite (nth_map_in _ (seq 0 n) i [] O) by (rewrite length_seq; exact Hi).
  rewrite seq_nth by exact Hi. reflexivity.
Qed.

(** The loss, the gradient and the hessian of the matrix losses on
    predictions of the fitted length. *)
Lemma matrix_loss_value (self : AbstractMatrixLossFunction.t) (n : nat)
  (q : np.ndarray) :
  snd (AbstractMatrixLossFunction.A_shape self) = n ->
  length (AbstractMatrixLossFunction.y_signed self) = n ->
  length (AbstractMatrixLossFunction.w self)
    = length (AbstractMatrixLossFunction.A self) ->
  length (AbstractMatrixLossFunction.A_t self) = n ->
  length q = n ->
  let s := np.astype_float (AbstractMatrixLossFunction.y_signed self) in
  let we :=
    map (fun p => fst p * exp (- np.dot1 (snd p) (map2 Rmult s q)))
      (combine (AbstractMatrixLossFunction.w self) (AbstractMatrixLossFunction.A self)) in
  AbstractMatrixLossFunction.__call__ self q = Ok (np.sum we) /\
  AbstractMatrixLossFunction.negative_gradient self q
    = Ok (map2 Rmult (np.dot (AbstractMatrixLossFunction.A_t self) we) s) /\
  AbstractMatrixLossFunction.hessian self q
    = Ok (np.dot (AbstractMatrixLossFunction.A_t_sq self) we).
Proof.
  intros Hs Ly Lw Lt Lq s we.
  assert (Hwe : forall (B : Type) (k : np.ndarray -> result B),
            (e <- AbstractMatrixLossFunction.exponents self q ;;
             we0 <- np.mul (AbstractMatrixLossFunction.w self) e ;; k we0) = k we).
  { intros B k. unfold AbstractMatrixLossFunction.exponents, np.mul.
    rewrite broadcast2_same by len. simpl.
    rewrite broadcast2_same by (rewrite length_map, dot_length; exact Lw).
    simpl. f_equal. unfold np.dot. rewrite map_map.
    rewrite (map2_map_r Rmult). reflexivity. }
  unfold AbstractMatrixLossFunction.__call__,
    AbstractMatrixLossFunction.negative_gradient,
    AbstractMatrixLossFunction.hessian.
  rewrite Hs, Lq, Nat.eqb_refl. simpl.
  repeat split.
  - apply (Hwe R (fun we0 => Ok (np.sum we0))).
  - rewrite (Hwe _ (fun we0 =>
               np.mul (np.dot (AbstractMatrixLossFunction.A_t self) we0)
                 (np.astype_float (AbstractMatrixLossFunction.y_signed self)))).
    unfold np.mul. apply broadcast2_same. rewrite dot_length. unfold s. len.
  - apply (Hwe _ (fun we0 => Ok (np.dot (AbstractMatrixLossFunction.A_t_sq self) we0))).
Qed.

(** X16.  [AbstractMatrixLossFunction]: entry [i] of [negative_gradient] is
    minus the partial derivative of the loss
    [sum(w * exp(- A.dot(y_signed * y_pred)))] in the prediction of event
    [i]. *)
Theorem matrix_negative_gradient_is_minus_the_loss_derivative
  (cp : DataFrame -> list Z -> np.ndarray -> result (np.matrix * np.ndarray))
  (reg : R) (X : DataFrame) (y : list Z) (sample_weight y_pred : np.ndarray)
  (self : AbstractMatrixLossFunction.t) (i : nat) :
  AbstractMatrixLossFunction.fit cp reg X y sample_weight = Ok self ->
  length y_pred = length y ->
  (i < length y)%nat ->
  exists g,
    AbstractMatrixLossFunction.negative_gradient self y_pred = Ok g /\
    partial_derivative (AbstractMatrixLossFunction.__call__ self) y_pred i
      (- nth i g 0).
Proof.
  intros F Lp Hi.
  destruct (matrix_fit_fields cp reg X y sample_weight self F)
    as (Hrect & Lw & Ht & Hsq & Hys & Hshape & Hcols).
  destruct (matrix_fit_inv cp reg X y sample_weight self F)
    as (_ & Ly & _ & Lt & _).
  set (A := AbstractMatrixLossFunction.A self) in *.
  set (w := AbstractMatrixLossFunction.w self) in *.
  set (s := np.astype_float (AbstractMatrixLossFunction.y_signed self)).
  assert (Ls : length s = length y) by (unfold s; len).
  assert (Hrows : forall row, In row A -> length row = length y).
  { destruct Hrect as [E|Hall]; [rewrite E; intros row []|].
    rewrite Forall_forall in Hall. exact Hall. }
  destruct (matrix_loss_value self (length y) y_pred Hshape Ly Lw Lt Lp)
    as (_ & Eg & _).
  eexists. split; [exact Eg|].
  fold s. fold w. fold A.
  set (f := fun (a : R * list R) (t : R) =>
              fst a * exp (- np.dot1 (snd a) (map2 Rmult s (np.set_nth i t y_pred)))).
  set (d := fun a : R * list R =>
              fst a * (- (nth i (snd a) 0 * nth i s 0)
                       * exp (- np.dot1 (snd a) (map2 Rmult s y_pred)))).
  exists (fun t => np.sum (map (fun a => f a t) (combine w A))). split.
  - intros t.
    destruct (matrix_loss_value self (length y) (np.set_nth i t y_pred)
                Hshape Ly Lw Lt) as (Ec & _ & _);
      [rewrite set_nth_length; exact Lp|].
    exact Ec.
  - apply (derivable_pt_lim_eq _ _ (np.sum (map d (combine w A)))).
    + rewrite (nth_map2 Rmult _ _ i 0 0 0)
        by (rewrite ?dot_length; congruence).
      unfold np.dot.
      rewrite (nth_map_in _ (AbstractMatrixLossFunction.A_t self) i 0 [])
        by lia.
      rewrite Ht, nth_transpose by (fold A; lia). fold A.
      rewrite <- (map2_map_r Rmult
                    (fun row => exp (- np.dot1 row (map2 Rmult s y_pred))) w A).
      rewrite (column_dot A w _ (fun row => nth i row 0)).
      rewrite (sum_map_scaled (- nth i s 0) d
                 (fun p => nth i (snd p) 0
                           * (fst p * exp (- np.dot1 (snd p) (map2 Rmult s y_pred))))).
      * ring.
      * intros a. unfold d. ring.
    + apply derivable_sum_over. intros [wr row] Hin.
      assert (Lrow : length row = length y_pred).
      { rewrite Lp. apply Hrows. eapply in_combine_r. exact Hin. }
      unfold f, d. simpl.
      apply (derivable_pt_lim_ext
               (mult_real_fct wr
                  (fun t => exp (- (np.dot1 row (map2 Rmult s y_pred)
                                    + nth i row 0 * nth i s 0
                                      * (t - nth i y_pred 0)))))).
      { intros t. unfold mult_real_fct.
        rewrite (dot1_set_nth row s y_pred i t) by congruence. reflexivity. }
      eapply derivable_pt_lim_eq;
        [|apply derivable_pt_lim_scal; apply derivable_exp_affine].
      f_equal. f_equal. f_equal. f_equal. ring.
Qed.

(** X17.  [AbstractMatrixLossFunction] fitted on labels 0 and 1: entry [i] of
    [hessian] is the second partial derivative of the loss in the prediction
    of event [i], the diagonal of the hessian matrix. *)
Theorem matrix_hessian_is_the_second_derivative
  (cp : DataFrame -> list Z -> np.ndarray -> result (np.matrix * np.ndarray))
  (reg : R) (X : DataFrame) (y : list Z) (sample_weight y_pred : np.ndarray)
  (self : AbstractMatrixLossFunction.t) (i : nat) :
  AbstractMatrixLossFunction.fit cp reg X y sample_weight = Ok self ->
  binary_labels y ->
  length y_pred = length y ->
  (i < length y)%nat ->
  exists h,
    AbstractMatrixLossFunction.hessian self y_pred = Ok h /\
    partial_derivative_of_entry (AbstractMatrixLossFunction.negative_gradient self)
      y_pred i (- nth i h 0).
Proof.
  intros F Hb Lp Hi.
  destruct (matrix_fit_fields cp reg X y sample_weight self F)
    as (Hrect & Lw & Ht & Hsq & Hys & Hshape & Hcols).
  destruct (matrix_fit_inv cp reg X y sample_weight self F)
    as (_ & Ly & _ & Lt & _).
  set (A := AbstractMatrixLossFunction.A self) in *.
  set (w := AbstractMatrixLossFunction.w self) in *.
  set (s := np.astype_float (AbstractMatrixLossFunction.y_signed self)).
  assert (Ls : length s = length y) by (unfold s; len).
  assert (Hrows : forall row, In row A -> length row = length y).
  { destruct Hrect as [E|Hall]; [rewrite E; intros row []|].
    rewrite Forall_forall in Hall. exact Hall. }
  assert (Hcol : nth i (AbstractMatrixLossFunction.A_t self) []
                 = map (fun row => nth i row 0) A).
  { rewrite Ht. apply nth_transpose. fold A. lia. }
  assert (Hsi : nth i s 0 * nth i s 0 = 1).
  { unfold s. rewrite Hys, nth_signed by exact Hi.
    apply signed_label_square; assumption. }
  destruct (matrix_loss_value self (length y) y_pred Hshape Ly Lw Lt Lp)
    as (_ & _ & Eh).
  eexists. split; [exact Eh|].
  fold s. fold w. fold A.
  set (f := fun (a : R * list R) (t : R) =>
              nth i (snd a) 0
              * (fst a * exp (- np.dot1 (snd a)
                                (map2 Rmult s (np.set_nth i t y_pred))))).
  set (d := fun a : R * list R =>
              nth i (snd a) 0
              * (fst a * (- (nth i (snd a) 0 * nth i s 0)
                          * exp (- np.dot1 (snd a) (map2 Rmult s y_pred))))).
  exists (fun t => nth i s 0 * np.sum (map (fun a => f a t) (combine w A))). split.
  - intros t.
    destruct (matrix_loss_value self (length y) (np.set_nth i t y_pred)
                Hshape Ly Lw Lt) as (_ & Eg & _);
      [rewrite set_nth_length; exact Lp|].
    eexists. split; [exact Eg|].
    fold s. fold w. fold A.
    rewrite (nth_map2 Rmult _ _ i 0 0 0) by (rewrite ?dot_length; congruence).
    unfold np.dot.
    rewrite (nth_map_in _ (AbstractMatrixLossFunction.A_t self) i 0 []) by lia.
    rewrite Hcol.
    rewrite <- (map2_map_r Rmult
                  (fun row => exp (- np.dot1 row
                                     (map2 Rmult s (np.set_nth i t y_pred)))) w A).
    rewrite (column_dot A w _ (fun row => nth i row 0)).
    unfold f. ring.
  - apply (derivable_pt_lim_eq _ _ (nth i s 0 * np.sum (map d (combine w A)))).
    + unfold np.dot. rewrite Hsq.
      rewrite (nth_map_in _ (map (map (fun v => v * v))
                               (AbstractMatrixLossFunction.A_t self)) i 0 [])
        by (rewrite length_map; lia).
      rewrite (nth_map_in (map (fun v => v * v))
                 (AbstractMatrixLossFunction.A_t self) i [] []) by lia.
      rewrite Hcol, map_map.
      rewrite <- (map2_map_r Rmult
                    (fun row => exp (- np.dot1 row (map2 Rmult s y_pred))) w A).
      rewrite (column_dot A w _ (fun row => nth i row 0 * nth i row 0)).
      rewrite (sum_map_scaled (- nth i s 0) d
                 (fun p => nth i (snd p) 0 * nth i (snd p) 0
                           * (fst p * exp (- np.dot1 (snd p) (map2 Rmult s y_pred))))).
      * set (S := np.sum _).
        replace (nth i s 0 * (- nth i s 0 * S))
          with (- ((nth i s 0 * nth i s 0) * S)) by ring.
        rewrite Hsi. ring.
      * intros a. unfold d. ring.
    + apply (derivable_pt_lim_scal
               (fun t => np.sum (map (fun a => f a t) (combine w A)))).
      apply derivable_sum_over. intros [wr row] Hin.
      assert (Lrow : length row = length y_pred).
      { rewrite Lp. apply Hrows. eapply in_combine_r. exact Hin. }
      unfold f, d. simpl.
      apply (derivable_pt_lim_ext
               (mult_real_fct (nth i row 0 * wr)
                  (fun t => exp (- (np.dot1 row (map2 Rmult s y_pred)
                                    + nth i row 0 * nth i s 0
                                      * (t - nth i y_pred 0)))))).
      { intros t. unfold mult_real_fct.
        rewrite (dot1_set_nth row s y_pred i t) by congruence. ring. }
      eapply derivable_pt_lim_eq;
        [|apply derivable_pt_lim_scal; apply derivable_exp_affine].
      replace (nth i y_pred 0 - nth i y_pred 0) with 0 by ring.
      rewrite Rmult_0_r, Rplus_0_r. ring.
Qed.

Lemma matrix_negative_gradient_is_minus_the_loss_derivative_witness :
  exists self g,
    AbstractMatrixLossFunction.fit identity_coupling 5 (frame 1 "x" [0%Z]) [1%Z] [1]
      = Ok self /\
    AbstractMatrixLossFunction.negative_gradient self [0] = Ok g /\
    partial_derivative (AbstractMatrixLossFunction.__call__ self) [0] 0
      (- nth 0 g 0).
Proof.
  eexists.
  destruct (matrix_negative_gradient_is_minus_the_loss_derivative
              identity_coupling 5 (frame 1 "x" [0%Z]) [1%Z] [1] [0] _ 0%nat
              eq_refl eq_refl (Nat.lt_0_succ 0)) as (g & Eg & D).
  exists g. split; [reflexivity|]. split; assumption.
Defined.

Lemma matrix_hessian_is_the_second_derivative_witness :
  exists self h,
    AbstractMatrixLossFunction.fit identity_coupling 5 (frame 1 "x" [0%Z]) [1%Z] [1]
      = Ok self /\
    AbstractMatrixLossFunction.hessian self [0] = Ok h /\
    partial_derivative_of_entry (AbstractMatrixLossFunction.negative_gradient self)
      [0] 0 (- nth 0 h 0).
Proof.
  eexists.
  destruct (matrix_hessian_is_the_second_derivative
              identity_coupling 5 (frame 1 "x" [0%Z]) [1%Z] [1] [0] _ 0%nat
              eq_refl (Forall_cons 1%Z (or_intror eq_refl) (Forall_nil _))
              eq_refl (Nat.lt_0_succ 0)) as (h & Eh & D).
  exists h. split; [reflexivity|]. split; assumption.
Defined.
